(** * CONVID24: codec decisions, encoder command lines and progress tracking

    A shallow embedding of [video_converter/converter.py] and of the
    conversion control code and the window's handlers of [convid24.py],
    with the properties the specification states about them and further
    properties read off the code.

    Conventions of the embedding.
    - Python [int] is [Z]; Python [float] is an exact rational [Q]: rounding
      and infinities are not part of the model.  The range of doubles is,
      where the progress parser meets it: an [int] too large for a float
      raises [OverflowError].
    - Python [str] is [string]: the sequence of the characters' code points,
      each below 256.  Of these, the decimal digits are [0] to [9], and the
      white space [int] strips is tab, line feed, vertical tab, form feed,
      carriage return, space, U+0085 and U+00A0.  Characters from U+0100 on
      (among them the digits of other scripts, which [\d] and [int] accept
      as well) have no counterpart here.  [int] is the one of CPython 3.11
      and later: a literal of more than 4300 digits is refused.
    - A value read out of the prober's JSON is a [pyval]; a stream is the
      [dict] the JSON object was loaded into.
    - Effects (callbacks, subprocess control, messages) are recorded as a
      trace of [event]s; a computation ends in a [result]: a value, an
      exception, or still waiting in a pause loop.
    - The outside world is explicit: the paths that exist (compared as
      strings, as on a case-sensitive file system), what the prober and the
      encoder answer for an input file, and the value of the two control
      flags at each read of the conversion thread.
    - The handlers of the window are functions on the state of the window;
      the conversion thread and the handlers are not interleaved: the
      thread sees the flags through their value at each read and the
      selection through the list it finds at each round of its loop, the
      window sees the thread through the calls it schedules. *)

From Stdlib Require Import ZArith QArith Qround Bool List String Ascii Lia Lqa.
From Stdlib Require Import DecimalString Sorted.
Import ListNotations.

Local Open Scope string_scope.
Local Open Scope list_scope.
Local Open Scope Z_scope.

(** * Part I: the program *)

(** ** Python values and strings *)

Module Py.

(** Scalar values a JSON document puts into a stream's fields. *)
Inductive pyval : Type :=
| PNone
| PBool (b : bool)
| PInt (z : Z)
| PStr (s : string).

(** A [dict] with string keys, as [json.loads] builds it. *)
Definition dict : Type := list (string * pyval).

(** [d.get(key)]: [None] (the option) when the key is absent. *)
Fixpoint lookup (d : dict) (key : string) : option pyval :=
  match d with
  | [] => None
  | (k, v) :: d' => if String.eqb k key then Some v else lookup d' key
  end.

(** [d.get(key, default)]. *)
Definition get (d : dict) (key : string) (default : pyval) : pyval :=
  match lookup d key with
  | Some v => v
  | None => default
  end.

(** [v == "literal"]. *)
Definition eq_str (v : pyval) (lit : string) : bool :=
  match v with
  | PStr s => String.eqb s lit
  | _ => false
  end.

(** [v == n] for an integer literal; [True == 1] and [False == 0] hold in
    Python. *)
Definition eq_int (v : pyval) (n : Z) : bool :=
  match v with
  | PInt z => z =? n
  | PBool b => (if b then 1 else 0) =? n
  | _ => false
  end.

(** [v in names] for a list of string literals. *)
Definition in_strs (v : pyval) (names : list string) : bool :=
  existsb (eq_str v) names.

(** Truth value of a scalar. *)
Definition truthy (v : pyval) : bool :=
  match v with
  | PNone => false
  | PBool b => b
  | PInt z => negb (z =? 0)
  | PStr s => negb (String.eqb s "")
  end.

(** [str(z)] for an integer. *)
Definition str_of_Z (z : Z) : string :=
  NilZero.string_of_int (Z.to_int z).

(** [str(v)], as an f-string renders it. *)
Definition str (v : pyval) : string :=
  match v with
  | PNone => "None"
  | PBool true => "True"
  | PBool false => "False"
  | PInt z => str_of_Z z
  | PStr s => s
  end.

Definition is_digit (c : ascii) : bool :=
  let n := nat_of_ascii c in (48 <=? n)%nat && (n <=? 57)%nat.

Definition digit_val (c : ascii) : Z := Z.of_nat (nat_of_ascii c) - 48.

(** White space that [int] strips: tab, line feed, vertical tab, form feed,
    carriage return and space; U+0085 and U+00A0, which [int] turns into
    spaces first.  The separators [\x1c] to [\x1f] are white space for
    [str.isspace] but not for [int]. *)
Definition is_space (c : ascii) : bool :=
  let n := nat_of_ascii c in
  (n =? 32)%nat || ((9 <=? n)%nat && (n <=? 13)%nat)
  || (n =? 133)%nat || (n =? 160)%nat.

(** Value of a run of decimal digits, most significant first. *)
Definition digits_value (ds : list ascii) : Z :=
  fold_left (fun acc c => 10 * acc + digit_val c) ds 0.

Fixpoint lstrip (cs : list ascii) : list ascii :=
  match cs with
  | c :: cs' => if is_space c then lstrip cs' else cs
  | [] => []
  end.

Definition strip (cs : list ascii) : list ascii :=
  rev (lstrip (rev (lstrip cs))).

(** Digits of an integer literal: groups of digits separated by single
    underscores.  [after_digit] tells whether the previous character was a
    digit. *)
Fixpoint literal_digits (after_digit : bool) (cs : list ascii)
  : option (list ascii) :=
  match cs with
  | [] => if after_digit then Some [] else None
  | c :: cs' =>
      if is_digit c then option_map (cons c) (literal_digits true cs')
      else if Ascii.eqb c "_" then
        if after_digit then literal_digits false cs' else None
      else None
  end.

(** [sys.int_info.default_max_str_digits]. *)
Definition max_str_digits : nat := 4300.

(** [int(s)] for a string: [None] stands for [ValueError], which is also
    raised for a literal of more than [max_str_digits] digits. *)
Definition int_of_str (s : string) : option Z :=
  let cs := strip (list_ascii_of_string s) in
  let '(neg, body) :=
    match cs with
    | "-"%char :: r => (true, r)
    | "+"%char :: r => (false, r)
    | _ => (false, cs)
    end in
  match literal_digits false body with
  | Some ds =>
      if (List.length ds <=? max_str_digits)%nat
      then Some (if neg then - digits_value ds else digits_value ds)
      else None
  | None => None
  end.

(** [int(x)] for a float: truncation toward zero. *)
Definition int_of_float (q : Q) : Z := Z.quot (Qnum q) (Zpos (Qden q)).

End Py.

(** ** Bitrate normalizer: [equivalent_aac_bitrate] *)

Module Bitrate.
Import Py.

Definition EFFICIENT_CODECS : list string := ["aac"; "opus"; "vorbis"].
Definition LEGACY_LOSSY_CODECS : list string :=
  ["mp3"; "wma"; "wma2"; "ac3"; "eac3"; "dts"; "atrac3"].
Definition LOSSLESS_CODECS : list string :=
  ["flac"; "alac"; "pcm_s16le"; "pcm_s24le"; "pcm_s32le"; "mlp"].

(** The [if]/[elif] chain choosing [scale]; [0.8] and [1.5] are the decimal
    fractions they are written as. *)
Definition scale_of (codec : pyval) : Q :=
  if in_strs codec EFFICIENT_CODECS then 1%Q
  else if in_strs codec LEGACY_LOSSY_CODECS then (8 # 10)%Q
  else if in_strs codec LOSSLESS_CODECS then (15 # 10)%Q
  else 1%Q.

(** [not bitrate or bitrate <= 0]; [None] is a missing bitrate. *)
Definition no_bitrate (bitrate : option Z) : bool :=
  match bitrate with
  | None => true
  | Some b => (b =? 0) || (b <=? 0)
  end.

(** [equivalent_aac_bitrate(codec, bitrate, channels)].  The product
    [bitrate * scale] is a float: the value given here is the one the
    function returns for a bitrate whose product a float holds; for a
    larger one it raises [OverflowError], which is left out. *)
Definition equivalent_aac_bitrate
    (codec : pyval) (bitrate : option Z) (channels : pyval) : Z :=
  if no_bitrate bitrate then
    if eq_int channels 1 then 128000
    else if eq_int channels 2 then 320000
    else 512000
  else
    let b := match bitrate with Some b => b | None => 0 end in
    let scale := scale_of codec in
    let target := int_of_float (inject_Z b * scale) in
    if eq_int channels 1 then Z.min (Z.max 32000 target) 128000
    else if eq_int channels 2 then Z.min (Z.max 64000 target) 320000
    else Z.min (Z.max 192000 target) 512000.

(** *** The policy as section 4.2 of the specification words it

    Nothing below reads a definition of the program: codec names are
    strings, channel counts integers, and the families are written out. *)

(** Mono, stereo, or anything else. *)
Inductive layout : Type := Mono | Stereo | Multi.

Definition layout_of (channel_count : Z) : layout :=
  if channel_count =? 1 then Mono
  else if channel_count =? 2 then Stereo
  else Multi.

Definition spec_default (l : layout) : Z :=
  match l with Mono => 128000 | Stereo => 320000 | Multi => 512000 end.

Definition spec_bounds (l : layout) : Z * Z :=
  match l with
  | Mono => (32000, 128000)
  | Stereo => (64000, 320000)
  | Multi => (192000, 512000)
  end.

(** The codec families of the policy. *)
Inductive family : Type := Efficient | LegacyLossy | Lossless | Unknown.

(** The families with the lossless set as the specification words it:
    flac, alac, mlp and the PCM variants, whose names all begin with
    [pcm_]. *)
Definition claimed_family (codec : string) : family :=
  if existsb (String.eqb codec) ["aac"; "opus"; "vorbis"] then Efficient
  else if existsb (String.eqb codec)
            ["mp3"; "wma"; "wma2"; "ac3"; "eac3"; "dts"; "atrac3"]
       then LegacyLossy
  else if existsb (String.eqb codec) ["flac"; "alac"; "mlp"]
          || String.prefix "pcm_" codec
       then Lossless
  else Unknown.

(** The families with three PCM variants only: signed little-endian
    samples of 16, 24 and 32 bits. *)
Definition listed_family (codec : string) : family :=
  if existsb (String.eqb codec) ["aac"; "opus"; "vorbis"] then Efficient
  else if existsb (String.eqb codec)
            ["mp3"; "wma"; "wma2"; "ac3"; "eac3"; "dts"; "atrac3"]
       then LegacyLossy
  else if existsb (String.eqb codec)
            ["flac"; "alac"; "mlp"; "pcm_s16le"; "pcm_s24le"; "pcm_s32le"]
       then Lossless
  else Unknown.

Definition spec_scale (f : family) : Q :=
  match f with
  | Efficient => 1%Q
  | LegacyLossy => (4 # 5)%Q
  | Lossless => (3 # 2)%Q
  | Unknown => 1%Q
  end.

(** Clamping [x] into the interval [[lo, hi]]. *)
Definition spec_clamp (bounds : Z * Z) (x : Z) : Z :=
  let '(lo, hi) := bounds in
  if x <? lo then lo else if hi <? x then hi else x.

(** The target of the policy, for a way [family_of] of sorting the codec
    names into families. *)
Definition spec_target_audio_bitrate (family_of : string -> family)
    (codec : string) (bitrate : option Z) (channel_count : Z) : Z :=
  match bitrate with
  | None => spec_default (layout_of channel_count)
  | Some b =>
      if b <=? 0 then spec_default (layout_of channel_count)
      else spec_clamp (spec_bounds (layout_of channel_count))
                      (Qfloor (inject_Z b * spec_scale (family_of codec)))
  end.

(** A bitrate small enough for [bitrate * scale] to be a float: any below
    [10 ^ 300] is. *)
Definition float_sized (bitrate : option Z) : Prop :=
  match bitrate with
  | Some b => b < 10 ^ 300
  | None => True
  end.

End Bitrate.

(** ** Command planner: [build_ffmpeg_command] *)

Module Planner.
Import Py Bitrate.

(** The loop's variables. *)
Record plan_state : Type := mk_plan {
  cmd : list string;
  v_map_idx : Z;
  a_map_idx : Z;
  has_audio : bool
}.

(** [stream.get("codec_type")]: [None] when the key is absent. *)
Definition codec_type (stream : dict) : pyval := get stream "codec_type" PNone.

(** [stream.get("index")]. *)
Definition index (stream : dict) : pyval := get stream "index" PNone.

(** [stream.get("codec_name", "")]. *)
Definition codec_name (stream : dict) : pyval := get stream "codec_name" (PStr "").

(** [stream.get("channels", 2)]. *)
Definition channels (stream : dict) : pyval := get stream "channels" (PInt 2).

(** [x or 0]. *)
Definition or_zero (x : pyval) : pyval := if truthy x then x else PInt 0.

(** [int(stream.get("bit_rate", 0) or 0)], with [ValueError] turned into 0
    by the [except] clause.  [None] is falsy, so it never reaches [int]. *)
Definition bitrate (stream : dict) : Z :=
  match or_zero (get stream "bit_rate" (PInt 0)) with
  | PInt z => z
  | PBool b => if b then 1 else 0
  | PStr s => match int_of_str s with Some z => z | None => 0 end
  | PNone => 0
  end.

Definition is_video (stream : dict) : bool := eq_str (codec_type stream) "video".
Definition is_audio (stream : dict) : bool :=
  negb (is_video stream) && eq_str (codec_type stream) "audio".

(** One iteration of [for stream in streams]. *)
Definition step (crf : Z) (preset : string) (st : plan_state) (stream : dict)
  : plan_state :=
  let stype := codec_type stream in
  let idx := index stream in
  if eq_str stype "video" then
    let codec := codec_name stream in
    let cmd1 := cmd st ++ ["-map"; ("0:" ++ str idx)%string] in
    let cmd2 :=
      if eq_str codec "h264" then
        cmd1 ++ [("-c:v:" ++ str_of_Z (v_map_idx st))%string; "copy"]
      else
        cmd1 ++ [("-c:v:" ++ str_of_Z (v_map_idx st))%string; "libx264";
                 "-crf"; str_of_Z crf; "-preset"; preset] in
    mk_plan cmd2 (v_map_idx st + 1) (a_map_idx st) (has_audio st)
  else if eq_str stype "audio" then
    let chans := channels stream in
    let codec := codec_name stream in
    let rate := bitrate stream in
    let target_bitrate := equivalent_aac_bitrate codec (Some rate) chans in
    let cmd1 := cmd st ++ ["-map"; ("0:" ++ str idx)%string] in
    let cmd2 :=
      if eq_str codec "aac" && (target_bitrate <=? rate) then
        cmd1 ++ [("-c:a:" ++ str_of_Z (a_map_idx st))%string; "copy"]
      else
        cmd1 ++ [("-c:a:" ++ str_of_Z (a_map_idx st))%string; "aac";
                 "-profile:a"; "aac_low";
                 ("-b:a:" ++ str_of_Z (a_map_idx st))%string; str_of_Z target_bitrate] in
    mk_plan cmd2 (v_map_idx st) (a_map_idx st + 1) true
  else st.

(** State after the loop over the probed streams. *)
Definition plan (streams : list dict) (input_file : string)
    (crf : Z) (preset : string) : plan_state :=
  fold_left (step crf preset) streams
            (mk_plan ["ffmpeg"; "-y"; "-i"; input_file] 0 0 false).

(** The command [build_ffmpeg_command] returns; [streams] is what
    [get_streams(input_file)] delivered. *)
Definition build_ffmpeg_command (streams : list dict)
    (input_file output_file : string) (crf : Z) (preset : string)
  : list string :=
  cmd (plan streams input_file crf preset)
  ++ ["-movflags"; "+faststart"; output_file].

(** Whether the video-only notice is printed. *)
Definition warns_video_only (streams : list dict) (input_file : string)
    (crf : Z) (preset : string) : bool :=
  negb (has_audio (plan streams input_file crf preset)).

Definition default_crf : Z := 18.
Definition default_preset : string := "slow".

(** *** The layout of the command, stream by stream *)

(** Number of streams of one type in a list. *)
Definition count_video (l : list dict) : Z :=
  Z.of_nat (List.length (filter is_video l)).
Definition count_audio (l : list dict) : Z :=
  Z.of_nat (List.length (filter is_audio l)).

(** Codec arguments of a video stream. *)
Definition video_codec_args (crf : Z) (preset : string) (s : dict)
  : list string :=
  if eq_str (codec_name s) "h264" then ["copy"]
  else ["libx264"; "-crf"; str_of_Z crf; "-preset"; preset].

(** Codec arguments of an audio stream with output index [k]. *)
Definition audio_codec_args (k : Z) (s : dict) : list string :=
  let target := equivalent_aac_bitrate (codec_name s) (Some (bitrate s)) (channels s) in
  if eq_str (codec_name s) "aac" && (target <=? bitrate s) then ["copy"]
  else ["aac"; "-profile:a"; "aac_low"; ("-b:a:" ++ str_of_Z k)%string; str_of_Z target].

(** Arguments contributed by stream [s] when the streams [before] precede
    it in the source. *)
Definition stream_args (crf : Z) (preset : string) (before : list dict)
    (s : dict) : list string :=
  if is_video s then
    ["-map"; ("0:" ++ str (index s))%string;
     ("-c:v:" ++ str_of_Z (count_video before))%string]
    ++ video_codec_args crf preset s
  else if is_audio s then
    ["-map"; ("0:" ++ str (index s))%string;
     ("-c:a:" ++ str_of_Z (count_audio before))%string]
    ++ audio_codec_args (count_audio before) s
  else [].

(** Contributions of the streams [l], in order, [before] preceding them. *)
Fixpoint contributions (crf : Z) (preset : string) (before l : list dict)
  : list (list string) :=
  match l with
  | [] => []
  | s :: l' =>
      stream_args crf preset before s
      :: contributions crf preset (before ++ [s]) l'
  end.

End Planner.

(** ** The two regular expressions of the progress parser

    [re.search] is modelled for the fragment the source uses: literal
    characters, [.] (any character but a line feed) and the capturing group
    [(\d+)], matched greedily with backtracking, leftmost match first. *)

Module Regex.
Import Py.

Inductive atom : Type :=
| Chr (c : ascii)      (* a literal character *)
| AnyChar              (* [.] *)
| Digits.              (* [(\d+)] *)

Definition pattern : Type := list atom.

Definition lit (s : string) : pattern := map Chr (list_ascii_of_string s).

(** Length of the longest run of digits at the head of the subject. *)
Fixpoint digit_run (s : list ascii) : nat :=
  match s with
  | c :: s' => if is_digit c then S (digit_run s') else O
  | [] => O
  end.

(** A greedy [\d+]: the longest run first, then shorter ones, until the
    rest of the pattern, [k], matches what follows. *)
Fixpoint greedy (k : list ascii -> option (list (list ascii)))
    (s : list ascii) (n : nat) : option (list (list ascii)) :=
  match n with
  | O => None
  | S n' =>
      match k (skipn n s) with
      | Some groups => Some (firstn n s :: groups)
      | None => greedy k s n'
      end
  end.

(** Match of the whole pattern at the head of the subject: the captured
    groups, in order. *)
Fixpoint match_here (p : pattern) (s : list ascii)
  : option (list (list ascii)) :=
  match p with
  | [] => Some []
  | Chr c :: p' =>
      match s with
      | x :: s' => if Ascii.eqb x c then match_here p' s' else None
      | [] => None
      end
  | AnyChar :: p' =>
      match s with
      | x :: s' => if Ascii.eqb x "010" then None else match_here p' s'
      | [] => None
      end
  | Digits :: p' => greedy (match_here p') s (digit_run s)
  end.

(** [re.search]: the match at the leftmost position that has one. *)
Fixpoint search_from (p : pattern) (s : list ascii)
  : option (list (list ascii)) :=
  match match_here p s with
  | Some groups => Some groups
  | None =>
      match s with
      | [] => None
      | _ :: s' => search_from p s'
      end
  end.

Definition search (p : pattern) (line : string) : option (list (list ascii)) :=
  search_from p (list_ascii_of_string line).

(** [needle in line]. *)
Fixpoint prefix_of (needle s : list ascii) : bool :=
  match needle, s with
  | [], _ => true
  | c :: needle', x :: s' => Ascii.eqb x c && prefix_of needle' s'
  | _ :: _, [] => false
  end.

Fixpoint contains_from (needle s : list ascii) : bool :=
  prefix_of needle s
  || match s with
     | [] => false
     | _ :: s' => contains_from needle s'
     end.

Definition contains (needle line : string) : bool :=
  contains_from (list_ascii_of_string needle) (list_ascii_of_string line).

(** [hh:mm:ss?hh] after a literal prefix, with [sep] for the character
    before the hundredths. *)
Definition clock_pattern (prefix : string) (sep : atom) : pattern :=
  lit prefix ++ [Digits; Chr ":"; Digits; Chr ":"; Digits; sep; Digits].

(** [r"Duration: (\d+):(\d+):(\d+).(\d+)"] and
    [r"time=(\d+):(\d+):(\d+).(\d+)"] of [converter.py]: the dot is not
    escaped. *)
Definition duration_re : pattern := clock_pattern "Duration: " AnyChar.
Definition time_re : pattern := clock_pattern "time=" AnyChar.

(** [r"Duration: (\d+):(\d+):(\d+)\.(\d+)"] and
    [r"time=(\d+):(\d+):(\d+)\.(\d+)"] of [convid24.py]. *)
Definition duration_re_gui : pattern := clock_pattern "Duration: " (Chr ".").
Definition time_re_gui : pattern := clock_pattern "time=" (Chr ".").

End Regex.

(** ** Effects: traces, exceptions and the control flags *)

Module Effects.

(** The exceptions the modelled code can meet. *)
Inductive exn : Type :=
| ValueError
| ZeroDivisionError
| OverflowError
| AttributeError
| OSError
| RecursionError
| UnicodeDecodeError.

(** What a run does to its surroundings, in program order. *)
Inductive event : Type :=
| Print (msg : string)
| PrintError (file_path : string) (e : exn)
                                     (* [print(f"Error converting {file_path}: {e}")] *)
| Popen (cmd : list string)          (* the encoder is started *)
| Terminate                          (* [process.terminate()] *)
| Wait                               (* [process.wait()] *)
| Progress (percent : Q)             (* a recording callback was called *)
| Sleep                              (* [time.sleep(0.5)] *)
| SawCancelled (b : bool)            (* a read of [conversion_cancelled] *)
| Status (text : string)             (* the status label is set *)
| FileProgress (file : string) (percent : Q)   (* [update_file_progress] *)
| OverallProgress (percent : Q)      (* [update_overall_progress] *)
| ShowInfo (text : string)           (* the completion dialog *)
| ResetButtons.                      (* the three buttons are reset *)

(** How a computation ends: normally, by an exception, or still waiting in
    a pause loop when the observation ends. *)
Inductive result (A : Type) : Type :=
| Ok (a : A)
| Raise (e : exn)
| Blocked.
Arguments Ok {A} a.
Arguments Raise {A} e.
Arguments Blocked {A}.

(** The control flags as the conversion thread sees them.  The window's
    thread writes them, the conversion thread only reads them: the record
    gives the value of each flag at the conversion thread's n-th read of a
    flag. *)
Record controls : Type := mk_controls {
  cancelled_at : nat -> bool;
  paused_at : nat -> bool
}.

(** What a computation reads and changes: how many times the flags were
    read so far, and the paths that exist (regular files, directories). *)
Record world : Type := mk_world {
  reads : nat;
  files : list string;
  dirs : list string
}.

(** A computation: the events it causes, the world it leaves, its result. *)
Definition M (A : Type) : Type := world -> list event * world * result A.

Definition ret {A : Type} (a : A) : M A := fun w => ([], w, Ok a).

Definition bind {A B : Type} (m : M A) (f : A -> M B) : M B :=
  fun w =>
    let '(t1, w1, r) := m w in
    match r with
    | Ok a => let '(t2, w2, r2) := f a w1 in (t1 ++ t2, w2, r2)
    | Raise e => (t1, w1, Raise e)
    | Blocked => (t1, w1, Blocked)
    end.

Definition emit (e : event) : M unit := fun w => ([e], w, Ok tt).

Definition raise {A : Type} (e : exn) : M A := fun w => ([], w, Raise e).

Definition blocked {A : Type} : M A := fun w => ([], w, Blocked).

(** A pure result as a computation. *)
Definition lift {A : Type} (r : result A) : M A := fun w => ([], w, r).

(** [try: m  except Exception: handler]. *)
Definition try_except {A : Type} (m : M A) (handler : exn -> M A) : M A :=
  fun w =>
    let '(t1, w1, r) := m w in
    match r with
    | Raise e => let '(t2, w2, r2) := handler e w1 in (t1 ++ t2, w2, r2)
    | _ => (t1, w1, r)
    end.

Definition tick (w : world) : world := mk_world (S (reads w)) (files w) (dirs w).

(** A read of [self.conversion_cancelled]. *)
Definition read_cancelled (ctl : controls) : M bool :=
  fun w =>
    let b := cancelled_at ctl (reads w) in ([SawCancelled b], tick w, Ok b).

(** A read of [self.conversion_paused]. *)
Definition read_paused (ctl : controls) : M bool :=
  fun w => ([], tick w, Ok (paused_at ctl (reads w))).

Definition mem (p : string) (l : list string) : bool := existsb (String.eqb p) l.

(** [Path(p).exists()]. *)
Definition path_exists (p : string) : M bool :=
  fun w => ([], w, Ok (mem p (files w) || mem p (dirs w))).

(** [Path(p).is_file()]. *)
Definition path_is_file (p : string) : M bool :=
  fun w => ([], w, Ok (mem p (files w))).

(** The encoder leaves a file at [p]. *)
Definition create_file (p : string) : M unit :=
  fun w =>
    ([], (if mem p (files w) then w else mk_world (reads w) (p :: files w) (dirs w)),
     Ok tt).

Definition trace_of {A : Type} (x : list event * world * result A) : list event :=
  fst (fst x).
Definition world_of {A : Type} (x : list event * world * result A) : world :=
  snd (fst x).
Definition result_of {A : Type} (x : list event * world * result A) : result A :=
  snd x.

(** A callback that records the value it is given. *)
Definition recorder : Q -> M unit := fun percent => emit (Progress percent).

(** The values given to the recording callback. *)
Fixpoint reported (t : list event) : list Q :=
  match t with
  | [] => []
  | Progress p :: t' => p :: reported t'
  | _ :: t' => reported t'
  end.

End Effects.

Declare Scope py_scope.
Notation "x <- m ;; k" := (Effects.bind m (fun x => k))
  (at level 61, m at next level, right associativity) : py_scope.
Notation "m ;; k" := (Effects.bind m (fun _ => k))
  (at level 61, right associativity) : py_scope.

(** ** Progress parser: the body of the loop over the encoder's lines *)

Module Parser.
Import Py Regex Effects.

(** [int(group)] for each captured group. *)
Fixpoint ints (groups : list (list ascii)) : result (list Z) :=
  match groups with
  | [] => Ok []
  | g :: groups' =>
      match int_of_str (string_of_list_ascii g) with
      | None => Raise ValueError
      | Some z =>
          match ints groups' with
          | Ok zs => Ok (z :: zs)
          | Raise e => Raise e
          | Blocked => Blocked
          end
      end
  end.

(** The least integer that is too large for a float: half-way between the
    largest double, [2 ^ 1024 - 2 ^ 971], and [2 ^ 1024]. *)
Definition float_limit : Z := 2 ^ 1024 - 2 ^ 970.

(** An [int] as an operand of float arithmetic; its value is kept exact. *)
Definition float_of_int (z : Z) : result Q :=
  if Z.abs z <? float_limit then Ok (inject_Z z) else Raise OverflowError.

(** [a / b] for two [int]s, [b] positive: the quotient has to fit a float. *)
Definition int_truediv (a : Z) (b : positive) : result Q :=
  if Z.abs a <? float_limit * Zpos b then Ok (a # b) else Raise OverflowError.

(** [h * 3600 + m * 60 + s + ms / 100] of [converter.py]: the quotient of
    two [int]s, then the sum of an [int] and a float. *)
Definition seconds (h m s ms : Z) : result Q :=
  match int_truediv ms 100 with
  | Ok hundredths =>
      match float_of_int (h * 3600 + m * 60 + s) with
      | Ok whole => Ok (whole + hundredths)%Q
      | Raise e => Raise e
      | Blocked => Blocked
      end
  | Raise e => Raise e
  | Blocked => Blocked
  end.

(** [h * 3600 + m * 60 + s + ms / 100.0] of [convid24.py]: [ms] itself is
    made a float before it is divided. *)
Definition seconds_gui (h m s ms : Z) : result Q :=
  match float_of_int ms with
  | Ok _ =>
      match float_of_int (h * 3600 + m * 60 + s) with
      | Ok whole => Ok (whole + (ms # 100))%Q
      | Raise e => Raise e
      | Blocked => Blocked
      end
  | Raise e => Raise e
  | Blocked => Blocked
  end.

(** [h, m, s, ms = map(int, match.groups())] and the sum; a tuple of another
    length cannot be unpacked. *)
Definition clock_value_by (sum : Z -> Z -> Z -> Z -> result Q)
    (groups : list (list ascii)) : result Q :=
  match ints groups with
  | Ok [h; m; s; ms] => sum h m s ms
  | Ok _ => Raise ValueError
  | Raise e => Raise e
  | Blocked => Blocked
  end.

Definition clock_value : list (list ascii) -> result Q := clock_value_by seconds.
Definition clock_value_gui : list (list ascii) -> result Q :=
  clock_value_by seconds_gui.

(** [x / y] on floats. *)
Definition truediv (x y : Q) : result Q :=
  if Qeq_bool y 0 then Raise ZeroDivisionError else Ok (x / y)%Q.

(** [min(x, y)]: [y] only when [y < x]. *)
Definition py_min (x y : Q) : Q := if Qle_bool x y then x else y.

(** [min(elapsed / duration * 100, 100)]. *)
Definition percent_of (elapsed duration : Q) : result Q :=
  match truediv elapsed duration with
  | Ok ratio => Ok (py_min (ratio * 100) 100)
  | Raise e => Raise e
  | Blocked => Blocked
  end.

(** [duration is None]. *)
Definition is_None (duration : option Q) : bool :=
  match duration with None => true | Some _ => false end.

(** Truth value of [duration]: known and not zero. *)
Definition known (duration : option Q) : bool :=
  match duration with None => false | Some d => negb (Qeq_bool d 0) end.

(** One line: the new value of [duration] and the percentage to report, if
    any.  [value], [dur_re] and [tm_re] are the sum and the two expressions
    of the caller. *)
Definition on_line (value : list (list ascii) -> result Q)
    (dur_re tm_re : pattern) (duration : option Q)
    (line : string) : result (option Q * option Q) :=
  if contains "Duration" line && is_None duration then
    match search dur_re line with
    | Some groups =>
        match value groups with
        | Ok d => Ok (Some d, None)
        | Raise e => Raise e
        | Blocked => Blocked
        end
    | None => Ok (duration, None)
    end
  else if contains "time=" line && known duration then
    match search tm_re line with
    | Some groups =>
        match value groups with
        | Ok elapsed =>
            match percent_of elapsed
                    (match duration with Some d => d | None => 0 end) with
            | Ok percent => Ok (duration, Some percent)
            | Raise e => Raise e
            | Blocked => Blocked
            end
        | Raise e => Raise e
        | Blocked => Blocked
        end
    | None => Ok (duration, None)
    end
  else Ok (duration, None).

(** The parser fed a sequence of lines: the percentages it reports, in
    order, and how it ends: with the final [duration], or with the
    exception of the line it could not take. *)
Fixpoint feed (value : list (list ascii) -> result Q)
    (dur_re tm_re : pattern) (duration : option Q)
    (lines : list string) : list Q * result (option Q) :=
  match lines with
  | [] => ([], Ok duration)
  | line :: rest =>
      match on_line value dur_re tm_re duration line with
      | Ok (duration', emitted) =>
          let '(ps, ending) := feed value dur_re tm_re duration' rest in
          (match emitted with Some p => p :: ps | None => ps end, ending)
      | Raise e => ([], Raise e)
      | Blocked => ([], Blocked)
      end
  end.

(** The time stamps of the lines that match the time expression, in order. *)
Fixpoint time_stamps (tm_re : pattern) (lines : list string) : list Q :=
  match lines with
  | [] => []
  | line :: rest =>
      match search tm_re line with
      | Some groups =>
          match clock_value groups with
          | Ok elapsed => elapsed :: time_stamps tm_re rest
          | _ => time_stamps tm_re rest
          end
      | None => time_stamps tm_re rest
      end
  end.

(** The percentage of a time stamp. *)
Definition pct (duration elapsed : Q) : Q :=
  py_min (elapsed / duration * 100) 100.

End Parser.

(** ** Paths: the parts of [pathlib] the converter uses

    A path is its string; its name is what follows the last slash. *)

Module Paths.
Import Py Effects.

Fixpoint take_while {A : Type} (f : A -> bool) (l : list A) : list A :=
  match l with
  | a :: l' => if f a then a :: take_while f l' else []
  | [] => []
  end.

Fixpoint drop_while {A : Type} (f : A -> bool) (l : list A) : list A :=
  match l with
  | a :: l' => if f a then drop_while f l' else l
  | [] => []
  end.

Definition not_slash (c : ascii) : bool := negb (Ascii.eqb c "/").
Definition not_dot (c : ascii) : bool := negb (Ascii.eqb c ".").

(** [PurePath.name] and what precedes it (with its final slash). *)
Definition name (p : list ascii) : list ascii :=
  rev (take_while not_slash (rev p)).
Definition parent_part (p : list ascii) : list ascii :=
  rev (drop_while not_slash (rev p)).

(** The name cut at its last dot, [i = name.rfind('.')], when
    [0 < i < len(name) - 1]; otherwise the suffix is empty. *)
Definition split_suffix (n : list ascii) : list ascii * list ascii :=
  let after := take_while not_dot (rev n) in
  match drop_while not_dot (rev n) with
  | [] => (n, [])
  | dot :: stem_rev =>
      match stem_rev, after with
      | [], _ => (n, [])
      | _, [] => (n, [])
      | _, _ => (rev stem_rev, dot :: rev after)
      end
  end.

(** [PurePath.suffix]. *)
Definition suffix (p : string) : string :=
  string_of_list_ascii (snd (split_suffix (name (list_ascii_of_string p)))).

(** [PurePath.with_suffix(new)] for a well-formed [new]; a path with an
    empty name raises [ValueError]. *)
Definition with_suffix (p new : string) : result string :=
  let cs := list_ascii_of_string p in
  match name cs with
  | [] => Raise ValueError
  | n =>
      Ok (string_of_list_ascii
            (parent_part cs ++ fst (split_suffix n) ++ list_ascii_of_string new))
  end.

(** [str.lower] on one character: the letters [A] to [Z], and the capital
    letters U+00C0 to U+00DE (the multiplication sign U+00D7 is none). *)
Definition lower_char (c : ascii) : ascii :=
  let n := nat_of_ascii c in
  if (65 <=? n)%nat && (n <=? 90)%nat then ascii_of_nat (n + 32)
  else if (192 <=? n)%nat && (n <=? 222)%nat && negb (n =? 215)%nat
       then ascii_of_nat (n + 32)
  else c.

Definition lower (s : string) : string :=
  string_of_list_ascii (map lower_char (list_ascii_of_string s)).

Definition VIDEO_EXTENSIONS : list string :=
  [".mov"; ".avi"; ".mkv"; ".mpg"; ".mp4"; ".wmv"; ".flv"; ".webm";
   ".vob"; ".m4v"; ".ts"; ".m2ts"; ".rm"; ".rmvb"; ".ogv"].

(** [f.suffix.lower() in VIDEO_EXTENSIONS]. *)
Definition supported (p : string) : bool := mem (lower (suffix p)) VIDEO_EXTENSIONS.

End Paths.

(** ** Conversion of one file and of a folder: [convert_file], [batch_convert] *)

Module Converter.
Import Py Regex Effects Parser Planner Paths.
Local Open Scope py_scope.

(** What the outside world answers for one input file: the streams
    [get_streams] returns for it (a list of objects with scalar fields),
    whether the encoder can be started, the lines read from its diagnostic
    stream, its exit status, and whether it leaves an output file.

    A prober that cannot be run or whose output [build_ffmpeg_command]
    cannot read, and a diagnostic stream that cannot be decoded, are not
    among the answers: in the program either ends [convert_file] by an
    exception, the first before the encoder is started, the second in the
    loop over the lines.  The output file is taken to appear when the
    encoder is waited for: a call that an exception takes out of the loop
    over the lines leaves the files as they were. *)
Record media : Type := mk_media {
  streams : list dict;
  popen_fails : bool;
  stderr_lines : list string;
  returncode : Z;
  writes_output : bool
}.

Definition environment : Type := string -> media.

(** [subprocess.Popen(cmd, ...)]. *)
Definition popen (m : media) (command : list string) : M unit :=
  if popen_fails m then raise OSError else emit (Popen command).

(** [process.wait()]. *)
Definition wait (m : media) (output_file : string) : M unit :=
  emit Wait ;;
  if writes_output m then create_file output_file else ret tt.

(** [for line in process.stderr: ...] of [convert_file]. *)
Fixpoint progress_loop (callback : Q -> M unit)
    (lines : list string) (duration : option Q) : M unit :=
  match lines with
  | [] => ret tt
  | line :: rest =>
      match on_line clock_value duration_re time_re duration line with
      | Ok (duration', Some percent) =>
          callback percent ;;
          progress_loop callback rest duration'
      | Ok (duration', None) =>
          progress_loop callback rest duration'
      | Raise e => raise e
      | Blocked => blocked
      end
  end.

Definition skip_message (input_file : string) : string :=
  ("Skipping " ++ input_file ++ ", output already exists.")%string.

Definition failed_message (input_file : string) : string :=
  ("FFmpeg failed for " ++ input_file)%string.

Definition video_only_message (input_file : string) : string :=
  ("No audio streams found in " ++ input_file
   ++ "; output will be video-only")%string.

(** [cmd = build_ffmpeg_command(input_file, output_file)], with its
    notice. *)
Definition build (m : media) (input_file output_file : string)
  : M (list string) :=
  (if warns_video_only (streams m) input_file default_crf default_preset
   then emit (Print (video_only_message input_file)) else ret tt) ;;
  ret (build_ffmpeg_command (streams m) input_file output_file
                            default_crf default_preset).

(** [convert_file]; [input_file] and [output_file] are the two paths after
    [Path(...)], written as [str] prints them. *)
Definition convert_file (env : environment) (input_file output_file : string)
    (progress_callback : option (Q -> M unit)) : M unit :=
  present <- path_exists output_file ;;
  if present then emit (Print (skip_message input_file))
  else
    let m := env input_file in
    command <- build m input_file output_file ;;
    popen m command ;;
    match progress_callback with
    | Some callback => progress_loop callback (stderr_lines m) None
    | None => ret tt
    end ;;
    wait m output_file ;;
    if negb (returncode m =? 0) then emit (Print (failed_message input_file))
    else
      match progress_callback with
      | Some callback => callback 100%Q
      | None => ret tt
      end.

(** [(done + percent / 100) / total_files * 100]. *)
Definition overall_of (done : Z) (percent : Q) (total_files : Z) : result Q :=
  match truediv (inject_Z done + percent / 100) (inject_Z total_files) with
  | Ok share => Ok (share * 100)%Q
  | Raise e => Raise e
  | Blocked => Blocked
  end.

(** The closure [file_progress] of [batch_convert]. *)
Definition file_progress (progress_callback : option (Q -> M unit))
    (i total_files : Z) : Q -> M unit :=
  fun percent =>
    match progress_callback with
    | Some callback =>
        overall <- lift (overall_of (i - 1) percent total_files) ;;
        callback overall
    | None => ret tt
    end.

(** [for i, file in enumerate(files, start=1): ...], from index [i] on. *)
Fixpoint batch_loop (env : environment)
    (progress_callback : option (Q -> M unit)) (total_files i : Z)
    (todo : list string) : M unit :=
  match todo with
  | [] => ret tt
  | file :: rest =>
      output_file <- lift (with_suffix file ".mp4") ;;
      convert_file env file output_file
                   (Some (file_progress progress_callback i total_files)) ;;
      batch_loop env progress_callback total_files (i + 1) rest
  end.

(** The files [batch_convert] selects out of [folder.rglob("*")]. *)
Definition candidates (listing : list string) : M (list string) :=
  fun w => ([], w, Ok (filter (fun f => mem f (files w) && supported f) listing)).

(** [batch_convert]; [listing] is what [folder.rglob("*")] enumerates. *)
Definition batch_convert (env : environment) (listing : list string)
    (progress_callback : option (Q -> M unit)) : M unit :=
  todo <- candidates listing ;;
  batch_loop env progress_callback (Z.of_nat (List.length todo)) 1 todo.

(** The percentages the parser derives from the encoder's lines, up to the
    line it cannot take, if there is one. *)
Definition percentages (m : media) : list Q :=
  fst (feed clock_value duration_re time_re None (stderr_lines m)).

(** The exception that ends the loop over the lines, if one does. *)
Definition parser_error (m : media) : option exn :=
  match snd (feed clock_value duration_re time_re None (stderr_lines m)) with
  | Raise e => Some e
  | _ => None
  end.

(** [(done + percent / 100) / total_files * 100] as a number. *)
Definition overall_value (done total_files : Z) (percent : Q) : Q :=
  ((inject_Z done + percent / 100) / inject_Z total_files * 100)%Q.

(** What the overall callback is expected to receive: for the file at index
    [i], the values that file reports on its own, each combined with the
    [i - 1] files before it. *)
Fixpoint expected_overall (env : environment) (total_files i : Z)
    (todo : list string) (w : world) : list Q :=
  match todo with
  | [] => []
  | file :: rest =>
      match with_suffix file ".mp4" with
      | Ok output_file =>
          let x := convert_file env file output_file (Some recorder) w in
          map (overall_value (i - 1) total_files) (reported (trace_of x))
          ++ match result_of x with
             | Ok _ => expected_overall env total_files (i + 1) rest (world_of x)
             | _ => []
             end
      | _ => []
      end
  end.

(** The commands of the encoders a trace starts. *)
Fixpoint started (t : list event) : list (list string) :=
  match t with
  | [] => []
  | Popen command :: t' => command :: started t'
  | _ :: t' => started t'
  end.

End Converter.

(** ** The conversion thread of the window: [convert_file_with_control] and
    [process_conversion]

    A call scheduled with [master.after(0, ...)] is recorded when it is
    scheduled. *)

Module Gui.
Import Py Regex Effects Parser Planner Paths Converter.
Local Open Scope py_scope.

(** [while self.conversion_paused and not self.conversion_cancelled:
    time.sleep(0.5)]; [patience] bounds the number of sleeps observed. *)
Fixpoint pause_loop (ctl : controls) (patience : nat) : M unit :=
  paused <- read_paused ctl ;;
  if paused then
    cancelled <- read_cancelled ctl ;;
    if negb cancelled then
      match patience with
      | O => blocked
      | S patience' => emit Sleep ;; pause_loop ctl patience'
      end
    else ret tt
  else ret tt.

(** [for line in process.stderr: ...] of [convert_file_with_control]. *)
Fixpoint control_loop (ctl : controls) (patience : nat)
    (callback : Q -> M unit) (lines : list string) (duration : option Q)
  : M unit :=
  match lines with
  | [] => ret tt
  | line :: rest =>
      cancelled <- read_cancelled ctl ;;
      if cancelled then emit Terminate
      else
        pause_loop ctl patience ;;
        cancelled_now <- read_cancelled ctl ;;
        if cancelled_now then emit Terminate
        else
          match on_line clock_value_gui duration_re_gui time_re_gui
                        duration line with
          | Ok (duration', Some percent) =>
              callback percent ;;
              control_loop ctl patience callback rest duration'
          | Ok (duration', None) =>
              control_loop ctl patience callback rest duration'
          | Raise e => raise e
          | Blocked => blocked
          end
  end.

(** The [elif] after [process.wait()]. *)
Definition final_report (ctl : controls)
    (progress_callback : option (Q -> M unit)) : M unit :=
  cancelled <- read_cancelled ctl ;;
  if negb cancelled then
    match progress_callback with
    | Some callback => callback 100%Q
    | None => ret tt
    end
  else ret tt.

Definition convert_file_with_control (ctl : controls) (patience : nat)
    (env : environment) (input_file output_file : string)
    (progress_callback : option (Q -> M unit)) : M unit :=
  present <- path_exists output_file ;;
  if present then emit (Print (skip_message input_file))
  else
    let m := env input_file in
    command <- build m input_file output_file ;;
    popen m command ;;
    match progress_callback with
    | Some callback => control_loop ctl patience callback (stderr_lines m) None
    | None => ret tt
    end ;;
    wait m output_file ;;
    if negb (returncode m =? 0) then
      cancelled <- read_cancelled ctl ;;
      if negb cancelled then emit (Print (failed_message input_file))
      else final_report ctl progress_callback
    else final_report ctl progress_callback.

(** [f"Converting {i}/{total_files}: {n}"]. *)
Definition converting_message (i total_files : Z) (n : string) : string :=
  ("Converting " ++ str_of_Z i ++ "/" ++ str_of_Z total_files ++ ": " ++ n)%string.

Definition path_name (p : string) : string :=
  string_of_list_ascii (name (list_ascii_of_string p)).

(** The closure [progress_callback] of [process_conversion]. *)
Definition progress_callback (ctl : controls) (file_path : string)
    (converted_count total_files : Z) : Q -> M unit :=
  fun percent =>
    cancelled <- read_cancelled ctl ;;
    if cancelled then ret tt
    else
      emit (FileProgress file_path percent) ;;
      overall_percent <- lift (overall_of converted_count percent total_files) ;;
      emit (OverallProgress overall_percent).

(** The [try] statement around one conversion: the new [converted_count]. *)
Definition convert_entry (ctl : controls) (patience : nat) (env : environment)
    (file_path output_file : string) (converted_count total_files : Z) : M Z :=
  try_except
    (convert_file_with_control ctl patience env file_path output_file
       (Some (progress_callback ctl file_path converted_count total_files)) ;;
     cancelled <- read_cancelled ctl ;;
     if negb cancelled then
       emit (FileProgress file_path 100) ;; ret (converted_count + 1)
     else ret converted_count)
    (fun e =>
       cancelled <- read_cancelled ctl ;;
       if negb cancelled then
         emit (PrintError file_path e) ;; ret (converted_count + 1)
       else ret converted_count).

(** [for i, file_path in enumerate(self.selected_files, start=1): ...], from
    index [i] on: the final [converted_count]. *)
Fixpoint process_loop (ctl : controls) (patience : nat) (env : environment)
    (total_files i converted_count : Z) (selected : list string) : M Z :=
  match selected with
  | [] => ret converted_count
  | file_path :: rest =>
      cancelled <- read_cancelled ctl ;;
      if cancelled then ret converted_count
      else
        pause_loop ctl patience ;;
        cancelled_now <- read_cancelled ctl ;;
        if cancelled_now then ret converted_count
        else
          is_file <- path_is_file file_path ;;
          if is_file && supported file_path then
            output_file <- lift (with_suffix file_path ".mp4") ;;
            emit (Status (converting_message i total_files (path_name file_path))) ;;
            converted <- convert_entry ctl patience env file_path output_file
                                       converted_count total_files ;;
            process_loop ctl patience env total_files (i + 1) converted rest
          else
            process_loop ctl patience env total_files (i + 1) converted_count rest
  end.

Definition done_message (converted_count total_files : Z) : string :=
  ("Done! " ++ str_of_Z converted_count ++ "/" ++ str_of_Z total_files
   ++ " files processed.")%string.

Definition summary_message (converted_count total_files : Z) : string :=
  ("Successfully processed " ++ str_of_Z converted_count ++ "/"
   ++ str_of_Z total_files ++ " files.")%string.

Definition process_conversion (ctl : controls) (patience : nat)
    (env : environment) (selected_files : list string) : M unit :=
  let total_files := Z.of_nat (List.length selected_files) in
  converted_count <- process_loop ctl patience env total_files 1 0 selected_files ;;
  cancelled <- read_cancelled ctl ;;
  (if negb cancelled then
     emit (OverallProgress 100) ;;
     emit (Status (done_message converted_count total_files)) ;;
     emit (ShowInfo (summary_message converted_count total_files))
   else ret tt) ;;
  emit ResetButtons.

(** The selection is one list object, which the handlers of the window
    change in place; the [for] statement keeps a position in it and takes,
    at each round, the entry the list has at that position then, or ends
    when the list has none.  [process_loop] and [process_conversion] above
    are the worker over a selection that is left alone while it runs.
    Here [selection k] is the list as it is at the start of round [k]
    (counted from 0), [total_files] is its length when the worker starts,
    and [rounds] bounds the number of rounds observed. *)
Fixpoint process_loop_live (ctl : controls) (patience : nat)
    (env : environment) (selection : nat -> list string) (total_files : Z)
    (rounds k : nat) (converted_count : Z) : M Z :=
  match rounds with
  | O => blocked
  | S rounds' =>
      match nth_error (selection k) k with
      | None => ret converted_count
      | Some file_path =>
          let i := Z.of_nat k + 1 in
          cancelled <- read_cancelled ctl ;;
          if cancelled then ret converted_count
          else
            pause_loop ctl patience ;;
            cancelled_now <- read_cancelled ctl ;;
            if cancelled_now then ret converted_count
            else
              is_file <- path_is_file file_path ;;
              if is_file && supported file_path then
                output_file <- lift (with_suffix file_path ".mp4") ;;
                emit (Status (converting_message i total_files
                                (path_name file_path))) ;;
                converted <- convert_entry ctl patience env file_path
                                           output_file converted_count
                                           total_files ;;
                process_loop_live ctl patience env selection total_files
                                  rounds' (S k) converted
              else
                process_loop_live ctl patience env selection total_files
                                  rounds' (S k) converted_count
      end
  end.

Definition process_conversion_live (ctl : controls) (patience : nat)
    (env : environment) (selection : nat -> list string) (rounds : nat)
  : M unit :=
  let total_files := Z.of_nat (List.length (selection O)) in
  converted_count <- process_loop_live ctl patience env selection total_files
                                       rounds O 0 ;;
  cancelled <- read_cancelled ctl ;;
  (if negb cancelled then
     emit (OverallProgress 100) ;;
     emit (Status (done_message converted_count total_files)) ;;
     emit (ShowInfo (summary_message converted_count total_files))
   else ret tt) ;;
  emit ResetButtons.

(** The worker when nobody pauses or cancels. *)
Definition undisturbed : controls := mk_controls (fun _ => false) (fun _ => false).

(** The values given to [update_overall_progress]. *)
Fixpoint overall_values (t : list event) : list Q :=
  match t with
  | [] => []
  | OverallProgress p :: t' => p :: overall_values t'
  | _ :: t' => overall_values t'
  end.

(** The percentages the parser of the window derives from the lines, up to
    the line it cannot take, and the exception that line raises. *)
Definition percentages_gui (m : media) : list Q :=
  fst (feed clock_value_gui duration_re_gui time_re_gui None (stderr_lines m)).

Definition parser_error_gui (m : media) : option exn :=
  match snd (feed clock_value_gui duration_re_gui time_re_gui None
               (stderr_lines m)) with
  | Raise e => Some e
  | _ => None
  end.

Definition present (p : string) (fs ds : list string) : bool :=
  mem p fs || mem p ds.

(** The percentages of one undisturbed job of the window, given the files
    and directories that exist. *)
Definition gui_job_values (env : environment) (input_file output_file : string)
    (fs ds : list string) : list Q :=
  let m := env input_file in
  if present output_file fs ds then []
  else if popen_fails m then []
  else percentages_gui m
       ++ match parser_error_gui m with
          | Some _ => []
          | None => if returncode m =? 0 then [100%Q] else []
          end.

(** The files that exist after that job: the encoder's output is there once
    the encoder was waited for. *)
Definition files_after (env : environment) (input_file output_file : string)
    (fs ds : list string) : list string :=
  let m := env input_file in
  if present output_file fs ds then fs
  else if popen_fails m then fs
  else match parser_error_gui m with
       | Some _ => fs
       | None =>
           if writes_output m then
             (if mem output_file fs then fs else output_file :: fs)
           else fs
       end.

(** What [update_overall_progress] is expected to receive during the loop:
    for each entry that is converted, its own percentages combined with the
    number of entries converted before it. *)
Fixpoint expected_overall_gui (env : environment)
    (total_files converted_count : Z) (selected : list string)
    (fs ds : list string) : list Q :=
  match selected with
  | [] => []
  | file_path :: rest =>
      if mem file_path fs && supported file_path then
        match with_suffix file_path ".mp4" with
        | Ok output_file =>
            map (overall_value converted_count total_files)
                (gui_job_values env file_path output_file fs ds)
            ++ expected_overall_gui env total_files (converted_count + 1) rest
                 (files_after env file_path output_file fs ds) ds
        | _ => []
        end
      else expected_overall_gui env total_files converted_count rest fs ds
  end.

End Gui.

(** ** Stream prober: [get_streams] *)

Module Prober.
Import Effects.

(** A decoded JSON document, as [json.loads] returns it (numbers with a
    fraction are left out). *)
#[local] Unset Elimination Schemes.
Inductive json : Type :=
| JNull
| JBool (b : bool)
| JNum (z : Z)
| JStr (s : string)
| JArr (items : list json)
| JObj (members : list (string * json)).

(** [d.get(key, default)] on a decoded object. *)
Fixpoint member (members : list (string * json)) (key : string)
    (default : json) : json :=
  match members with
  | [] => default
  | (k, v) :: rest => if String.eqb k key then v else member rest key default
  end.

(** What [json.loads] makes of a text: the decoded document, the
    [JSONDecodeError] it raises for a text that is not JSON, or another
    exception ([RecursionError] for a text nested too deeply, [ValueError]
    for an integer of too many digits). *)
Inductive loaded : Type :=
| Decoded (document : json)
| JSONDecodeError
| Failed (e : exn).

(** [get_streams(file_path)].  [run] is what
    [subprocess.run(cmd, capture_output=True, text=True)] comes to: the
    text the prober wrote to its standard output, or the exception of a
    prober that cannot be started or whose output is not text.
    [loads] is [json.loads].  The [except] clause catches
    [JSONDecodeError] only, and only a [dict] has the method [get]. *)
Definition get_streams (run : result string) (loads : string -> loaded)
  : result json :=
  match run with
  | Ok stdout =>
      match loads stdout with
      | Decoded (JObj members) => Ok (member members "streams" (JArr []))
      | Decoded _ => Raise AttributeError
      | JSONDecodeError => Ok (JArr [])
      | Failed e => Raise e
      end
  | Raise e => Raise e
  | Blocked => Blocked
  end.

End Prober.

(** ** The window's own state: the selection and the handlers of its
    buttons

    The handlers run in the window's thread.  What they read from outside
    is a parameter: the answer of a dialog, the listing of a folder, the
    files that exist, whether the conversion thread is alive, whether an
    encoder process is recorded.  Of the widgets only those the handlers
    read back or change later are part of the state: the objects kept in
    the four tracking dictionaries, the three control buttons, the status
    label and the overall progress display; colours, fonts and the layout
    are left out. *)

Module Window.
Import Py Paths.

(** The text of a label: a literal, or [f"{percent:.1f}%"]. *)
Inductive label_text : Type :=
| Text (s : string)
| OneDecimal (percent : Q).

(** The objects the tracking dictionaries hold: a [tk.DoubleVar] with its
    value, or a [tk.Label] with its text, whether it is packed, and whether
    it still exists ([destroy] was not called on it or on a parent). *)
Inductive widget : Type :=
| DoubleVar (value : Q)
| Label (text : label_text) (packed alive : bool).

Inductive error : Type :=
| KeyError
| AttributeError
| TclError.

Inductive outcome : Type :=
| Returned
| Raised (e : error).

(** What a handler does besides changing the state. *)
Inductive effect : Type :=
| showinfo (title message : string)
| showwarning (title message : string)
| terminate                          (* [current_process.terminate()] *)
| destroy                            (* [master.destroy()] *)
| destroy_later                      (* [master.after(500, master.destroy)] *)
| start_thread.                      (* [Thread(...).start()] *)

(** A [dict] from paths to objects; an object is named by its place in the
    store of objects, so that two entries can hold the same object. *)
Definition table : Type := list (string * nat).

(** [d.get(key)]. *)
Fixpoint item (d : table) (key : string) : option nat :=
  match d with
  | [] => None
  | (k, v) :: d' => if String.eqb k key then Some v else item d' key
  end.

(** [key in d]. *)
Definition has_key (d : table) (key : string) : bool :=
  match item d key with Some _ => true | None => false end.

(** [d[key] = v]. *)
Fixpoint assign (d : table) (key : string) (v : nat) : table :=
  match d with
  | [] => [(key, v)]
  | (k, v') :: d' =>
      if String.eqb k key then (k, v) :: d' else (k, v') :: assign d' key v
  end.

(** [d.pop(key, None)]. *)
Definition pop (d : table) (key : string) : table :=
  filter (fun entry => negb (String.eqb (fst entry) key)) d.

(** [l.remove(x)]: the first occurrence goes. *)
Fixpoint remove (x : string) (l : list string) : list string :=
  match l with
  | [] => []
  | y :: l' => if String.eqb y x then l' else y :: remove x l'
  end.

(** The state of the window.  A button is [true] when its state is
    ["normal"], [false] when it is ["disabled"]. *)
Record window : Type := mk_window {
  selected_files : list string;
  file_progress_vars : table;
  file_progress_bars : table;
  file_status_labels : table;
  file_percent_labels : table;
  objects : list widget;
  conversion_paused : bool;
  conversion_cancelled : bool;
  convert_btn : bool;
  pause_btn : bool * string;
  cancel_btn : bool;
  status_label : string;
  overall_progress_var : Q;
  overall_percent_label : label_text
}.

Definition PAUSE : string := "⏸️ PAUSE".
Definition RESUME : string := "▶️ RESUME".
Definition DONE : string := "✅ Done!".

(** [__init__] and [setup_ui]. *)
Definition initial : window :=
  mk_window [] [] [] [] [] [] false false false (false, PAUSE) false
            "Ready to convert" 0 (Text "0%").

(** The selection and the dictionaries replaced. *)
Definition with_tracking (st : window) (selected : list string)
    (vars bars status percent : table) : window :=
  mk_window selected vars bars status percent (objects st)
            (conversion_paused st) (conversion_cancelled st) (convert_btn st)
            (pause_btn st) (cancel_btn st) (status_label st)
            (overall_progress_var st) (overall_percent_label st).

Definition with_selected (st : window) (selected : list string) : window :=
  with_tracking st selected (file_progress_vars st) (file_progress_bars st)
                (file_status_labels st) (file_percent_labels st).

Definition with_objects (st : window) (objs : list widget) : window :=
  mk_window (selected_files st) (file_progress_vars st) (file_progress_bars st)
            (file_status_labels st) (file_percent_labels st) objs
            (conversion_paused st) (conversion_cancelled st) (convert_btn st)
            (pause_btn st) (cancel_btn st) (status_label st)
            (overall_progress_var st) (overall_percent_label st).

(** The flags, the three buttons and the status label replaced. *)
Definition with_controls (st : window) (paused cancelled convert : bool)
    (pause : bool * string) (cancel : bool) (status : string) : window :=
  mk_window (selected_files st) (file_progress_vars st) (file_progress_bars st)
            (file_status_labels st) (file_percent_labels st) (objects st)
            paused cancelled convert pause cancel status
            (overall_progress_var st) (overall_percent_label st).

Definition with_convert_btn (st : window) (convert : bool) : window :=
  with_controls st (conversion_paused st) (conversion_cancelled st) convert
                (pause_btn st) (cancel_btn st) (status_label st).

Definition with_status (st : window) (status : string) : window :=
  with_controls st (conversion_paused st) (conversion_cancelled st)
                (convert_btn st) (pause_btn st) (cancel_btn st) status.

(** *** The display of the selection: [update_file_display] *)

(** [widget.destroy()] for every row: the labels of the rows are gone. *)
Definition destroyed (o : widget) : widget :=
  match o with
  | Label t p _ => Label t p false
  | DoubleVar v => DoubleVar v
  end.

(** One round of [for i, file_path in enumerate(self.selected_files)]: a
    new variable, a new percent label (packed, showing [0%]) and a new
    status label (empty, not packed) are made, and the four dictionaries
    are given them; [file_progress_bars] is given the variable. *)
Definition add_row (st : window) (file_path : string) : window :=
  let progress_var := List.length (objects st) in
  let percent_label := S progress_var in
  let status_label := S (S progress_var) in
  with_objects
    (with_tracking st (selected_files st)
       (assign (file_progress_vars st) file_path progress_var)
       (assign (file_progress_bars st) file_path progress_var)
       (assign (file_status_labels st) file_path status_label)
       (assign (file_percent_labels st) file_path percent_label))
    (objects st
     ++ [DoubleVar 0; Label (Text "0%") true true; Label (Text "") false true]).

Definition files_ready (n : nat) : string :=
  (str_of_Z (Z.of_nat n) ++ " files ready.")%string.

Definition update_file_display (st : window) : window :=
  let st1 := with_objects st (map destroyed (objects st)) in
  match selected_files st with
  | [] => with_convert_btn st1 false
  | _ :: _ =>
      let st2 := fold_left add_row (selected_files st) st1 in
      with_convert_btn
        (with_status st2 (files_ready (List.length (selected_files st)))) true
  end.

(** *** File management *)

(** [if file not in self.selected_files: self.selected_files.append(file)]. *)
Definition add_file (selected : list string) (file : string) : list string :=
  if Effects.mem file selected then selected else selected ++ [file].

(** [select_files]; [files] is what the dialog returns. *)
Definition select_files (files : list string) (st : window)
  : window * list effect :=
  (update_file_display
     (with_selected st (fold_left add_file files (selected_files st))), []).

Definition found_message (n : nat) : string :=
  ("Found " ++ str_of_Z (Z.of_nat n) ++ " video files.")%string.

(** [select_folder]; [folder] is what the dialog returns, [listing] what
    [folder_path.rglob("*")] enumerates, [existing] the regular files. *)
Definition select_folder (folder : string) (listing existing : list string)
    (st : window) : window * list effect :=
  if String.eqb folder "" then (st, [])
  else
    let video_files :=
      filter (fun f => Effects.mem f existing && supported f) listing in
    (update_file_display
       (with_selected st (fold_left add_file video_files (selected_files st))),
     [match video_files with
      | _ :: _ => showinfo "Files Found" (found_message (List.length video_files))
      | [] => showwarning "No Videos" "No supported video files found."
      end]).

(** [clear_selection]; [running] is the truth of
    [self.conversion_thread and self.conversion_thread.is_alive()]. *)
Definition clear_selection (running : bool) (st : window)
  : window * list effect :=
  if running then
    (st, [showwarning "Conversion Active"
            "Cannot clear selection while conversion is running."])
  else (update_file_display (with_tracking st [] [] [] [] []), []).

Definition remove_single_file (file_path : string) (st : window)
  : window * list effect :=
  if Effects.mem file_path (selected_files st) then
    (update_file_display
       (with_tracking st (remove file_path (selected_files st))
          (pop (file_progress_vars st) file_path)
          (pop (file_progress_bars st) file_path)
          (pop (file_status_labels st) file_path)
          (pop (file_percent_labels st) file_path)), [])
  else (st, []).

(** *** Progress display: [update_file_progress], [update_overall_progress] *)

(** A part of a handler that can fail; the state it leaves is kept. *)
Definition routine : Type := window -> window * outcome.

Definition and_then (a b : routine) : routine :=
  fun st =>
    let '(st1, o) := a st in
    match o with
    | Returned => b st1
    | Raised e => (st1, Raised e)
    end.

Definition skip : routine := fun st => (st, Returned).

(** The store with its object [n] replaced. *)
Fixpoint put (n : nat) (o : widget) (l : list widget) : list widget :=
  match l, n with
  | [], _ => []
  | _ :: l', O => o :: l'
  | x :: l', S n' => x :: put n' o l'
  end.

(** [d[key].method(...)]: a missing key is a [KeyError]; the method gives
    the object's new state or fails. *)
Definition call (d : window -> table) (key : string)
    (method : widget -> widget + error) : routine :=
  fun st =>
    match item (d st) key with
    | None => (st, Raised KeyError)
    | Some r =>
        match nth_error (objects st) r with
        | None => (st, Raised TclError)
        | Some o =>
            match method o with
            | inl o' => (with_objects st (put r o' (objects st)), Returned)
            | inr e => (st, Raised e)
            end
        end
    end.

(** [var.set(value)]: a label has no such method. *)
Definition set (value : Q) (o : widget) : widget + error :=
  match o with
  | DoubleVar _ => inl (DoubleVar value)
  | Label _ _ _ => inr AttributeError
  end.

(** [label.config(text=t)]: a variable has no such method; a label that was
    destroyed cannot be configured. *)
Definition config (t : label_text) (o : widget) : widget + error :=
  match o with
  | Label _ p true => inl (Label t p true)
  | Label _ _ false => inr TclError
  | DoubleVar _ => inr AttributeError
  end.

(** [widget.pack_forget()] and [widget.pack(...)]. *)
Definition pack_forget (o : widget) : widget + error :=
  match o with
  | Label t _ true => inl (Label t false true)
  | Label _ _ false => inr TclError
  | DoubleVar _ => inr AttributeError
  end.

Definition pack (o : widget) : widget + error :=
  match o with
  | Label t _ true => inl (Label t true true)
  | Label _ _ false => inr TclError
  | DoubleVar _ => inr AttributeError
  end.

Definition update_file_progress (file_path : string) (percent : Q) : routine :=
  fun st =>
    if has_key (file_progress_vars st) file_path then
      and_then (call file_progress_vars file_path (set percent))
        (and_then (call file_percent_labels file_path
                     (config (OneDecimal percent)))
           (if Qle_bool 100 percent then
              and_then (call file_progress_bars file_path pack_forget)
                (and_then (call file_percent_labels file_path pack_forget)
                   (and_then (call file_status_labels file_path
                                (config (Text DONE)))
                      (call file_status_labels file_path pack)))
            else skip)) st
    else (st, Returned).

Definition update_overall_progress (percent : Q) (st : window) : window :=
  mk_window (selected_files st) (file_progress_vars st) (file_progress_bars st)
            (file_status_labels st) (file_percent_labels st) (objects st)
            (conversion_paused st) (conversion_cancelled st) (convert_btn st)
            (pause_btn st) (cancel_btn st) (status_label st)
            percent (OneDecimal percent).

(** *** Conversion controls *)

Definition start_conversion (st : window) : window * list effect :=
  match selected_files st with
  | [] => (st, [showwarning "No Files" "Please select files to convert first."])
  | _ :: _ =>
      (with_controls st false false false (true, PAUSE) true
                     "Converting files...",
       [start_thread])
  end.

Definition pause_conversion (st : window) : window * list effect :=
  if conversion_paused st then
    (with_controls st false (conversion_cancelled st) (convert_btn st)
                   (fst (pause_btn st), PAUSE) (cancel_btn st)
                   "Conversion resumed...", [])
  else
    (with_controls st true (conversion_cancelled st) (convert_btn st)
                   (fst (pause_btn st), RESUME) (cancel_btn st)
                   "Paused. Click Resume to continue.", []).

(** [cancel_conversion]; [answer] is what [askyesno] returns, [process] the
    truth of [self.current_process]. *)
Definition cancel_conversion (answer process : bool) (st : window)
  : window * list effect :=
  if answer then
    (with_controls st false true true (false, PAUSE) false
                   "Conversion cancelled.",
     if process then [terminate] else [])
  else (st, []).

(** [on_closing]; [running] is the truth of
    [self.conversion_thread and self.conversion_thread.is_alive()]. *)
Definition on_closing (running answer process : bool) (st : window)
  : window * list effect :=
  if running then
    if answer then
      (with_controls st (conversion_paused st) true (convert_btn st)
                     (pause_btn st) (cancel_btn st) (status_label st),
       (if process then [terminate] else []) ++ [destroy_later])
    else (st, [])
  else (st, [destroy]).

(** The three calls the conversion thread schedules when it ends. *)
Definition reset_buttons (st : window) : window :=
  with_controls st (conversion_paused st) (conversion_cancelled st) true
                (false, PAUSE) false (status_label st).

(** *** What can happen to the window, one call after another *)

Inductive action : Type :=
| SelectFiles (files : list string)
| SelectFolder (folder : string) (listing existing : list string)
| ClearSelection (running : bool)
| RemoveSingleFile (file_path : string)
| StartConversion
| PauseConversion
| CancelConversion (answer process : bool)
| OnClosing (running answer process : bool)
| UpdateFileProgress (file_path : string) (percent : Q)
| UpdateOverallProgress (percent : Q)
| SetStatus (text : string)          (* scheduled by the conversion thread *)
| ButtonsReset.                      (* scheduled by the conversion thread *)

(** The state after a call. *)
Definition perform (a : action) (st : window) : window :=
  match a with
  | SelectFiles files => fst (select_files files st)
  | SelectFolder folder listing existing =>
      fst (select_folder folder listing existing st)
  | ClearSelection running => fst (clear_selection running st)
  | RemoveSingleFile file_path => fst (remove_single_file file_path st)
  | StartConversion => fst (start_conversion st)
  | PauseConversion => fst (pause_conversion st)
  | CancelConversion answer process => fst (cancel_conversion answer process st)
  | OnClosing running answer process =>
      fst (on_closing running answer process st)
  | UpdateFileProgress file_path percent =>
      fst (update_file_progress file_path percent st)
  | UpdateOverallProgress percent => update_overall_progress percent st
  | SetStatus text => with_status st text
  | ButtonsReset => reset_buttons st
  end.

(** The state after a sequence of calls, made while the window exists:
    nothing is called once [master.destroy()] has run. *)
Definition run (script : list action) (st : window) : window :=
  fold_left (fun s a => perform a s) script st.

End Window.

(** ** Notions used to state the properties *)

Module Notions.
Import Py Regex Effects Parser Planner Paths Converter Gui.

(** The counters of the loop are the numbers of video and of audio streams
    met so far. *)
Definition counters_agree (st : plan_state) (before : list dict) : Prop :=
  v_map_idx st = count_video before /\ a_map_idx st = count_audio before.

(** A captured group of [(\d+)]: a non-empty run of digits. *)
Definition digit_group (g : list ascii) : Prop :=
  g <> [] /\ forallb is_digit g = true.

(** Number of capturing groups of a pattern. *)
Fixpoint group_count (p : pattern) : nat :=
  match p with
  | [] => O
  | Digits :: p' => S (group_count p')
  | _ :: p' => group_count p'
  end.

(** A callback that only causes the events [g percent]. *)
Definition emits (callback : Q -> M unit) (g : Q -> list event) : Prop :=
  forall percent w, callback percent w = (g percent, w, Ok tt).

(** The events a call of the optional callback causes. *)
Definition reports (progress_callback : option (Q -> M unit))
    (g : Q -> list event) : Prop :=
  match progress_callback with
  | Some callback => emits callback g
  | None => forall percent, g percent = []
  end.

(** The world after the encoder has exited. *)
Definition after_wait (m : media) (output_file : string) (w : world) : world :=
  if writes_output m then world_of (create_file output_file w) else w.

(** The notice [build_ffmpeg_command] prints. *)
Definition notice (m : media) (input_file : string) : list event :=
  if warns_video_only (streams m) input_file default_crf default_preset
  then [Print (video_only_message input_file)] else [].

(** How the loop over the lines ends, given how the parser ends. *)
Definition loop_result (ending : result (option Q)) : result unit :=
  match ending with
  | Ok _ => Ok tt
  | Raise e => Raise e
  | Blocked => Blocked
  end.

(** [convert_file] in closed form, for a callback that is given and only
    causes the events [g percent]. *)
Definition convert_file_closed (env : environment)
    (input_file output_file : string) (g : Q -> list event) (w : world)
  : list event * world * result unit :=
  let m := env input_file in
  if mem output_file (files w) || mem output_file (dirs w) then
    ([Print (skip_message input_file)], w, Ok tt)
  else if popen_fails m then (notice m input_file, w, Raise OSError)
  else
    match parser_error m with
    | Some e =>
        (notice m input_file
         ++ [Popen (build_ffmpeg_command (streams m) input_file output_file
                      default_crf default_preset)]
         ++ List.concat (map g (percentages m)),
         w, Raise e)
    | None =>
        (notice m input_file
         ++ [Popen (build_ffmpeg_command (streams m) input_file output_file
                      default_crf default_preset)]
         ++ List.concat (map g (percentages m))
         ++ [Wait]
         ++ (if returncode m =? 0 then g 100%Q
             else [Print (failed_message input_file)]),
         after_wait m output_file w, Ok tt)
    end.

(** The values of one job, as its own callback receives them. *)
Definition job_values (env : environment) (input_file output_file : string)
    (w : world) : list Q :=
  let m := env input_file in
  if mem output_file (files w) || mem output_file (dirs w) then []
  else if popen_fails m then []
  else percentages m
       ++ match parser_error m with
          | Some _ => []
          | None => if returncode m =? 0 then [100%Q] else []
          end.

(** A callback that starts no encoder. *)
Definition starts_nothing (g : Q -> list event) : Prop :=
  forall percent, started (g percent) = [].

(** Where the input and the output stand in a command. *)
Definition input_of (command : list string) : option string := nth_error command 3.
Definition output_of (command : list string) : string := last command "".

(** A percentage. *)
Definition in_range (p : Q) : Prop := (0 <= p /\ p <= 100)%Q.

(** The only events left once the flag has been seen set. *)
Definition winding_down (e : event) : Prop :=
  e = SawCancelled true \/ e = Terminate \/ e = Wait \/ e = ResetButtons.

(** The flag is set at every read from the current one on. *)
Definition set_at (ctl : controls) (w : world) : Prop :=
  forall t, (reads w <= t)%nat -> cancelled_at ctl t = true.

(** Reads are only counted up. *)
Definition forward {A : Type} (m : M A) : Prop :=
  forall w, (reads w <= reads (world_of (m w)))%nat.

(** Started with the flag set, the computation only winds down. *)
Definition guarded {A : Type} (ctl : controls) (m : M A) : Prop :=
  forall w, set_at ctl w -> Forall winding_down (trace_of (m w)).

(** After the first read that sees the flag set, the computation only winds
    down, and the flag is still set at its end. *)
Definition settles {A : Type} (ctl : controls) (m : M A) : Prop :=
  forall w pre post,
    trace_of (m w) = pre ++ SawCancelled true :: post ->
    Forall winding_down post /\ set_at ctl (world_of (m w)).

(** The computation does not read the flag as set. *)
Definition blind {A : Type} (m : M A) : Prop :=
  forall w, ~ In (SawCancelled true) (trace_of (m w)).

(** A computation that may start unaware of the flag: it settles once it
    has seen it. *)
Definition tame {A : Type} (ctl : controls) (m : M A) : Prop :=
  forward m /\ settles ctl m.

(** A computation that checks the flag before it does anything else. *)
Definition calm {A : Type} (ctl : controls) (m : M A) : Prop :=
  forward m /\ guarded ctl m /\ settles ctl m.

(** A path with a file name: what [with_suffix] accepts. *)
Definition named (p : string) : Prop := name (list_ascii_of_string p) <> [].

(** The files [batch_convert] selects out of a listing. *)
Definition videos_of (listing : list string) (w : world) : list string :=
  filter (fun f => mem f (files w) && supported f) listing.

(** The round of [batch_convert] for [file], the video number [i] of
    [total_files], reached in the world [w], ends by the exception [e]:
    the one of [with_suffix], or the one of [convert_file]. *)
Definition call_raises (env : environment) (cb : option (Q -> M unit))
    (total_files : Z) (file : string) (i : Z) (w : world) (e : exn) : Prop :=
  match with_suffix file ".mp4" with
  | Ok output_file =>
      result_of (convert_file env file output_file
                   (Some (file_progress cb i total_files)) w) = Raise e
  | Raise e' => e' = e
  | Blocked => False
  end.

(** A path that exists, as a file or as a directory. *)
Definition exists_in (w : world) (p : string) : bool :=
  mem p (files w) || mem p (dirs w).

(** The bitrate given to a stream whose own bitrate is unknown. *)
Definition default_bitrate (channel_count : Z) : Z :=
  if channel_count =? 1 then 128000
  else if channel_count =? 2 then 320000
  else 512000.

(** The arguments of an audio stream that is copied, and of one that is
    encoded at [target], with output index [k]. *)
Definition audio_copy (idx : pyval) (k : Z) : list string :=
  ["-map"; ("0:" ++ str idx)%string; ("-c:a:" ++ str_of_Z k)%string; "copy"].
Definition audio_encode (idx : pyval) (k target : Z) : list string :=
  ["-map"; ("0:" ++ str idx)%string; ("-c:a:" ++ str_of_Z k)%string;
   "aac"; "-profile:a"; "aac_low"; ("-b:a:" ++ str_of_Z k)%string;
   str_of_Z target].

(** The number a run of decimal digits writes, as the standard library
    reads it; [None] for an empty text and for a text that holds another
    character. *)
Definition decimal (text : list ascii) : option Z :=
  match text with
  | [] => None
  | _ => option_map Z.of_uint
           (NilEmpty.uint_of_string (string_of_list_ascii text))
  end.

(** A number of at most 300 digits. *)
Definition short (text : list ascii) : Prop := (List.length text <= 300)%nat.

(** What the prober says of a stream, field by field.  A stream without
    [codec_name] has the empty name, a stream without [channels] has two
    channels; the bitrate is an integer, or the numeral of one in at most
    300 digits, and is 0 when the field is absent or [null]. *)
Definition names_codec (stream : dict) (codec : string) : Prop :=
  lookup stream "codec_name" = Some (PStr codec)
  \/ (lookup stream "codec_name" = None /\ codec = ""%string).

Definition counts_channels (stream : dict) (channel_count : Z) : Prop :=
  lookup stream "channels" = Some (PInt channel_count)
  \/ (lookup stream "channels" = None /\ channel_count = 2).

Definition carries_bit_rate (stream : dict) (b : Z) : Prop :=
  lookup stream "bit_rate" = Some (PInt b)
  \/ (exists text,
         lookup stream "bit_rate" = Some (PStr text)
         /\ decimal (list_ascii_of_string text) = Some b
         /\ short (list_ascii_of_string text))
  \/ ((lookup stream "bit_rate" = None
       \/ lookup stream "bit_rate" = Some PNone) /\ b = 0).

Definition video_stream (stream : dict) (codec : string) : Prop :=
  lookup stream "codec_type" = Some (PStr "video")
  /\ names_codec stream codec.

Definition audio_stream (stream : dict) (codec : string)
    (b channel_count : Z) : Prop :=
  lookup stream "codec_type" = Some (PStr "audio")
  /\ names_codec stream codec
  /\ counts_channels stream channel_count
  /\ carries_bit_rate stream b.

(** A character no integer literal holds: an ASCII character that is not
    a digit, a sign, an underscore, or one of the six white space
    characters tab, line feed, vertical tab, form feed, carriage return
    and space. *)
Definition foreign (c : ascii) : bool :=
  let n := nat_of_ascii c in
  (n <? 128)%nat
  && negb ((48 <=? n)%nat && (n <=? 57)%nat)
  && negb ((n =? 43)%nat || (n =? 45)%nat || (n =? 95)%nat)
  && negb ((n =? 32)%nat || ((9 <=? n)%nat && (n <=? 13)%nat)).

(** A text that is no numeral: empty, or holding such a character. *)
Definition no_numeral (text : string) : Prop :=
  text = ""%string
  \/ exists c, In c (list_ascii_of_string text) /\ foreign c = true.

(** A stream that gives no bitrate to go by: the field is absent, [null],
    an integer that is not positive, or a text that is no numeral. *)
Definition lacks_bit_rate (stream : dict) : Prop :=
  lookup stream "bit_rate" = None
  \/ lookup stream "bit_rate" = Some PNone
  \/ (exists b, lookup stream "bit_rate" = Some (PInt b) /\ b <= 0)
  \/ (exists text, lookup stream "bit_rate" = Some (PStr text)
                   /\ no_numeral text).

(** A clock as the encoder prints it: [hh:mm:ss.ff]. *)
Definition clock_text (h m s f : list ascii) : list ascii :=
  h ++ ":"%char :: m ++ ":"%char :: s ++ "."%char :: f.

(** What follows a printed number is not a digit. *)
Definition ends_number (rest : list ascii) : Prop :=
  match rest with
  | c :: _ => is_digit c = false
  | [] => True
  end.

(** The line [before ++ label ++ clock ++ after]. *)
Definition clock_line (before : list ascii) (label : string)
    (h m s f after : list ascii) : string :=
  string_of_list_ascii
    (before ++ list_ascii_of_string label ++ clock_text h m s f ++ after).

(** [g] stands somewhere in [text]. *)
Definition infix (g text : list ascii) : Prop :=
  exists a b, text = a ++ g ++ b.

(** No run of digits in the line is longer than 300. *)
Definition short_numbers (line : string) : Prop :=
  forall g, infix g (list_ascii_of_string line) ->
            forallb is_digit g = true -> short g.

(** The seconds of the clock [h:m:s.f]: what follows the dot counts as
    hundredths, whatever its number of digits. *)
Definition clock_seconds (h m s f : Z) : Q :=
  (inject_Z (h * 3600 + m * 60 + s) + (f # 100))%Q.

(** What the reading of four captured groups does, in either caller: it
    gives the clock or raises, and it gives the clock when the groups are
    short. *)
Definition reads_clock (value : list (list ascii) -> result Q) : Prop :=
  (forall gh gm gs gf,
      Forall digit_group [gh; gm; gs; gf] ->
      value [gh; gm; gs; gf]
      = Ok (clock_seconds (digits_value gh) (digits_value gm)
              (digits_value gs) (digits_value gf))
      \/ exists e, value [gh; gm; gs; gf] = Raise e)
  /\ (forall gh gm gs gf,
         Forall digit_group [gh; gm; gs; gf] ->
         Forall short [gh; gm; gs; gf] ->
         value [gh; gm; gs; gf]
         = Ok (clock_seconds (digits_value gh) (digits_value gm)
                 (digits_value gs) (digits_value gf))).

(** The groups are the numerals of [h], [m], [s] and [f]. *)
Definition clock_groups (groups : list (list ascii)) (h m s f : Z) : Prop :=
  map decimal groups = [Some h; Some m; Some s; Some f].

(** [p] is [x] capped at 100. *)
Definition capped (x p : Q) : Prop :=
  ((x <= 100)%Q -> p = x) /\ ((100 < x)%Q -> p = 100%Q).

(** Both ways of writing the dot accept a dot. *)
Definition accepts_dot (sep : atom) : Prop := sep = AnyChar \/ sep = Chr ".".

(** No proper tail of the text begins the text again. *)
Definition unbordered (a : list ascii) : Prop :=
  forall k, (1 <= k < List.length a)%nat -> prefix_of (skipn k a) a = false.

(** The pause loop's check number [k] (counted from 0), in a loop entered
    at read [r], finds the conversion paused and not cancelled. *)
Definition waiting (ctl : controls) (r k : nat) : bool :=
  paused_at ctl (r + 2 * k) && negb (cancelled_at ctl (r + 2 * k + 1)).

(** Whenever the worker enters a pause loop, one of the checks the
    observation covers finds it resumed or cancelled. *)
Definition releases (ctl : controls) (patience : nat) : Prop :=
  forall r, exists k, (k <= patience)%nat /\ waiting ctl r k = false.

(** Number of sleeps in a trace. *)
Fixpoint sleeps (t : list event) : nat :=
  match t with
  | [] => O
  | Sleep :: t' => S (sleeps t')
  | _ :: t' => sleeps t'
  end.

(** A computation that starts no encoder and leaves the files alone. *)
Definition passive {A : Type} (m : M A) : Prop :=
  forall w,
    started (trace_of (m w)) = []
    /\ files (world_of (m w)) = files w /\ dirs (world_of (m w)) = dirs w.

(** A computation that does not end waiting. *)
Definition finishes {A : Type} (m : M A) : Prop :=
  forall w, result_of (m w) <> Blocked.

(** A computation that does not end by an exception. *)
Definition unfailing {A : Type} (m : M A) : Prop :=
  forall w e, result_of (m w) <> Raise e.

(** What a run from [w] to [w'] with trace [t] did to the files: it only
    added files, each its own output path, and every encoder it started
    read a file that existed at the start and wrote the path [with_suffix]
    gives for it, which did not exist at the start. *)
Definition orderly (t : list event) (w w' : world) : Prop :=
  dirs w' = dirs w
  /\ (forall p, mem p (files w) = true -> mem p (files w') = true)
  /\ (forall p, mem p (files w') = true ->
                mem p (files w) = true \/ with_suffix p ".mp4" = Ok p)
  /\ (forall command,
         In command (started t) ->
         exists f,
           input_of command = Some f /\ mem f (files w) = true
           /\ with_suffix f ".mp4" = Ok (output_of command)
           /\ exists_in w (output_of command) = false).

(** The window leaves the selection alone while the worker runs: it is
    [selected] at every round, and the rounds observed are enough to go
    through it. *)
Definition left_alone (selection : nat -> list string) (rounds : nat)
    (selected : list string) : Prop :=
  (forall k, selection k = selected) /\ (List.length selected < rounds)%nat.

(** The pause loop only sleeps and reads the flags. *)
Definition idling (e : event) : Prop := e = Sleep \/ exists b, e = SawCancelled b.

(** What [update_overall_progress] would receive during the loop if the
    position [i] of each entry were used: its own percentages combined with
    [i - 1]. *)
Fixpoint expected_by_position (env : environment) (total_files i : Z)
    (selected : list string) (fs ds : list string) : list Q :=
  match selected with
  | [] => []
  | file_path :: rest =>
      match with_suffix file_path ".mp4" with
      | Ok output_file =>
          map (overall_value (i - 1) total_files)
              (gui_job_values env file_path output_file fs ds)
          ++ expected_by_position env total_files (i + 1) rest
               (files_after env file_path output_file fs ds) ds
      | _ => []
      end
  end.

(** A computation that, run where every file has a name, is orderly, does
    not end by an exception, and starts encoders only on supported entries
    of [selected]. *)
Definition well_run {A : Type} (selected : list string) (m : M A) (w : world)
  : Prop :=
  Forall named (files w) ->
  orderly (trace_of (m w)) w (world_of (m w))
  /\ (forall e, result_of (m w) <> Raise e)
  /\ (forall command,
         In command (started (trace_of (m w))) ->
         exists f, In f selected /\ supported f = true
                   /\ input_of command = Some f).

End Notions.

Module WindowNotions.
Import Py Paths Window.

(** The row of a selected file as [update_file_display] leaves it and
    [update_file_progress] can change it: the variable is in both
    [file_progress_vars] and [file_progress_bars]; the percent label
    exists and is packed; the status label exists, is empty and is not
    packed. *)
Definition tracked (st : window) (f : string) : Prop :=
  exists var percent_label status_label,
    item (file_progress_vars st) f = Some var
    /\ item (file_progress_bars st) f = Some var
    /\ item (file_percent_labels st) f = Some percent_label
    /\ item (file_status_labels st) f = Some status_label
    /\ (exists v, nth_error (objects st) var = Some (DoubleVar v))
    /\ (exists t, nth_error (objects st) percent_label = Some (Label t true true))
    /\ nth_error (objects st) status_label = Some (Label (Text "") false true).

(** The keys of the four dictionaries are among the paths [l]. *)
Definition keys_within (st : window) (l : list string) : Prop :=
  forall f,
    has_key (file_progress_vars st) f = true
    \/ has_key (file_progress_bars st) f = true
    \/ has_key (file_status_labels st) f = true
    \/ has_key (file_percent_labels st) f = true ->
    In f l.

(** The selection holds no path twice, and the dictionaries hold a row for
    each selected path and for no other. *)
Definition consistent (st : window) : Prop :=
  NoDup (selected_files st)
  /\ (forall f, In f (selected_files st) -> tracked st f)
  /\ keys_within st (selected_files st).

(** A call that does not start a conversion. *)
Definition starts_no_conversion (a : action) : Prop := a <> StartConversion.

(** A call that adds to the selection only through [select_folder], where
    [existing] are the regular files. *)
Definition by_folder (existing : list string) (a : action) : Prop :=
  match a with
  | SelectFiles _ => False
  | SelectFolder _ _ existing' => existing' = existing
  | _ => True
  end.

(** A routine that leaves the two flags alone. *)
Definition keeps_flags (s : routine) : Prop :=
  forall st,
    conversion_paused (fst (s st)) = conversion_paused st
    /\ conversion_cancelled (fst (s st)) = conversion_cancelled st.

End WindowNotions.

(** ** Sample inputs *)

Module Scenarios.
Import Py Regex Effects Parser Planner Paths Converter Gui Prober.

(** A file with an H.264 track, an HEVC track, a low-bitrate AAC track, a
    subtitle track and an MP3 track. *)
Definition sample_streams : list dict :=
  [ [("index", PInt 0); ("codec_type", PStr "video"); ("codec_name", PStr "h264")];
    [("index", PInt 1); ("codec_type", PStr "video"); ("codec_name", PStr "hevc")];
    [("index", PInt 2); ("codec_type", PStr "audio"); ("codec_name", PStr "aac");
     ("channels", PInt 2); ("bit_rate", PStr "128000")];
    [("index", PInt 3); ("codec_type", PStr "subtitle"); ("codec_name", PStr "subrip")];
    [("index", PInt 4); ("codec_type", PStr "audio"); ("codec_name", PStr "mp3");
     ("channels", PInt 2); ("bit_rate", PStr "200000")] ].

(** An HEVC track with a 5.1 AAC track of 150000 bit/s and a mono AAC
    track of 96000 bit/s. *)
Definition surround_streams : list dict :=
  [ [("index", PInt 0); ("codec_type", PStr "video"); ("codec_name", PStr "hevc")];
    [("index", PInt 1); ("codec_type", PStr "audio"); ("codec_name", PStr "aac");
     ("channels", PInt 6); ("bit_rate", PStr "150000")];
    [("index", PInt 2); ("codec_type", PStr "audio"); ("codec_name", PStr "aac");
     ("channels", PInt 1); ("bit_rate", PStr "96000")] ].

(** Captured groups as strings. *)
Definition shown (r : option (list (list ascii))) : option (list string) :=
  option_map (map string_of_list_ascii) r.

(** A file with one H.264 track whose encoder reports half of a minute and
    then fails. *)
Definition failing_media : media :=
  mk_media [[("index", PInt 0); ("codec_type", PStr "video");
             ("codec_name", PStr "h264")]]
           false
           ["  Duration: 00:01:00.00, start: 0.0"; "frame=1 time=00:00:30.00 x"]
           1 false.

(** A duration whose hours are written with 400 digits. *)
Definition long_clock_line : string :=
  ("  Duration: " ++ string_of_list_ascii (repeat "9"%char 400)
   ++ ":00:00.00, start: 0.0")%string.

(** [json.loads] on the texts of the examples: [[]], [{}], [null] and [0]
    are JSON documents; the other texts the examples use, the empty text
    and [N/A], are not. *)
Definition loads_examples (text : string) : loaded :=
  if (text =? "[]")%string then Decoded (JArr [])
  else if (text =? "{}")%string then Decoded (JObj [])
  else if (text =? "null")%string then Decoded JNull
  else if (text =? "0")%string then Decoded (JNum 0)
  else JSONDecodeError.

(** Nothing exists. *)
Definition empty_world : world := mk_world 0 [] [].

(** A folder with an MP4 file and an AVI file next to it, whose encoder
    succeeds. *)
Definition good_media : media :=
  mk_media [[("index", PInt 0); ("codec_type", PStr "video");
             ("codec_name", PStr "mpeg4")];
            [("index", PInt 1); ("codec_type", PStr "audio");
             ("codec_name", PStr "mp3"); ("channels", PInt 2);
             ("bit_rate", PStr "192000")]]
           false
           ["  Duration: 00:01:00.00, start: 0.0"; "frame=1 time=00:00:30.00 x"]
           0 true.

(** The folder [a] with two files. *)
Definition sample_folder : world := mk_world 0 ["a/clip.mp4"; "a/talk.avi"] ["a"].

(** An MP4 file whose extension is in upper case, alone in its folder. *)
Definition upper_case_folder : world := mk_world 0 ["clip.MP4"] [].

(** An encoder whose second progress line carries an earlier time stamp
    than its first. *)
Definition backwards_media : media :=
  mk_media [[("index", PInt 0); ("codec_type", PStr "video");
             ("codec_name", PStr "h264")]]
           false
           ["  Duration: 00:01:00.00, start: 0.0";
            "frame=9 time=00:00:30.00 bitrate=1";
            "frame=6 time=00:00:20.00 bitrate=1"]
           0 true.

(** The flag is set just before the worker's read number [n] (counted
    from 0); nobody pauses. *)
Definition cancel_at (n : nat) : controls :=
  mk_controls (fun t => (n <=? t)%nat) (fun _ => false).

(** Two videos that were not converted yet. *)
Definition two_videos : world := mk_world 0 ["a.avi"; "b.avi"] [].

(** A selection whose first entry is not a video file. *)
Definition notes_and_video : world := mk_world 0 ["notes.txt"; "b.avi"] [].

(** An encoder whose progress lines advance. *)
Definition steady_media : media :=
  mk_media [[("index", PInt 0); ("codec_type", PStr "video");
             ("codec_name", PStr "h264")]]
           false
           ["  Duration: 00:01:00.00, start: 0.0";
            "frame=3 time=00:00:15.00 bitrate=1";
            "frame=6 time=00:00:30.00 bitrate=1";
            "frame=9 time=00:01:30.00 bitrate=1"]
           0 true.

(** An AAC track as the prober describes it when the container records no
    bitrate. *)
Definition aac_without_bitrate : dict :=
  [("index", PInt 1); ("codec_type", PStr "audio"); ("codec_name", PStr "aac");
   ("channels", PInt 6); ("bit_rate", PStr "N/A")].

(** An MP3 track and what its conversion leaves: an AAC track at the
    target bitrate. *)
Definition mp3_track : dict :=
  [("index", PInt 1); ("codec_type", PStr "audio"); ("codec_name", PStr "mp3");
   ("channels", PInt 2); ("bit_rate", PStr "200000")].
Definition mp3_track_converted : dict :=
  [("index", PInt 1); ("codec_type", PStr "audio"); ("codec_name", PStr "aac");
   ("channels", PInt 2); ("bit_rate", PStr "160000")].

(** An encoder that prints a duration of zero and then two progress
    lines. *)
Definition zero_length_media : media :=
  mk_media [[("index", PInt 0); ("codec_type", PStr "video");
             ("codec_name", PStr "h264")]]
           false
           ["Input #0, avi, from a.avi:";
            "  Duration: 00:00:00.00, start: 0.000000";
            "frame=1 time=00:00:00.04 bitrate=1";
            "frame=2 time=00:00:00.08 bitrate=1"]
           0 true.

(** The encoder cannot be started for [b.avi]; every other file is
    converted. *)
Definition second_fails : environment :=
  fun f => if (f =? "b.avi")%string
           then mk_media [] true [] 0 false
           else good_media.

(** The command [convert_file] builds for [a/talk.avi]. *)
Definition talk_command : list string :=
  build_ffmpeg_command (streams good_media) "a/talk.avi" "a/talk.mp4"
    default_crf default_preset.

(** Three recordings of one talk, in three containers. *)
Definition same_stem : world :=
  mk_world 0 ["talk.avi"; "talk.mkv"; "talk.mov"] [].

(** Three videos that were not converted yet. *)
Definition three_videos : world := mk_world 0 ["a.avi"; "b.avi"; "c.avi"] [].

(** A selection of one video to which a second one is added while the
    first is converted. *)
Definition growing_selection (k : nat) : list string :=
  match k with
  | O => ["a.avi"]
  | _ => ["a.avi"; "b.avi"]
  end.

(** The conversion is paused from the start and cancelled, while paused,
    just before read number 4 (counted from 0). *)
Definition cancel_while_paused : controls :=
  mk_controls (fun t => (4 <=? t)%nat) (fun _ => true).

(** The conversion is paused until just before read number [n] (counted
    from 0); nobody cancels. *)
Definition paused_until (n : nat) : controls :=
  mk_controls (fun _ => false) (fun t => (t <? n)%nat).

End Scenarios.

(** * Part II: its properties *)

(** ** Numerals: what [int] makes of a run of digits *)

Module NumeralFacts.
Import Notions Scenarios.
Import Py.

Lemma digit_not_space (c : ascii) : is_digit c = true -> is_space c = false.
Proof.
  destruct c as [[] [] [] [] [] [] [] []]; cbv; intros H;
    first [reflexivity | discriminate H].
Qed.

Lemma digit_not_sign (c : ascii) :
  is_digit c = true -> c <> "-"%char /\ c <> "+"%char /\ Ascii.eqb c "_" = false.
Proof.
  destruct c as [[] [] [] [] [] [] [] []]; cbv; intros H;
    first [discriminate H | repeat split; discriminate].
Qed.

Lemma lstrip_digits (l : list ascii) : forallb is_digit l = true -> lstrip l = l.
Proof.
  destruct l as [ | c l]; cbn [forallb lstrip]; [reflexivity | ].
  intros H. apply andb_true_iff in H as [Hc _].
  now rewrite (digit_not_space c Hc).
Qed.

Lemma forallb_rev {A : Type} (f : A -> bool) (l : list A) :
  forallb f (rev l) = forallb f l.
Proof.
  induction l as [ | a l IH]; cbn [rev forallb]; [reflexivity | ].
  rewrite forallb_app, IH. cbn [forallb]. rewrite andb_true_r. apply andb_comm.
Qed.

Lemma strip_digits (l : list ascii) : forallb is_digit l = true -> strip l = l.
Proof.
  intros H. unfold strip. rewrite (lstrip_digits l H).
  rewrite lstrip_digits by now rewrite forallb_rev.
  apply rev_involutive.
Qed.

Lemma literal_digits_run (l : list ascii) :
  forallb is_digit l = true ->
  forall after_digit, l <> [] \/ after_digit = true ->
  literal_digits after_digit l = Some l.
Proof.
  induction l as [ | c l IH]; intros H after_digit Hne; cbn [literal_digits].
  - destruct Hne as [Hne | ->]; [now destruct Hne | reflexivity].
  - cbn [forallb] in H. apply andb_true_iff in H as [Hc Hl].
    rewrite Hc, (IH Hl true) by now right. reflexivity.
Qed.

(** On a run of digits [int] gives the value of the run, unless the run is
    longer than the interpreter allows. *)
Lemma int_of_digit_run (g : list ascii) :
  digit_group g ->
  int_of_str (string_of_list_ascii g)
  = if (List.length g <=? max_str_digits)%nat then Some (digits_value g)
    else None.
Proof.
  intros [Hne Hd]. unfold int_of_str.
  rewrite list_ascii_of_string_of_list_ascii, (strip_digits g Hd).
  destruct g as [ | c g]; [now destruct Hne | ].
  assert (Hc : is_digit c = true) by (cbn [forallb] in Hd; now apply andb_true_iff in Hd).
  destruct (digit_not_sign c Hc) as (Hm & Hp & _).
  assert (E : match c :: g with
              | "-"%char :: r => (true, r)
              | "+"%char :: r => (false, r)
              | _ => (false, c :: g)
              end = (false, c :: g)).
  { destruct c as [[] [] [] [] [] [] [] []]; try reflexivity;
      first [now destruct Hm | now destruct Hp]. }
  rewrite E, literal_digits_run; auto.
Qed.

(** [int] does not fail on a captured group of at most 4300 digits. *)
Lemma int_of_digit_group (g : list ascii) :
  digit_group g -> (List.length g <= max_str_digits)%nat ->
  int_of_str (string_of_list_ascii g) = Some (digits_value g).
Proof.
  intros Hg Hlen. rewrite (int_of_digit_run g Hg).
  apply Nat.leb_le in Hlen. now rewrite Hlen.
Qed.

Lemma digit_val_range (c : ascii) : is_digit c = true -> 0 <= digit_val c <= 9.
Proof.
  unfold is_digit, digit_val. intros H. apply andb_true_iff in H as [H1 H2].
  apply Nat.leb_le in H1, H2. lia.
Qed.

Lemma digits_fold_range (l : list ascii) :
  forall a, 0 <= a -> forallb is_digit l = true ->
  0 <= fold_left (fun acc c => 10 * acc + digit_val c) l a
    < (a + 1) * 10 ^ Z.of_nat (List.length l).
Proof.
  induction l as [ | c l IH]; intros a Ha Hl; cbn [fold_left List.length].
  - cbn. lia.
  - cbn [forallb] in Hl. apply andb_true_iff in Hl as [Hc Hl].
    pose proof (digit_val_range c Hc) as Hr.
    specialize (IH (10 * a + digit_val c) ltac:(lia) Hl).
    rewrite Nat2Z.inj_succ, Z.pow_succ_r by lia.
    assert (0 < 10 ^ Z.of_nat (List.length l)) by (apply Z.pow_pos_nonneg; lia).
    nia.
Qed.

Lemma digits_value_range (g : list ascii) :
  forallb is_digit g = true ->
  0 <= digits_value g < 10 ^ Z.of_nat (List.length g).
Proof.
  intros H. pose proof (digits_fold_range g 0 ltac:(lia) H) as R.
  unfold digits_value. lia.
Qed.

Lemma digits_value_nonneg (g : list ascii) : digit_group g -> 0 <= digits_value g.
Proof. intros [_ H]. now apply digits_value_range. Qed.

Lemma short_value (g : list ascii) :
  digit_group g -> short g -> 0 <= digits_value g < 10 ^ 300.
Proof.
  intros [_ H] Hs. pose proof (digits_value_range g H) as R.
  assert (10 ^ Z.of_nat (List.length g) <= 10 ^ 300).
  { apply Z.pow_le_mono_r; unfold short in Hs; lia. }
  lia.
Qed.

(** *** The standard library's reading of a numeral *)

Lemma uint_digits (u : Decimal.uint) :
  forallb is_digit (list_ascii_of_string (NilEmpty.string_of_uint u)) = true.
Proof. induction u; cbn; auto. Qed.

Lemma of_uint_acc_fold (u : Decimal.uint) :
  forall acc : positive,
    Zpos (Pos.of_uint_acc u acc)
    = fold_left (fun a c => 10 * a + digit_val c)
                (list_ascii_of_string (NilEmpty.string_of_uint u)) (Zpos acc).
Proof.
  induction u; intros acc; cbn [NilEmpty.string_of_uint list_ascii_of_string
                                 fold_left Pos.of_uint_acc];
    [reflexivity | rewrite IHu; f_equal; try reflexivity;
                   match goal with
                   | |- context [digit_val ?c] =>
                       let v := eval vm_compute in (digit_val c) in
                       change (digit_val c) with v
                   end; lia ..].
Qed.

Lemma of_uint_fold (u : Decimal.uint) :
  Z.of_uint u
  = digits_value (list_ascii_of_string (NilEmpty.string_of_uint u)).
Proof.
  unfold Z.of_uint, digits_value.
  induction u; cbn [NilEmpty.string_of_uint list_ascii_of_string fold_left
                    Pos.of_uint];
    [reflexivity | exact IHu | cbn [Z.of_N]; rewrite of_uint_acc_fold; reflexivity ..].
Qed.

(** A numeral the standard library reads is a group of digits, and its
    value is the one the program computes for the group. *)
Lemma decimal_is_digit_group (text : list ascii) (z : Z) :
  decimal text = Some z -> digit_group text /\ digits_value text = z.
Proof.
  unfold decimal. destruct text as [ | c text]; [cbn; discriminate | ].
  destruct (NilEmpty.uint_of_string (string_of_list_ascii (c :: text)))
    as [u | ] eqn:E; [ | discriminate].
  intros [= <-]. apply NilEmpty.sus in E.
  assert (E' : c :: text = list_ascii_of_string (NilEmpty.string_of_uint u)).
  { now rewrite E, list_ascii_of_string_of_list_ascii. }
  rewrite E'. split; [split | ].
  - rewrite <- E'. discriminate.
  - apply uint_digits.
  - symmetry. apply of_uint_fold.
Qed.

Lemma digit_group_decimal (g : list ascii) :
  digit_group g -> decimal g = Some (digits_value g).
Proof.
  intros [Hne Hd]. unfold decimal. destruct g as [ | c g]; [now destruct Hne | ].
  assert (E : exists u, NilEmpty.uint_of_string (string_of_list_ascii (c :: g)) = Some u).
  { clear Hne. induction (c :: g) as [ | x l IH]; cbn [string_of_list_ascii NilEmpty.uint_of_string].
    - eauto.
    - cbn [forallb] in Hd. apply andb_true_iff in Hd as [Hx Hl].
      destruct (IH Hl) as (u & ->).
      destruct x as [[] [] [] [] [] [] [] []]; try discriminate Hx; cbn; eauto. }
  destruct E as (u & E). rewrite E. cbn [option_map]. f_equal.
  rewrite of_uint_fold. apply NilEmpty.sus in E. rewrite E.
  now rewrite list_ascii_of_string_of_list_ascii.
Qed.

Lemma int_of_decimal (text : string) (z : Z) :
  decimal (list_ascii_of_string text) = Some z ->
  short (list_ascii_of_string text) ->
  int_of_str text = Some z.
Proof.
  intros Hd Hs. apply decimal_is_digit_group in Hd as [Hg <-].
  rewrite <- (string_of_list_ascii_of_string text) at 1.
  apply int_of_digit_group; [exact Hg | ].
  unfold short in Hs. unfold max_str_digits. lia.
Qed.

End NumeralFacts.

(** ** Properties of the bitrate normalizer *)

Module BitrateFacts.
Import Notions Scenarios.
Import Py Bitrate.

Lemma int_of_float_scaled (b n : Z) (d : positive) :
  0 <= b -> 0 <= n ->
  int_of_float (inject_Z b * (n # d)) = (b * n) / Zpos d.
Proof.
  intros Hb Hn. unfold int_of_float. cbn [Qmult Qnum Qden inject_Z].
  rewrite Pos.mul_1_l. apply Z.quot_div_nonneg; nia.
Qed.

Lemma floor_scaled (b n : Z) (d : positive) :
  Qfloor (inject_Z b * (n # d)) = (b * n) / Zpos d.
Proof.
  unfold Qfloor. cbn [Qmult Qnum Qden inject_Z].
  now rewrite Pos.mul_1_l.
Qed.

Ltac split_codec s :=
  repeat match goal with
    | |- context [String.eqb s ?lit] =>
        destruct (String.eqb_spec s lit) as [-> | ?];
        cbn [String.eqb Ascii.eqb Bool.eqb orb andb]
    end.

(** The truncated product does not depend on the order in which the three
    codec lists are consulted, nor on the fractions [0.8] and [1.5] being
    written in lowest terms. *)
Lemma scaled_target_agrees (codec : string) (b : Z) :
  0 < b ->
  int_of_float (inject_Z b * scale_of (PStr codec))
  = Qfloor (inject_Z b * spec_scale (listed_family codec)).
Proof.
  intros Hb.
  assert (E8 : (b * 8) / 10 = (b * 4) / 5).
  { replace (b * 8) with (2 * (b * 4)) by ring.
    change 10 with (2 * 5). apply Z.div_mul_cancel_l; lia. }
  assert (E15 : (b * 15) / 10 = (b * 3) / 2).
  { replace (b * 15) with (5 * (b * 3)) by ring.
    change 10 with (5 * 2). apply Z.div_mul_cancel_l; lia. }
  unfold scale_of, listed_family, in_strs, EFFICIENT_CODECS,
    LEGACY_LOSSY_CODECS, LOSSLESS_CODECS.
  cbn [existsb eq_str orb spec_scale].
  split_codec codec;
    cbn [spec_scale];
    rewrite int_of_float_scaled, floor_scaled by lia;
    first [ reflexivity | exact E8 | exact E15 ].
Qed.

Lemma clamp_min_max (lo hi x : Z) :
  lo <= hi -> Z.min (Z.max lo x) hi = spec_clamp (lo, hi) x.
Proof.
  intros H. unfold spec_clamp.
  destruct (Z.ltb_spec x lo); [lia|].
  destruct (Z.ltb_spec hi x); lia.
Qed.

Example default_mono :
  equivalent_aac_bitrate (PStr "aac") (Some 0) (PInt 1) = 128000.
Proof. reflexivity. Qed.

Example default_stereo :
  equivalent_aac_bitrate (PStr "mp3") None (PInt 2) = 320000.
Proof. reflexivity. Qed.

Example default_surround :
  equivalent_aac_bitrate (PStr "dts") (Some (-1)) (PInt 6) = 512000.
Proof. reflexivity. Qed.

Example mp3_stereo :
  equivalent_aac_bitrate (PStr "mp3") (Some 200000) (PInt 2) = 160000.
Proof. reflexivity. Qed.

Example flac_stereo :
  equivalent_aac_bitrate (PStr "flac") (Some 1000000) (PInt 2) = 320000.
Proof. reflexivity. Qed.

Example pcm_variants_of_the_claim :
  map claimed_family ["pcm_s16le"; "pcm_s16be"; "pcm_f32le"; "pcm_mulaw"; "mlp"]
  = [Lossless; Lossless; Lossless; Lossless; Lossless]
  /\ map listed_family ["pcm_s16le"; "pcm_s16be"; "pcm_f32le"; "pcm_mulaw"; "mlp"]
     = [Lossless; Unknown; Unknown; Unknown; Lossless].
Proof. split; reflexivity. Qed.

(** C2 does not hold as stated: of the PCM variants only [pcm_s16le],
    [pcm_s24le] and [pcm_s32le] are in [LOSSLESS_CODECS].  A big-endian
    stereo PCM stream of 100000 bit/s is an unknown codec for
    [equivalent_aac_bitrate], which returns 100000, where the scale 1.5 of
    the lossless set gives 150000. *)
Lemma big_endian_pcm_is_not_scaled :
  equivalent_aac_bitrate (PStr "pcm_s16be") (Some 100000) (PInt 2) = 100000
  /\ spec_target_audio_bitrate claimed_family "pcm_s16be" (Some 100000) 2
     = 150000.
Proof. split; reflexivity. Qed.

(** C2 (as the code has it). For every codec name, every channel count and
    every source bitrate below [10 ^ 300] (so that its product with the
    scale is a float), [equivalent_aac_bitrate] returns the channel-based default (128000 for
    one channel, 320000 for two, 512000 otherwise) when the bitrate is
    missing or not positive, and otherwise the truncated product of the
    bitrate and the codec family's scale (1.0 for aac, opus, vorbis and
    unknown codecs, 0.8 for the legacy lossy codecs, 1.5 for flac, alac,
    mlp, pcm_s16le, pcm_s24le and pcm_s32le), clamped to [32000,128000],
    [64000,320000] or [192000,512000] by channel count. *)
Theorem equivalent_aac_bitrate_policy
    (codec : string) (bitrate : option Z) (channel_count : Z) :
  float_sized bitrate ->
  equivalent_aac_bitrate (PStr codec) bitrate (PInt channel_count)
  = spec_target_audio_bitrate listed_family codec bitrate channel_count.
Proof.
  intros _.
  unfold equivalent_aac_bitrate, spec_target_audio_bitrate, layout_of.
  cbn [eq_int].
  destruct bitrate as [b | ]; cbn [no_bitrate].
  - destruct (Z.leb_spec b 0) as [Hle | Hgt].
    + rewrite orb_true_r.
      destruct (channel_count =? 1), (channel_count =? 2); reflexivity.
    + replace (b =? 0) with false by (symmetry; apply Z.eqb_neq; lia).
      cbn [orb]. rewrite scaled_target_agrees by lia.
      destruct (channel_count =? 1), (channel_count =? 2);
        cbn [spec_bounds]; apply clamp_min_max; lia.
  - destruct (channel_count =? 1), (channel_count =? 2); reflexivity.
Qed.

Lemma equivalent_aac_bitrate_policy_witness :
  equivalent_aac_bitrate (PStr "pcm_s24le") (Some 100000) (PInt 2) = 150000
  /\ equivalent_aac_bitrate (PStr "mp3") (Some 100001) (PInt 1) = 80000
  /\ equivalent_aac_bitrate (PStr "dts") (Some 1536000) (PInt 6) = 512000
  /\ equivalent_aac_bitrate (PStr "opus") None (PInt 1) = 128000.
Proof.
  refine (conj _ (conj _ (conj _ _))).
  - rewrite (equivalent_aac_bitrate_policy "pcm_s24le" (Some 100000) 2);
      [reflexivity | vm_compute; reflexivity].
  - rewrite (equivalent_aac_bitrate_policy "mp3" (Some 100001) 1);
      [reflexivity | vm_compute; reflexivity].
  - rewrite (equivalent_aac_bitrate_policy "dts" (Some 1536000) 6);
      [reflexivity | vm_compute; reflexivity].
  - rewrite (equivalent_aac_bitrate_policy "opus" None 1);
      [reflexivity | exact I].
Defined.

End BitrateFacts.

(** ** Properties of the command planner *)

Module PlannerFacts.
Import Notions Scenarios.
Import Py Bitrate Planner NumeralFacts.

Lemma count_video_snoc (before : list dict) (s : dict) :
  count_video (before ++ [s])
  = count_video before + (if is_video s then 1 else 0).
Proof.
  unfold count_video. rewrite filter_app, length_app. cbn [filter].
  destruct (is_video s); cbn [List.length]; lia.
Qed.

Lemma count_audio_snoc (before : list dict) (s : dict) :
  count_audio (before ++ [s])
  = count_audio before + (if is_audio s then 1 else 0).
Proof.
  unfold count_audio. rewrite filter_app, length_app. cbn [filter].
  destruct (is_audio s); cbn [List.length]; lia.
Qed.

(** One iteration appends exactly the stream's contribution. *)
Lemma step_appends (crf : Z) (preset : string) (st : plan_state)
    (before : list dict) (s : dict) :
  counters_agree st before ->
  cmd (step crf preset st s) = cmd st ++ stream_args crf preset before s
  /\ counters_agree (step crf preset st s) (before ++ [s]).
Proof.
  intros [Hv Ha]. unfold counters_agree.
  rewrite count_video_snoc, count_audio_snoc.
  unfold step, stream_args, is_audio, is_video, video_codec_args,
    audio_codec_args.
  destruct (eq_str (codec_type s) "video") eqn:Ev; cbn [negb andb].
  - rewrite <- Hv.
    destruct (eq_str (codec_name s) "h264"); cbn [cmd v_map_idx a_map_idx];
      rewrite <- app_assoc; repeat split; trivial; lia.
  - destruct (eq_str (codec_type s) "audio") eqn:Ea.
    + rewrite <- Ha.
      destruct (eq_str (codec_name s) "aac"
                && (equivalent_aac_bitrate (codec_name s) (Some (bitrate s))
                      (channels s) <=? bitrate s));
        cbn [cmd v_map_idx a_map_idx];
        rewrite <- app_assoc; repeat split; trivial; lia.
    + rewrite app_nil_r. repeat split; lia.
Qed.

(** The loop appends the contributions of all streams, in source order. *)
Lemma loop_appends (crf : Z) (preset : string) (l : list dict) :
  forall (st : plan_state) (before : list dict),
    counters_agree st before ->
    cmd (fold_left (step crf preset) l st)
    = cmd st ++ List.concat (contributions crf preset before l).
Proof.
  induction l as [ | s l IH]; intros st before Hc; cbn [fold_left contributions List.concat].
  - now rewrite app_nil_r.
  - destruct (step_appends crf preset st before s Hc) as [Hcmd Hc'].
    rewrite (IH _ _ Hc'), Hcmd. now rewrite app_assoc.
Qed.

Lemma contributions_app (crf : Z) (preset : string) (l1 l2 : list dict) :
  forall before,
    contributions crf preset before (l1 ++ l2)
    = contributions crf preset before l1
      ++ contributions crf preset (before ++ l1) l2.
Proof.
  induction l1 as [ | s l1 IH]; intros before; cbn [app contributions].
  - now rewrite app_nil_r.
  - rewrite IH, <- app_assoc. reflexivity.
Qed.

(** Shape of every command. *)
Lemma command_layout (streams : list dict) (input_file output_file : string)
    (crf : Z) (preset : string) :
  build_ffmpeg_command streams input_file output_file crf preset
  = ["ffmpeg"; "-y"; "-i"; input_file]
    ++ List.concat (contributions crf preset [] streams)
    ++ ["-movflags"; "+faststart"; output_file].
Proof.
  unfold build_ffmpeg_command, plan.
  rewrite (loop_appends crf preset streams _ []) by (split; reflexivity).
  cbn [cmd]. now rewrite <- app_assoc.
Qed.

(** The command around the contribution of one stream. *)
Lemma command_around (pre post : list dict) (s : dict)
    (input_file output_file : string) (crf : Z) (preset : string) :
  build_ffmpeg_command (pre ++ s :: post) input_file output_file crf preset
  = (["ffmpeg"; "-y"; "-i"; input_file]
     ++ List.concat (contributions crf preset [] pre))
    ++ stream_args crf preset pre s
    ++ (List.concat (contributions crf preset (pre ++ [s]) post)
        ++ ["-movflags"; "+faststart"; output_file]).
Proof.
  rewrite command_layout, contributions_app. cbn [contributions app].
  rewrite concat_app. cbn [List.concat]. now rewrite <- !app_assoc.
Qed.

Example sample_command :
  build_ffmpeg_command sample_streams "in.mkv" "in.mp4" default_crf default_preset
  = ["ffmpeg"; "-y"; "-i"; "in.mkv";
     "-map"; "0:0"; "-c:v:0"; "copy";
     "-map"; "0:1"; "-c:v:1"; "libx264"; "-crf"; "18"; "-preset"; "slow";
     "-map"; "0:2"; "-c:a:0"; "copy";
     "-map"; "0:4"; "-c:a:1"; "aac"; "-profile:a"; "aac_low"; "-b:a:1"; "160000";
     "-movflags"; "+faststart"; "in.mp4"].
Proof. vm_compute. reflexivity. Qed.

Lemma contributions_length (crf : Z) (preset : string) (l : list dict) :
  forall before, List.length (contributions crf preset before l) = List.length l.
Proof.
  induction l as [ | s l IH]; intros before; cbn [contributions List.length];
    [reflexivity | now rewrite IH].
Qed.

Lemma contributions_nth (crf : Z) (preset : string) (pre post : list dict)
    (s : dict) :
  nth_error (contributions crf preset [] (pre ++ s :: post)) (List.length pre)
  = Some (stream_args crf preset pre s).
Proof.
  rewrite contributions_app. cbn [contributions app].
  rewrite nth_error_app2 by (rewrite contributions_length; lia).
  rewrite contributions_length, Nat.sub_diag. reflexivity.
Qed.

Lemma names_codec_read (s : dict) (codec : string) :
  names_codec s codec -> codec_name s = PStr codec.
Proof.
  unfold codec_name, get. intros [-> | [-> ->]]; reflexivity.
Qed.

Lemma counts_channels_read (s : dict) (n : Z) :
  counts_channels s n -> channels s = PInt n.
Proof.
  unfold channels, get. intros [-> | [-> ->]]; reflexivity.
Qed.

Lemma carries_bit_rate_read (s : dict) (b : Z) :
  carries_bit_rate s b -> bitrate s = b.
Proof.
  unfold bitrate, get.
  intros [-> | [(text & -> & Hd & Hs) | [[-> | ->] ->]]];
    unfold or_zero; cbn [truthy]; try reflexivity.
  - destruct (b =? 0) eqn:E; cbn [negb]; [ | reflexivity].
    apply Z.eqb_eq in E. now subst.
  - destruct (String.eqb_spec text "") as [-> | _]; cbn [negb].
    + discriminate Hd.
    + now rewrite (int_of_decimal text b Hd Hs).
Qed.

Lemma video_stream_read (s : dict) (codec : string) :
  video_stream s codec -> is_video s = true /\ codec_name s = PStr codec.
Proof.
  intros [Ht Hc]. split; [ | now apply names_codec_read].
  unfold is_video, codec_type, get. now rewrite Ht.
Qed.

Lemma audio_stream_read (s : dict) (codec : string) (b n : Z) :
  audio_stream s codec b n ->
  is_video s = false /\ is_audio s = true /\ codec_name s = PStr codec
  /\ bitrate s = b /\ channels s = PInt n.
Proof.
  intros (Ht & Hc & Hn & Hb).
  unfold is_audio, is_video, codec_type, get. rewrite Ht.
  repeat split;
    [now apply names_codec_read | now apply carries_bit_rate_read
     | now apply counts_channels_read].
Qed.

(** C3. In every command, a video stream is copied exactly when its
    [codec_name] is [h264] and is otherwise transcoded with [libx264] and
    the given [crf] and [preset]; an audio stream is copied exactly when
    its [codec_name] is [aac] and its bitrate is at least the target
    [equivalent_aac_bitrate] computes from its codec, bitrate and channel
    count, and is otherwise transcoded to [aac] at that target with the
    [aac_low] profile. *)
Theorem copy_or_transcode (pre post : list dict) (s : dict)
    (input_file output_file : string) (crf : Z) (preset : string) :
  let command :=
    build_ffmpeg_command (pre ++ s :: post) input_file output_file crf preset in
  let before :=
    ["ffmpeg"; "-y"; "-i"; input_file]
    ++ List.concat (contributions crf preset [] pre) in
  let after :=
    List.concat (contributions crf preset (pre ++ [s]) post)
    ++ ["-movflags"; "+faststart"; output_file] in
  (forall codec : string,
      video_stream s codec ->
      command
      = before
        ++ ["-map"; ("0:" ++ str (index s))%string;
            ("-c:v:" ++ str_of_Z (count_video pre))%string]
        ++ (if String.eqb codec "h264" then ["copy"]
            else ["libx264"; "-crf"; str_of_Z crf; "-preset"; preset])
        ++ after)
  /\ (forall (codec : string) (b channel_count : Z),
         audio_stream s codec b channel_count ->
         float_sized (Some b) ->
         let target :=
           equivalent_aac_bitrate (PStr codec) (Some b) (PInt channel_count) in
         command
         = before
           ++ ["-map"; ("0:" ++ str (index s))%string;
               ("-c:a:" ++ str_of_Z (count_audio pre))%string]
           ++ (if String.eqb codec "aac" && (target <=? b)
               then ["copy"]
               else ["aac"; "-profile:a"; "aac_low";
                     ("-b:a:" ++ str_of_Z (count_audio pre))%string;
                     str_of_Z target])
           ++ after).
Proof.
  cbv zeta. split.
  - intros codec Hs. apply video_stream_read in Hs as [Hty Hc].
    rewrite command_around. unfold stream_args.
    rewrite Hty. unfold video_codec_args. rewrite Hc. cbn [eq_str].
    now rewrite <- !app_assoc.
  - intros codec b n Hs _.
    apply audio_stream_read in Hs as (Hv & Ha & Hc & Hb & Hn).
    rewrite command_around. unfold stream_args.
    rewrite Hv, Ha. unfold audio_codec_args. rewrite Hc, Hb, Hn. cbn [eq_str].
    now rewrite <- !app_assoc.
Qed.

(** C9. Every command begins with [ffmpeg -y -i <input>] and ends with
    [-movflags +faststart <output>]; in between, each video or audio
    stream, in source order, contributes [-map 0:<index>] followed by a
    codec option numbered by the count of earlier streams of its own type,
    and streams of any other type contribute nothing. *)
Theorem command_structure (streams : list dict)
    (input_file output_file : string) (crf : Z) (preset : string) :
  build_ffmpeg_command streams input_file output_file crf preset
  = ["ffmpeg"; "-y"; "-i"; input_file]
    ++ List.concat (contributions crf preset [] streams)
    ++ ["-movflags"; "+faststart"; output_file]
  /\ List.length (contributions crf preset [] streams) = List.length streams
  /\ forall (pre post : list dict) (s : dict),
      streams = pre ++ s :: post ->
      nth_error (contributions crf preset [] streams) (List.length pre)
      = Some (stream_args crf preset pre s)
      /\ (is_video s = true ->
          exists codec_args,
            stream_args crf preset pre s
            = "-map" :: ("0:" ++ str (index s))%string
              :: ("-c:v:" ++ str_of_Z (count_video pre))%string :: codec_args)
      /\ (is_audio s = true ->
          exists codec_args,
            stream_args crf preset pre s
            = "-map" :: ("0:" ++ str (index s))%string
              :: ("-c:a:" ++ str_of_Z (count_audio pre))%string :: codec_args)
      /\ (is_video s = false -> is_audio s = false ->
          stream_args crf preset pre s = []).
Proof.
  split; [apply command_layout | ].
  split; [apply contributions_length | ].
  intros pre post s ->. split; [apply contributions_nth | ].
  unfold stream_args. repeat split.
  - intros ->. eexists. reflexivity.
  - intros Ha.
    assert (Hv : is_video s = false).
    { unfold is_audio in Ha. destruct (is_video s); [discriminate | reflexivity]. }
    rewrite Hv, Ha. eexists. reflexivity.
  - intros -> ->. reflexivity.
Qed.

Lemma copy_or_transcode_witness :
  let command :=
    build_ffmpeg_command surround_streams "in.mkv" "in.mp4"
                         default_crf default_preset in
  command
  = ["ffmpeg"; "-y"; "-i"; "in.mkv"]
    ++ ["-map"; "0:0"; "-c:v:0"]
    ++ ["libx264"; "-crf"; "18"; "-preset"; "slow"]
    ++ ["-map"; "0:1"; "-c:a:0"; "aac"; "-profile:a"; "aac_low";
        "-b:a:0"; "192000";
        "-map"; "0:2"; "-c:a:1"; "copy"; "-movflags"; "+faststart"; "in.mp4"]
  /\ command
     = ["ffmpeg"; "-y"; "-i"; "in.mkv";
        "-map"; "0:0"; "-c:v:0"; "libx264"; "-crf"; "18"; "-preset"; "slow"]
       ++ ["-map"; "0:1"; "-c:a:0"]
       ++ ["aac"; "-profile:a"; "aac_low"; "-b:a:0"; "192000"]
       ++ ["-map"; "0:2"; "-c:a:1"; "copy"; "-movflags"; "+faststart"; "in.mp4"]
  /\ command
     = ["ffmpeg"; "-y"; "-i"; "in.mkv";
        "-map"; "0:0"; "-c:v:0"; "libx264"; "-crf"; "18"; "-preset"; "slow";
        "-map"; "0:1"; "-c:a:0"; "aac"; "-profile:a"; "aac_low";
        "-b:a:0"; "192000"]
       ++ ["-map"; "0:2"; "-c:a:1"]
       ++ ["copy"]
       ++ ["-movflags"; "+faststart"; "in.mp4"].
Proof.
  cbv zeta. refine (conj _ (conj _ _)).
  - refine (proj1 (copy_or_transcode [] (skipn 1 surround_streams)
                     [("index", PInt 0); ("codec_type", PStr "video");
                      ("codec_name", PStr "hevc")]
                     "in.mkv" "in.mp4" default_crf default_preset)
                  "hevc" _).
    split; [reflexivity | left; reflexivity].
  - refine (proj2 (copy_or_transcode (firstn 1 surround_streams)
                     (skipn 2 surround_streams)
                     [("index", PInt 1); ("codec_type", PStr "audio");
                      ("codec_name", PStr "aac"); ("channels", PInt 6);
                      ("bit_rate", PStr "150000")]
                     "in.mkv" "in.mp4" default_crf default_preset)
                  "aac" 150000 6 _ _).
    + refine (conj eq_refl (conj (or_introl eq_refl) (conj (or_introl eq_refl) _))).
      right. left. exists "150000"%string.
      refine (conj eq_refl (conj eq_refl _)). unfold short. cbn. lia.
    + vm_compute. reflexivity.
  - refine (proj2 (copy_or_transcode (firstn 2 surround_streams) []
                     [("index", PInt 2); ("codec_type", PStr "audio");
                      ("codec_name", PStr "aac"); ("channels", PInt 1);
                      ("bit_rate", PStr "96000")]
                     "in.mkv" "in.mp4" default_crf default_preset)
                  "aac" 96000 1 _ _).
    + refine (conj eq_refl (conj (or_introl eq_refl) (conj (or_introl eq_refl) _))).
      right. left. exists "96000"%string.
      refine (conj eq_refl (conj eq_refl _)). unfold short. cbn. lia.
    + vm_compute. reflexivity.
Defined.

Lemma command_structure_witness :
  nth_error (contributions default_crf default_preset [] sample_streams) 4
  = Some ["-map"; "0:4"; "-c:a:1"; "aac"; "-profile:a"; "aac_low";
          "-b:a:1"; "160000"]
  /\ nth_error (contributions default_crf default_preset [] sample_streams) 3
     = Some [].
Proof.
  split.
  - exact (proj1 (proj2 (proj2 (command_structure sample_streams "in.mkv"
                                  "in.mp4" default_crf default_preset))
                          (firstn 4 sample_streams) (skipn 5 sample_streams)
                          [("index", PInt 4); ("codec_type", PStr "audio");
                           ("codec_name", PStr "mp3"); ("channels", PInt 2);
                           ("bit_rate", PStr "200000")]
                          eq_refl)).
  - exact (proj1 (proj2 (proj2 (command_structure sample_streams "in.mkv"
                                  "in.mp4" default_crf default_preset))
                          (firstn 3 sample_streams) (skipn 4 sample_streams)
                          [("index", PInt 3); ("codec_type", PStr "subtitle");
                           ("codec_name", PStr "subrip")]
                          eq_refl)).
Defined.

End PlannerFacts.

Module RegexExamples.
Import Notions Scenarios.
Import Regex.

Example banner :
  shown (search duration_re "  Duration: 00:01:00.00, start: 0.000000, bitrate: 1 kb/s")
  = Some ["00"; "01"; "00"; "00"].
Proof. reflexivity. Qed.

Example status_line :
  shown (search time_re "frame=  10 fps=0.0 q=28.0 size=1kB time=00:00:30.50 bitrate=3.0kbits/s")
  = Some ["00"; "00"; "30"; "50"].
Proof. reflexivity. Qed.

Example not_available : search duration_re "  Duration: N/A, bitrate: N/A" = None.
Proof. reflexivity. Qed.

(** The unescaped dot lets the seconds give up digits. *)
Example backtracking :
  shown (search duration_re "Duration: 1:2:345") = Some ["1"; "2"; "3"; "5"].
Proof. reflexivity. Qed.

Example escaped_dot : search duration_re_gui "Duration: 1:2:345" = None.
Proof. reflexivity. Qed.

Example second_occurrence :
  shown (search time_re "time=N/A time=1:02:03.04") = Some ["1"; "02"; "03"; "04"].
Proof. reflexivity. Qed.

End RegexExamples.

(** ** Properties of the regular expressions and of [int] on their groups *)

Module RegexFacts.
Import Notions Scenarios.
Import Py Regex Effects Parser NumeralFacts.

Lemma firstn_digit_run (s : list ascii) :
  forall n, (n <= digit_run s)%nat -> forallb is_digit (firstn n s) = true.
Proof.
  induction s as [ | c s IH]; intros [ | n] Hn; cbn [firstn forallb]; try reflexivity.
  cbn [digit_run] in Hn. destruct (is_digit c) eqn:Hc; [ | lia].
  cbn [andb]. apply IH. lia.
Qed.

Lemma firstn_nonempty (s : list ascii) (n : nat) :
  (1 <= n <= digit_run s)%nat -> firstn n s <> [].
Proof.
  destruct s as [ | c s]; cbn [digit_run]; [lia | ].
  destruct n as [ | n]; [lia | ]. discriminate.
Qed.

(** What a successful greedy group yields. *)
Lemma greedy_some (k : list ascii -> option (list (list ascii)))
    (s : list ascii) (n : nat) (groups : list (list ascii)) :
  greedy k s n = Some groups ->
  exists m rest,
    (1 <= m <= n)%nat /\ k (skipn m s) = Some rest /\ groups = firstn m s :: rest.
Proof.
  induction n as [ | n IH]; cbn [greedy]; [discriminate | ].
  destruct (k (skipn (S n) s)) as [rest | ] eqn:Hk.
  - intros [= <-]. exists (S n), rest. repeat split; trivial; lia.
  - intros H. destruct (IH H) as (m & rest & Hm & Hr & ->).
    exists m, rest. repeat split; trivial; lia.
Qed.

Lemma match_here_groups (p : pattern) :
  forall s groups,
    match_here p s = Some groups ->
    List.length groups = group_count p /\ Forall digit_group groups.
Proof.
  induction p as [ | a p IH]; intros s groups; cbn [match_here group_count].
  - intros [= <-]. split; [reflexivity | constructor].
  - destruct a as [c | | ].
    + destruct s as [ | x s]; [discriminate | ].
      destruct (Ascii.eqb x c); [apply IH | discriminate].
    + destruct s as [ | x s]; [discriminate | ].
      destruct (Ascii.eqb x "010"); [discriminate | apply IH].
    + intros H. apply greedy_some in H as (m & rest & Hm & Hr & ->).
      destruct (IH _ _ Hr) as [Hlen Hall]. split; [cbn; now rewrite Hlen | ].
      constructor; [ | exact Hall].
      split; [now apply firstn_nonempty | apply firstn_digit_run; lia].
Qed.

Lemma search_from_groups (p : pattern) (s : list ascii) :
  forall groups,
    search_from p s = Some groups ->
    List.length groups = group_count p /\ Forall digit_group groups.
Proof.
  induction s as [ | x s IH]; intros groups; cbn [search_from].
  - destruct (match_here p []) eqn:Hm; [ | discriminate].
    intros [= <-]. eapply match_here_groups; eassumption.
  - destruct (match_here p (x :: s)) eqn:Hm.
    + intros [= <-]. eapply match_here_groups; eassumption.
    + apply IH.
Qed.

(** A match of a pattern that begins with literal text begins with it. *)
Lemma match_here_prefix (pre : list ascii) (p : pattern) :
  forall s groups,
    match_here (map Chr pre ++ p) s = Some groups -> prefix_of pre s = true.
Proof.
  induction pre as [ | c pre IH]; intros s groups; cbn [map app match_here prefix_of].
  - reflexivity.
  - destruct s as [ | x s]; [discriminate | ].
    destruct (Ascii.eqb x c); [ | discriminate].
    intros H. cbn [andb]. eapply IH; eassumption.
Qed.

Lemma prefix_of_app (a b s : list ascii) :
  prefix_of (a ++ b) s = true -> prefix_of a s = true.
Proof.
  revert s. induction a as [ | c a IH]; intros s; cbn [app prefix_of]; [reflexivity | ].
  destruct s as [ | x s]; [discriminate | ].
  intros H. apply andb_true_iff in H as [Hx Hr].
  rewrite Hx. cbn [andb]. now apply IH.
Qed.

(** A line matched by a pattern contains every head of its literal prefix. *)
Lemma search_contains (a b : list ascii) (p : pattern) (s : list ascii) :
  forall groups,
    search_from (map Chr (a ++ b) ++ p) s = Some groups ->
    contains_from a s = true.
Proof.
  induction s as [ | x s IH]; intros groups; cbn [search_from contains_from].
  - destruct (match_here _ []) eqn:Hm; [ | discriminate].
    intros _. apply match_here_prefix, prefix_of_app in Hm. now rewrite Hm.
  - destruct (match_here _ (x :: s)) eqn:Hm.
    + intros _. apply match_here_prefix, prefix_of_app in Hm. now rewrite Hm.
    + intros H. rewrite (IH _ H). apply orb_true_r.
Qed.

Lemma infix_cons (g s : list ascii) (x : ascii) : infix g s -> infix g (x :: s).
Proof. intros (a & b & ->). now exists (x :: a), b. Qed.

Lemma infix_skipn (g s : list ascii) (n : nat) : infix g (skipn n s) -> infix g s.
Proof.
  intros (a & b & E). exists (firstn n s ++ a), b.
  rewrite <- (firstn_skipn n s) at 1. rewrite E. now rewrite <- app_assoc.
Qed.

Lemma infix_firstn (s : list ascii) (n : nat) : infix (firstn n s) s.
Proof. exists [], (skipn n s). cbn [app]. symmetry. apply firstn_skipn. Qed.

(** Every captured group stands in the subject. *)
Lemma match_here_infix (p : pattern) :
  forall s groups,
    match_here p s = Some groups -> Forall (fun g => infix g s) groups.
Proof.
  induction p as [ | a p IH]; intros s groups; cbn [match_here].
  - intros [= <-]. constructor.
  - destruct a as [c | | ].
    + destruct s as [ | x s]; [discriminate | ].
      destruct (Ascii.eqb x c); [ | discriminate].
      intros H. apply IH in H. eapply Forall_impl; [ | exact H].
      intros g. apply infix_cons.
    + destruct s as [ | x s]; [discriminate | ].
      destruct (Ascii.eqb x "010"); [discriminate | ].
      intros H. apply IH in H. eapply Forall_impl; [ | exact H].
      intros g. apply infix_cons.
    + intros H. apply greedy_some in H as (m & rest & _ & Hr & ->).
      constructor; [apply infix_firstn | ].
      apply IH in Hr. eapply Forall_impl; [ | exact Hr].
      intros g. apply infix_skipn.
Qed.

Lemma search_from_infix (p : pattern) (s : list ascii) :
  forall groups,
    search_from p s = Some groups -> Forall (fun g => infix g s) groups.
Proof.
  induction s as [ | x s IH]; intros groups; cbn [search_from].
  - destruct (match_here p []) eqn:Hm; [ | discriminate].
    intros [= <-]. eapply match_here_infix; eassumption.
  - destruct (match_here p (x :: s)) eqn:Hm.
    + intros [= <-]. eapply match_here_infix; eassumption.
    + intros H. apply IH in H. eapply Forall_impl; [ | exact H].
      intros g. apply infix_cons.
Qed.

(** In a line whose numbers are short every captured group is short. *)
Lemma search_short (p : pattern) (line : string) (groups : list (list ascii)) :
  short_numbers line -> search p line = Some groups -> Forall short groups.
Proof.
  intros Hline Hs.
  pose proof (search_from_infix _ _ _ Hs) as Hin.
  apply search_from_groups in Hs as [_ Hd].
  apply Forall_forall. intros g Hg.
  apply Hline.
  - now apply (proj1 (Forall_forall _ _) Hin).
  - now apply (proj1 (Forall_forall _ _) Hd).
Qed.

End RegexFacts.

(** ** Properties of the progress parser *)

Module ParserFacts.
Import Notions Scenarios.
Import Py Regex Effects Parser Converter NumeralFacts RegexFacts.

(** [int] on the captured groups: the only failure is the one of a group
    longer than the interpreter allows. *)
Lemma ints_outcome (groups : list (list ascii)) :
  Forall digit_group groups ->
  ints groups = Ok (map digits_value groups) \/ ints groups = Raise ValueError.
Proof.
  induction 1 as [ | g groups Hg _ IH]; cbn [ints map]; [now left | ].
  rewrite (int_of_digit_run g Hg).
  destruct (List.length g <=? max_str_digits)%nat; [ | now right].
  destruct IH as [-> | ->]; [now left | now right].
Qed.

Lemma short_is_allowed (g : list ascii) :
  short g -> (List.length g <= max_str_digits)%nat.
Proof. unfold short, max_str_digits. lia. Qed.

Lemma ints_of_short_groups (groups : list (list ascii)) :
  Forall digit_group groups -> Forall short groups ->
  ints groups = Ok (map digits_value groups).
Proof.
  induction 1 as [ | g groups Hg _ IH]; intros Hs; cbn [ints map]; [reflexivity | ].
  inversion Hs as [ | ? ? Hg' Hs']; subst.
  now rewrite (int_of_digit_group g Hg (short_is_allowed g Hg')), (IH Hs').
Qed.

Lemma clock_seconds_nonneg (h m s f : Z) :
  0 <= h -> 0 <= m -> 0 <= s -> 0 <= f -> (0 <= clock_seconds h m s f)%Q.
Proof.
  intros Hh Hm Hs Hf. unfold clock_seconds.
  assert (H1 : (0 <= inject_Z (h * 3600 + m * 60 + s))%Q).
  { change 0%Q with (inject_Z 0). rewrite <- Zle_Qle. lia. }
  assert (H2 : (0 <= f # 100)%Q) by (unfold Qle; cbn; lia).
  lra.
Qed.

(** *** The two sums *)

Lemma seconds_outcome (h m s ms : Z) :
  seconds h m s ms = Ok (clock_seconds h m s ms)
  \/ seconds h m s ms = Raise OverflowError.
Proof.
  unfold seconds, int_truediv, float_of_int.
  destruct (Z.abs ms <? float_limit * 100); [ | now right].
  destruct (Z.abs (h * 3600 + m * 60 + s) <? float_limit); [now left | now right].
Qed.

Lemma seconds_gui_outcome (h m s ms : Z) :
  seconds_gui h m s ms = Ok (clock_seconds h m s ms)
  \/ seconds_gui h m s ms = Raise OverflowError.
Proof.
  unfold seconds_gui, float_of_int.
  destruct (Z.abs ms <? float_limit); [ | now right].
  destruct (Z.abs (h * 3600 + m * 60 + s) <? float_limit); [now left | now right].
Qed.

Lemma float_limit_room : 3661 * 10 ^ 300 < float_limit.
Proof. vm_compute. reflexivity. Qed.

Lemma seconds_short (h m s ms : Z) :
  0 <= h < 10 ^ 300 -> 0 <= m < 10 ^ 300 -> 0 <= s < 10 ^ 300 ->
  0 <= ms < 10 ^ 300 ->
  seconds h m s ms = Ok (clock_seconds h m s ms)
  /\ seconds_gui h m s ms = Ok (clock_seconds h m s ms).
Proof.
  intros Hh Hm Hs Hms. pose proof float_limit_room as R.
  unfold seconds, seconds_gui, int_truediv, float_of_int.
  set (L := float_limit) in *. set (B := 10 ^ 300) in *. clearbody L B.
  assert (E1 : (Z.abs ms <? L * 100) = true) by (apply Z.ltb_lt; lia).
  assert (E2 : (Z.abs ms <? L) = true) by (apply Z.ltb_lt; lia).
  assert (E3 : (Z.abs (h * 3600 + m * 60 + s) <? L) = true)
    by (apply Z.ltb_lt; lia).
  rewrite E1, E2, E3. split; reflexivity.
Qed.

(** *** The clock of four captured groups *)

Section Sum.

Variable sum : Z -> Z -> Z -> Z -> result Q.
Hypothesis sum_outcome :
  forall h m s ms,
    sum h m s ms = Ok (clock_seconds h m s ms)
    \/ sum h m s ms = Raise OverflowError.
Hypothesis sum_short :
  forall h m s ms,
    0 <= h < 10 ^ 300 -> 0 <= m < 10 ^ 300 -> 0 <= s < 10 ^ 300 ->
    0 <= ms < 10 ^ 300 ->
    sum h m s ms = Ok (clock_seconds h m s ms).

Lemma clock_value_by_outcome (gh gm gs gf : list ascii) :
  Forall digit_group [gh; gm; gs; gf] ->
  clock_value_by sum [gh; gm; gs; gf]
  = Ok (clock_seconds (digits_value gh) (digits_value gm) (digits_value gs)
          (digits_value gf))
  \/ exists e, clock_value_by sum [gh; gm; gs; gf] = Raise e.
Proof.
  intros Hg. unfold clock_value_by.
  destruct (ints_outcome _ Hg) as [-> | ->]; [ | right; eauto].
  cbn [map].
  destruct (sum_outcome (digits_value gh) (digits_value gm) (digits_value gs)
              (digits_value gf)) as [-> | ->]; [now left | right; eauto].
Qed.

Lemma clock_value_by_short (gh gm gs gf : list ascii) :
  Forall digit_group [gh; gm; gs; gf] ->
  Forall short [gh; gm; gs; gf] ->
  clock_value_by sum [gh; gm; gs; gf]
  = Ok (clock_seconds (digits_value gh) (digits_value gm) (digits_value gs)
          (digits_value gf)).
Proof.
  intros Hg Hs. unfold clock_value_by.
  rewrite (ints_of_short_groups _ Hg Hs). cbn [map].
  inversion Hg as [ | ? ? G1 Hg1]; subst. inversion Hg1 as [ | ? ? G2 Hg2]; subst.
  inversion Hg2 as [ | ? ? G3 Hg3]; subst. inversion Hg3 as [ | ? ? G4 _]; subst.
  inversion Hs as [ | ? ? S1 Hs1]; subst. inversion Hs1 as [ | ? ? S2 Hs2]; subst.
  inversion Hs2 as [ | ? ? S3 Hs3]; subst. inversion Hs3 as [ | ? ? S4 _]; subst.
  apply sum_short; now apply short_value.
Qed.

End Sum.

Lemma clock_value_reads : reads_clock clock_value.
Proof.
  split; intros gh gm gs gf Hg.
  - exact (clock_value_by_outcome seconds seconds_outcome gh gm gs gf Hg).
  - apply (clock_value_by_short seconds); [ | exact Hg].
    intros. now apply seconds_short.
Qed.

Lemma clock_value_gui_reads : reads_clock clock_value_gui.
Proof.
  split; intros gh gm gs gf Hg.
  - exact (clock_value_by_outcome seconds_gui seconds_gui_outcome gh gm gs gf Hg).
  - apply (clock_value_by_short seconds_gui); [ | exact Hg].
    intros. now apply seconds_short.
Qed.

Lemma clock_pattern_groups (prefix : string) (sep : atom) :
  sep <> Digits -> group_count (clock_pattern prefix sep) = 4%nat.
Proof.
  intros Hsep. unfold clock_pattern, lit.
  induction (list_ascii_of_string prefix) as [ | c l IH]; cbn [map app group_count].
  - destruct sep; [reflexivity | reflexivity | now destruct Hsep].
  - exact IH.
Qed.

(** A match of a pattern with four groups captures four runs of digits. *)
Lemma four_groups (p : pattern) (line : string) (groups : list (list ascii)) :
  group_count p = 4%nat ->
  search p line = Some groups ->
  exists gh gm gs gf,
    groups = [gh; gm; gs; gf] /\ Forall digit_group groups.
Proof.
  intros Hp Hs. apply search_from_groups in Hs as [Hlen Hall].
  rewrite Hp in Hlen.
  destruct groups as [ | gh [ | gm [ | gs [ | gf [ | ? ?]]]]]; try discriminate Hlen.
  now exists gh, gm, gs, gf.
Qed.

Lemma group_values_nonneg (gh gm gs gf : list ascii) :
  Forall digit_group [gh; gm; gs; gf] ->
  (0 <= clock_seconds (digits_value gh) (digits_value gm) (digits_value gs)
          (digits_value gf))%Q.
Proof.
  intros Hg.
  inversion Hg as [ | ? ? G1 Hg1]; subst. inversion Hg1 as [ | ? ? G2 Hg2]; subst.
  inversion Hg2 as [ | ? ? G3 Hg3]; subst. inversion Hg3 as [ | ? ? G4 _]; subst.
  apply clock_seconds_nonneg; now apply digits_value_nonneg.
Qed.

(** The groups of a match are numerals, and a reading that succeeds gives
    the clock they write. *)
Lemma groups_are_numerals (p : pattern) (line : string)
    (groups : list (list ascii)) :
  group_count p = 4%nat ->
  search p line = Some groups ->
  exists h m s f,
    clock_groups groups h m s f
    /\ 0 <= h /\ 0 <= m /\ 0 <= s /\ 0 <= f
    /\ forall value v,
         reads_clock value -> value groups = Ok v -> v = clock_seconds h m s f.
Proof.
  intros Hp Hs. destruct (four_groups _ _ _ Hp Hs) as (gh & gm & gs & gf & -> & Hg).
  exists (digits_value gh), (digits_value gm), (digits_value gs), (digits_value gf).
  inversion Hg as [ | ? ? G1 Hg1]; subst. inversion Hg1 as [ | ? ? G2 Hg2]; subst.
  inversion Hg2 as [ | ? ? G3 Hg3]; subst. inversion Hg3 as [ | ? ? G4 _]; subst.
  split.
  { unfold clock_groups. cbn [map].
    now rewrite !digit_group_decimal. }
  repeat split; try now apply digits_value_nonneg.
  intros value v [Hout _] Hv.
  destruct (Hout gh gm gs gf Hg) as [E | (e & E)]; rewrite E in Hv;
    [now inversion Hv | discriminate Hv].
Qed.

Lemma clock_groups_values (gh gm gs gf : list ascii) (h m s f : Z) :
  clock_groups [gh; gm; gs; gf] h m s f ->
  Forall digit_group [gh; gm; gs; gf]
  /\ digits_value gh = h /\ digits_value gm = m /\ digits_value gs = s
  /\ digits_value gf = f.
Proof.
  unfold clock_groups. cbn [map]. intros [= H1 H2 H3 H4].
  apply decimal_is_digit_group in H1 as [G1 E1], H2 as [G2 E2],
      H3 as [G3 E3], H4 as [G4 E4].
  split; [repeat (constructor; [assumption | ]); constructor | ].
  repeat split; assumption.
Qed.

Lemma known_nonzero (d : Q) : known (Some d) = true <-> ~ (d == 0)%Q.
Proof.
  cbn [known]. rewrite negb_true_iff. split.
  - intros H E. apply Qeq_bool_iff in E. congruence.
  - intros H. destruct (Qeq_bool d 0) eqn:E; [ | reflexivity].
    apply Qeq_bool_iff in E. contradiction.
Qed.

Lemma percent_of_known (elapsed d : Q) :
  known (Some d) = true ->
  percent_of elapsed d = Ok (py_min (elapsed / d * 100) 100).
Proof.
  cbn [known]. rewrite negb_true_iff. intros H.
  unfold percent_of, truediv. now rewrite H.
Qed.

Lemma py_min_capped (x : Q) : capped x (py_min x 100).
Proof.
  unfold capped, py_min. destruct (Qle_bool x 100) eqn:E.
  - split; [reflexivity | ]. apply Qle_bool_iff in E. intros H. lra.
  - split; [ | reflexivity]. intros H. apply Qle_bool_iff in H. congruence.
Qed.

Section OneLine.

(** The expressions and the sum of either caller: [sep] is the dot before
    the hundredths, escaped or not. *)
Variable sep : atom.
Hypothesis sep_no_group : sep <> Digits.
Variable value : list (list ascii) -> result Q.
Hypothesis value_reads : reads_clock value.

Local Abbreviation dre := (clock_pattern "Duration: " sep).
Local Abbreviation tre := (clock_pattern "time=" sep).

Lemma duration_match_contains (line : string) (groups : list (list ascii)) :
  search dre line = Some groups -> contains "Duration" line = true.
Proof.
  unfold search, contains, clock_pattern, lit. intros H.
  change (list_ascii_of_string "Duration: ")
    with (list_ascii_of_string "Duration" ++ list_ascii_of_string ": ") in H.
  eapply search_contains; eassumption.
Qed.

Lemma time_match_contains (line : string) (groups : list (list ascii)) :
  search tre line = Some groups -> contains "time=" line = true.
Proof.
  unfold search, contains, clock_pattern, lit. intros H.
  change (list_ascii_of_string "time=")
    with (list_ascii_of_string "time=" ++ []) in H.
  eapply search_contains; eassumption.
Qed.

(** The clock of a match: a number that is not negative, or an
    exception. *)
Lemma match_outcome (prefix : string) (line : string)
    (groups : list (list ascii)) :
  search (clock_pattern prefix sep) line = Some groups ->
  (exists v, value groups = Ok v /\ (0 <= v)%Q)
  \/ exists e, value groups = Raise e.
Proof.
  intros Hs.
  destruct (four_groups _ _ _ (clock_pattern_groups prefix sep sep_no_group) Hs)
    as (gh & gm & gs & gf & -> & Hg).
  destruct (proj1 value_reads gh gm gs gf Hg) as [E | E]; [left | now right].
  eexists. split; [exact E | now apply group_values_nonneg].
Qed.

Lemma match_short (prefix : string) (line : string)
    (groups : list (list ascii)) :
  short_numbers line ->
  search (clock_pattern prefix sep) line = Some groups ->
  exists v, value groups = Ok v /\ (0 <= v)%Q.
Proof.
  intros Hline Hs. pose proof (search_short _ _ _ Hline Hs) as Hshort.
  destruct (four_groups _ _ _ (clock_pattern_groups prefix sep sep_no_group) Hs)
    as (gh & gm & gs & gf & -> & Hg).
  eexists. split; [exact (proj2 value_reads gh gm gs gf Hg Hshort) | ].
  now apply group_values_nonneg.
Qed.

(** While [duration] is unknown, a line matching the duration expression
    sets it and reports nothing, or raises what the reading raises. *)
Lemma on_line_sets_duration (line : string) (groups : list (list ascii))
    (d : Q) :
  search dre line = Some groups ->
  value groups = Ok d ->
  on_line value dre tre None line = Ok (Some d, None).
Proof.
  intros Hs Hd. unfold on_line.
  rewrite (duration_match_contains _ _ Hs). cbn [is_None andb].
  now rewrite Hs, Hd.
Qed.

Lemma on_line_duration_raises (line : string) (groups : list (list ascii))
    (e : exn) :
  search dre line = Some groups ->
  value groups = Raise e ->
  on_line value dre tre None line = Raise e.
Proof.
  intros Hs Hd. unfold on_line.
  rewrite (duration_match_contains _ _ Hs). cbn [is_None andb].
  now rewrite Hs, Hd.
Qed.

(** While [duration] is unknown, any other line changes nothing. *)
Lemma on_line_still_unknown (line : string) :
  search dre line = None -> on_line value dre tre None line = Ok (None, None).
Proof.
  intros Hs. unfold on_line. cbn [is_None known].
  rewrite andb_true_r, andb_false_r, Hs.
  now destruct (contains "Duration" line).
Qed.

(** Once [duration] has a value no line changes it, and a percentage is the
    one of the line's own time stamp. *)
Lemma on_line_known (d : Q) (line : string) :
  on_line value dre tre (Some d) line = Ok (Some d, None)
  \/ (exists groups elapsed,
        known (Some d) = true /\ search tre line = Some groups
        /\ value groups = Ok elapsed /\ (0 <= elapsed)%Q
        /\ on_line value dre tre (Some d) line
           = Ok (Some d, Some (py_min (elapsed / d * 100) 100)))
  \/ (exists groups e,
        known (Some d) = true /\ search tre line = Some groups
        /\ value groups = Raise e
        /\ on_line value dre tre (Some d) line = Raise e).
Proof.
  unfold on_line. cbn [is_None]. rewrite andb_false_r.
  destruct (contains "time=" line && known (Some d)) eqn:Hc; [ | now left].
  apply andb_true_iff in Hc as [_ Hk].
  destruct (search tre line) as [groups | ] eqn:Hs; [ | now left].
  destruct (match_outcome _ _ _ Hs) as [(elapsed & He & Hpos) | (e & He)].
  - right. left. exists groups, elapsed. rewrite He, (percent_of_known _ _ Hk).
    repeat split; trivial.
  - right. right. exists groups, e. rewrite He. repeat split; trivial.
Qed.

(** A line matching the time expression is reported once [duration] is
    known. *)
Lemma on_line_reports (d : Q) (line : string) (groups : list (list ascii))
    (elapsed : Q) :
  ~ (d == 0)%Q ->
  search tre line = Some groups ->
  value groups = Ok elapsed ->
  on_line value dre tre (Some d) line
  = Ok (Some d, Some (py_min (elapsed / d * 100) 100)).
Proof.
  intros Hd Hs He. apply known_nonzero in Hd.
  unfold on_line. cbn [is_None]. rewrite andb_false_r.
  rewrite (time_match_contains _ _ Hs), Hd. cbn [andb].
  now rewrite Hs, He, (percent_of_known _ _ Hd).
Qed.

(** A line matching neither expression changes nothing. *)
Lemma on_line_ignores (duration : option Q) (line : string) :
  search dre line = None -> search tre line = None ->
  on_line value dre tre duration line = Ok (duration, None).
Proof.
  intros Hd Ht. unfold on_line. rewrite Hd, Ht.
  destruct (contains "Duration" line && is_None duration); [reflexivity | ].
  now destruct (contains "time=" line && known duration).
Qed.

(** A line is taken, or it raises. *)
Lemma on_line_outcome (duration : option Q) (line : string) :
  (exists duration' emitted,
      on_line value dre tre duration line = Ok (duration', emitted))
  \/ exists e, on_line value dre tre duration line = Raise e.
Proof.
  destruct duration as [d | ].
  - destruct (on_line_known d line)
      as [H | [(g & e & _ & _ & _ & _ & H) | (g & e & _ & _ & _ & H)]];
      rewrite H; eauto.
  - destruct (search dre line) as [groups | ] eqn:Hs.
    + destruct (match_outcome _ _ _ Hs) as [(d & Hd & _) | (e & He)].
      * rewrite (on_line_sets_duration _ _ _ Hs Hd); eauto.
      * rewrite (on_line_duration_raises _ _ _ Hs He); eauto.
    + rewrite (on_line_still_unknown _ Hs); eauto.
Qed.

(** A line whose numbers are short is taken. *)
Lemma on_line_short (duration : option Q) (line : string) :
  short_numbers line ->
  exists duration' emitted,
    on_line value dre tre duration line = Ok (duration', emitted).
Proof.
  intros Hline. destruct duration as [d | ].
  - destruct (on_line_known d line)
      as [H | [(g & e & _ & _ & _ & _ & H) | (g & e & _ & Hs & He & _)]];
      [rewrite H; eauto | rewrite H; eauto | ].
    destruct (match_short _ _ _ Hline Hs) as (v & Hv & _). congruence.
  - destruct (search dre line) as [groups | ] eqn:Hs.
    + destruct (match_short _ _ _ Hline Hs) as (d & Hd & _).
      rewrite (on_line_sets_duration _ _ _ Hs Hd); eauto.
    + rewrite (on_line_still_unknown _ Hs); eauto.
Qed.

Lemma feed_not_blocked (lines : list string) :
  forall duration,
    snd (feed value dre tre duration lines) <> Blocked.
Proof.
  induction lines as [ | line rest IH]; intros duration; cbn [feed];
    [discriminate | ].
  destruct (on_line_outcome duration line) as [(d' & em & ->) | (e & ->)];
    [ | discriminate].
  specialize (IH d'). destruct (feed value dre tre d' rest). exact IH.
Qed.

(** Lines whose numbers are short are all taken. *)
Lemma feed_short (lines : list string) :
  Forall short_numbers lines ->
  forall duration,
  exists ps final, feed value dre tre duration lines = (ps, Ok final).
Proof.
  induction 1 as [ | line rest Hline _ IH]; intros duration; cbn [feed]; eauto.
  destruct (on_line_short duration line Hline) as (d' & em & ->).
  destruct (IH d') as (ps & final & ->). eauto.
Qed.

(** Once [duration] is known it is what the parser ends with, unless a
    line raises. *)
Lemma feed_known (lines : list string) (d : Q) :
  exists ps ending,
    feed value dre tre (Some d) lines = (ps, ending)
    /\ (ending = Ok (Some d) \/ exists e, ending = Raise e).
Proof.
  induction lines as [ | line rest (ps & ending & IH & Hend)]; cbn [feed];
    [eauto | ].
  destruct (on_line_known d line)
    as [H | [(g & e & _ & _ & _ & _ & H) | (g & e & _ & _ & _ & H)]];
    rewrite H; [rewrite IH; eauto .. | eauto 6].
Qed.

Lemma feed_known_final (lines : list string) (d : Q) (ps : list Q)
    (final : option Q) :
  feed value dre tre (Some d) lines = (ps, Ok final) -> final = Some d.
Proof.
  destruct (feed_known lines d) as (ps' & ending & -> & [-> | (e & ->)]);
    intros [= _ E]; congruence.
Qed.

(** The lines before the first match of the duration expression, and that
    line itself, report nothing: the parser goes on with the duration the
    line gives. *)
Lemma feed_first_duration (pre post : list string) (line : string)
    (groups : list (list ascii)) (d : Q) :
  Forall (fun l => search dre l = None) pre ->
  search dre line = Some groups ->
  value groups = Ok d ->
  feed value dre tre None (pre ++ line :: post)
  = feed value dre tre (Some d) post.
Proof.
  intros Hpre Hs Hd.
  induction Hpre as [ | l pre Hl _ IH]; cbn [app feed].
  - rewrite (on_line_sets_duration _ _ _ Hs Hd).
    now destruct (feed value dre tre (Some d) post).
  - rewrite (on_line_still_unknown _ Hl), IH.
    now destruct (feed value dre tre (Some d) post).
Qed.

End OneLine.

Lemma any_char_no_group : AnyChar <> Digits.
Proof. discriminate. Qed.

Lemma dot_no_group : Chr "." <> Digits.
Proof. discriminate. Qed.

Example half_way :
  feed clock_value duration_re time_re None
       ["  Duration: 00:01:00.00, start: 0.000000"; "frame=1 time=00:00:30.00 bitrate=1"]
  = ([(30000000 # 600000)%Q], Ok (Some (60 + (0 # 100))%Q)).
Proof. vm_compute. reflexivity. Qed.

Example half_way_value : (30000000 # 600000 == 50)%Q.
Proof. reflexivity. Qed.

Example second_banner_ignored :
  feed clock_value duration_re time_re None
       ["Duration: 00:01:00.00"; "Duration: 00:10:00.00"; "time=00:00:30.00"]
  = feed clock_value duration_re time_re None
       ["Duration: 00:01:00.00"; "time=00:00:30.00"].
Proof. vm_compute. reflexivity. Qed.

Example early_time_dropped :
  feed clock_value duration_re time_re None
       ["time=00:00:30.00"; "Duration: N/A"; "garbage"]
  = ([], Ok None).
Proof. vm_compute. reflexivity. Qed.

Example zero_duration_is_silent :
  feed clock_value duration_re time_re None
       ["Duration: 00:00:00.00"; "time=00:00:30.00"]
  = ([], Ok (Some (0 + (0 # 100))%Q)).
Proof. vm_compute. reflexivity. Qed.

(** In the window the hundredths are made a float before they are divided:
    a fraction of 309 digits stops its parser, and not the other one. *)
Example long_fraction :
  let line :=
    ("Duration: 00:01:00." ++ string_of_list_ascii (repeat "9"%char 309))%string in
  snd (feed clock_value_gui duration_re_gui time_re_gui None [line])
  = Raise OverflowError
  /\ exists d,
      snd (feed clock_value duration_re time_re None [line]) = Ok (Some d).
Proof. split; [vm_compute; reflexivity | eexists; vm_compute; reflexivity]. Qed.

(** A number of more than 4300 digits is refused by [int]. *)
Example huge_number :
  snd (feed clock_value duration_re time_re None
         [("time=" ++ string_of_list_ascii (repeat "0"%char 4301)
           ++ ":00:00.00")%string; "x"])
  = Ok None
  /\ snd (feed clock_value duration_re time_re None
            [("Duration: " ++ string_of_list_ascii (repeat "0"%char 4301)
              ++ ":00:00.00")%string; "x"])
     = Raise ValueError.
Proof. split; vm_compute; reflexivity. Qed.

(** C4 does not hold as stated: a line can make the parser raise.  A
    duration whose hours are written with 400 digits is read by [int], but
    the sum [h * 3600 + m * 60 + s + ms / 100] of that integer and a float
    raises [OverflowError], which ends the loop over the lines. *)
Lemma long_number_stops_the_parser :
  on_line clock_value duration_re time_re None long_clock_line
  = Raise OverflowError
  /\ progress_loop recorder
       ["ffmpeg version 6"; long_clock_line; "frame=1 time=00:00:30.00 x"]
       None empty_world
     = ([], empty_world, Raise OverflowError).
Proof. split; vm_compute; reflexivity. Qed.

(** C4 (as the code has it). For every sequence of lines fed to the loop
    of [convert_file]: lines in which no number has more than 300 digits
    never make the parser raise; the first line matching the duration
    expression sets [duration] to [h * 3600 + m * 60 + s + f / 100] for
    the numbers [h:m:s.f] it shows, nothing is reported up to that line,
    and no later line changes [duration]; a line is reported only when
    [duration] is known and not zero and the line matches the time
    expression, and then with [min(elapsed / duration * 100, 100)] for
    the clock the line shows; a time line is reported whenever [duration]
    is known and not zero; and a line matching neither expression changes
    nothing and reports nothing. *)
Theorem progress_parser_contract :
  (forall (lines : list string) (duration : option Q),
      Forall short_numbers lines ->
      exists ps final,
        feed clock_value duration_re time_re duration lines = (ps, Ok final))
  /\ (forall (pre post : list string) (line : string) groups (h m s f : Z),
         Forall (fun l => search duration_re l = None) pre ->
         search duration_re line = Some groups ->
         clock_groups groups h m s f ->
         Forall short groups ->
         feed clock_value duration_re time_re None (pre ++ line :: post)
         = feed clock_value duration_re time_re
                (Some (clock_seconds h m s f)) post)
  /\ (forall (d : Q) (lines : list string) (ps : list Q) (final : option Q),
         feed clock_value duration_re time_re (Some d) lines = (ps, Ok final) ->
         final = Some d)
  /\ (forall (duration duration' : option Q) (line : string) (p : Q),
         on_line clock_value duration_re time_re duration line
         = Ok (duration', Some p) ->
         duration' = duration
         /\ exists d groups h m s f,
             duration = Some d /\ ~ (d == 0)%Q
             /\ search time_re line = Some groups
             /\ clock_groups groups h m s f
             /\ capped (clock_seconds h m s f / d * 100) p)
  /\ (forall (d : Q) (line : string) groups (h m s f : Z),
         ~ (d == 0)%Q ->
         search time_re line = Some groups ->
         clock_groups groups h m s f ->
         Forall short groups ->
         exists p,
           on_line clock_value duration_re time_re (Some d) line
           = Ok (Some d, Some p)
           /\ capped (clock_seconds h m s f / d * 100) p)
  /\ (forall (duration : option Q) (line : string),
         search duration_re line = None -> search time_re line = None ->
         on_line clock_value duration_re time_re duration line
         = Ok (duration, None)).
Proof.
  pose proof any_char_no_group as Hsep.
  pose proof clock_value_reads as Hval.
  assert (Hread : forall p line groups h m s f,
             group_count p = 4%nat -> search p line = Some groups ->
             clock_groups groups h m s f -> Forall short groups ->
             clock_value groups = Ok (clock_seconds h m s f)).
  { intros p line groups h m s f Hp Hs Hg Hsh.
    destruct (four_groups _ _ _ Hp Hs) as (gh & gm & gs & gf & -> & Hd).
    apply clock_groups_values in Hg as (_ & <- & <- & <- & <-).
    now apply (proj2 Hval). }
  split; [intros; now apply feed_short | ].
  split.
  { intros pre post line groups h m s f Hpre Hs Hg Hsh.
    apply (feed_first_duration AnyChar clock_value pre post line groups);
      trivial.
    eapply Hread; try eassumption.
    now apply clock_pattern_groups. }
  split; [intros d lines ps final;
          now apply (feed_known_final AnyChar Hsep clock_value Hval) | ].
  split; [ | split; [ | intros; now apply on_line_ignores] ].
  - intros duration duration' line p H.
    destruct duration as [d | ].
    + destruct (on_line_known AnyChar Hsep clock_value Hval d line)
        as [H' | [(groups & elapsed & Hk & Hs & He & _ & H')
                 | (groups & e & _ & _ & _ & H')]];
        fold duration_re time_re in *; rewrite H' in H; inversion H; subst.
      split; [reflexivity | ].
      destruct (groups_are_numerals _ _ _
                  (clock_pattern_groups "time=" AnyChar Hsep) Hs)
        as (h & m & s & f & Hg & _ & _ & _ & _ & Hv).
      exists d, groups, h, m, s, f. apply known_nonzero in Hk.
      repeat split; trivial;
        rewrite <- (Hv clock_value elapsed Hval He); apply py_min_capped.
    + destruct (search duration_re line) as [groups | ] eqn:Hs.
      * destruct (match_outcome AnyChar Hsep clock_value Hval _ _ _ Hs)
          as [(d & Hd & _) | (e & He)].
        -- pose proof (on_line_sets_duration AnyChar clock_value _ _ _ Hs Hd) as H'.
           fold duration_re time_re in *. rewrite H' in H. discriminate.
        -- pose proof (on_line_duration_raises AnyChar clock_value _ _ _ Hs He) as H'.
           fold duration_re time_re in *. rewrite H' in H. discriminate.
      * pose proof (on_line_still_unknown AnyChar clock_value line Hs) as H'.
        fold duration_re time_re in *. rewrite H' in H. discriminate.
  - intros d line groups h m s f Hd Hs Hg Hsh.
    eexists. split.
    + apply (on_line_reports AnyChar clock_value d line groups); trivial.
      eapply Hread; try eassumption. now apply clock_pattern_groups.
    + apply py_min_capped.
Qed.

Lemma progress_parser_contract_witness :
  (exists p,
      feed clock_value duration_re time_re None
        (["ffmpeg version 6"; "  Duration: N/A"]
         ++ "  Duration: 00:01:00.00, start: 0.0"
            :: ["  Duration: 00:10:00.00"; "frame=1 time=00:00:30.00 x"])
      = ([p], Ok (Some (60 + (0 # 100))%Q)) /\ (p == 50)%Q)
  /\ (exists p,
         on_line clock_value duration_re time_re (Some 60%Q)
                 "frame=1 time=00:00:30.00 x"
         = Ok (Some 60%Q, Some p)
         /\ capped (clock_seconds 0 0 30 0 / 60 * 100) p).
Proof.
  split.
  - exists (30000000 # 600000)%Q. split; [ | reflexivity].
    rewrite (proj1 (proj2 progress_parser_contract)
               ["ffmpeg version 6"; "  Duration: N/A"]
               ["  Duration: 00:10:00.00"; "frame=1 time=00:00:30.00 x"]
               "  Duration: 00:01:00.00, start: 0.0"
               (map list_ascii_of_string ["00"; "01"; "00"; "00"]) 0 1 0 0).
    + vm_compute. reflexivity.
    + repeat constructor.
    + vm_compute. reflexivity.
    + reflexivity.
    + repeat constructor; unfold short; cbn; lia.
  - apply (proj1 (proj2 (proj2 (proj2 (proj2 progress_parser_contract))))
             60%Q "frame=1 time=00:00:30.00 x"
             (map list_ascii_of_string ["00"; "00"; "30"; "00"]) 0 0 30 0).
    + intros H. cbv in H. discriminate H.
    + vm_compute. reflexivity.
    + reflexivity.
    + repeat constructor; unfold short; cbn; lia.
Defined.

End ParserFacts.

(** ** Properties of [convert_file] and [batch_convert] *)

Module ConverterFacts.
Import Notions Scenarios.
Import Py Regex Effects Parser Planner Paths Converter RegexFacts ParserFacts.
Local Open Scope py_scope.

Lemma recorder_emits : emits recorder (fun p => [Progress p]).
Proof. intros p w. reflexivity. Qed.

Lemma recorder_never_waits (p : Q) : ~ In Wait [Progress p].
Proof. intros [H | []]. discriminate H. Qed.

Lemma concat_map_nil {A B : Type} (g : A -> list B) (l : list A) :
  (forall a, g a = []) -> List.concat (map g l) = [].
Proof.
  intros Hg. induction l as [ | a l IH]; cbn [map List.concat]; [reflexivity | ].
  now rewrite Hg, IH.
Qed.

(** The loop calls the callback on the parser's percentages, in order, and
    ends as the parser does. *)
Lemma progress_loop_emits (callback : Q -> M unit) (g : Q -> list event)
    (lines : list string) :
  emits callback g ->
  forall duration w,
    progress_loop callback lines duration w
    = (List.concat
         (map g (fst (feed clock_value duration_re time_re duration lines))),
       w,
       loop_result (snd (feed clock_value duration_re time_re duration lines))).
Proof.
  intros Hcb. induction lines as [ | line rest IH];
    intros duration w; cbn [feed progress_loop]; [reflexivity | ].
  destruct (on_line clock_value duration_re time_re duration line)
    as [[d' [p | ]] | e | ]; try reflexivity.
  - unfold bind. rewrite Hcb, (IH d' w).
    destruct (feed clock_value duration_re time_re d' rest) as [ps ending].
    cbn [fst snd map List.concat]. now destruct (loop_result ending).
  - rewrite (IH d' w).
    now destruct (feed clock_value duration_re time_re d' rest) as [ps ending].
Qed.

Lemma parser_error_result (m : media) :
  loop_result (snd (feed clock_value duration_re time_re None (stderr_lines m)))
  = match parser_error m with
    | Some e => Raise e
    | None => Ok tt
    end.
Proof.
  unfold parser_error.
  pose proof (feed_not_blocked AnyChar any_char_no_group clock_value
                clock_value_reads (stderr_lines m) None) as H.
  fold duration_re time_re in H.
  destruct (snd (feed clock_value duration_re time_re None (stderr_lines m)));
    [reflexivity | reflexivity | now destruct H].
Qed.

Lemma convert_file_skips (env : environment) (input_file output_file : string)
    (cb : option (Q -> M unit)) (w : world) :
  mem output_file (files w) || mem output_file (dirs w) = true ->
  convert_file env input_file output_file cb w
  = ([Print (skip_message input_file)], w, Ok tt).
Proof.
  intros H. unfold convert_file, bind, path_exists. rewrite H. reflexivity.
Qed.

(** A call with a callback, once the encoder is started. *)
Lemma convert_file_runs (env : environment) (input_file output_file : string)
    (callback : Q -> M unit) (g : Q -> list event) (w : world) :
  emits callback g ->
  mem output_file (files w) || mem output_file (dirs w) = false ->
  popen_fails (env input_file) = false ->
  convert_file env input_file output_file (Some callback) w
  = match parser_error (env input_file) with
    | Some e =>
        (notice (env input_file) input_file
         ++ [Popen (build_ffmpeg_command (streams (env input_file)) input_file
                      output_file default_crf default_preset)]
         ++ List.concat (map g (percentages (env input_file))),
         w, Raise e)
    | None =>
        (notice (env input_file) input_file
         ++ [Popen (build_ffmpeg_command (streams (env input_file)) input_file
                      output_file default_crf default_preset)]
         ++ List.concat (map g (percentages (env input_file)))
         ++ [Wait]
         ++ (if returncode (env input_file) =? 0 then g 100%Q
             else [Print (failed_message input_file)]),
         after_wait (env input_file) output_file w, Ok tt)
    end.
Proof.
  intros Hcb Hex Hpo.
  unfold convert_file, bind at 1, path_exists. rewrite Hex.
  unfold build, notice, popen, wait, after_wait, percentages. rewrite Hpo.
  set (m := env input_file) in *.
  pose proof (progress_loop_emits callback g (stderr_lines m) Hcb None) as Hloop.
  pose proof (parser_error_result m) as Hres.
  unfold bind, emit, ret, create_file, world_of.
  destruct (parser_error m) as [e | ];
    destruct (warns_video_only _ _ _ _); rewrite Hloop, Hres;
    destruct (writes_output m); destruct (returncode m =? 0);
    cbn [negb fst snd app]; rewrite ?Hcb, ?app_nil_r; reflexivity.
Qed.

(** A call without a callback does not read the encoder's lines. *)
Lemma convert_file_runs_silent (env : environment)
    (input_file output_file : string) (w : world) :
  mem output_file (files w) || mem output_file (dirs w) = false ->
  popen_fails (env input_file) = false ->
  convert_file env input_file output_file None w
  = (notice (env input_file) input_file
     ++ [Popen (build_ffmpeg_command (streams (env input_file)) input_file
                  output_file default_crf default_preset)]
     ++ [Wait]
     ++ (if returncode (env input_file) =? 0 then []
         else [Print (failed_message input_file)]),
     after_wait (env input_file) output_file w, Ok tt).
Proof.
  intros Hex Hpo.
  unfold convert_file, bind at 1, path_exists. rewrite Hex.
  unfold build, notice, popen, wait, after_wait. rewrite Hpo.
  set (m := env input_file) in *.
  unfold bind, emit, ret, create_file, world_of.
  destruct (warns_video_only _ _ _ _);
    destruct (writes_output m); destruct (returncode m =? 0);
    cbn [negb fst snd app]; reflexivity.
Qed.

Lemma convert_file_cannot_start (env : environment)
    (input_file output_file : string) (cb : option (Q -> M unit)) (w : world) :
  mem output_file (files w) || mem output_file (dirs w) = false ->
  popen_fails (env input_file) = true ->
  convert_file env input_file output_file cb w
  = (notice (env input_file) input_file, w, Raise OSError).
Proof.
  intros Hex Hpo. unfold convert_file, bind at 1, path_exists. rewrite Hex.
  unfold build, notice, popen. rewrite Hpo.
  unfold bind, emit, ret, raise.
  destruct (warns_video_only _ _ _ _); reflexivity.
Qed.

Lemma convert_file_eq (env : environment) (input_file output_file : string)
    (callback : Q -> M unit) (g : Q -> list event) (w : world) :
  emits callback g ->
  convert_file env input_file output_file (Some callback) w
  = convert_file_closed env input_file output_file g w.
Proof.
  intros Hcb. unfold convert_file_closed.
  destruct (mem output_file (files w) || mem output_file (dirs w)) eqn:Hex.
  - now apply convert_file_skips.
  - destruct (popen_fails (env input_file)) eqn:Hpo.
    + now apply convert_file_cannot_start.
    + now apply convert_file_runs.
Qed.

Lemma wait_not_in_notice (m : media) (input_file : string) :
  ~ In Wait (notice m input_file).
Proof.
  unfold notice. destruct (warns_video_only _ _ _ _); cbn; intuition discriminate.
Qed.

Lemma wait_not_in_concat (g : Q -> list event) (ps : list Q) :
  (forall p, ~ In Wait (g p)) -> ~ In Wait (List.concat (map g ps)).
Proof.
  intros Hg H. apply in_concat in H as (l & Hl & Hin).
  apply in_map_iff in Hl as (p & <- & _). now apply (Hg p).
Qed.

(** A trace is cut at its first [Wait] in one way only. *)
Lemma cut_at_wait (b1 a1 b2 a2 : list event) :
  ~ In Wait b1 -> ~ In Wait b2 ->
  b1 ++ Wait :: a1 = b2 ++ Wait :: a2 -> a1 = a2.
Proof.
  revert b2. induction b1 as [ | x b1 IH]; intros [ | y b2] H1 H2; cbn [app].
  - now intros [= ->].
  - intros [= <- _]. destruct H2. now left.
  - intros [= -> _]. destruct H1. now left.
  - intros [= _ E]. apply (IH b2); trivial; intros Hin; [apply H1 | apply H2];
      now right.
Qed.



End ConverterFacts.

(** ** Properties of paths *)

Module PathFacts.
Import Notions Scenarios.
Import Py Effects Paths.

Lemma take_drop_while {A : Type} (f : A -> bool) (l : list A) :
  take_while f l ++ drop_while f l = l.
Proof.
  induction l as [ | a l IH]; cbn [take_while drop_while app]; [reflexivity | ].
  destruct (f a); cbn [app]; [now rewrite IH | reflexivity].
Qed.

Lemma parent_name (p : list ascii) : parent_part p ++ name p = p.
Proof.
  unfold parent_part, name. rewrite <- rev_app_distr, take_drop_while.
  apply rev_involutive.
Qed.

Lemma split_suffix_app (n : list ascii) :
  fst (split_suffix n) ++ snd (split_suffix n) = n.
Proof.
  unfold split_suffix.
  pose proof (take_drop_while not_dot (rev n)) as H.
  destruct (drop_while not_dot (rev n)) as [ | dot stem_rev];
    [cbn [fst snd]; apply app_nil_r | ].
  destruct stem_rev as [ | c stem_rev]; [cbn [fst snd]; apply app_nil_r | ].
  destruct (take_while not_dot (rev n)) as [ | a after];
    [cbn [fst snd]; apply app_nil_r | ].
  cbn [fst snd].
  rewrite <- (rev_involutive n), <- H.
  rewrite rev_app_distr. cbn [rev]. now rewrite <- !app_assoc.
Qed.

(** Replacing a suffix by itself gives the path back. *)
Lemma with_suffix_same (p ext : string) :
  ext <> "" -> suffix p = ext -> with_suffix p ext = Ok p.
Proof.
  intros Hne Hs. unfold suffix in Hs. unfold with_suffix.
  set (cs := list_ascii_of_string p) in *.
  pose proof (split_suffix_app (name cs)) as Happ.
  assert (Hsuf : snd (split_suffix (name cs)) = list_ascii_of_string ext).
  { rewrite <- Hs. now rewrite list_ascii_of_string_of_list_ascii. }
  rewrite Hsuf in Happ.
  destruct (name cs) as [ | c n] eqn:Hn.
  - exfalso. destruct (fst (split_suffix [])); cbn in Happ.
    + apply Hne. rewrite <- (string_of_list_ascii_of_string ext), Happ. reflexivity.
    + discriminate.
  - rewrite Happ, <- Hn, parent_name. unfold cs.
    now rewrite string_of_list_ascii_of_string.
Qed.

Example suffix_of_clip : suffix "videos/holiday.clip.MP4" = ".MP4".
Proof. reflexivity. Qed.

Example suffix_of_hidden : suffix "videos/.mp4" = "".
Proof. reflexivity. Qed.

Example suffix_in_folder_name : suffix "videos.2024/readme" = "".
Proof. reflexivity. Qed.

Example replace_suffix :
  with_suffix "videos/holiday.clip.mkv" ".mp4" = Ok "videos/holiday.clip.mp4".
Proof. reflexivity. Qed.

Example append_suffix : with_suffix "videos/raw" ".mp4" = Ok "videos/raw.mp4".
Proof. reflexivity. Qed.

Example upper_case_supported : supported "clip.MP4" = true.
Proof. reflexivity. Qed.

Example text_not_supported : supported "notes.txt" = false.
Proof. reflexivity. Qed.

End PathFacts.

(** ** Laws of computations *)

Module EffectsFacts.
Import Notions Scenarios.
Import Effects.
Local Open Scope py_scope.

Lemma trace_bind {A B : Type} (m : M A) (f : A -> M B) (w : world) :
  trace_of (bind m f w)
  = trace_of (m w)
    ++ match result_of (m w) with
       | Ok a => trace_of (f a (world_of (m w)))
       | _ => []
       end.
Proof.
  unfold bind, trace_of, result_of, world_of.
  destruct (m w) as [[t1 w1] [a | e | ]]; cbn [fst snd];
    [ | now rewrite app_nil_r ..].
  now destruct (f a w1) as [[t2 w2] r2].
Qed.

Lemma world_bind {A B : Type} (m : M A) (f : A -> M B) (w : world) :
  world_of (bind m f w)
  = match result_of (m w) with
    | Ok a => world_of (f a (world_of (m w)))
    | _ => world_of (m w)
    end.
Proof.
  unfold bind, trace_of, result_of, world_of.
  destruct (m w) as [[t1 w1] [a | e | ]]; cbn [fst snd]; trivial.
  now destruct (f a w1) as [[t2 w2] r2].
Qed.

Lemma result_bind {A B : Type} (m : M A) (f : A -> M B) (w : world) :
  result_of (bind m f w)
  = match result_of (m w) with
    | Ok a => result_of (f a (world_of (m w)))
    | Raise e => Raise e
    | Blocked => Blocked
    end.
Proof.
  unfold bind, trace_of, result_of, world_of.
  destruct (m w) as [[t1 w1] [a | e | ]]; cbn [fst snd]; trivial.
  now destruct (f a w1) as [[t2 w2] r2].
Qed.

Lemma run_eta {A : Type} (x : list event * world * result A) :
  x = (trace_of x, world_of x, result_of x).
Proof. now destruct x as [[t w] r]. Qed.

End EffectsFacts.

(** ** Properties of [batch_convert] *)

Module BatchFacts.
Import Notions Scenarios.
Import Py Regex Effects Parser Planner Paths Converter.
Import RegexFacts ParserFacts ConverterFacts PathFacts EffectsFacts.
Local Open Scope py_scope.

Lemma reported_app (t1 t2 : list event) :
  reported (t1 ++ t2) = reported t1 ++ reported t2.
Proof.
  induction t1 as [ | e t1 IH]; cbn [app reported]; [reflexivity | ].
  destruct e; cbn [app]; now rewrite ?IH.
Qed.

Lemma started_app (t1 t2 : list event) :
  started (t1 ++ t2) = started t1 ++ started t2.
Proof.
  induction t1 as [ | e t1 IH]; cbn [app started]; [reflexivity | ].
  destruct e; cbn [app]; now rewrite ?IH.
Qed.

Lemma reported_progress (h : Q -> Q) (ps : list Q) :
  reported (List.concat (map (fun p => [Progress (h p)]) ps)) = map h ps.
Proof.
  induction ps as [ | p ps IH]; cbn [map List.concat app reported];
    [reflexivity | now rewrite IH].
Qed.

Lemma started_progress (h : Q -> Q) (ps : list Q) :
  started (List.concat (map (fun p => [Progress (h p)]) ps)) = [].
Proof.
  induction ps as [ | p ps IH]; cbn [map List.concat app started];
    [reflexivity | exact IH].
Qed.

Lemma reported_notice (m : media) (input_file : string) :
  reported (notice m input_file) = [].
Proof. unfold notice. now destruct (warns_video_only _ _ _ _). Qed.

Lemma started_notice (m : media) (input_file : string) :
  started (notice m input_file) = [].
Proof. unfold notice. now destruct (warns_video_only _ _ _ _). Qed.

Lemma reported_closed (env : environment) (input_file output_file : string)
    (h : Q -> Q) (w : world) :
  reported (trace_of (convert_file_closed env input_file output_file
                        (fun p => [Progress (h p)]) w))
  = map h (job_values env input_file output_file w).
Proof.
  unfold convert_file_closed, job_values, trace_of.
  destruct (mem output_file (files w) || mem output_file (dirs w)); [reflexivity | ].
  destruct (popen_fails (env input_file)); cbn [fst];
    [apply reported_notice | ].
  destruct (parser_error (env input_file)); cbn [fst];
    rewrite !reported_app, reported_notice, reported_progress, ?map_app;
    cbn [reported app map]; rewrite ?app_nil_r; [reflexivity | ].
  destruct (returncode (env input_file) =? 0); reflexivity.
Qed.

Lemma reported_convert_file (env : environment)
    (input_file output_file : string) (w : world) :
  reported (trace_of (convert_file env input_file output_file (Some recorder) w))
  = job_values env input_file output_file w.
Proof.
  rewrite (convert_file_eq env input_file output_file recorder
             (fun p => [Progress p]) w recorder_emits).
  rewrite (reported_closed env input_file output_file (fun p => p) w).
  apply map_id.
Qed.

Lemma overall_of_value (done total_files : Z) (percent : Q) :
  total_files <> 0 ->
  overall_of done percent total_files
  = Ok (overall_value done total_files percent).
Proof.
  intros H. unfold overall_of, truediv, overall_value.
  replace (Qeq_bool (inject_Z total_files) 0) with false; [reflexivity | ].
  symmetry. apply not_true_iff_false. intros E. apply Qeq_bool_iff in E.
  apply H. unfold Qeq in E. cbn in E. lia.
Qed.

Lemma file_progress_emits (cb : Q -> M unit) (g : Q -> list event)
    (i total_files : Z) :
  total_files <> 0 -> emits cb g ->
  emits (file_progress (Some cb) i total_files)
        (fun p => g (overall_value (i - 1) total_files p)).
Proof.
  intros Ht Hcb p w. unfold file_progress, bind, lift.
  rewrite overall_of_value by exact Ht. now rewrite Hcb.
Qed.

Lemma file_progress_silent (i total_files : Z) :
  emits (file_progress None i total_files) (fun _ => []).
Proof. intros p w. reflexivity. Qed.

(** What the overall callback receives during the loop. *)
Lemma batch_loop_overall (env : environment) (total_files : Z)
    (todo : list string) :
  total_files <> 0 ->
  forall i w,
    reported (trace_of (batch_loop env (Some recorder) total_files i todo w))
    = expected_overall env total_files i todo w.
Proof.
  intros Ht. induction todo as [ | file rest IH]; intros i w;
    cbn [batch_loop expected_overall]; [reflexivity | ].
  rewrite trace_bind. unfold lift at 1 2 3.
  unfold result_of at 1, world_of at 1, trace_of at 1. cbn [fst snd app].
  destruct (with_suffix file ".mp4") as [output_file | e | ]; try reflexivity.
  rewrite trace_bind, reported_app.
  pose proof (file_progress_emits recorder _ i total_files Ht recorder_emits) as Hfp.
  rewrite (convert_file_eq env file output_file
             (file_progress (Some recorder) i total_files) _ w Hfp).
  rewrite (convert_file_eq env file output_file recorder
             (fun p => [Progress p]) w recorder_emits).
  rewrite (reported_closed env file output_file
             (overall_value (i - 1) total_files) w).
  rewrite (reported_closed env file output_file (fun p => p) w), map_id.
  f_equal.
  unfold convert_file_closed, result_of, world_of.
  destruct (mem output_file (files w) || mem output_file (dirs w));
    [apply IH | ].
  destruct (popen_fails (env file)); [reflexivity | ].
  destruct (parser_error (env file)); [reflexivity | apply IH].
Qed.

Lemma started_concat (g : Q -> list event) (ps : list Q) :
  starts_nothing g -> started (List.concat (map g ps)) = [].
Proof.
  intros Hg. induction ps as [ | p ps IH]; cbn [map List.concat]; [reflexivity | ].
  now rewrite started_app, Hg, IH.
Qed.

(** The encoder [convert_file] starts, if any. *)
Lemma started_closed (env : environment) (input_file output_file : string)
    (g : Q -> list event) (w : world) :
  starts_nothing g ->
  started (trace_of (convert_file_closed env input_file output_file g w))
  = if mem output_file (files w) || mem output_file (dirs w) then []
    else if popen_fails (env input_file) then []
    else [build_ffmpeg_command (streams (env input_file)) input_file
            output_file default_crf default_preset].
Proof.
  intros Hg. unfold convert_file_closed, trace_of.
  destruct (mem output_file (files w) || mem output_file (dirs w)); [reflexivity | ].
  destruct (popen_fails (env input_file)); cbn [fst]; [apply started_notice | ].
  destruct (parser_error (env input_file)); cbn [fst];
    rewrite !started_app, started_notice, (started_concat g _ Hg);
    cbn [started app]; [reflexivity | ].
  destruct (returncode (env input_file) =? 0);
    [now rewrite Hg | reflexivity].
Qed.

Lemma mem_cons (p q : string) (l : list string) :
  mem p (q :: l) = String.eqb p q || mem p l.
Proof. reflexivity. Qed.

(** Conversions only add files. *)
Lemma files_grow (env : environment) (input_file output_file : string)
    (g : Q -> list event) (w : world) (f : string) :
  mem f (files w) = true ->
  mem f (files (world_of (convert_file_closed env input_file output_file g w)))
  = true.
Proof.
  intros Hf. unfold convert_file_closed, world_of, after_wait, create_file.
  destruct (mem output_file (files w) || mem output_file (dirs w)); [exact Hf | ].
  destruct (popen_fails (env input_file)); cbn [fst snd]; [exact Hf | ].
  destruct (parser_error (env input_file)); cbn [fst snd]; [exact Hf | ].
  destruct (writes_output (env input_file)); cbn [fst snd]; [ | exact Hf].
  destruct (mem output_file (files w)); cbn [files]; [exact Hf | ].
  unfold world_of. cbn [fst snd files].
  unfold mem in *. cbn [existsb]. rewrite Hf. apply orb_true_r.
Qed.

Lemma command_input (streams : list dict) (input_file output_file : string)
    (crf : Z) (preset : string) :
  input_of (build_ffmpeg_command streams input_file output_file crf preset)
  = Some input_file.
Proof. now rewrite PlannerFacts.command_layout. Qed.

Lemma command_output (streams : list dict) (input_file output_file : string)
    (crf : Z) (preset : string) :
  output_of (build_ffmpeg_command streams input_file output_file crf preset)
  = output_file.
Proof.
  rewrite PlannerFacts.command_layout. unfold output_of.
  rewrite !app_assoc.
  change ["-movflags"; "+faststart"; output_file]
    with (["-movflags"; "+faststart"] ++ [output_file]).
  rewrite app_assoc. apply last_last.
Qed.

Lemma file_progress_reports (cb : option (Q -> M unit)) (g : Q -> list event)
    (i total_files : Z) :
  total_files <> 0 -> reports cb g -> starts_nothing g ->
  exists g', emits (file_progress cb i total_files) g' /\ starts_nothing g'.
Proof.
  intros Ht Hcb Hg. destruct cb as [callback | ]; cbn [reports] in Hcb.
  - eexists. split; [now apply file_progress_emits | ].
    intros p. apply Hg.
  - exists (fun _ => []). split; [apply file_progress_silent | now intros p].
Qed.

(** A file that exists is neither read nor written by an encoder of the
    batch when its own output path is itself. *)
Lemma batch_loop_spares (env : environment) (cb : option (Q -> M unit))
    (g : Q -> list event) (total_files : Z) (f : string) (todo : list string) :
  total_files <> 0 -> reports cb g -> starts_nothing g ->
  with_suffix f ".mp4" = Ok f ->
  forall i w command,
    mem f (files w) = true ->
    In command (started (trace_of (batch_loop env cb total_files i todo w))) ->
    input_of command <> Some f /\ output_of command <> f.
Proof.
  intros Ht Hcb Hg Hsame.
  induction todo as [ | file rest IH]; intros i w command Hf;
    cbn [batch_loop]; [intros [] | ].
  rewrite trace_bind. unfold lift at 1 2 3.
  unfold result_of at 1, world_of at 1, trace_of at 1. cbn [fst snd app].
  destruct (with_suffix file ".mp4") as [output_file | e | ] eqn:Hout;
    try (intros []).
  rewrite trace_bind, started_app.
  destruct (file_progress_reports cb g i total_files Ht Hcb Hg) as (g' & Hfp & Hg').
  rewrite (convert_file_eq env file output_file
             (file_progress cb i total_files) g' w Hfp).
  rewrite (started_closed env file output_file g' w Hg').
  intros Hin. apply in_app_or in Hin as [Hin | Hin].
  - destruct (mem output_file (files w) || mem output_file (dirs w)) eqn:Hex;
      [destruct Hin | ].
    destruct (popen_fails (env file)); [destruct Hin | ].
    destruct Hin as [<- | []].
    rewrite command_input, command_output.
    assert (Hne : output_file <> f).
    { intros ->. rewrite Hf in Hex. discriminate. }
    split; [ | exact Hne].
    intros [= ->]. rewrite Hsame in Hout. injection Hout as <-. now apply Hne.
  - pose proof (files_grow env file output_file g' w f Hf) as Hf'.
    destruct (result_of (convert_file_closed env file output_file g' w));
      [ | destruct Hin ..].
    eapply IH; eassumption.
Qed.

Lemma mem_In (p : string) (l : list string) : mem p l = true <-> In p l.
Proof.
  unfold mem. rewrite existsb_exists. split.
  - intros (x & Hx & E). apply String.eqb_eq in E. now subst.
  - intros H. exists p. split; [exact H | apply String.eqb_refl].
Qed.

(** C10 (as the code has it). For every input file whose extension is
    [.mp4] in lower case, [batch_convert] selects it as a candidate but
    starts no encoder that reads or writes it: its output path is the input
    path itself, which exists, so [convert_file] returns at its first
    check. *)
Theorem lower_case_mp4_untouched (env : environment) (listing : list string)
    (cb : option (Q -> M unit)) (g : Q -> list event) (w : world) (f : string) :
  reports cb g -> starts_nothing g ->
  suffix f = ".mp4" -> mem f (files w) = true ->
  (In f listing ->
   In f (filter (fun p => mem p (files w) && supported p) listing))
  /\ with_suffix f ".mp4" = Ok f
  /\ (forall cb', convert_file env f f cb' w
                  = ([Print (skip_message f)], w, Ok tt))
  /\ (forall command,
         In command (started (trace_of (batch_convert env listing cb w))) ->
         input_of command <> Some f /\ output_of command <> f).
Proof.
  intros Hcb Hg Hs Hf.
  assert (Hsame : with_suffix f ".mp4" = Ok f)
    by (apply with_suffix_same; [discriminate | exact Hs]).
  split; [ | split; [exact Hsame | split] ].
  - intros Hin. apply filter_In. split; [exact Hin | ].
    rewrite Hf. unfold supported. now rewrite Hs.
  - intros cb'. apply convert_file_skips. now rewrite Hf.
  - intros command. unfold batch_convert. rewrite trace_bind.
    unfold candidates at 1 2 3.
    unfold result_of at 1, world_of at 1, trace_of at 1. cbn [fst snd app].
    set (todo := filter _ listing).
    destruct todo as [ | file rest] eqn:Htodo; [intros [] | ].
    rewrite <- Htodo.
    apply (batch_loop_spares env cb g _ f todo); trivial.
    rewrite Htodo. cbn [List.length]. lia.
Qed.

Lemma lower_case_mp4_untouched_witness :
  with_suffix "a/clip.mp4" ".mp4" = Ok "a/clip.mp4"
  /\ forall command,
      In command
         (started (trace_of (batch_convert (fun _ => good_media)
                               ["a"; "a/clip.mp4"; "a/talk.avi"]
                               (Some recorder) sample_folder))) ->
      input_of command <> Some "a/clip.mp4" /\ output_of command <> "a/clip.mp4".
Proof.
  destruct (lower_case_mp4_untouched (fun _ => good_media)
              ["a"; "a/clip.mp4"; "a/talk.avi"] (Some recorder)
              (fun p => [Progress p]) sample_folder "a/clip.mp4"
              recorder_emits (fun p => eq_refl) eq_refl eq_refl)
    as (_ & H1 & _ & H2).
  split; [exact H1 | exact H2].
Defined.

(** C10 does not hold for an extension in upper case: the file is a
    candidate, its output path differs from it and does not exist, and the
    encoder is started on it. *)
Lemma upper_case_mp4_is_converted :
  lower (suffix "clip.MP4") = ".mp4"
  /\ filter (fun p => mem p (files upper_case_folder) && supported p) ["clip.MP4"]
     = ["clip.MP4"]
  /\ with_suffix "clip.MP4" ".mp4" = Ok "clip.mp4"
  /\ "clip.mp4" <> "clip.MP4"
  /\ started (trace_of (batch_convert (fun _ => good_media) ["clip.MP4"]
                          None upper_case_folder))
     = [["ffmpeg"; "-y"; "-i"; "clip.MP4";
         "-map"; "0:0"; "-c:v:0"; "libx264"; "-crf"; "18"; "-preset"; "slow";
         "-map"; "0:1"; "-c:a:0"; "aac"; "-profile:a"; "aac_low";
         "-b:a:0"; "153600";
         "-movflags"; "+faststart"; "clip.mp4"]].
Proof.
  repeat split; try reflexivity. discriminate.
Qed.

End BatchFacts.

(** ** Range and order of the reported percentages *)

Module ProgressFacts.
Import Notions Scenarios.
Import Py Regex Effects Parser Planner Paths Converter Gui.
Import RegexFacts ParserFacts ConverterFacts PathFacts EffectsFacts BatchFacts.
Local Open Scope py_scope.

Lemma py_min_le (x y : Q) : (py_min x y <= y)%Q.
Proof.
  unfold py_min. destruct (Qle_bool x y) eqn:E; [ | apply Qle_refl].
  now apply Qle_bool_iff.
Qed.

Lemma py_min_glb (x y z : Q) : (z <= x -> z <= y -> z <= py_min x y)%Q.
Proof. unfold py_min. now destruct (Qle_bool x y). Qed.

Lemma py_min_mono (x x' y : Q) : (x <= x' -> py_min x y <= py_min x' y)%Q.
Proof.
  intros H. unfold py_min.
  destruct (Qle_bool x y) eqn:E, (Qle_bool x' y) eqn:E'.
  - exact H.
  - now apply Qle_bool_iff.
  - apply Qle_bool_iff in E'.
    assert (Hn : ~ (x <= y)%Q) by (intros Hc; apply Qle_bool_iff in Hc; congruence).
    lra.
  - apply Qle_refl.
Qed.

Lemma ratio_nonneg (e d : Q) : (0 <= e -> 0 < d -> 0 <= e / d * 100)%Q.
Proof.
  intros He Hd. apply Qmult_le_0_compat; [ | lra].
  apply Qle_shift_div_l; [exact Hd | lra].
Qed.

Lemma ratio_mono (e e' d : Q) :
  (e <= e' -> 0 < d -> e / d * 100 <= e' / d * 100)%Q.
Proof.
  intros He Hd. apply Qmult_le_compat_r; [ | lra].
  unfold Qdiv. apply Qmult_le_compat_r; [exact He | ].
  apply Qlt_le_weak, Qinv_lt_0_compat, Hd.
Qed.

Lemma pct_in_range (d e : Q) : (0 <= e)%Q -> (0 < d)%Q -> in_range (pct d e).
Proof.
  intros He Hd. split.
  - apply py_min_glb; [now apply ratio_nonneg | lra].
  - apply py_min_le.
Qed.

Lemma pct_mono (d e e' : Q) : (e <= e' -> 0 < d -> pct d e <= pct d e')%Q.
Proof. intros He Hd. apply py_min_mono. now apply ratio_mono. Qed.

Lemma seconds_gui_agrees (h m s ms : Z) (v : Q) :
  seconds_gui h m s ms = Ok v -> seconds h m s ms = Ok v.
Proof.
  unfold seconds_gui, seconds, float_of_int, int_truediv.
  destruct (Z.abs ms <? float_limit) eqn:E; [ | discriminate].
  apply Z.ltb_lt in E.
  assert (E' : (Z.abs ms <? float_limit * 100) = true).
  { apply Z.ltb_lt. assert (0 < float_limit) by (vm_compute; reflexivity). lia. }
  rewrite E'.
  now destruct (Z.abs (h * 3600 + m * 60 + s) <? float_limit).
Qed.

(** A clock the window's parser reads is read by the other one as well,
    with the same value. *)
Lemma clock_value_gui_agrees (groups : list (list ascii)) (v : Q) :
  clock_value_gui groups = Ok v -> clock_value groups = Ok v.
Proof.
  unfold clock_value_gui, clock_value, clock_value_by.
  destruct (ints groups) as [[ | h [ | m [ | s [ | ms [ | ? ?]]]]] | e | ];
    try discriminate.
  apply seconds_gui_agrees.
Qed.

Section Stamps.

Variable sep : atom.
Hypothesis sep_no_group : sep <> Digits.
Variable value : list (list ascii) -> result Q.
Hypothesis value_reads : reads_clock value.
Hypothesis value_agrees :
  forall groups v, value groups = Ok v -> clock_value groups = Ok v.

Local Abbreviation dre := (clock_pattern "Duration: " sep).
Local Abbreviation tre := (clock_pattern "time=" sep).

Lemma time_stamps_nonneg (lines : list string) :
  Forall (fun e => 0 <= e)%Q (time_stamps tre lines).
Proof.
  induction lines as [ | line rest IH]; cbn [time_stamps]; [constructor | ].
  destruct (search tre line) as [groups | ] eqn:Hs; [ | exact IH].
  destruct (match_outcome sep sep_no_group clock_value clock_value_reads
              _ _ _ Hs) as [(e & -> & He) | (x & ->)];
    [now constructor | exact IH].
Qed.

Lemma on_line_known_eq (d : Q) (line : string) :
  on_line value dre tre (Some d) line
  = if known (Some d) then
      match search tre line with
      | Some groups =>
          match value groups with
          | Ok e => Ok (Some d, Some (pct d e))
          | Raise x => Raise x
          | Blocked => Blocked
          end
      | None => Ok (Some d, None)
      end
    else Ok (Some d, None).
Proof.
  unfold on_line. cbn [is_None]. rewrite andb_false_r.
  destruct (known (Some d)) eqn:Hk; [ | now rewrite andb_false_r].
  destruct (search tre line) as [groups | ] eqn:Hs.
  - rewrite (time_match_contains sep _ _ Hs). cbn [andb].
    destruct (value groups); trivial.
    now rewrite (percent_of_known _ _ Hk).
  - now destruct (contains "time=" line && true).
Qed.

(** With a known duration the time stamps are reported in order, each with
    its own percentage, up to the line that raises, if one does; with a
    duration of zero nothing is reported. *)
Lemma feed_known_values (d : Q) (lines : list string) :
  exists k,
    fst (feed value dre tre (Some d) lines)
    = if known (Some d) then map (pct d) (firstn k (time_stamps tre lines))
      else [].
Proof.
  induction lines as [ | line rest (k & IH)]; cbn [feed time_stamps].
  - exists O. now destruct (known (Some d)).
  - rewrite on_line_known_eq.
    destruct (known (Some d)) eqn:Hk.
    + destruct (search tre line) as [groups | ].
      * destruct (value groups) as [e | x | ] eqn:Hv;
          [ | exists O; reflexivity ..].
        rewrite (value_agrees _ _ Hv).
        destruct (feed value dre tre (Some d) rest) as [ps ending].
        cbn [fst] in *. exists (S k). cbn [firstn map]. now rewrite IH.
      * destruct (feed value dre tre (Some d) rest) as [ps ending].
        cbn [fst] in *. exists k. exact IH.
    + destruct (feed value dre tre (Some d) rest) as [ps ending].
      cbn [fst] in *. exists O. exact IH.
Qed.

(** Before the duration is known nothing is reported; what is reported
    afterwards are the time stamps of the lines that follow, up to the
    line that raises, if one does. *)
Lemma feed_values (lines : list string) :
  fst (feed value dre tre None lines) = []
  \/ exists d earlier later k,
      (0 < d)%Q
      /\ time_stamps tre lines = earlier ++ later
      /\ fst (feed value dre tre None lines) = map (pct d) (firstn k later).
Proof.
  induction lines as [ | line rest IH]; cbn [feed]; [now left | ].
  destruct (search (clock_pattern "Duration: " sep) line) as [groups | ] eqn:Hs.
  - destruct (match_outcome sep sep_no_group value value_reads _ _ _ Hs)
      as [(d & Hd & Hnn) | (x & Hx)].
    + rewrite (on_line_sets_duration sep value _ _ _ Hs Hd).
      destruct (feed_known_values d rest) as (k & Hk).
      destruct (feed value dre tre (Some d) rest) as [ps ending].
      cbn [fst] in *. rewrite Hk.
      destruct (known (Some d)) eqn:Hkn; [ | now left]. right.
      apply known_nonzero in Hkn.
      assert (Hpos : (0 < d)%Q).
      { destruct (Qlt_le_dec 0 d) as [ | Hle]; [assumption | ].
        exfalso. apply Hkn. lra. }
      exists d. cbn [time_stamps].
      destruct (search (clock_pattern "time=" sep) line) as [g | ].
      * destruct (clock_value g) as [e | | ].
        -- exists [e], (time_stamps (clock_pattern "time=" sep) rest), k.
           repeat split; trivial.
        -- exists [], (time_stamps (clock_pattern "time=" sep) rest), k.
           repeat split; trivial.
        -- exists [], (time_stamps (clock_pattern "time=" sep) rest), k.
           repeat split; trivial.
      * exists [], (time_stamps (clock_pattern "time=" sep) rest), k.
        repeat split; trivial.
    + rewrite (on_line_duration_raises sep value _ _ _ Hs Hx). now left.
  - rewrite (on_line_still_unknown sep value _ Hs).
    destruct (feed value dre tre None rest) as [ps ending]. cbn [fst] in *.
    destruct IH as [-> | (d & earlier & later & k & Hd & Hst & ->)]; [now left | ].
    right. exists d. cbn [time_stamps].
    destruct (search (clock_pattern "time=" sep) line) as [g | ].
    + destruct (clock_value g) as [e | | ].
      * exists (e :: earlier), later, k. rewrite Hst. repeat split; trivial.
      * exists earlier, later, k. repeat split; trivial.
      * exists earlier, later, k. repeat split; trivial.
    + exists earlier, later, k. repeat split; trivial.
Qed.

End Stamps.

Lemma ssorted_app_r {A : Type} (R : A -> A -> Prop) (l1 l2 : list A) :
  StronglySorted R (l1 ++ l2) -> StronglySorted R l2.
Proof.
  induction l1 as [ | a l1 IH]; cbn [app]; [trivial | ].
  intros H. apply StronglySorted_inv in H as [H _]. now apply IH.
Qed.

Lemma ssorted_map {A B : Type} (R : A -> A -> Prop) (R' : B -> B -> Prop)
    (f : A -> B) (l : list A) :
  (forall x y, R x y -> R' (f x) (f y)) ->
  StronglySorted R l -> StronglySorted R' (map f l).
Proof.
  intros Hf. induction 1 as [ | a l _ IH Ha]; cbn [map]; constructor; trivial.
  rewrite Forall_forall in *. intros y Hy.
  apply in_map_iff in Hy as (x & <- & Hx). auto.
Qed.

Lemma forall_firstn {A : Type} (P : A -> Prop) (l : list A) :
  forall k, Forall P l -> Forall P (firstn k l).
Proof.
  induction l as [ | a l IH]; intros [ | k] H; cbn [firstn]; try constructor.
  - now inversion H.
  - apply IH. now inversion H.
Qed.

Lemma ssorted_firstn {A : Type} (R : A -> A -> Prop) (l : list A) :
  forall k, StronglySorted R l -> StronglySorted R (firstn k l).
Proof.
  induction l as [ | a l IH]; intros [ | k] H; cbn [firstn]; try constructor.
  - apply IH. now apply StronglySorted_inv in H.
  - apply forall_firstn. now apply StronglySorted_inv in H.
Qed.

Lemma ssorted_snoc {A : Type} (R : A -> A -> Prop) (l : list A) (a : A) :
  StronglySorted R l -> Forall (fun x => R x a) l -> StronglySorted R (l ++ [a]).
Proof.
  induction 1 as [ | b l _ IH Hb]; intros Hall; cbn [app].
  - repeat constructor.
  - inversion Hall as [ | ? ? Hba Hla]; subst. constructor; [now apply IH | ].
    apply Forall_app. split; [exact Hb | now constructor].
Qed.

Lemma Qle_transitive : Relations_1.Transitive Qle.
Proof. intros x y z. apply Qle_trans. Qed.

(** The percentages of a run of the parser are in range, and in order when
    the time stamps are. *)
Lemma feed_percentages (sep : atom) (value : list (list ascii) -> result Q)
    (lines : list string) :
  sep <> Digits ->
  reads_clock value ->
  (forall groups v, value groups = Ok v -> clock_value groups = Ok v) ->
  let ps :=
    fst (feed value (clock_pattern "Duration: " sep)
              (clock_pattern "time=" sep) None lines) in
  Forall in_range ps
  /\ (Sorted Qle (time_stamps (clock_pattern "time=" sep) lines) ->
      StronglySorted Qle ps).
Proof.
  intros Hsep Hreads Hagrees. cbv zeta.
  destruct (feed_values sep Hsep value Hreads Hagrees lines)
    as [-> | (d & earlier & later & k & Hd & Hst & ->)].
  - split; [constructor | intros _; constructor].
  - pose proof (time_stamps_nonneg sep Hsep lines) as Hnn.
    rewrite Hst in *. apply Forall_app in Hnn as [_ Hnn]. split.
    + rewrite Forall_forall in *. intros p Hp.
      apply in_map_iff in Hp as (e & <- & He). apply pct_in_range; auto.
      apply Hnn. rewrite <- (firstn_skipn k later). apply in_or_app. now left.
    + intros Hs. apply (Sorted_StronglySorted Qle_transitive) in Hs.
      apply ssorted_app_r in Hs.
      apply (ssorted_map Qle Qle); [ | now apply ssorted_firstn].
      intros x y Hxy. now apply pct_mono.
Qed.

(** A prefix of the percentages, followed or not by the final 100. *)
Lemma prefix_and_final (ps : list Q) (k : nat) (tail : list Q) :
  tail = [] \/ tail = [100%Q] ->
  Forall in_range ps ->
  Forall in_range (firstn k ps ++ tail)
  /\ (StronglySorted Qle ps -> Sorted Qle (firstn k ps ++ tail)).
Proof.
  intros Htail Hr.
  assert (Hk : Forall in_range (firstn k ps)) by now apply forall_firstn.
  split.
  - apply Forall_app. split; [exact Hk | ].
    destruct Htail as [-> | ->]; repeat constructor; unfold Qle; cbn; lia.
  - intros Hs. apply StronglySorted_Sorted.
    destruct Htail as [-> | ->].
    + rewrite app_nil_r. now apply ssorted_firstn.
    + apply ssorted_snoc; [now apply ssorted_firstn | ].
      eapply Forall_impl; [ | exact Hk]. now intros p [_ Hp].
Qed.

Lemma reported_bind {A B : Type} (m : M A) (f : A -> M B) (w : world) :
  reported (trace_of (bind m f w))
  = reported (trace_of (m w))
    ++ match result_of (m w) with
       | Ok a => reported (trace_of (f a (world_of (m w))))
       | _ => []
       end.
Proof.
  rewrite trace_bind, reported_app. now destruct (result_of (m w)).
Qed.

Lemma pause_loop_silent (ctl : controls) (patience : nat) :
  forall w, reported (trace_of (pause_loop ctl patience w)) = [].
Proof.
  induction patience as [ | n IH]; intros w; cbn [pause_loop];
    rewrite reported_bind; cbn [read_paused trace_of result_of world_of fst snd reported app];
    destruct (paused_at ctl (reads w)); try reflexivity;
    rewrite reported_bind; cbn [read_cancelled trace_of result_of world_of fst snd reported app];
    destruct (cancelled_at ctl (reads (tick w))); cbn [negb]; try reflexivity.
  rewrite reported_bind. cbn [emit trace_of result_of world_of fst snd reported app].
  apply IH.
Qed.

(** The loop of [convert_file_with_control] reports a prefix of the
    parser's percentages. *)
Lemma control_loop_reported (ctl : controls) (patience : nat)
    (lines : list string) :
  forall duration w,
    exists k,
      reported (trace_of (control_loop ctl patience recorder lines duration w))
      = firstn k (fst (feed clock_value_gui duration_re_gui time_re_gui
                            duration lines)).
Proof.
  induction lines as [ | line rest IH]; intros duration w;
    cbn [feed control_loop].
  - exists O. reflexivity.
  - rewrite reported_bind.
    cbn [read_cancelled trace_of result_of world_of fst snd reported app].
    destruct (cancelled_at ctl (reads w)); [exists O; reflexivity | ].
    rewrite reported_bind, pause_loop_silent. cbn [app].
    destruct (result_of (pause_loop ctl patience (tick w)));
      [ | exists O; reflexivity ..].
    rewrite reported_bind.
    cbn [read_cancelled trace_of result_of world_of fst snd reported app].
    match goal with |- context [cancelled_at ctl ?r] =>
      destruct (cancelled_at ctl r) end; [exists O; reflexivity | ].
    destruct (on_line clock_value_gui duration_re_gui time_re_gui duration line)
      as [[d' e] | x | ]; [ | exists O; reflexivity ..].
    destruct e as [p | ].
    + rewrite reported_bind.
      cbn [recorder emit trace_of result_of world_of fst snd reported app].
      match goal with |- context [control_loop ctl patience recorder rest d' ?w'] =>
        destruct (IH d' w') as (k & ->) end.
      destruct (feed clock_value_gui duration_re_gui time_re_gui d' rest).
      exists (S k). reflexivity.
    + match goal with |- context [control_loop ctl patience recorder rest d' ?w'] =>
        destruct (IH d' w') as (k & ->) end.
      destruct (feed clock_value_gui duration_re_gui time_re_gui d' rest).
      exists k. reflexivity.
Qed.

Lemma build_run (m : media) (input_file output_file : string) (w : world) :
  build m input_file output_file w
  = (notice m input_file, w,
     Ok (build_ffmpeg_command (streams m) input_file output_file
           default_crf default_preset)).
Proof.
  unfold build, notice, bind, emit, ret.
  now destruct (warns_video_only _ _ _ _).
Qed.

Lemma wait_run (m : media) (output_file : string) (w : world) :
  wait m output_file w = ([Wait], after_wait m output_file w, Ok tt).
Proof.
  unfold wait, after_wait, bind, emit, ret, create_file, world_of.
  now destruct (writes_output m).
Qed.

Lemma final_report_reported (ctl : controls) (w : world) :
  let r := reported (trace_of (final_report ctl (Some recorder) w)) in
  r = [] \/ r = [100%Q].
Proof.
  unfold final_report, bind, read_cancelled, recorder, emit, ret, trace_of.
  destruct (cancelled_at ctl (reads w)); cbn; auto.
Qed.

(** What [convert_file_with_control] reports: a prefix of the parser's
    percentages, followed or not by the final 100. *)
Lemma control_reported (ctl : controls) (patience : nat) (env : environment)
    (input_file output_file : string) (w : world) :
  exists k tail,
    (tail = [] \/ tail = [100%Q])
    /\ reported (trace_of (convert_file_with_control ctl patience env input_file
                             output_file (Some recorder) w))
       = firstn k (percentages_gui (env input_file)) ++ tail.
Proof.
  unfold convert_file_with_control.
  rewrite reported_bind.
  cbn [path_exists trace_of result_of world_of fst snd reported app].
  destruct (mem output_file (files w) || mem output_file (dirs w));
    [exists O, []; split; [now left | reflexivity] | ].
  set (m := env input_file).
  rewrite reported_bind, build_run.
  cbn [trace_of result_of world_of fst snd]. rewrite reported_notice. cbn [app].
  rewrite reported_bind. unfold popen at 1 2 3.
  destruct (popen_fails m);
    [exists O, []; split; [now left | reflexivity] | ].
  cbn [emit trace_of result_of world_of fst snd reported app].
  rewrite reported_bind.
  destruct (control_loop_reported ctl patience (stderr_lines m) None w)
    as (k & ->).
  unfold percentages_gui. fold m.
  destruct (result_of (control_loop ctl patience recorder (stderr_lines m) None w));
    [ | exists k, []; split; [now left | reflexivity] ..].
  rewrite reported_bind, wait_run.
  cbn [trace_of result_of world_of fst snd reported app].
  match goal with |- context [after_wait m output_file ?w0] =>
    set (w' := after_wait m output_file w0) end.
  destruct (negb (returncode m =? 0)).
  - rewrite reported_bind.
    cbn [read_cancelled trace_of result_of world_of fst snd reported app].
    destruct (cancelled_at ctl (reads w')); cbn [negb].
    + exists k. eexists. split; [ | reflexivity].
      apply (final_report_reported ctl (tick w')).
    + exists k, []. split; [now left | reflexivity].
  - exists k. eexists. split; [ | reflexivity].
    apply (final_report_reported ctl w').
Qed.

Lemma job_values_shape (env : environment) (input_file output_file : string)
    (w : world) :
  exists k tail,
    (tail = [] \/ tail = [100%Q])
    /\ job_values env input_file output_file w
       = firstn k (percentages (env input_file)) ++ tail.
Proof.
  unfold job_values.
  destruct (mem output_file (files w) || mem output_file (dirs w));
    [exists O, []; split; [now left | reflexivity] | ].
  destruct (popen_fails (env input_file));
    [exists O, []; split; [now left | reflexivity] | ].
  exists (List.length (percentages (env input_file))). rewrite firstn_all.
  destruct (parser_error (env input_file));
    [exists []; split; [now left | reflexivity] | ].
  destruct (returncode (env input_file) =? 0); eexists; split;
    try reflexivity; auto.
Qed.

Lemma percentages_good (m : media) :
  Forall in_range (percentages m)
  /\ (Sorted Qle (time_stamps time_re (stderr_lines m)) ->
      StronglySorted Qle (percentages m)).
Proof.
  exact (feed_percentages AnyChar clock_value (stderr_lines m)
           any_char_no_group clock_value_reads (fun _ _ H => H)).
Qed.

Lemma percentages_gui_good (m : media) :
  Forall in_range (percentages_gui m)
  /\ (Sorted Qle (time_stamps time_re_gui (stderr_lines m)) ->
      StronglySorted Qle (percentages_gui m)).
Proof.
  exact (feed_percentages (Chr ".") clock_value_gui (stderr_lines m)
           dot_no_group clock_value_gui_reads clock_value_gui_agrees).
Qed.




End ProgressFacts.

Module ProberFacts.
Import Notions Scenarios.
Import Effects Prober.

Lemma member_absent (members : list (string * json)) (default : json) :
  (forall v, ~ In ("streams", v) members) ->
  member members "streams" default = default.
Proof.
  intros H.
  induction members as [ | [k v] rest IH]; cbn [member]; [reflexivity | ].
  destruct (String.eqb_spec k "streams") as [-> | Hk].
  - exfalso. apply (H v). now left.
  - apply IH. intros v' Hin. apply (H v'). now right.
Qed.

Example prober_not_found (loads : string -> loaded) :
  get_streams (Raise OSError) loads = Raise OSError.
Proof. reflexivity. Qed.

Example nesting_too_deep (stdout : string) :
  get_streams (Ok stdout) (fun _ => Failed RecursionError)
  = Raise RecursionError.
Proof. reflexivity. Qed.

(** C7 does not hold as stated: output that is valid JSON but not an
    object, such as [[]] or [null], makes [get_streams] raise
    [AttributeError], which the [except] clause does not catch. *)
Lemma get_streams_raises_on_array :
  get_streams (Ok "[]") loads_examples = Raise AttributeError
  /\ get_streams (Ok "null") loads_examples = Raise AttributeError.
Proof. split; reflexivity. Qed.

(** C7 (as the code has it). For every output string of the prober: when
    [json.loads] rejects it with [JSONDecodeError], [get_streams] returns
    the empty sequence; when it decodes to an object, [get_streams]
    returns the object's [streams] member, the empty sequence when there
    is none; it raises in neither case.  It raises only for a document
    that is not an object ([AttributeError]) and for another exception of
    [json.loads], which it passes on. *)
Theorem get_streams_degrades (stdout : string) (loads : string -> loaded) :
  (loads stdout = JSONDecodeError ->
   get_streams (Ok stdout) loads = Ok (JArr []))
  /\ (forall members,
         loads stdout = Decoded (JObj members) ->
         get_streams (Ok stdout) loads
         = Ok (member members "streams" (JArr []))
         /\ ((forall v, ~ In ("streams", v) members) ->
             get_streams (Ok stdout) loads = Ok (JArr [])))
  /\ (forall e,
         get_streams (Ok stdout) loads = Raise e ->
         loads stdout = Failed e
         \/ (e = AttributeError
             /\ exists document,
                 loads stdout = Decoded document
                 /\ forall members, document <> JObj members)).
Proof.
  unfold get_streams. split; [now intros -> | split].
  - intros members ->. split; [reflexivity | ].
    intros H. now rewrite member_absent.
  - intros e. destruct (loads stdout) as [[ | b | z | t | items | members] | | x];
      intros [= <-];
      try (right; split; [reflexivity | eexists; split; [reflexivity | discriminate] ]).
    now left.
Qed.

Lemma get_streams_degrades_witness :
  get_streams (Ok "N/A") loads_examples = Ok (JArr [])
  /\ get_streams (Ok "{}") loads_examples = Ok (JArr []).
Proof.
  split.
  - apply (proj1 (get_streams_degrades "N/A" loads_examples)). reflexivity.
  - apply (proj2 (proj1 (proj2 (get_streams_degrades "{}" loads_examples))
                    [] eq_refl)).
    intros v [].
Defined.

End ProberFacts.

(** ** Cancellation of the conversion thread *)

Module CancelFacts.
Import Notions Scenarios.
Import Py Regex Effects Parser Planner Paths Converter Gui.
Import RegexFacts ParserFacts ConverterFacts EffectsFacts.
Local Open Scope py_scope.

Section Cancelled.

Variable ctl : controls.

(** Once set, the flag stays set. *)
Hypothesis stays_set :
  forall t, cancelled_at ctl t = true -> cancelled_at ctl (S t) = true.

Local Abbreviation set_at := (Notions.set_at ctl).
Local Abbreviation guarded := (Notions.guarded ctl).
Local Abbreviation settles := (Notions.settles ctl).
Local Abbreviation tame := (Notions.tame ctl).
Local Abbreviation calm := (Notions.calm ctl).

Lemma set_from (r : nat) :
  cancelled_at ctl r = true ->
  forall t, (r <= t)%nat -> cancelled_at ctl t = true.
Proof. intros Hr t Ht. induction Ht; auto. Qed.

Lemma set_at_later (w w' : world) :
  (reads w <= reads w')%nat -> set_at w -> set_at w'.
Proof. intros Hle Hs t Ht. apply Hs. lia. Qed.

Lemma blind_settles {A : Type} (m : M A) : blind m -> settles m.
Proof.
  intros Hb w pre post E. exfalso. apply (Hb w). rewrite E.
  apply in_elt.
Qed.

Lemma split_at {A : Type} (t1 t2 pre post : list A) (x : A) :
  t1 ++ t2 = pre ++ x :: post ->
  (exists post1, t1 = pre ++ x :: post1 /\ post = post1 ++ t2)
  \/ (exists pre2, pre = t1 ++ pre2 /\ t2 = pre2 ++ x :: post).
Proof.
  intros E. apply app_eq_app in E as (l & [[E1 E2] | [E1 E2]]).
  - destruct l as [ | y l].
    + right. exists []. rewrite app_nil_r in *. now subst.
    + cbn [app] in E2. injection E2 as <- ->. left. now exists l.
  - right. now exists l.
Qed.

Lemma forward_bind {A B : Type} (m : M A) (f : A -> M B) :
  forward m -> (forall a, forward (f a)) -> forward (bind m f).
Proof.
  intros Hm Hf w. rewrite world_bind. specialize (Hm w).
  destruct (result_of (m w)) as [a | e | ]; trivial.
  specialize (Hf a (world_of (m w))). lia.
Qed.

Lemma guarded_bind {A B : Type} (m : M A) (f : A -> M B) :
  guarded m -> forward m -> (forall a, guarded (f a)) -> guarded (bind m f).
Proof.
  intros Gm Fm Gf w Hs. rewrite trace_bind. apply Forall_app. split.
  - now apply Gm.
  - destruct (result_of (m w)) as [a | e | ]; [ | constructor ..].
    apply Gf. eapply set_at_later; [apply Fm | exact Hs].
Qed.

(** After a computation that may see the flag, a guarded one. *)
Lemma settles_bind {A B : Type} (m : M A) (f : A -> M B) :
  settles m -> forward m ->
  (forall a, guarded (f a)) -> (forall a, settles (f a)) ->
  (forall a, forward (f a)) ->
  settles (bind m f).
Proof.
  intros Sm Fm Gf Sf Ff w pre post E.
  rewrite trace_bind in E. rewrite world_bind.
  apply split_at in E as [(post1 & E1 & ->) | (pre2 & -> & E2)].
  - destruct (Sm w _ _ E1) as [Hpost1 Hset].
    destruct (result_of (m w)) as [a | e | ];
      [ | rewrite app_nil_r; now split ..].
    split.
    + apply Forall_app. split; [exact Hpost1 | now apply Gf].
    + eapply set_at_later; [apply Ff | exact Hset].
  - destruct (result_of (m w)) as [a | e | ];
      [ | now destruct pre2 ..].
    now apply (Sf a (world_of (m w)) pre2 post).
Qed.

(** After a computation that does not see the flag, any other. *)
Lemma settles_after_blind {A B : Type} (m : M A) (f : A -> M B) :
  blind m -> (forall a, settles (f a)) -> settles (bind m f).
Proof.
  intros Bm Sf w pre post E.
  rewrite trace_bind in E. rewrite world_bind.
  apply split_at in E as [(post1 & E1 & ->) | (pre2 & -> & E2)].
  - exfalso. apply (Bm w). rewrite E1. apply in_elt.
  - destruct (result_of (m w)) as [a | e | ];
      [ | now destruct pre2 ..].
    now apply (Sf a (world_of (m w)) pre2 post).
Qed.

Lemma calm_tame {A : Type} (m : M A) : calm m -> tame m.
Proof. intros (F & _ & S). now split. Qed.

Lemma tame_blind {A : Type} (m : M A) : blind m -> forward m -> tame m.
Proof. intros B F. split; [exact F | now apply blind_settles]. Qed.

Lemma calm_bind {A B : Type} (m : M A) (f : A -> M B) :
  calm m -> (forall a, calm (f a)) -> calm (bind m f).
Proof.
  intros (Fm & Gm & Sm) Hf. split; [ | split].
  - apply forward_bind; [exact Fm | intros a; apply Hf].
  - apply guarded_bind; trivial. intros a; apply Hf.
  - apply settles_bind; trivial; intros a; apply Hf.
Qed.

Lemma tame_then_calm {A B : Type} (m : M A) (f : A -> M B) :
  tame m -> (forall a, calm (f a)) -> tame (bind m f).
Proof.
  intros (Fm & Sm) Hf. split.
  - apply forward_bind; [exact Fm | intros a; apply Hf].
  - apply settles_bind; trivial; intros a; apply Hf.
Qed.

Lemma blind_then_tame {A B : Type} (m : M A) (f : A -> M B) :
  blind m -> forward m -> (forall a, tame (f a)) -> tame (bind m f).
Proof.
  intros Bm Fm Hf. split.
  - apply forward_bind; [exact Fm | intros a; apply Hf].
  - apply settles_after_blind; [exact Bm | intros a; apply Hf].
Qed.

(** A read of the flag, and what follows it either way. *)
Lemma calm_read {B : Type} (k : bool -> M B) :
  calm (k true) -> tame (k false) -> calm (bind (read_cancelled ctl) k).
Proof.
  intros (Ft & Gt & St) (Ff & Sf). split; [ | split].
  - intros w. rewrite world_bind. cbn [read_cancelled result_of world_of fst snd].
    destruct (cancelled_at ctl (reads w));
      [specialize (Ft (tick w)) | specialize (Ff (tick w))];
      cbn [tick reads] in *; lia.
  - intros w Hs. rewrite trace_bind.
    cbn [read_cancelled trace_of result_of world_of fst snd].
    rewrite (Hs (reads w)) by lia. constructor; [now left | ].
    apply Gt. eapply set_at_later; [ | exact Hs]. cbn; lia.
  - intros w pre post E. rewrite trace_bind in E. rewrite world_bind.
    cbn [read_cancelled trace_of result_of world_of fst snd] in *.
    destruct (cancelled_at ctl (reads w)) eqn:Hc.
    + assert (Hset : set_at (tick w)).
      { intros t Ht. apply (set_from (reads w)); [exact Hc | ].
        cbn [tick reads] in Ht. lia. }
      destruct pre as [ | e pre]; cbn [app] in E.
      * injection E as <-. split; [now apply Gt | ].
        eapply set_at_later; [apply Ft | exact Hset].
      * injection E as _ E. now apply (St (tick w) pre post).
    + destruct pre as [ | e pre]; cbn [app] in E; [discriminate | ].
      injection E as _ E. now apply (Sf (tick w) pre post).
Qed.

Lemma tame_try {A : Type} (m : M A) (h : exn -> M A) :
  tame m -> (forall e, calm (h e)) -> tame (try_except m h).
Proof.
  intros (Fm & Sm) Hh. split.
  - intros w. unfold try_except, world_of. specialize (Fm w).
    unfold world_of in Fm.
    destruct (m w) as [[t1 w1] [a | e | ]]; cbn [fst snd] in *; trivial.
    destruct (Hh e) as (Fh & _). specialize (Fh w1). unfold world_of in Fh.
    destruct (h e w1) as [[t2 w2] r2]. cbn [fst snd] in *. lia.
  - intros w pre post E. unfold try_except, trace_of, world_of in *.
    specialize (Sm w). unfold trace_of, world_of in Sm.
    destruct (m w) as [[t1 w1] [a | e | ]]; cbn [fst snd] in *;
      try (now apply (Sm pre post)).
    destruct (Hh e) as (Fh & Gh & Sh).
    specialize (Fh w1). specialize (Gh w1). specialize (Sh w1).
    unfold trace_of, world_of in *.
    destruct (h e w1) as [[t2 w2] r2]. cbn [fst snd] in *.
    apply split_at in E as [(post1 & E1 & ->) | (pre2 & -> & E2)].
    + destruct (Sm _ _ E1) as [Hp Hs]. split.
      * apply Forall_app. split; [exact Hp | now apply Gh].
      * eapply set_at_later; [exact Fh | exact Hs].
    + now apply (Sh pre2 post).
Qed.

(** Computations that neither read the flag nor do anything but wind down. *)
Lemma blind_nil {A : Type} (m : M A) :
  (forall w, trace_of (m w) = []) -> blind m.
Proof. intros H w. rewrite H. intros []. Qed.

Lemma blind_emit (e : event) : e <> SawCancelled true -> blind (emit e).
Proof. intros He w [E | []]. now apply He. Qed.

Lemma blind_bind {A B : Type} (m : M A) (f : A -> M B) :
  blind m -> (forall a, blind (f a)) -> blind (bind m f).
Proof.
  intros Bm Bf w. rewrite trace_bind. intros H.
  apply in_app_or in H as [H | H]; [now apply (Bm w) | ].
  destruct (result_of (m w)) as [a | e | ]; [ | destruct H ..].
  now apply (Bf a (world_of (m w))).
Qed.

Lemma forward_still {A : Type} (m : M A) :
  (forall w, reads (world_of (m w)) = reads w) -> forward m.
Proof. intros H w. rewrite H. lia. Qed.

Lemma calm_blind {A : Type} (m : M A) :
  blind m -> forward m ->
  (forall w, Forall winding_down (trace_of (m w))) -> calm m.
Proof.
  intros B F G. split; [exact F | split].
  - intros w _. apply G.
  - now apply blind_settles.
Qed.

Lemma calm_ret {A : Type} (a : A) : calm (ret a).
Proof.
  apply calm_blind.
  - now apply blind_nil.
  - now apply forward_still.
  - intros w. constructor.
Qed.

Lemma calm_emit (e : event) :
  winding_down e -> e <> SawCancelled true -> calm (emit e).
Proof.
  intros He Hne. apply calm_blind.
  - now apply blind_emit.
  - now apply forward_still.
  - intros w. constructor; [exact He | constructor].
Qed.

Lemma tame_emit (e : event) : e <> SawCancelled true -> tame (emit e).
Proof.
  intros Hne. apply tame_blind; [now apply blind_emit | now apply forward_still].
Qed.

Lemma tame_raise {A : Type} (e : exn) : tame (@raise A e).
Proof. apply tame_blind; [now apply blind_nil | now apply forward_still]. Qed.

Lemma tame_blocked {A : Type} : tame (@blocked A).
Proof. apply tame_blind; [now apply blind_nil | now apply forward_still]. Qed.

Lemma tame_lift {A : Type} (r : result A) : tame (lift r).
Proof. apply tame_blind; [now apply blind_nil | now apply forward_still]. Qed.

Lemma calm_read_paused : calm (read_paused ctl).
Proof.
  apply calm_blind.
  - now apply blind_nil.
  - intros w. cbn. lia.
  - intros w. constructor.
Qed.

Ltac not_a_read := discriminate.

Lemma calm_pause_loop (patience : nat) : calm (pause_loop ctl patience).
Proof.
  induction patience as [ | n IH]; cbn [pause_loop];
    (apply calm_bind; [apply calm_read_paused | ]);
    intros [ | ]; try apply calm_ret;
    (apply calm_read; [apply calm_ret | ]); cbn [negb].
  - apply tame_blocked.
  - apply blind_then_tame.
    + apply blind_emit. not_a_read.
    + now apply forward_still.
    + intros _. apply calm_tame, IH.
Qed.

Lemma calm_progress_callback (file_path : string)
    (converted_count total_files : Z) (percent : Q) :
  calm (progress_callback ctl file_path converted_count total_files percent).
Proof.
  unfold progress_callback. apply calm_read; [apply calm_ret | ].
  apply blind_then_tame.
  - apply blind_emit. not_a_read.
  - now apply forward_still.
  - intros _. apply blind_then_tame.
    + now apply blind_nil.
    + now apply forward_still.
    + intros overall. apply tame_emit. not_a_read.
Qed.

Section Callback.

Variable callback : Q -> M unit.
Hypothesis calm_callback : forall percent, calm (callback percent).

Lemma calm_terminate : calm (emit Terminate).
Proof. apply calm_emit; [right; now left | not_a_read]. Qed.

Lemma calm_control_loop (patience : nat) (lines : list string) :
  forall duration, calm (control_loop ctl patience callback lines duration).
Proof.
  induction lines as [ | line rest IH]; intros duration; cbn [control_loop].
  - apply calm_ret.
  - apply calm_read; [apply calm_terminate | ].
    apply tame_then_calm; [apply calm_tame, calm_pause_loop | ].
    intros _. apply calm_read; [apply calm_terminate | ].
    destruct (on_line clock_value_gui duration_re_gui time_re_gui duration line)
      as [[d' [p | ]] | e | ].
    + apply tame_then_calm; [apply calm_tame, calm_callback | ].
      intros _. apply IH.
    + apply calm_tame, IH.
    + apply tame_raise.
    + apply tame_blocked.
Qed.

Lemma calm_final_report : calm (final_report ctl (Some callback)).
Proof.
  unfold final_report. apply calm_read; [apply calm_ret | ].
  cbn [negb]. apply calm_tame, calm_callback.
Qed.

Lemma blind_build (m : media) (input_file output_file : string) :
  blind (build m input_file output_file).
Proof.
  intros w. rewrite ProgressFacts.build_run. cbn [trace_of fst].
  unfold notice. destruct (warns_video_only _ _ _ _).
  - intros [E | []]. discriminate E.
  - intros [].
Qed.

Lemma forward_build (m : media) (input_file output_file : string) :
  forward (build m input_file output_file).
Proof. intros w. rewrite ProgressFacts.build_run. cbn. lia. Qed.

Lemma tame_popen (m : media) (command : list string) : tame (popen m command).
Proof.
  unfold popen. destruct (popen_fails m); [apply tame_raise | ].
  apply tame_emit. not_a_read.
Qed.

Lemma calm_wait (m : media) (output_file : string) : calm (wait m output_file).
Proof.
  apply calm_blind.
  - intros w. rewrite ProgressFacts.wait_run. intros [E | []]. discriminate E.
  - intros w. rewrite ProgressFacts.wait_run.
    unfold after_wait, world_of, create_file.
    destruct (writes_output m); cbn [fst snd]; [ | lia].
    destruct (mem output_file (files w)); cbn; lia.
  - intros w. rewrite ProgressFacts.wait_run. constructor; [ | constructor].
    right. right. now left.
Qed.

Lemma tame_convert_file_with_control (patience : nat) (env : environment)
    (input_file output_file : string) :
  tame (convert_file_with_control ctl patience env input_file output_file
          (Some callback)).
Proof.
  unfold convert_file_with_control.
  apply blind_then_tame; [now apply blind_nil | now apply forward_still | ].
  intros [ | ]; [apply tame_emit; not_a_read | ].
  apply blind_then_tame; [apply blind_build | apply forward_build | ].
  intros command.
  destruct (tame_popen (env input_file) command) as [Fp Sp].
  split.
  - apply forward_bind; [exact Fp | ]. intros _.
    apply forward_bind; [apply calm_control_loop | ]. intros _.
    apply forward_bind; [apply calm_wait | ]. intros _.
    destruct (negb (returncode (env input_file) =? 0)).
    + apply calm_read; [apply calm_final_report | apply tame_emit; not_a_read].
    + apply calm_final_report.
  - apply settles_after_blind.
    + unfold popen. destruct (popen_fails (env input_file));
        [now apply blind_nil | apply blind_emit; not_a_read].
    + intros _. apply tame_then_calm; [apply calm_tame, calm_control_loop | ].
      intros _. apply calm_bind; [apply calm_wait | ]. intros _.
      destruct (negb (returncode (env input_file) =? 0)).
      * apply calm_read; [apply calm_final_report | apply tame_emit; not_a_read].
      * apply calm_final_report.
Qed.

End Callback.

Lemma tame_convert_entry (patience : nat) (env : environment)
    (file_path output_file : string) (converted_count total_files : Z) :
  tame (convert_entry ctl patience env file_path output_file
          converted_count total_files).
Proof.
  unfold convert_entry. apply tame_try.
  - apply tame_then_calm.
    + apply tame_convert_file_with_control. intros p. apply calm_progress_callback.
    + intros _. apply calm_read; [apply calm_ret | ]. cbn [negb].
      apply blind_then_tame; [apply blind_emit; not_a_read
                             | now apply forward_still | ].
      intros _. apply calm_tame, calm_ret.
  - intros e. apply calm_read; [apply calm_ret | ]. cbn [negb].
    apply blind_then_tame; [apply blind_emit; not_a_read
                           | now apply forward_still | ].
    intros _. apply calm_tame, calm_ret.
Qed.

Lemma calm_process_loop (patience : nat) (env : environment) (total_files : Z)
    (selected : list string) :
  forall i converted_count,
    calm (process_loop ctl patience env total_files i converted_count selected).
Proof.
  induction selected as [ | file_path rest IH]; intros i converted_count;
    cbn [process_loop].
  - apply calm_ret.
  - apply calm_read; [apply calm_ret | ].
    apply tame_then_calm; [apply calm_tame, calm_pause_loop | ].
    intros _. apply calm_read; [apply calm_ret | ].
    apply blind_then_tame; [now apply blind_nil | now apply forward_still | ].
    intros is_file.
    destruct (is_file && supported file_path); [ | apply calm_tame, IH].
    apply blind_then_tame; [now apply blind_nil | now apply forward_still | ].
    intros output_file.
    apply blind_then_tame; [apply blind_emit; not_a_read
                           | now apply forward_still | ].
    intros _. apply tame_then_calm; [apply tame_convert_entry | ].
    intros converted. apply IH.
Qed.

Lemma tame_process_conversion (patience : nat) (env : environment)
    (selected_files : list string) :
  tame (process_conversion ctl patience env selected_files).
Proof.
  unfold process_conversion.
  apply tame_then_calm; [apply calm_tame, calm_process_loop | ].
  intros converted_count. apply calm_read.
  - cbn [negb]. apply calm_bind; [apply calm_ret | ].
    intros _. apply calm_emit; [repeat right; reflexivity | not_a_read].
  - cbn [negb]. apply blind_then_tame.
    + repeat (apply blind_bind; [ | intros _]); apply blind_emit; not_a_read.
    + now apply forward_still.
    + intros _. apply tame_emit. not_a_read.
Qed.

End Cancelled.

Lemma cancel_at_stays (n : nat) :
  forall t, cancelled_at (cancel_at n) t = true ->
            cancelled_at (cancel_at n) (S t) = true.
Proof.
  intros t H. cbn in *. apply Nat.leb_le in H. apply Nat.leb_le. lia.
Qed.

Example cancelled_mid_file :
  started (trace_of (process_conversion (cancel_at 6) 0 (fun _ => good_media)
                       ["a.avi"; "b.avi"] two_videos))
  = [build_ffmpeg_command (streams good_media) "a.avi" "a.mp4"
       default_crf default_preset]
  /\ skipn 4 (trace_of (process_conversion (cancel_at 6) 0
                          (fun _ => good_media)
                          ["a.avi"; "b.avi"] two_videos))
     = [SawCancelled false; SawCancelled false; SawCancelled true; Terminate;
        Wait; SawCancelled true; SawCancelled true; SawCancelled true;
        SawCancelled true; ResetButtons].
Proof. split; reflexivity. Qed.

Example cancelled_in_a_pause :
  trace_of (process_conversion cancel_while_paused 5 (fun _ => good_media)
              ["a.avi"; "b.avi"] two_videos)
  = [SawCancelled false; SawCancelled false; Sleep; SawCancelled true;
     SawCancelled true; SawCancelled true; ResetButtons].
Proof. reflexivity. Qed.


Lemma cancel_while_paused_stays :
  forall t, cancelled_at cancel_while_paused t = true ->
            cancelled_at cancel_while_paused (S t) = true.
Proof.
  intros t H. unfold cancel_while_paused, cancelled_at in *.
  apply Nat.leb_le in H. apply Nat.leb_le. lia.
Qed.


End CancelFacts.

(** ** Overall progress of the conversion thread *)

Module OverallFacts.
Import Notions Scenarios.
Import Py Regex Effects Parser Planner Paths Converter Gui.
Import RegexFacts ParserFacts ConverterFacts EffectsFacts BatchFacts ProgressFacts.
Local Open Scope py_scope.

Lemma overall_values_app (t1 t2 : list event) :
  overall_values (t1 ++ t2) = overall_values t1 ++ overall_values t2.
Proof.
  induction t1 as [ | e t1 IH]; cbn [app overall_values]; [reflexivity | ].
  destruct e; cbn [app]; now rewrite ?IH.
Qed.

Lemma pause_loop_undisturbed (patience : nat) (w : world) :
  pause_loop undisturbed patience w = ([], tick w, Ok tt).
Proof. now destruct patience. Qed.

(** What the closure of [process_conversion] does with a percentage, seen
    cancelled or not. *)
Lemma progress_callback_run (ctl : controls) (file_path : string)
    (converted_count total_files : Z) (percent : Q) (w : world) :
  total_files <> 0 ->
  progress_callback ctl file_path converted_count total_files percent w
  = if cancelled_at ctl (reads w) then ([SawCancelled true], tick w, Ok tt)
    else ([SawCancelled false; FileProgress file_path percent;
           OverallProgress (overall_value converted_count total_files percent)],
          tick w, Ok tt).
Proof.
  intros Ht. unfold progress_callback, bind, read_cancelled, emit, lift, ret.
  destruct (cancelled_at ctl (reads w)); [reflexivity | ].
  now rewrite overall_of_value.
Qed.

Lemma control_loop_undisturbed (patience : nat) (file_path : string)
    (converted_count total_files : Z) (lines : list string) :
  total_files <> 0 ->
  forall duration w,
    exists t w',
      control_loop undisturbed patience
        (progress_callback undisturbed file_path converted_count total_files)
        lines duration w
      = (t, w',
         loop_result (snd (feed clock_value_gui duration_re_gui time_re_gui
                                duration lines)))
      /\ overall_values t
         = map (overall_value converted_count total_files)
               (fst (feed clock_value_gui duration_re_gui time_re_gui
                          duration lines))
      /\ files w' = files w /\ dirs w' = dirs w.
Proof.
  intros Ht. induction lines as [ | line rest IH];
    intros duration w; cbn [feed control_loop].
  - exists [], w. repeat split.
  - unfold bind at 1, read_cancelled at 1. cbn [undisturbed cancelled_at].
    unfold bind at 1. rewrite pause_loop_undisturbed.
    unfold bind at 1, read_cancelled at 1. cbn [undisturbed cancelled_at].
    destruct (on_line clock_value_gui duration_re_gui time_re_gui duration line)
      as [[d' e] | x | ];
      [ | eexists _, _; split; [reflexivity | repeat split] ..].
    destruct e as [p | ].
    + unfold bind at 1. rewrite (progress_callback_run _ _ _ _ _ _ Ht).
      cbn [undisturbed cancelled_at].
      match goal with |- context [control_loop _ _ _ rest d' ?w0] =>
        destruct (IH d' w0) as (t & w' & -> & Hov & Hfs & Hds) end.
      destruct (feed clock_value_gui duration_re_gui time_re_gui d' rest)
        as [ps ending].
      cbn [fst snd] in *.
      eexists _, _. split; [now destruct (loop_result ending) | ].
      cbn [app overall_values map]. rewrite Hov, Hfs, Hds. repeat split.
    + match goal with |- context [control_loop _ _ _ rest d' ?w0] =>
        destruct (IH d' w0) as (t & w' & -> & Hov & Hfs & Hds) end.
      destruct (feed clock_value_gui duration_re_gui time_re_gui d' rest)
        as [ps ending].
      cbn [fst snd] in *.
      eexists _, _. split; [now destruct (loop_result ending) | ].
      cbn [app overall_values map]. rewrite Hov, Hfs, Hds. repeat split.
Qed.

Lemma parser_error_gui_result (m : media) :
  loop_result (snd (feed clock_value_gui duration_re_gui time_re_gui None
                         (stderr_lines m)))
  = match parser_error_gui m with
    | Some e => Raise e
    | None => Ok tt
    end.
Proof.
  unfold parser_error_gui.
  pose proof (feed_not_blocked (Chr ".") dot_no_group clock_value_gui
                clock_value_gui_reads (stderr_lines m) None) as H.
  fold duration_re_gui time_re_gui in H.
  destruct (snd (feed clock_value_gui duration_re_gui time_re_gui None
                      (stderr_lines m)));
    [reflexivity | reflexivity | now destruct H].
Qed.

Lemma overall_values_notice (m : media) (input_file : string) :
  overall_values (notice m input_file) = [].
Proof. unfold notice. now destruct (warns_video_only _ _ _ _). Qed.

Lemma final_report_undisturbed (file_path : string)
    (converted_count total_files : Z) (w : world) :
  total_files <> 0 ->
  final_report undisturbed
    (Some (progress_callback undisturbed file_path converted_count total_files)) w
  = ([SawCancelled false; SawCancelled false; FileProgress file_path 100;
      OverallProgress (overall_value converted_count total_files 100)],
     tick (tick w), Ok tt).
Proof.
  intros Ht. unfold final_report, bind, read_cancelled.
  cbn [undisturbed cancelled_at negb].
  now rewrite (progress_callback_run _ _ _ _ _ _ Ht).
Qed.

Lemma convert_undisturbed (patience : nat) (env : environment)
    (file_path output_file : string) (converted_count total_files : Z)
    (w : world) :
  total_files <> 0 ->
  exists t w' r,
    convert_file_with_control undisturbed patience env file_path output_file
      (Some (progress_callback undisturbed file_path converted_count total_files))
      w = (t, w', r)
    /\ r <> Blocked
    /\ overall_values t
       = map (overall_value converted_count total_files)
             (gui_job_values env file_path output_file (files w) (dirs w))
    /\ files w' = files_after env file_path output_file (files w) (dirs w)
    /\ dirs w' = dirs w.
Proof.
  intros Ht. unfold convert_file_with_control, gui_job_values, files_after, present.
  unfold bind at 1, path_exists.
  destruct (mem output_file (files w) || mem output_file (dirs w)).
  - eexists _, _, _. split; [reflexivity | ]. repeat split. discriminate.
  - set (m := env file_path).
    unfold bind at 1. rewrite build_run.
    unfold bind at 1, popen.
    destruct (popen_fails m).
    + eexists _, _, _. split; [reflexivity | ].
      rewrite !overall_values_app, overall_values_notice.
      repeat split. discriminate.
    + unfold emit at 1. unfold bind at 1.
      destruct (control_loop_undisturbed patience file_path converted_count
                  total_files (stderr_lines m) Ht None w)
        as (t & w1 & -> & Hov & Hfs & Hds).
      rewrite (parser_error_gui_result m).
      fold (percentages_gui m) in Hov.
      destruct (parser_error_gui m) as [x | ].
      { eexists _, _, _. split; [reflexivity | ].
        rewrite !overall_values_app, overall_values_notice, Hov.
        cbn [overall_values app]. rewrite app_nil_r.
        repeat split; first [discriminate | assumption]. }
      unfold bind at 1. rewrite wait_run.
      destruct (returncode m =? 0); cbn [negb].
      * rewrite (final_report_undisturbed _ _ _ _ Ht).
        eexists _, _, _. split; [reflexivity | ].
        rewrite !overall_values_app, overall_values_notice, Hov, map_app.
        cbn [overall_values app map tick files dirs].
        unfold after_wait, create_file, world_of. rewrite Hfs, Hds.
        destruct (writes_output m); cbn [fst snd files dirs];
          [destruct (mem output_file (files w)) | ];
          cbn [files dirs];
          repeat split; first [discriminate | assumption | reflexivity].
      * unfold bind, read_cancelled, emit.
        cbn [undisturbed cancelled_at negb].
        eexists _, _, _. split; [reflexivity | ].
        rewrite !overall_values_app, overall_values_notice, Hov, map_app.
        cbn [overall_values app map tick files dirs]. rewrite !app_nil_r.
        unfold after_wait, create_file, world_of. rewrite Hfs, Hds.
        destruct (writes_output m); cbn [fst snd files dirs];
          [destruct (mem output_file (files w)) | ];
          cbn [files dirs];
          repeat split; first [discriminate | assumption | reflexivity].
Qed.

Lemma convert_entry_undisturbed (patience : nat) (env : environment)
    (file_path output_file : string) (converted_count total_files : Z)
    (w : world) :
  total_files <> 0 ->
  exists t w',
    convert_entry undisturbed patience env file_path output_file
      converted_count total_files w = (t, w', Ok (converted_count + 1))
    /\ overall_values t
       = map (overall_value converted_count total_files)
             (gui_job_values env file_path output_file (files w) (dirs w))
    /\ files w' = files_after env file_path output_file (files w) (dirs w)
    /\ dirs w' = dirs w.
Proof.
  intros Ht. unfold convert_entry, try_except. unfold bind at 1.
  destruct (convert_undisturbed patience env file_path output_file
              converted_count total_files w Ht)
    as (t & w1 & r & -> & Hr & Hov & Hfs & Hds).
  destruct r as [[] | e | ]; [ | | now destruct Hr].
  - unfold bind, read_cancelled, emit, ret. cbn [undisturbed cancelled_at negb].
    eexists _, _. split; [reflexivity | ].
    rewrite !overall_values_app, Hov. cbn [overall_values app tick files dirs].
    rewrite app_nil_r. repeat split; assumption.
  - unfold bind, read_cancelled, emit, ret. cbn [undisturbed cancelled_at negb].
    eexists _, _. split; [reflexivity | ].
    rewrite !overall_values_app, Hov. cbn [overall_values app tick files dirs].
    rewrite app_nil_r. repeat split; assumption.
Qed.

(** What [update_overall_progress] receives during the loop of an
    undisturbed run. *)
Lemma process_loop_overall (patience : nat) (env : environment)
    (total_files : Z) (selected : list string) :
  total_files <> 0 ->
  forall i converted_count w,
    overall_values (trace_of (process_loop undisturbed patience env total_files
                                i converted_count selected w))
    = expected_overall_gui env total_files converted_count selected
        (files w) (dirs w).
Proof.
  intros Ht. induction selected as [ | file_path rest IH];
    intros i converted_count w; cbn [process_loop expected_overall_gui];
    [reflexivity | ].
  unfold bind at 1, read_cancelled at 1. cbn [undisturbed cancelled_at].
  unfold bind at 1. rewrite pause_loop_undisturbed.
  unfold bind at 1, read_cancelled at 1. cbn [undisturbed cancelled_at].
  unfold bind at 1, path_is_file. cbn [tick files dirs].
  destruct (mem file_path (files w) && supported file_path).
  - unfold bind at 1, lift.
    destruct (with_suffix file_path ".mp4") as [output_file | e | ];
      try reflexivity.
    unfold bind at 1, emit at 1. unfold bind at 1.
    match goal with |- context [convert_entry _ _ _ _ _ _ _ ?w0] =>
      destruct (convert_entry_undisturbed patience env file_path output_file
                  converted_count total_files w0 Ht)
        as (t & w1 & -> & Hov & Hfs & Hds) end.
    cbn [tick files dirs] in Hov, Hfs, Hds.
    specialize (IH (i + 1) (converted_count + 1) w1).
    rewrite Hfs, Hds in IH.
    destruct (process_loop undisturbed patience env total_files (i + 1)
                (converted_count + 1) rest w1) as [[t2 w2] r2].
    unfold trace_of in *. cbn [fst snd] in *.
    rewrite !overall_values_app. cbn [overall_values app].
    now rewrite Hov, IH.
  - match goal with |- context [process_loop _ _ _ _ _ _ rest ?w0] =>
      specialize (IH (i + 1) converted_count w0);
      destruct (process_loop undisturbed patience env total_files (i + 1)
                  converted_count rest w0) as [[t2 w2] r2] end.
    unfold trace_of in *. cbn [fst snd app overall_values] in *. exact IH.
Qed.

Lemma batch_convert_overall (env : environment) (listing : list string)
    (w : world) :
  reported (trace_of (batch_convert env listing (Some recorder) w))
  = expected_overall env
      (Z.of_nat (List.length (filter (fun f => mem f (files w) && supported f)
                                     listing)))
      1 (filter (fun f => mem f (files w) && supported f) listing) w.
Proof.
  unfold batch_convert. rewrite trace_bind. unfold candidates at 1 2 3.
  unfold result_of at 1, world_of at 1, trace_of at 1. cbn [fst snd app].
  destruct (filter (fun f => mem f (files w) && supported f) listing)
    as [ | file rest] eqn:Htodo; [reflexivity | ].
  apply batch_loop_overall. cbn [List.length]. lia.
Qed.

Example batch_of_two :
  map Qred (reported (trace_of (batch_convert (fun _ => good_media)
                                  ["a.avi"; "b.avi"] (Some recorder)
                                  two_videos)))
  = [25%Q; 50%Q; 75%Q; 100%Q].
Proof. reflexivity. Qed.

(** C8 does not hold for [process_conversion] when an earlier entry of the
    selection is skipped: the second of two entries, at 50 percent, is
    reported as 25 overall, not as 75. *)
Lemma skipped_entry_shifts_overall :
  map Qred (percentages_gui good_media) = [50%Q]
  /\ map Qred (overall_values
                 (trace_of (process_conversion undisturbed 0
                              (fun _ => good_media) ["notes.txt"; "b.avi"]
                              notes_and_video)))
     = [25%Q; 50%Q; 100%Q]
  /\ ~ (25 == overall_value (2 - 1) 2 50)%Q.
Proof.
  split; [reflexivity | split; [reflexivity | ] ].
  intros H. vm_compute in H. discriminate H.
Qed.

(** C8 (as the code has it). In [batch_convert] over n files, while the
    i-th file is in flight and reports p, the overall callback receives
    (i - 1 + p / 100) / n * 100, which is 75 for the second of two files at
    50 percent.  In [process_conversion] the closure computes
    (converted_count + p / 100) / n * 100, where n counts all selected
    entries and converted_count the entries converted so far: an entry that
    is not a regular file with a supported extension is passed over without
    being counted. *)
Theorem overall_progress_values :
  (forall (env : environment) (listing : list string) (w : world),
      reported (trace_of (batch_convert env listing (Some recorder) w))
      = expected_overall env
          (Z.of_nat (List.length (filter (fun f => mem f (files w) && supported f)
                                         listing)))
          1 (filter (fun f => mem f (files w) && supported f) listing) w)
  /\ (overall_value (2 - 1) 2 50 == 75)%Q
  /\ (forall (ctl : controls) (file_path : string)
             (converted_count total_files : Z) (percent : Q) (w : world),
         total_files <> 0 ->
         cancelled_at ctl (reads w) = false ->
         trace_of (progress_callback ctl file_path converted_count total_files
                     percent w)
         = [SawCancelled false; FileProgress file_path percent;
            OverallProgress (overall_value converted_count total_files percent)])
  /\ (forall (patience : nat) (env : environment) (total_files i converted_count : Z)
             (selected : list string) (w : world),
         total_files <> 0 ->
         overall_values (trace_of (process_loop undisturbed patience env
                                     total_files i converted_count selected w))
         = expected_overall_gui env total_files converted_count selected
             (files w) (dirs w)).
Proof.
  split; [exact batch_convert_overall | ].
  split; [reflexivity | ].
  split.
  - intros ctl file_path converted_count total_files percent w Ht Hc.
    rewrite (progress_callback_run _ _ _ _ _ _ Ht), Hc. reflexivity.
  - intros patience env total_files i converted_count selected w Ht.
    now apply process_loop_overall.
Qed.

Lemma overall_progress_values_witness :
  trace_of (progress_callback undisturbed "b.avi" 1 2 50 empty_world)
  = [SawCancelled false; FileProgress "b.avi" 50;
     OverallProgress (overall_value 1 2 50)]
  /\ overall_values (trace_of (process_loop undisturbed 0 (fun _ => good_media)
                                 2 1 0 ["a.avi"; "b.avi"] two_videos))
     = expected_overall_gui (fun _ => good_media) 2 0 ["a.avi"; "b.avi"]
         ["a.avi"; "b.avi"] [].
Proof.
  destruct overall_progress_values as (_ & _ & H1 & H2). split.
  - apply H1; [discriminate | reflexivity].
  - apply (H2 0%nat (fun _ => good_media) 2 1 0 ["a.avi"; "b.avi"] two_videos).
    discriminate.
Defined.

Example window_of_two :
  map Qred (expected_overall_gui (fun _ => good_media) 2 0 ["a.avi"; "b.avi"]
              ["a.avi"; "b.avi"] [])
  = [25%Q; 50%Q; 75%Q; 100%Q].
Proof. reflexivity. Qed.

End OverallFacts.

(** ** The normalizer's target as a function of the source bitrate *)

Module BitrateOrderFacts.
Import Notions Scenarios.
Import Py Bitrate Planner.
Import BitrateFacts PlannerFacts.

Lemma positive_bitrate (b : Z) : 0 < b -> no_bitrate (Some b) = false.
Proof.
  intros H. cbn [no_bitrate].
  destruct (Z.eqb_spec b 0); [lia | ]. destruct (Z.leb_spec b 0); [lia | reflexivity].
Qed.

Lemma scale_of_cases (codec : pyval) :
  scale_of codec = 1%Q \/ scale_of codec = (8 # 10)%Q \/ scale_of codec = (15 # 10)%Q.
Proof.
  unfold scale_of.
  destruct (in_strs codec EFFICIENT_CODECS); [now left | ].
  destruct (in_strs codec LEGACY_LOSSY_CODECS); [now right; left | ].
  destruct (in_strs codec LOSSLESS_CODECS); [now right; right | now left].
Qed.

Lemma scaled_monotone (codec : pyval) (b b' : Z) :
  0 < b -> b <= b' ->
  int_of_float (inject_Z b * scale_of codec)
  <= int_of_float (inject_Z b' * scale_of codec).
Proof.
  intros Hb Hle.
  destruct (scale_of_cases codec) as [-> | [-> | ->]];
    change 1%Q with (1 # 1)%Q;
    rewrite !int_of_float_scaled by lia;
    apply Z.div_le_mono; lia.
Qed.



End BitrateOrderFacts.

(** ** Audio streams in the command: copied, or encoded at the target *)

Module AudioPlanFacts.
Import Notions Scenarios.
Import Py Bitrate Planner NumeralFacts.
Import BitrateFacts PlannerFacts BitrateOrderFacts.

Lemma no_bitrate_nonpositive (b : Z) : b <= 0 -> no_bitrate (Some b) = true.
Proof.
  intros H. cbn [no_bitrate]. destruct (Z.leb_spec b 0); [apply orb_true_r | lia].
Qed.

(** The target lies between the bounds of its channel layout. *)
Lemma target_bounds (codec : pyval) (bitrate : option Z) (channels : pyval) :
  let t := equivalent_aac_bitrate codec bitrate channels in
  if eq_int channels 1 then 32000 <= t <= 128000
  else if eq_int channels 2 then 64000 <= t <= 320000
  else 192000 <= t <= 512000.
Proof.
  unfold equivalent_aac_bitrate.
  destruct (no_bitrate bitrate), (eq_int channels 1), (eq_int channels 2); lia.
Qed.

(** An AAC stream at the bitrate the normalizer chose keeps that bitrate. *)
Lemma target_is_fixed_point (codec : pyval) (bitrate : option Z) (channels : pyval) :
  equivalent_aac_bitrate (PStr "aac")
    (Some (equivalent_aac_bitrate codec bitrate channels)) channels
  = equivalent_aac_bitrate codec bitrate channels.
Proof.
  pose proof (target_bounds codec bitrate channels) as Hb. cbn zeta in Hb.
  set (t := equivalent_aac_bitrate codec bitrate channels) in *.
  unfold equivalent_aac_bitrate at 1.
  assert (Hpos : 0 < t)
    by (destruct (eq_int channels 1), (eq_int channels 2); lia).
  rewrite (positive_bitrate t Hpos).
  change (scale_of (PStr "aac")) with (1 # 1)%Q.
  rewrite int_of_float_scaled by lia.
  rewrite Z.mul_1_r, Z.div_1_r.
  destruct (eq_int channels 1), (eq_int channels 2); lia.
Qed.

Lemma audio_args (crf : Z) (preset : string) (before : list dict) (s : dict) :
  is_audio s = true ->
  stream_args crf preset before s
  = if eq_str (codec_name s) "aac"
       && (equivalent_aac_bitrate (codec_name s) (Some (bitrate s)) (channels s)
           <=? bitrate s)
    then audio_copy (index s) (count_audio before)
    else audio_encode (index s) (count_audio before)
           (equivalent_aac_bitrate (codec_name s) (Some (bitrate s)) (channels s)).
Proof.
  intros Ha. unfold stream_args, audio_codec_args.
  assert (Hv : is_video s = false).
  { unfold is_audio in Ha. destruct (is_video s); [discriminate | reflexivity]. }
  rewrite Hv, Ha.
  destruct (eq_str (codec_name s) "aac" && _); reflexivity.
Qed.

(** X2. Converting twice changes nothing more: an AAC stream that carries
    the bitrate [equivalent_aac_bitrate] chose for a stream [s] of the same
    channel layout (whatever the codec of [s]) is copied by
    [build_ffmpeg_command], wherever it stands among the streams. *)
Theorem converted_audio_is_copied (pre post : list dict) (s s' : dict)
    (input_file output_file : string) (crf : Z) (preset : string) :
  is_audio s' = true ->
  codec_name s' = PStr "aac" ->
  channels s' = channels s ->
  bitrate s' = equivalent_aac_bitrate (codec_name s) (Some (bitrate s)) (channels s) ->
  build_ffmpeg_command (pre ++ s' :: post) input_file output_file crf preset
  = (["ffmpeg"; "-y"; "-i"; input_file]
     ++ List.concat (contributions crf preset [] pre))
    ++ audio_copy (index s') (count_audio pre)
    ++ (List.concat (contributions crf preset (pre ++ [s']) post)
        ++ ["-movflags"; "+faststart"; output_file]).
Proof.
  intros Ha Hc Hch Hb.
  rewrite command_around, (audio_args crf preset pre s' Ha).
  rewrite Hc, Hch, Hb, target_is_fixed_point, Z.leb_refl.
  reflexivity.
Qed.

Lemma converted_audio_is_copied_witness :
  build_ffmpeg_command ([] ++ mp3_track_converted :: []) "a.mp4" "b.mp4" 18 "slow"
  = ["ffmpeg"; "-y"; "-i"; "a.mp4"; "-map"; "0:1"; "-c:a:0"; "copy";
     "-movflags"; "+faststart"; "b.mp4"].
Proof.
  exact (converted_audio_is_copied [] [] mp3_track mp3_track_converted
           "a.mp4" "b.mp4" 18 "slow" eq_refl eq_refl eq_refl eq_refl).
Defined.

Lemma foreign_not_space (c : ascii) : foreign c = true -> is_space c = false.
Proof.
  destruct c as [[] [] [] [] [] [] [] []]; cbv; intros H;
    first [reflexivity | discriminate H].
Qed.

Lemma foreign_not_literal (c : ascii) :
  foreign c = true ->
  is_digit c = false /\ Ascii.eqb c "_" = false
  /\ c <> "-"%char /\ c <> "+"%char.
Proof.
  destruct c as [[] [] [] [] [] [] [] []]; cbv; intros H;
    first [discriminate H | repeat split; discriminate].
Qed.

Lemma lstrip_keeps (c : ascii) (l : list ascii) :
  is_space c = false -> In c l -> In c (lstrip l).
Proof.
  intros Hc. induction l as [ | x l IH]; cbn [lstrip]; [trivial | ].
  destruct (is_space x) eqn:Hx; [ | trivial].
  intros [-> | Hin]; [congruence | now apply IH].
Qed.

Lemma strip_keeps (c : ascii) (l : list ascii) :
  is_space c = false -> In c l -> In c (strip l).
Proof.
  intros Hc Hin. unfold strip.
  apply in_rev. rewrite rev_involutive.
  apply lstrip_keeps; [exact Hc | ].
  apply -> in_rev. now apply lstrip_keeps.
Qed.

Lemma literal_digits_chars (l : list ascii) :
  forall after_digit ds,
    literal_digits after_digit l = Some ds ->
    forall c, In c l -> is_digit c = true \/ Ascii.eqb c "_" = true.
Proof.
  induction l as [ | x l IH]; intros after_digit ds H c; cbn [In]; [intros [] | ].
  cbn [literal_digits] in H.
  destruct (is_digit x) eqn:Hx.
  - destruct (literal_digits true l) as [ds' | ] eqn:E; [ | discriminate].
    intros [<- | Hin]; [now left | now apply (IH true ds')].
  - destruct (Ascii.eqb x "_") eqn:Hu; [ | discriminate].
    destruct after_digit; [ | discriminate].
    intros [<- | Hin]; [now right | now apply (IH false ds)].
Qed.

(** [int] refuses a text that holds a foreign character. *)
Lemma int_of_foreign (text : string) (c : ascii) :
  In c (list_ascii_of_string text) -> foreign c = true ->
  int_of_str text = None.
Proof.
  intros Hin Hf. unfold int_of_str.
  pose proof (strip_keeps c _ (foreign_not_space c Hf) Hin) as Hs.
  destruct (foreign_not_literal c Hf) as (Hd & Hu & Hm & Hp).
  set (cs := strip (list_ascii_of_string text)) in *.
  assert (Hbody : forall neg body,
             (neg, body)
             = match cs with
               | "-"%char :: r => (true, r)
               | "+"%char :: r => (false, r)
               | _ => (false, cs)
               end -> In c body).
  { intros neg body E. destruct cs as [ | x r]; [now destruct Hs | ].
    destruct Hs as [-> | Hs].
    - destruct c as [[] [] [] [] [] [] [] []]; injection E as _ ->;
        first [now left | now destruct Hm | now destruct Hp].
    - destruct x as [[] [] [] [] [] [] [] []]; injection E as _ ->;
        first [now right | exact Hs]. }
  destruct (match cs with
            | "-"%char :: r => (true, r)
            | "+"%char :: r => (false, r)
            | _ => (false, cs)
            end) as [neg body] eqn:E.
  specialize (Hbody neg body eq_refl).
  destruct (literal_digits false body) as [ds | ] eqn:El; [ | reflexivity].
  destruct (literal_digits_chars _ _ _ El c Hbody); congruence.
Qed.

Lemma lacks_bit_rate_read (s : dict) : lacks_bit_rate s -> bitrate s <= 0.
Proof.
  unfold bitrate, get, or_zero.
  intros [-> | [-> | [(b & -> & Hb) | (text & -> & Ht)]]]; cbn [truthy].
  - cbn. lia.
  - cbn. lia.
  - destruct (negb (b =? 0)); lia.
  - destruct Ht as [-> | (c & Hin & Hf)]; [cbn; lia | ].
    destruct (negb (text =? "")%string); [ | lia].
    rewrite (int_of_foreign text c Hin Hf). lia.
Qed.

Lemma default_of_nonpositive (codec : pyval) (b : Z) (n : Z) :
  b <= 0 ->
  equivalent_aac_bitrate codec (Some b) (PInt n) = default_bitrate n.
Proof.
  intros H. unfold default_bitrate, equivalent_aac_bitrate.
  now rewrite (no_bitrate_nonpositive b H).
Qed.

(** X3. An audio stream whose [bit_rate] is absent, [null], an integer
    that is not positive, the empty text, or a text holding an ASCII
    character that no integer literal holds is never copied, AAC
    included: [build_ffmpeg_command] encodes it at 128000, 320000 or
    512000 for one, two or any other number of channels. *)
Theorem audio_without_bitrate_is_encoded (pre post : list dict) (s : dict)
    (channel_count : Z)
    (input_file output_file : string) (crf : Z) (preset : string) :
  lookup s "codec_type" = Some (PStr "audio") ->
  counts_channels s channel_count ->
  lacks_bit_rate s ->
  build_ffmpeg_command (pre ++ s :: post) input_file output_file crf preset
  = (["ffmpeg"; "-y"; "-i"; input_file]
     ++ List.concat (contributions crf preset [] pre))
    ++ ["-map"; ("0:" ++ str (index s))%string;
        ("-c:a:" ++ str_of_Z (count_audio pre))%string;
        "aac"; "-profile:a"; "aac_low";
        ("-b:a:" ++ str_of_Z (count_audio pre))%string;
        if channel_count =? 1 then "128000"
        else if channel_count =? 2 then "320000"
        else "512000"]
    ++ (List.concat (contributions crf preset (pre ++ [s]) post)
        ++ ["-movflags"; "+faststart"; output_file]).
Proof.
  intros Ht Hn Hu.
  assert (Ha : is_audio s = true).
  { unfold is_audio, is_video, codec_type, get. now rewrite Ht. }
  pose proof (lacks_bit_rate_read s Hu) as Hb.
  rewrite command_around, (audio_args crf preset pre s Ha).
  rewrite (counts_channels_read s channel_count Hn).
  rewrite (default_of_nonpositive _ _ _ Hb).
  replace (default_bitrate channel_count <=? bitrate s) with false.
  - rewrite andb_false_r. unfold audio_encode, default_bitrate.
    now destruct (channel_count =? 1), (channel_count =? 2).
  - symmetry. apply Z.leb_gt. unfold default_bitrate.
    destruct (channel_count =? 1), (channel_count =? 2); lia.
Qed.

Lemma audio_without_bitrate_is_encoded_witness :
  build_ffmpeg_command ([] ++ aac_without_bitrate :: []) "a.mkv" "a.mp4" 18 "slow"
  = ["ffmpeg"; "-y"; "-i"; "a.mkv"; "-map"; "0:1"; "-c:a:0"; "aac";
     "-profile:a"; "aac_low"; "-b:a:0"; "512000";
     "-movflags"; "+faststart"; "a.mp4"].
Proof.
  refine (audio_without_bitrate_is_encoded [] [] aac_without_bitrate 6
            "a.mkv" "a.mp4" 18 "slow" eq_refl (or_introl eq_refl) _).
  right. right. right. exists "N/A". split; [reflexivity | ].
  right. exists "N"%char. split; [now left | reflexivity].
Defined.

(** The flag of the loop: an audio stream was met. *)
Lemma has_audio_after (crf : Z) (preset : string) (l : list dict) :
  forall st,
    has_audio (fold_left (step crf preset) l st)
    = has_audio st || existsb is_audio l.
Proof.
  induction l as [ | s l IH]; intros st; cbn [fold_left existsb].
  - now rewrite orb_false_r.
  - rewrite IH. unfold step, is_audio, is_video.
    destruct (eq_str (codec_type s) "video"); cbn [has_audio negb andb orb];
      [reflexivity | ].
    destruct (eq_str (codec_type s) "audio"); cbn [has_audio orb].
    + now rewrite orb_true_r.
    + reflexivity.
Qed.

(** X4. [build_ffmpeg_command] prints its video-only notice exactly when
    no stream has [codec_type] ["audio"], which is exactly when the command
    holds no audio stream. *)
Theorem video_only_notice (streams : list dict) (input_file : string)
    (crf : Z) (preset : string) :
  (warns_video_only streams input_file crf preset = true
   <-> Forall (fun s => codec_type s <> PStr "audio") streams)
  /\ (warns_video_only streams input_file crf preset = true
      <-> count_audio streams = 0).
Proof.
  assert (Hw : warns_video_only streams input_file crf preset
               = negb (existsb is_audio streams)).
  { unfold warns_video_only, plan. now rewrite has_audio_after. }
  assert (Haudio : forall s, is_audio s = true <-> codec_type s = PStr "audio").
  { intros s. unfold is_audio, is_video, eq_str.
    destruct (codec_type s) as [ | b | z | t]; cbn [negb andb];
      try (split; [discriminate | discriminate]).
    destruct (String.eqb_spec t "audio") as [-> | Hne].
    - split; [reflexivity | ]. intros _. reflexivity.
    - rewrite andb_false_r. split; [discriminate | ].
      intros [= E]. now destruct Hne. }
  split.
  - rewrite Hw, negb_true_iff, <- not_true_iff_false, existsb_exists, Forall_forall.
    split.
    + intros H s Hin E. apply H. exists s. split; [exact Hin | now apply Haudio].
    + intros H (s & Hin & E). apply (H s Hin). now apply Haudio.
  - rewrite Hw, negb_true_iff. clear Hw. unfold count_audio.
    induction streams as [ | s l IH]; [now split | ].
    cbn [existsb filter]. rewrite orb_false_iff.
    destruct (is_audio s); cbn [List.length].
    + split; [now intros [H _] | lia].
    + split; [now intros [_ H]; apply IH | intros H; split; [reflexivity | now apply IH]].
Qed.

End AudioPlanFacts.

(** ** The clocks the encoder prints, as the progress parser reads them *)

Module DecoderFacts.
Import Notions Scenarios.
Import Py Regex Effects Parser.
Import RegexFacts ParserFacts.

Lemma digit_run_group (g rest : list ascii) :
  forallb is_digit g = true -> ends_number rest ->
  digit_run (g ++ rest) = List.length g.
Proof.
  intros Hg Hrest. induction g as [ | c g IH]; cbn [app digit_run List.length].
  - destruct rest as [ | x rest]; [reflexivity | ].
    cbn [digit_run]. cbn [ends_number] in Hrest. now rewrite Hrest.
  - cbn [forallb] in Hg. apply andb_true_iff in Hg as [Hc Hg].
    rewrite Hc. f_equal. now apply IH.
Qed.

(** A greedy group takes a whole printed number when the rest of the
    pattern matches what follows it. *)
Lemma match_number (p : pattern) (g rest : list ascii)
    (groups : list (list ascii)) :
  digit_group g -> ends_number rest ->
  match_here p rest = Some groups ->
  match_here (Digits :: p) (g ++ rest) = Some (g :: groups).
Proof.
  intros [Hne Hg] Hrest Hm. cbn [match_here].
  rewrite (digit_run_group g rest Hg Hrest).
  destruct g as [ | c g]; [now destruct Hne | ].
  cbn [List.length greedy].
  change (S (List.length g)) with (List.length (c :: g)).
  rewrite skipn_app, skipn_all, Nat.sub_diag, firstn_app, firstn_all, Nat.sub_diag.
  cbn [skipn firstn app]. rewrite Hm, app_nil_r. reflexivity.
Qed.

Lemma match_literal (pre : list ascii) (p : pattern) (s : list ascii) :
  match_here (map Chr pre ++ p) (pre ++ s) = match_here p s.
Proof.
  induction pre as [ | c pre IH]; cbn [map app match_here]; [reflexivity | ].
  now rewrite Ascii.eqb_refl.
Qed.

Lemma colon_ends_number (l : list ascii) : ends_number (":"%char :: l).
Proof. reflexivity. Qed.

Lemma dot_ends_number (l : list ascii) : ends_number ("."%char :: l).
Proof. reflexivity. Qed.

Lemma match_char (c : ascii) (p : pattern) (s : list ascii) :
  match_here (Chr c :: p) (c :: s) = match_here p s.
Proof. cbn [match_here]. now rewrite Ascii.eqb_refl. Qed.

Lemma match_dot (sep : atom) (p : pattern) (s : list ascii) :
  accepts_dot sep ->
  match_here (sep :: p) ("."%char :: s) = match_here p s.
Proof. intros [-> | ->]; [reflexivity | apply match_char]. Qed.

Lemma match_clock (label : string) (sep : atom) (h m s f after : list ascii) :
  accepts_dot sep ->
  digit_group h -> digit_group m -> digit_group s -> digit_group f ->
  ends_number after ->
  match_here (clock_pattern label sep)
    (list_ascii_of_string label ++ clock_text h m s f ++ after)
  = Some [h; m; s; f].
Proof.
  intros Hsep Hh Hm Hs Hf Hafter. unfold clock_pattern, lit, clock_text.
  rewrite match_literal.
  repeat (rewrite <- app_assoc; cbn [app]).
  apply match_number; [exact Hh | apply colon_ends_number | ].
  rewrite match_char.
  apply match_number; [exact Hm | apply colon_ends_number | ].
  rewrite match_char.
  apply match_number; [exact Hs | apply dot_ends_number | ].
  rewrite (match_dot sep _ _ Hsep).
  apply match_number; [exact Hf | exact Hafter | reflexivity].
Qed.

(** Two prefixes of one text: the shorter is a prefix of the longer. *)
Lemma prefix_of_shorter (a b s : list ascii) :
  prefix_of a s = true -> prefix_of b s = true ->
  (List.length a <= List.length b)%nat -> prefix_of a b = true.
Proof.
  revert b s. induction a as [ | c a IH]; intros b s; cbn [prefix_of];
    [reflexivity | ].
  destruct s as [ | x s]; [discriminate | ].
  destruct b as [ | y b]; cbn [List.length]; [lia | ].
  cbn [prefix_of]. intros Ha Hb Hlen.
  apply andb_true_iff in Ha as [Hxc Ha]. apply andb_true_iff in Hb as [Hxy Hb].
  apply Ascii.eqb_eq in Hxc, Hxy. subst c y. rewrite Ascii.eqb_refl. cbn [andb].
  apply (IH b s); trivial. lia.
Qed.

Lemma prefix_of_long (a x s : list ascii) :
  (List.length a <= List.length x)%nat ->
  prefix_of a (x ++ s) = prefix_of a x.
Proof.
  revert x. induction a as [ | c a IH]; intros x; cbn [prefix_of List.length];
    [reflexivity | ].
  destruct x as [ | y x]; cbn [List.length app]; [lia | ].
  intros Hlen. cbn [prefix_of]. f_equal. apply IH. lia.
Qed.

Lemma prefix_of_overlap (a x s : list ascii) :
  prefix_of a (x ++ s) = true -> (List.length x < List.length a)%nat ->
  prefix_of (skipn (List.length x) a) s = true.
Proof.
  revert a. induction x as [ | y x IH]; intros a; cbn [app List.length skipn];
    [trivial | ].
  destruct a as [ | c a]; cbn [List.length prefix_of]; [lia | ].
  intros H Hlen. apply andb_true_iff in H as [_ H]. apply IH; [exact H | lia].
Qed.

Lemma unbordered_check (a : list ascii) :
  forallb (fun k => negb (prefix_of (skipn k a) a))
          (seq 1 (List.length a - 1)) = true ->
  unbordered a.
Proof.
  intros H k Hk. rewrite forallb_forall in H.
  apply negb_true_iff, H, in_seq. lia.
Qed.

Lemma time_unbordered : unbordered (list_ascii_of_string "time=").
Proof. apply unbordered_check. reflexivity. Qed.

Lemma duration_unbordered : unbordered (list_ascii_of_string "Duration: ").
Proof. apply unbordered_check. reflexivity. Qed.

(** The first occurrence of the label is where the search succeeds. *)
Lemma search_first_occurrence (a : list ascii) (p : pattern)
    (before s : list ascii) (groups : list (list ascii)) :
  unbordered a -> a <> [] ->
  contains_from a before = false ->
  match_here (map Chr a ++ p) s = Some groups ->
  search_from (map Chr a ++ p) (before ++ s) = Some groups.
Proof.
  intros Hub Hne Hno Hm.
  pose proof (match_here_prefix a p s groups Hm) as Hs.
  induction before as [ | c before IH]; cbn [app].
  - destruct s; cbn [search_from]; now rewrite Hm.
  - cbn [contains_from] in Hno. apply orb_false_iff in Hno as [Hhere Hrest].
    cbn [search_from].
    destruct (match_here (map Chr a ++ p) (c :: before ++ s)) as [g | ] eqn:Hc;
      [ | now apply IH].
    exfalso. apply match_here_prefix in Hc.
    destruct (Nat.le_gt_cases (List.length a) (List.length (c :: before)))
      as [Hlong | Hshort].
    + change (c :: before ++ s) with ((c :: before) ++ s) in Hc.
      rewrite (prefix_of_long a (c :: before) s Hlong) in Hc. congruence.
    + change (c :: before ++ s) with ((c :: before) ++ s) in Hc.
      pose proof (prefix_of_overlap a (c :: before) s Hc Hshort) as Hov.
      assert (Hb : prefix_of (skipn (List.length (c :: before)) a) a = true).
      { apply (prefix_of_shorter _ _ s Hov Hs). rewrite length_skipn. lia. }
      rewrite Hub in Hb; [discriminate | ]. cbn [List.length] in *. lia.
Qed.

Lemma search_clock (label : string) (sep : atom)
    (before h m s f after : list ascii) :
  unbordered (list_ascii_of_string label) -> label <> "" ->
  accepts_dot sep ->
  digit_group h -> digit_group m -> digit_group s -> digit_group f ->
  ends_number after ->
  contains_from (list_ascii_of_string label) before = false ->
  search (clock_pattern label sep) (clock_line before label h m s f after)
  = Some [h; m; s; f].
Proof.
  intros Hub Hne Hsep Hh Hm Hs Hf Hafter Hno.
  unfold search, clock_line. rewrite list_ascii_of_string_of_list_ascii.
  unfold clock_pattern, lit.
  apply search_first_occurrence; trivial.
  - intros E. apply Hne. rewrite <- (string_of_list_ascii_of_string label), E.
    reflexivity.
  - now apply match_clock.
Qed.

(** The body of the loop on a line that holds a printed clock, with the dot
    of the pattern written either way. *)
Lemma clock_is_decoded (sep : atom) (value : list (list ascii) -> result Q)
    (gh gm gs gf after : list ascii) (h m s f : Z) :
  accepts_dot sep ->
  reads_clock value ->
  clock_groups [gh; gm; gs; gf] h m s f ->
  Forall short [gh; gm; gs; gf] ->
  ends_number after ->
  (forall before,
      contains_from (list_ascii_of_string "Duration: ") before = false ->
      on_line value (clock_pattern "Duration: " sep) (clock_pattern "time=" sep)
              None (clock_line before "Duration: " gh gm gs gf after)
      = Ok (Some (clock_seconds h m s f), None))
  /\ (forall before d,
         contains_from (list_ascii_of_string "time=") before = false ->
         ~ (d == 0)%Q ->
         exists p,
           on_line value (clock_pattern "Duration: " sep)
                   (clock_pattern "time=" sep)
                   (Some d) (clock_line before "time=" gh gm gs gf after)
           = Ok (Some d, Some p)
           /\ capped (clock_seconds h m s f / d * 100) p).
Proof.
  intros Hsep Hval Hg Hshort Hafter.
  assert (Hng : sep <> Digits) by (destruct Hsep as [-> | ->]; discriminate).
  destruct (clock_groups_values _ _ _ _ _ _ _ _ Hg) as (Hd & <- & <- & <- & <-).
  pose proof (proj2 Hval gh gm gs gf Hd Hshort) as Hv.
  inversion Hd as [ | ? ? G1 Hd1]; subst. inversion Hd1 as [ | ? ? G2 Hd2]; subst.
  inversion Hd2 as [ | ? ? G3 Hd3]; subst. inversion Hd3 as [ | ? ? G4 _]; subst.
  split.
  - intros before Hno.
    pose proof (search_clock "Duration: " sep before gh gm gs gf after
                  duration_unbordered ltac:(discriminate) Hsep G1 G2 G3 G4
                  Hafter Hno) as Hsearch.
    exact (on_line_sets_duration sep value _ _ _ Hsearch Hv).
  - intros before d Hno Hnz.
    pose proof (search_clock "time=" sep before gh gm gs gf after
                  time_unbordered ltac:(discriminate) Hsep G1 G2 G3 G4
                  Hafter Hno) as Hsearch.
    eexists. split.
    + exact (on_line_reports sep value d _ _ _ Hnz Hsearch Hv).
    + apply py_min_capped.
Qed.

(** X5. With the expressions and the sum of [convert_file] as with those
    of [convert_file_with_control], a line that holds a clock [h:m:s.f]
    after the first [Duration: ] (while no duration is known) sets the
    duration to [h * 3600 + m * 60 + s + f / 100], and a line that holds
    one after the first [time=] (when the duration is known and not zero)
    reports [min(elapsed / duration * 100, 100)] for the same reading of
    the clock; what precedes the label and what follows the last digit do
    not matter, and the number after the dot counts as hundredths whatever
    its number of digits, as long as no number has more than 300. *)
Theorem printed_clock_is_decoded (value : list (list ascii) -> result Q)
    (dre tre : pattern) (gh gm gs gf after : list ascii) (h m s f : Z) :
  (value = clock_value /\ dre = duration_re /\ tre = time_re)
  \/ (value = clock_value_gui /\ dre = duration_re_gui /\ tre = time_re_gui) ->
  clock_groups [gh; gm; gs; gf] h m s f ->
  Forall short [gh; gm; gs; gf] ->
  ends_number after ->
  (forall before,
      contains_from (list_ascii_of_string "Duration: ") before = false ->
      on_line value dre tre None
              (clock_line before "Duration: " gh gm gs gf after)
      = Ok (Some (clock_seconds h m s f), None))
  /\ (forall before d,
         contains_from (list_ascii_of_string "time=") before = false ->
         ~ (d == 0)%Q ->
         exists p,
           on_line value dre tre (Some d)
                   (clock_line before "time=" gh gm gs gf after)
           = Ok (Some d, Some p)
           /\ capped (clock_seconds h m s f / d * 100) p).
Proof.
  intros [(-> & -> & ->) | (-> & -> & ->)] Hg Hshort Hafter.
  - apply (clock_is_decoded AnyChar); trivial;
      [now left | apply clock_value_reads].
  - apply (clock_is_decoded (Chr ".")); trivial;
      [now right | apply clock_value_gui_reads].
Qed.

Lemma printed_clock_is_decoded_witness :
  on_line clock_value_gui duration_re_gui time_re_gui None
          "  Duration: 00:01:30.5, start: 0.000000, bitrate: 1 kb/s"
  = Ok (Some (90 + (5 # 100))%Q, None)
  /\ exists p,
      on_line clock_value_gui duration_re_gui time_re_gui (Some 180%Q)
              "frame=  10 fps=0.0 time=00:01:30.5 bitrate=1"
      = Ok (Some 180%Q, Some p)
      /\ (p == 9005 # 180)%Q.
Proof.
  assert (Hs : Forall short (map list_ascii_of_string ["00"; "01"; "30"; "5"]))
    by (repeat constructor; unfold short; cbn; lia).
  split.
  - exact (proj1 (printed_clock_is_decoded clock_value_gui
                    duration_re_gui time_re_gui
                    (list_ascii_of_string "00") (list_ascii_of_string "01")
                    (list_ascii_of_string "30") (list_ascii_of_string "5")
                    (list_ascii_of_string ", start: 0.000000, bitrate: 1 kb/s")
                    0 1 30 5
                    (or_intror (conj eq_refl (conj eq_refl eq_refl)))
                    eq_refl Hs eq_refl)
             (list_ascii_of_string "  ") eq_refl).
  - destruct (proj2 (printed_clock_is_decoded clock_value_gui
                       duration_re_gui time_re_gui
                       (list_ascii_of_string "00") (list_ascii_of_string "01")
                       (list_ascii_of_string "30") (list_ascii_of_string "5")
                       (list_ascii_of_string " bitrate=1")
                       0 1 30 5
                       (or_intror (conj eq_refl (conj eq_refl eq_refl)))
                       eq_refl Hs eq_refl)
                (list_ascii_of_string "frame=  10 fps=0.0 ") 180%Q eq_refl)
      as (p & E & [Hle _]).
    + intros H. cbv in H. discriminate H.
    + exists p. split; [exact E | ].
      rewrite Hle; [reflexivity | ]. unfold Qle. cbn. lia.
Defined.

End DecoderFacts.

(** ** A duration of zero *)

Module SilentFacts.
Import Notions Scenarios.
Import Py Regex Effects Parser Planner Paths Converter Gui.
Import RegexFacts ParserFacts ConverterFacts EffectsFacts BatchFacts ProgressFacts.

Section Silent.

Variable sep : atom.
Hypothesis sep_no_group : sep <> Digits.
Variable value : list (list ascii) -> result Q.

Local Abbreviation dre := (clock_pattern "Duration: " sep).
Local Abbreviation tre := (clock_pattern "time=" sep).

(** With a duration of zero no line is looked at any more. *)
Lemma feed_after_zero (d : Q) (lines : list string) :
  (d == 0)%Q -> feed value dre tre (Some d) lines = ([], Ok (Some d)).
Proof.
  intros Hz.
  assert (Hk : known (Some d) = false)
    by (cbn [known]; apply negb_false_iff, Qeq_bool_iff, Hz).
  induction lines as [ | line rest IH]; cbn [feed]; [reflexivity | ].
  unfold on_line. cbn [is_None]. rewrite Hk, !andb_false_r. now rewrite IH.
Qed.

Lemma feed_zero_duration (pre post : list string) (line : string)
    (groups : list (list ascii)) (d : Q) :
  Forall (fun l => search dre l = None) pre ->
  search dre line = Some groups -> value groups = Ok d -> (d == 0)%Q ->
  feed value dre tre None (pre ++ line :: post) = ([], Ok (Some d)).
Proof.
  intros Hpre Hline Hd Hz.
  rewrite (feed_first_duration sep value pre post line groups d Hpre Hline Hd).
  now apply feed_after_zero.
Qed.

(** The same when the reading of the duration may fail: nothing is
    reported either way. *)
Lemma feed_zero_or_failed (pre post : list string) (line : string)
    (groups : list (list ascii)) :
  Forall (fun l => search dre l = None) pre ->
  search dre line = Some groups ->
  (forall d, value groups = Ok d -> (d == 0)%Q) ->
  fst (feed value dre tre None (pre ++ line :: post)) = [].
Proof.
  intros Hpre Hline Hz.
  destruct (value groups) as [d | e | ] eqn:Hd.
  - now rewrite (feed_zero_duration pre post line groups d Hpre Hline Hd (Hz d eq_refl)).
  - induction Hpre as [ | l pre Hl _ IH]; cbn [app feed].
    + unfold on_line. rewrite (duration_match_contains sep _ _ Hline).
      cbn [is_None andb]. now rewrite Hline, Hd.
    + rewrite (on_line_still_unknown sep value _ Hl).
      destruct (feed value dre tre None (pre ++ line :: post)). exact IH.
  - induction Hpre as [ | l pre Hl _ IH]; cbn [app feed].
    + unfold on_line. rewrite (duration_match_contains sep _ _ Hline).
      cbn [is_None andb]. now rewrite Hline, Hd.
    + rewrite (on_line_still_unknown sep value _ Hl).
      destruct (feed value dre tre None (pre ++ line :: post)). exact IH.
Qed.

End Silent.

(** X6. When the first line that matches the duration pattern gives a
    duration of zero, no progress line is ever reported, whatever follows:
    [convert_file] calls its callback only with the final 100 (and only if
    the encoder was started and exited with status zero), and
    [convert_file_with_control] reports nothing or that 100 alone. *)
Theorem zero_duration_silences_the_job (env : environment)
    (input_file output_file : string) (w : world)
    (pre post : list string) (line : string) :
  stderr_lines (env input_file) = pre ++ line :: post ->
  (forall groups d,
      Forall (fun l => search duration_re l = None) pre ->
      search duration_re line = Some groups ->
      clock_value groups = Ok d -> (d == 0)%Q ->
      reported (trace_of (convert_file env input_file output_file
                            (Some recorder) w))
      = if mem output_file (files w) || mem output_file (dirs w) then []
        else if popen_fails (env input_file) then []
        else if returncode (env input_file) =? 0 then [100%Q] else [])
  /\ (forall groups d ctl patience,
         Forall (fun l => search duration_re_gui l = None) pre ->
         search duration_re_gui line = Some groups ->
         clock_value groups = Ok d -> (d == 0)%Q ->
         let values :=
           reported (trace_of (convert_file_with_control ctl patience env
                                 input_file output_file (Some recorder) w)) in
         values = [] \/ values = [100%Q]).
Proof.
  intros Hlines. split.
  - intros groups d Hpre Hline Hd Hz.
    rewrite reported_convert_file. unfold job_values, percentages, parser_error.
    rewrite Hlines.
    unfold duration_re, time_re.
    rewrite (feed_zero_duration AnyChar clock_value pre post line groups d
               Hpre Hline Hd Hz).
    reflexivity.
  - intros groups d ctl patience Hpre Hline Hd Hz values.
    destruct (control_reported ctl patience env input_file output_file w)
      as (k & tail & Htail & Hrep).
    subst values. rewrite Hrep. unfold percentages_gui. rewrite Hlines.
    unfold duration_re_gui, time_re_gui.
    rewrite (feed_zero_or_failed (Chr ".") clock_value_gui pre post line groups
               Hpre Hline).
    + rewrite firstn_nil. exact Htail.
    + intros d' Hd'. apply clock_value_gui_agrees in Hd'.
      rewrite Hd in Hd'. now injection Hd' as <-.
Qed.

Lemma zero_duration_silences_the_job_witness :
  reported (trace_of (convert_file (fun _ => zero_length_media) "a.avi" "a.mp4"
                        (Some recorder) two_videos))
  = [100%Q].
Proof.
  apply (proj1 (zero_duration_silences_the_job (fun _ => zero_length_media)
                  "a.avi" "a.mp4" two_videos
                  ["Input #0, avi, from a.avi:"]
                  ["frame=1 time=00:00:00.04 bitrate=1";
                   "frame=2 time=00:00:00.08 bitrate=1"]
                  "  Duration: 00:00:00.00, start: 0.000000" eq_refl)
           (map list_ascii_of_string ["00"; "00"; "00"; "00"])
           (0 + (0 # 100))%Q).
  - repeat constructor.
  - reflexivity.
  - reflexivity.
  - reflexivity.
Defined.

End SilentFacts.

(** ** What [batch_convert] reads, writes and leaves alone *)

Module OutputPathFacts.
Import Notions Scenarios.
Import Py Effects Paths.
Import PathFacts.

Lemma take_while_all {A : Type} (f : A -> bool) (a b : list A) :
  forallb f a = true ->
  match b with x :: _ => f x = false | [] => True end ->
  take_while f (a ++ b) = a /\ drop_while f (a ++ b) = b.
Proof.
  intros Ha Hb. induction a as [ | x a IH]; cbn [app take_while drop_while].
  - destruct b as [ | y b]; cbn [take_while drop_while]; [now split | ].
    now rewrite Hb.
  - cbn [forallb] in Ha. apply andb_true_iff in Ha as [Hx Ha].
    rewrite Hx. destruct (IH Ha) as [-> ->]. now split.
Qed.

Lemma take_while_holds {A : Type} (f : A -> bool) (l : list A) :
  forallb f (take_while f l) = true.
Proof.
  induction l as [ | x l IH]; cbn [take_while forallb]; [reflexivity | ].
  destruct (f x) eqn:Hx; cbn [forallb]; [now rewrite Hx | reflexivity].
Qed.

Lemma drop_while_head {A : Type} (f : A -> bool) (l : list A) :
  match drop_while f l with x :: _ => f x = false | [] => True end.
Proof.
  induction l as [ | x l IH]; cbn [drop_while]; [exact I | ].
  destruct (f x) eqn:Hx; [exact IH | exact Hx].
Qed.

Lemma forallb_sub {A : Type} (f : A -> bool) (a b : list A) :
  forallb f (a ++ b) = true -> forallb f a = true.
Proof. rewrite forallb_app. now intros [H _]%andb_true_iff. Qed.

(** The stem of a name is not empty, and holds no slash. *)
Lemma stem_of_name (cs : list ascii) :
  name cs <> [] ->
  fst (split_suffix (name cs)) <> []
  /\ forallb not_slash (fst (split_suffix (name cs))) = true.
Proof.
  intros Hn.
  assert (Hns : forallb not_slash (name cs) = true).
  { unfold name. rewrite NumeralFacts.forallb_rev. apply take_while_holds. }
  pose proof (split_suffix_app (name cs)) as Happ.
  split.
  - unfold split_suffix.
    destruct (drop_while not_dot (rev (name cs))) as [ | dot stem_rev];
      [exact Hn | ].
    destruct stem_rev as [ | c stem_rev]; [exact Hn | ].
    destruct (take_while not_dot (rev (name cs))); [exact Hn | ].
    cbn [fst rev]. intros E. apply app_eq_nil in E as [_ E]. discriminate.
  - rewrite <- Happ in Hns. now apply forallb_sub in Hns.
Qed.

(** The name of the path [with_suffix] builds. *)
Lemma name_of_joined (par stem : list ascii) :
  forallb not_slash stem = true ->
  match rev par with x :: _ => not_slash x = false | [] => True end ->
  name (par ++ stem) = stem /\ parent_part (par ++ stem) = par.
Proof.
  intros Hs Hhead. unfold name, parent_part. rewrite rev_app_distr.
  assert (Hrev : forallb not_slash (rev stem) = true)
    by now rewrite NumeralFacts.forallb_rev.
  destruct (take_while_all not_slash _ _ Hrev Hhead) as [-> ->].
  now rewrite !rev_involutive.
Qed.

Lemma name_of_output (cs stem ext : list ascii) :
  forallb not_slash stem = true -> forallb not_slash ext = true ->
  name (parent_part cs ++ stem ++ ext) = stem ++ ext
  /\ parent_part (parent_part cs ++ stem ++ ext) = parent_part cs.
Proof.
  intros Hs He. apply name_of_joined.
  - now rewrite forallb_app, Hs, He.
  - unfold parent_part. rewrite rev_involutive. apply drop_while_head.
Qed.

Lemma split_mp4 (stem : list ascii) :
  stem <> [] ->
  split_suffix (stem ++ list_ascii_of_string ".mp4")
  = (stem, list_ascii_of_string ".mp4").
Proof.
  intros Hne. unfold split_suffix. rewrite rev_app_distr.
  cbn [list_ascii_of_string rev app take_while drop_while not_dot Ascii.eqb
       Bool.eqb negb andb].
  destruct (rev stem) as [ | c r] eqn:Hr.
  - exfalso. apply Hne. rewrite <- (rev_involutive stem), Hr. reflexivity.
  - rewrite <- Hr, rev_involutive. reflexivity.
Qed.

(** What [with_suffix(".mp4")] returns: a path in the same directory whose
    suffix is [.mp4], which is its own output path. *)
Lemma output_path (p q : string) :
  with_suffix p ".mp4" = Ok q ->
  suffix q = ".mp4"
  /\ supported q = true
  /\ with_suffix q ".mp4" = Ok q
  /\ parent_part (list_ascii_of_string q) = parent_part (list_ascii_of_string p)
  /\ named q.
Proof.
  unfold with_suffix. set (cs := list_ascii_of_string p).
  destruct (name cs) as [ | c n] eqn:Hn; [discriminate | ].
  rewrite <- Hn. intros [= Hq].
  assert (Hne : name cs <> []) by (rewrite Hn; discriminate).
  destruct (stem_of_name cs Hne) as [Hstem Hns].
  set (stem := fst (split_suffix (name cs))) in *.
  set (ext := list_ascii_of_string ".mp4") in *.
  destruct (name_of_output cs stem ext Hns eq_refl) as [Hname Hparent].
  assert (Hcs : list_ascii_of_string q = parent_part cs ++ stem ++ ext)
    by (rewrite <- Hq; apply list_ascii_of_string_of_list_ascii).
  assert (Hsuf : suffix q = ".mp4").
  { unfold suffix. rewrite Hcs, Hname. unfold ext.
    now rewrite (split_mp4 stem Hstem). }
  split; [exact Hsuf | ].
  split; [unfold supported; now rewrite Hsuf | ].
  split; [apply with_suffix_same; [discriminate | exact Hsuf] | ].
  split; [now rewrite Hcs | ].
  unfold named. rewrite Hcs, Hname.
  intros E. apply app_eq_nil in E as [E _]. now apply Hstem.
Qed.

Lemma named_has_output (p : string) :
  named p -> exists q, with_suffix p ".mp4" = Ok q.
Proof.
  unfold named, with_suffix. destruct (name (list_ascii_of_string p));
    [intros H; now destruct H | intros _; eexists; reflexivity].
Qed.

End OutputPathFacts.

(** ** Properties of a whole batch *)

Module FolderFacts.
Import Notions Scenarios.
Import Py Regex Effects Parser Planner Paths Converter.
Import RegexFacts ParserFacts ConverterFacts PathFacts EffectsFacts BatchFacts.
Import OutputPathFacts.
Local Open Scope py_scope.

(** The callback [batch_convert] hands to [convert_file] only passes
    events on. *)
Lemma file_progress_closed (cb : option (Q -> M unit)) (g : Q -> list event)
    (i total_files : Z) :
  total_files <> 0 -> reports cb g ->
  exists g', emits (file_progress cb i total_files) g'
             /\ (starts_nothing g -> starts_nothing g').
Proof.
  intros Ht Hcb. destruct cb as [callback | ]; cbn [reports] in Hcb.
  - eexists. split; [now apply file_progress_emits | ].
    intros Hg p. apply Hg.
  - exists (fun _ => []). split; [apply file_progress_silent | now intros _ p].
Qed.

(** One round of the loop. *)
Lemma batch_loop_cons (env : environment) (cb : option (Q -> M unit))
    (g' : Q -> list event) (total_files i : Z) (file out : string)
    (rest : list string) (w : world) :
  emits (file_progress cb i total_files) g' ->
  with_suffix file ".mp4" = Ok out ->
  batch_loop env cb total_files i (file :: rest) w
  = bind (convert_file_closed env file out g')
         (fun _ => batch_loop env cb total_files (i + 1) rest) w.
Proof.
  intros Hfp Hout. cbn [batch_loop]. unfold bind at 1, lift. rewrite Hout.
  unfold bind.
  rewrite (convert_file_eq env file out
             (file_progress cb i total_files) g' w Hfp).
  destruct (convert_file_closed env file out g' w) as [[t1 w1] [[] | e | ]];
    [ | reflexivity | reflexivity].
  now destruct (batch_loop env cb total_files (i + 1) rest w1) as [[t2 w2] r2].
Qed.

(** The four ways one conversion goes. *)
Lemma closed_cases (env : environment) (file out : string)
    (g : Q -> list event) (w : world) :
  let x := convert_file_closed env file out g w in
  (exists_in w out = true /\ x = ([Print (skip_message file)], w, Ok tt))
  \/ (exists_in w out = false /\ popen_fails (env file) = true
      /\ trace_of x = notice (env file) file /\ world_of x = w
      /\ result_of x = Raise OSError)
  \/ (exists_in w out = false /\ popen_fails (env file) = false
      /\ world_of x = w
      /\ exists e, parser_error (env file) = Some e /\ result_of x = Raise e)
  \/ (exists_in w out = false /\ popen_fails (env file) = false
      /\ world_of x = after_wait (env file) out w /\ result_of x = Ok tt).
Proof.
  unfold convert_file_closed, exists_in.
  destruct (mem out (files w) || mem out (dirs w)); [now left | right].
  destruct (popen_fails (env file)); [left; now repeat split | right].
  destruct (parser_error (env file)) as [e | ]; [left | right];
    repeat split; eauto.
Qed.

Lemma after_wait_world (m : media) (out : string) (w : world) :
  dirs (after_wait m out w) = dirs w
  /\ (forall p, mem p (files w) = true -> mem p (files (after_wait m out w)) = true)
  /\ (forall p, mem p (files (after_wait m out w)) = true ->
                mem p (files w) = true \/ p = out)
  /\ (writes_output m = true -> mem out (files (after_wait m out w)) = true).
Proof.
  unfold after_wait, create_file, world_of.
  destruct (writes_output m); cbn [fst snd];
    [ | repeat split; auto; discriminate].
  destruct (mem out (files w)) eqn:Hout; cbn [files dirs];
    [repeat split; auto | ].
  repeat split.
  - intros p Hp. rewrite mem_cons, Hp. apply orb_true_r.
  - intros p. rewrite mem_cons. intros [E | Hp]%orb_true_iff;
      [right; now apply String.eqb_eq | now left].
  - intros _. rewrite mem_cons, String.eqb_refl. reflexivity.
Qed.

(** What one conversion does to the files. *)
Lemma closed_world (env : environment) (file out : string)
    (g : Q -> list event) (w : world) :
  let w' := world_of (convert_file_closed env file out g w) in
  dirs w' = dirs w
  /\ (forall p, exists_in w p = true -> exists_in w' p = true)
  /\ (forall p, mem p (files w') = true -> mem p (files w) = true \/ p = out)
  /\ (result_of (convert_file_closed env file out g w) = Ok tt ->
      writes_output (env file) = true -> exists_in w' out = true).
Proof.
  cbn zeta.
  destruct (after_wait_world (env file) out w) as (Hd & Hgrow & Hnew & Hout).
  destruct (closed_cases env file out g w)
    as [[Hex ->] | [(Hex & Hpo & _ & -> & Hr)
                   | [(Hex & Hpo & -> & e & _ & Hr) | (Hex & Hpo & -> & Hr)]]];
    cbn [world_of fst snd result_of].
  - repeat split; auto.
  - repeat split; auto. rewrite Hr. discriminate.
  - repeat split; auto. rewrite Hr. discriminate.
  - split; [exact Hd | ]. split; [ | split; [exact Hnew | ]].
    + intros p. unfold exists_in. rewrite Hd.
      intros [Hp | Hp]%orb_true_iff; [rewrite (Hgrow p Hp) | rewrite Hp];
        auto using orb_true_r.
    + intros _ Hw. unfold exists_in. now rewrite (Hout Hw).
Qed.

(** The encoder one conversion starts, if any. *)
Lemma closed_started (env : environment) (file out : string)
    (g : Q -> list event) (w : world) (command : list string) :
  starts_nothing g ->
  In command (started (trace_of (convert_file_closed env file out g w))) ->
  input_of command = Some file /\ output_of command = out
  /\ exists_in w out = false /\ popen_fails (env file) = false.
Proof.
  intros Hg. rewrite (started_closed env file out g w Hg). unfold exists_in.
  destruct (mem out (files w) || mem out (dirs w)); [intros [] | ].
  destruct (popen_fails (env file)); [intros [] | ].
  intros [<- | []]. now rewrite command_input, command_output.
Qed.

Lemma exists_in_false (w w' : world) (p : string) :
  (forall q, exists_in w q = true -> exists_in w' q = true) ->
  exists_in w' p = false -> exists_in w p = false.
Proof.
  intros Hgrow Hp. destruct (exists_in w p) eqn:E; [ | reflexivity].
  rewrite (Hgrow p E) in Hp. discriminate.
Qed.

Section Loop.

Variable env : environment.
Variable cb : option (Q -> M unit).
Variable g : Q -> list event.
Variable total_files : Z.
Hypothesis some_files : total_files <> 0.
Hypothesis cb_reports : reports cb g.

(** Every encoder of the loop reads a file of the list and writes the
    path [with_suffix] gives for it, which did not exist when the loop
    began. *)
Lemma batch_loop_started (todo : list string) :
  starts_nothing g ->
  forall i w command,
    In command (started (trace_of (batch_loop env cb total_files i todo w))) ->
    exists f,
      In f todo /\ input_of command = Some f
      /\ with_suffix f ".mp4" = Ok (output_of command)
      /\ exists_in w (output_of command) = false.
Proof.
  intros Hg. induction todo as [ | file rest IH]; intros i w command;
    [intros [] | ].
  destruct (with_suffix file ".mp4") as [out | e | ] eqn:Hout.
  - destruct (file_progress_closed cb g i total_files some_files cb_reports)
      as (g' & Hfp & Hg').
    rewrite (batch_loop_cons env cb g' total_files i file out rest w Hfp Hout).
    rewrite trace_bind, started_app. intros [Hin | Hin]%in_app_or.
    + destruct (closed_started env file out g' w command (Hg' Hg) Hin)
        as (Hi & Ho & Hex & _).
      exists file. rewrite Ho. repeat split; trivial. now left.
    + destruct (closed_world env file out g' w) as (_ & Hgrow & _).
      destruct (result_of (convert_file_closed env file out g' w));
        [ | destruct Hin ..].
      destruct (IH _ _ _ Hin) as (f & Hf & Hi & Ho & Hex).
      exists f. repeat split; trivial; [now right | ].
      eapply exists_in_false; eassumption.
  - cbn [batch_loop]. unfold bind, lift. rewrite Hout. intros [].
  - cbn [batch_loop]. unfold bind, lift. rewrite Hout. intros [].
Qed.

(** When every output exists already, the loop only prints. *)
Lemma batch_loop_skips_all (todo : list string) :
  forall i w,
    (forall f, In f todo ->
               exists out, with_suffix f ".mp4" = Ok out /\ exists_in w out = true) ->
    batch_loop env cb total_files i todo w
    = (map (fun f => Print (skip_message f)) todo, w, Ok tt).
Proof.
  induction todo as [ | file rest IH]; intros i w Hall; [reflexivity | ].
  destruct (Hall file (or_introl eq_refl)) as (out & Hout & Hex).
  cbn [batch_loop]. unfold bind at 1, lift. rewrite Hout.
  unfold bind at 1. rewrite (convert_file_skips env file out _ w Hex).
  rewrite (IH (i + 1) w); [reflexivity | ].
  intros f Hf. apply Hall. now right.
Qed.

(** The files after a loop that ended normally. *)
Lemma batch_loop_world (todo : list string) :
  forall i w,
    let x := batch_loop env cb total_files i todo w in
    dirs (world_of x) = dirs w
    /\ (forall p, exists_in w p = true -> exists_in (world_of x) p = true)
    /\ (forall p, mem p (files (world_of x)) = true ->
                  mem p (files w) = true
                  \/ exists f, In f todo /\ with_suffix f ".mp4" = Ok p)
    /\ (result_of x = Ok tt ->
        (forall f, In f todo -> writes_output (env f) = true) ->
        forall f, In f todo ->
                  exists out, with_suffix f ".mp4" = Ok out
                              /\ exists_in (world_of x) out = true).
Proof.
  induction todo as [ | file rest IH]; intros i w; cbn zeta.
  - cbn [batch_loop ret world_of result_of fst snd].
    repeat split; auto. intros _ _ f [].
  - destruct (with_suffix file ".mp4") as [out | e | ] eqn:Hout.
    + destruct (file_progress_closed cb g i total_files some_files cb_reports)
        as (g' & Hfp & _).
      rewrite (batch_loop_cons env cb g' total_files i file out rest w Hfp Hout).
      rewrite world_bind, result_bind.
      destruct (closed_world env file out g' w) as (Hd & Hgrow & Hnew & Hdone).
      destruct (result_of (convert_file_closed env file out g' w))
        as [[] | e | ] eqn:Hr.
      * destruct (IH (i + 1) (world_of (convert_file_closed env file out g' w)))
          as (Hd2 & Hgrow2 & Hnew2 & Hdone2).
        split; [now rewrite Hd2 | ]. split; [auto | ]. split.
        -- intros p Hp. destruct (Hnew2 p Hp) as [Hp1 | (f & Hf & Hp1)].
           ++ destruct (Hnew p Hp1) as [Hp0 | ->]; [now left | right].
              exists file. split; [now left | exact Hout].
           ++ right. exists f. split; [now right | exact Hp1].
        -- intros Hok Hw f [<- | Hf].
           ++ exists out. split; [exact Hout | ].
              apply Hgrow2, Hdone; [reflexivity | apply Hw; now left].
           ++ apply Hdone2; trivial. intros f' Hf'. apply Hw. now right.
      * repeat split; auto.
        -- intros p Hp. destruct (Hnew p Hp) as [Hp0 | ->]; [now left | right].
           exists file. split; [now left | exact Hout].
        -- discriminate.
      * repeat split; auto.
        -- intros p Hp. destruct (Hnew p Hp) as [Hp0 | ->]; [now left | right].
           exists file. split; [now left | exact Hout].
        -- discriminate.
    + cbn [batch_loop]. unfold bind, lift. rewrite Hout.
      cbn [world_of result_of fst snd]. repeat split; auto. discriminate.
    + cbn [batch_loop]. unfold bind, lift. rewrite Hout.
      cbn [world_of result_of fst snd]. repeat split; auto. discriminate.
Qed.

(** No output path is written twice when each encoder leaves its file. *)
Lemma batch_loop_outputs (todo : list string) :
  starts_nothing g ->
  (forall f, In f todo -> writes_output (env f) = true) ->
  forall i w,
    NoDup (map output_of
               (started (trace_of (batch_loop env cb total_files i todo w)))).
Proof.
  intros Hg. induction todo as [ | file rest IH]; intros Hw i w;
    [constructor | ].
  destruct (with_suffix file ".mp4") as [out | e | ] eqn:Hout.
  - destruct (file_progress_closed cb g i total_files some_files cb_reports)
      as (g' & Hfp & Hg').
    rewrite (batch_loop_cons env cb g' total_files i file out rest w Hfp Hout).
    rewrite trace_bind, started_app, map_app.
    destruct (closed_world env file out g' w) as (_ & _ & _ & Hdone).
    rewrite (started_closed env file out g' w (Hg' Hg)).
    pose proof (started_closed env file out g' w (Hg' Hg)) as Hst.
    destruct (result_of (convert_file_closed env file out g' w))
      as [[] | e | ] eqn:Hr.
    + assert (Htail : NoDup (map output_of
                (started (trace_of (batch_loop env cb total_files (i + 1) rest
                   (world_of (convert_file_closed env file out g' w)))))))
        by (apply IH; intros f Hf; apply Hw; now right).
      destruct (mem out (files w) || mem out (dirs w)); [exact Htail | ].
      destruct (popen_fails (env file)); [exact Htail | ].
      cbn [map app]. rewrite command_output. constructor; [ | exact Htail].
      intros Hin. apply in_map_iff in Hin as (command & Ho & Hin).
      destruct (batch_loop_started rest Hg _ _ _ Hin) as (f & _ & _ & _ & Hex).
      rewrite Ho, Hdone in Hex; [discriminate | reflexivity | ].
      apply Hw. now left.
    + rewrite app_nil_r.
      destruct (mem out (files w) || mem out (dirs w)); [constructor | ].
      destruct (popen_fails (env file)); [constructor | ].
      cbn [map]. constructor; [intros [] | constructor].
    + rewrite app_nil_r.
      destruct (mem out (files w) || mem out (dirs w)); [constructor | ].
      destruct (popen_fails (env file)); [constructor | ].
      cbn [map]. constructor; [intros [] | constructor].
  - cbn [batch_loop]. unfold bind, lift. rewrite Hout. constructor.
  - cbn [batch_loop]. unfold bind, lift. rewrite Hout. constructor.
Qed.

(** A loop that ends by an exception stopped at the first call that
    raised: the calls before it returned, and only the files up to that
    one were given to an encoder. *)
Lemma batch_loop_stops (todo : list string) :
  starts_nothing g ->
  forall i w e,
    result_of (batch_loop env cb total_files i todo w) = Raise e ->
    exists pre f post,
      todo = pre ++ f :: post
      /\ result_of (batch_loop env cb total_files i pre w) = Ok tt
      /\ call_raises env cb total_files f (i + Z.of_nat (List.length pre))
           (world_of (batch_loop env cb total_files i pre w)) e
      /\ forall command,
           In command (started (trace_of (batch_loop env cb total_files i todo w))) ->
           exists p, In p (pre ++ [f]) /\ input_of command = Some p.
Proof.
  intros Hg. induction todo as [ | file rest IH]; intros i w e;
    [discriminate | ].
  destruct (with_suffix file ".mp4") as [out | e' | ] eqn:Hout.
  - destruct (file_progress_closed cb g i total_files some_files cb_reports)
      as (g' & Hfp & Hg').
    rewrite (batch_loop_cons env cb g' total_files i file out rest w Hfp Hout).
    rewrite result_bind, trace_bind.
    pose proof (convert_file_eq env file out (file_progress cb i total_files)
                  g' w Hfp) as Hclosed.
    destruct (result_of (convert_file_closed env file out g' w))
      as [[] | e' | ] eqn:Hr.
    + intros Hrest.
      destruct (IH _ _ _ Hrest) as (pre & f & post & -> & Hpre & Hcall & Hc).
      exists (file :: pre), f, post. split; [reflexivity | ].
      rewrite (batch_loop_cons env cb g' total_files i file out pre w Hfp Hout).
      rewrite result_bind, world_bind, Hr.
      split; [exact Hpre | ]. split.
      * replace (i + Z.of_nat (List.length (file :: pre)))
          with (i + 1 + Z.of_nat (List.length pre))
          by (cbn [List.length]; lia).
        exact Hcall.
      * intros command. rewrite started_app. intros [Hin | Hin]%in_app_or.
        -- destruct (closed_started env file out g' w command (Hg' Hg) Hin)
             as (Hi & _).
           exists file. split; [now left | exact Hi].
        -- destruct (Hc command Hin) as (p & Hp & Hi).
           exists p. split; [now right | exact Hi].
    + intros [= <-]. exists [], file, rest.
      split; [reflexivity | ]. split; [reflexivity | ]. split.
      * unfold call_raises. rewrite Hout.
        cbn [batch_loop ret world_of fst snd List.length]. rewrite Z.add_0_r.
        now rewrite Hclosed.
      * rewrite app_nil_r. intros command Hin.
        destruct (closed_started env file out g' w command (Hg' Hg) Hin)
          as (Hi & _).
        exists file. split; [now left | exact Hi].
    + discriminate.
  - cbn [batch_loop]. unfold bind, lift. rewrite Hout.
    cbn [result_of trace_of fst snd started]. intros [= <-].
    exists [], file, rest. split; [reflexivity | ]. split; [reflexivity | ].
    split; [ | intros command []].
    unfold call_raises. now rewrite Hout.
  - cbn [batch_loop]. unfold bind, lift. rewrite Hout. discriminate.
Qed.

End Loop.

Lemma batch_convert_eq (env : environment) (listing : list string)
    (cb : option (Q -> M unit)) (w : world) :
  batch_convert env listing cb w
  = batch_loop env cb (Z.of_nat (List.length (videos_of listing w))) 1
      (videos_of listing w) w.
Proof.
  unfold batch_convert, bind, candidates. fold (videos_of listing w).
  now destruct (batch_loop env cb _ 1 (videos_of listing w) w) as [[t2 w2] r2].
Qed.

Lemma videos_counted (listing : list string) (w : world) :
  videos_of listing w <> [] ->
  Z.of_nat (List.length (videos_of listing w)) <> 0.
Proof. destruct (videos_of listing w); [congruence | cbn [List.length]; lia]. Qed.

Lemma videos_are_files (listing : list string) (w : world) (f : string) :
  In f (videos_of listing w) ->
  In f listing /\ mem f (files w) = true /\ supported f = true.
Proof.
  unfold videos_of. rewrite filter_In, andb_true_iff. tauto.
Qed.

Lemma videos_named (listing : list string) (w : world) :
  Forall named (files w) -> Forall named (videos_of listing w).
Proof.
  intros Hn. apply Forall_forall. intros f Hf.
  apply videos_are_files in Hf as (_ & Hf & _).
  rewrite Forall_forall in Hn. apply Hn. now apply mem_In.
Qed.

(** X7. [batch_convert] never overwrites: every encoder it starts reads a
    file of the listing that exists and has a supported extension, and
    writes the path [with_suffix] gives for that file, which was neither a
    file nor a directory when the batch began. *)
Theorem batch_convert_never_overwrites (env : environment)
    (listing : list string) (cb : option (Q -> M unit)) (g : Q -> list event)
    (w : world) (command : list string) :
  reports cb g -> starts_nothing g ->
  In command (started (trace_of (batch_convert env listing cb w))) ->
  exists f,
    In f listing /\ mem f (files w) = true /\ supported f = true
    /\ input_of command = Some f
    /\ with_suffix f ".mp4" = Ok (output_of command)
    /\ mem (output_of command) (files w) = false
    /\ mem (output_of command) (dirs w) = false.
Proof.
  intros Hcb Hg. rewrite batch_convert_eq.
  destruct (videos_of listing w) as [ | file rest] eqn:Htodo; [intros [] | ].
  rewrite <- Htodo. intros Hin.
  assert (Hn : Z.of_nat (List.length (videos_of listing w)) <> 0)
    by (apply videos_counted; rewrite Htodo; discriminate).
  destruct (batch_loop_started env cb g _ Hn Hcb _ Hg _ _ _ Hin)
    as (f & Hf & Hi & Ho & Hex).
  apply videos_are_files in Hf as (Hl & Hfile & Hsup).
  apply orb_false_iff in Hex as [Hex1 Hex2].
  exists f. repeat split; assumption.
Qed.

Lemma batch_convert_never_overwrites_witness :
  exists f,
    In f ["a"; "a/clip.mp4"; "a/talk.avi"]
    /\ mem f (files sample_folder) = true /\ supported f = true
    /\ input_of talk_command = Some f
    /\ with_suffix f ".mp4" = Ok (output_of talk_command)
    /\ mem (output_of talk_command) (files sample_folder) = false
    /\ mem (output_of talk_command) (dirs sample_folder) = false.
Proof.
  apply (batch_convert_never_overwrites (fun _ => good_media)
           ["a"; "a/clip.mp4"; "a/talk.avi"] (Some recorder)
           (fun p => [Progress p]) sample_folder talk_command).
  - exact recorder_emits.
  - intros percent. reflexivity.
  - vm_compute. left. reflexivity.
Defined.

(** X8. Running [batch_convert] again does nothing: after a batch that
    returned, with an encoder that leaves its output file behind, a second
    batch over the same folder (its listing may now hold the new files)
    starts no encoder, changes nothing, and only prints the skip message
    for each video it finds. *)
Theorem batch_convert_again (env : environment) (listing listing' : list string)
    (cb cb' : option (Q -> M unit)) (g : Q -> list event) (w : world) :
  reports cb g ->
  (forall f, writes_output (env f) = true) ->
  result_of (batch_convert env listing cb w) = Ok tt ->
  (forall f, In f listing' -> mem f (files w) = true -> In f listing) ->
  let w' := world_of (batch_convert env listing cb w) in
  batch_convert env listing' cb' w'
  = (map (fun f => Print (skip_message f)) (videos_of listing' w'), w', Ok tt).
Proof.
  intros Hcb Hw Hok Hsame w'.
  rewrite (batch_convert_eq env listing' cb' w').
  apply batch_loop_skips_all. intros f Hf.
  apply videos_are_files in Hf as (Hl & Hfile & Hsup).
  subst w'. rewrite batch_convert_eq in Hok, Hfile |- *.
  destruct (videos_of listing w) as [ | file rest] eqn:Htodo.
  - cbn [batch_loop ret world_of fst snd] in Hfile |- *.
    assert (Hf : In f (videos_of listing w)).
    { unfold videos_of. apply filter_In. split; [now apply Hsame | ].
      now rewrite Hfile, Hsup. }
    rewrite Htodo in Hf. destruct Hf.
  - rewrite <- Htodo in *.
    assert (Hn : Z.of_nat (List.length (videos_of listing w)) <> 0)
      by (apply videos_counted; rewrite Htodo; discriminate).
    destruct (batch_loop_world env cb g _ Hn Hcb (videos_of listing w) 1 w)
      as (_ & _ & Hnew & Hdone).
    destruct (Hnew f Hfile) as [Hold | (f0 & Hf0 & Hout)].
    + apply Hdone; trivial. unfold videos_of. apply filter_In.
      split; [now apply Hsame | now rewrite Hold, Hsup].
    + exists f. destruct (output_path f0 f Hout) as (_ & _ & Hself & _).
      split; [exact Hself | ]. unfold exists_in. now rewrite Hfile.
Qed.

Lemma batch_convert_again_witness :
  batch_convert (fun _ => good_media)
    ["a"; "a/clip.mp4"; "a/talk.avi"; "a/talk.mp4"] None
    (world_of (batch_convert (fun _ => good_media)
                 ["a"; "a/clip.mp4"; "a/talk.avi"] (Some recorder)
                 sample_folder))
  = ([Print (skip_message "a/clip.mp4"); Print (skip_message "a/talk.avi");
      Print (skip_message "a/talk.mp4")],
     mk_world 0 ["a/talk.mp4"; "a/clip.mp4"; "a/talk.avi"] ["a"], Ok tt).
Proof.
  apply (batch_convert_again (fun _ => good_media)
           ["a"; "a/clip.mp4"; "a/talk.avi"]
           ["a"; "a/clip.mp4"; "a/talk.avi"; "a/talk.mp4"]
           (Some recorder) None (fun p => [Progress p]) sample_folder).
  - exact recorder_emits.
  - intros f. reflexivity.
  - reflexivity.
  - intros f [<- | [<- | [<- | [<- | []]]]] H;
      [now left | now right; left | now right; right; left | discriminate H].
Defined.

(** X9. No two encoders of one batch write the same path, provided the
    encoder leaves its output file behind: of two inputs that differ only in
    their extension, the second is skipped. *)
Theorem batch_convert_outputs_distinct (env : environment)
    (listing : list string) (cb : option (Q -> M unit)) (g : Q -> list event)
    (w : world) :
  reports cb g -> starts_nothing g ->
  (forall f, In f listing -> writes_output (env f) = true) ->
  NoDup (map output_of (started (trace_of (batch_convert env listing cb w)))).
Proof.
  intros Hcb Hg Hw. rewrite batch_convert_eq.
  destruct (videos_of listing w) as [ | file rest] eqn:Htodo; [constructor | ].
  rewrite <- Htodo.
  apply (batch_loop_outputs env cb g); trivial.
  - apply videos_counted. rewrite Htodo. discriminate.
  - intros f Hf. apply Hw. now apply videos_are_files in Hf.
Qed.

Lemma batch_convert_outputs_distinct_witness :
  NoDup (map output_of
           (started (trace_of (batch_convert (fun _ => good_media)
                                 ["talk.avi"; "talk.mkv"; "talk.mov"]
                                 (Some recorder) same_stem)))).
Proof.
  apply (batch_convert_outputs_distinct (fun _ => good_media)
           ["talk.avi"; "talk.mkv"; "talk.mov"] (Some recorder)
           (fun p => [Progress p]) same_stem).
  - exact recorder_emits.
  - intros percent. reflexivity.
  - intros f _. reflexivity.
Defined.

(** X10. Over a listing without a supported existing file
    [batch_convert] does nothing at all and returns.  After a batch that
    returned, with an encoder that leaves its output file behind, the
    output path of every video of the listing exists: it was there before
    or was written now. *)
Theorem batch_convert_outcome (env : environment) (listing : list string)
    (cb : option (Q -> M unit)) (g : Q -> list event) (w : world) :
  reports cb g ->
  (videos_of listing w = [] -> batch_convert env listing cb w = ([], w, Ok tt))
  /\ (result_of (batch_convert env listing cb w) = Ok tt ->
      (forall f, In f listing -> writes_output (env f) = true) ->
      forall f,
        In f listing -> mem f (files w) = true -> supported f = true ->
        exists output_file,
          with_suffix f ".mp4" = Ok output_file
          /\ exists_in (world_of (batch_convert env listing cb w)) output_file
             = true).
Proof.
  intros Hcb. rewrite batch_convert_eq.
  destruct (videos_of listing w) as [ | file rest] eqn:Htodo.
  - split; [reflexivity | ]. intros _ _ f Hl Hf Hs. exfalso.
    assert (Hin : In f (videos_of listing w)).
    { unfold videos_of. apply filter_In. split; [exact Hl | now rewrite Hf, Hs]. }
    rewrite Htodo in Hin. destruct Hin.
  - rewrite <- Htodo. split; [rewrite Htodo; discriminate | ].
    intros Hok Hw f Hl Hf Hs.
    assert (Hc : Z.of_nat (List.length (videos_of listing w)) <> 0)
      by (apply videos_counted; rewrite Htodo; discriminate).
    destruct (batch_loop_world env cb g _ Hc Hcb (videos_of listing w) 1 w)
      as (_ & _ & _ & Hdone).
    apply Hdone; trivial.
    + intros f' Hf'. apply Hw. now apply videos_are_files in Hf'.
    + unfold videos_of. apply filter_In. split; [exact Hl | now rewrite Hf, Hs].
Qed.

Lemma batch_convert_outcome_witness :
  batch_convert (fun _ => good_media) ["a"; "a/notes.txt"] None sample_folder
  = ([], sample_folder, Ok tt)
  /\ exists output_file,
      with_suffix "a/talk.avi" ".mp4" = Ok output_file
      /\ exists_in (world_of (batch_convert (fun _ => good_media)
                                ["a"; "a/clip.mp4"; "a/talk.avi"]
                                (Some recorder) sample_folder)) output_file
         = true.
Proof.
  split.
  - apply (proj1 (batch_convert_outcome (fun _ => good_media)
                    ["a"; "a/notes.txt"] None (fun _ => []) sample_folder
                    (fun _ => eq_refl))).
    reflexivity.
  - apply (proj2 (batch_convert_outcome (fun _ => good_media)
                    ["a"; "a/clip.mp4"; "a/talk.avi"] (Some recorder)
                    (fun p => [Progress p]) sample_folder recorder_emits)).
    + reflexivity.
    + intros f _. reflexivity.
    + right. right. now left.
    + reflexivity.
    + reflexivity.
Defined.

(** X11. Nothing in [batch_convert] catches an exception: when the batch
    raises, the rounds of the videos listed before some video returned,
    the exception is the one of the round of that video, every encoder the
    batch started belongs to that video or to one listed before it, and
    the videos after it are not touched. *)
Theorem batch_convert_stops_at_failure (env : environment)
    (listing : list string) (cb : option (Q -> M unit)) (g : Q -> list event)
    (w : world) (e : exn) :
  reports cb g -> starts_nothing g ->
  result_of (batch_convert env listing cb w) = Raise e ->
  let total_files := Z.of_nat (List.length (videos_of listing w)) in
  exists pre f post,
    videos_of listing w = pre ++ f :: post
    /\ result_of (batch_loop env cb total_files 1 pre w) = Ok tt
    /\ call_raises env cb total_files f (1 + Z.of_nat (List.length pre))
         (world_of (batch_loop env cb total_files 1 pre w)) e
    /\ forall command,
         In command (started (trace_of (batch_convert env listing cb w))) ->
         exists p, In p (pre ++ [f]) /\ input_of command = Some p.
Proof.
  intros Hcb Hg. cbv zeta. rewrite batch_convert_eq.
  destruct (videos_of listing w) as [ | file rest] eqn:Htodo; [discriminate | ].
  rewrite <- Htodo. intros Hr.
  assert (Hc : Z.of_nat (List.length (videos_of listing w)) <> 0)
    by (apply videos_counted; rewrite Htodo; discriminate).
  exact (batch_loop_stops env cb g _ Hc Hcb _ Hg _ _ _ Hr).
Qed.

Lemma batch_convert_stops_at_failure_witness :
  exists pre f post,
    videos_of ["a.avi"; "b.avi"; "c.avi"] three_videos = pre ++ f :: post
    /\ result_of (batch_loop second_fails (Some recorder) 3 1 pre three_videos)
       = Ok tt
    /\ call_raises second_fails (Some recorder) 3 f
         (1 + Z.of_nat (List.length pre))
         (world_of (batch_loop second_fails (Some recorder) 3 1 pre
                      three_videos)) OSError
    /\ forall command,
         In command
            (started (trace_of (batch_convert second_fails
                                  ["a.avi"; "b.avi"; "c.avi"] (Some recorder)
                                  three_videos))) ->
         exists p, In p (pre ++ [f]) /\ input_of command = Some p.
Proof.
  apply (batch_convert_stops_at_failure second_fails ["a.avi"; "b.avi"; "c.avi"]
           (Some recorder) (fun p => [Progress p]) three_videos OSError).
  - exact recorder_emits.
  - intros percent. reflexivity.
  - reflexivity.
Defined.

End FolderFacts.

(** ** The conversion thread under any use of the flags *)

Module WorkerFacts.
Import Notions Scenarios.
Import Py Regex Effects Parser Planner Paths Converter Gui.
Import RegexFacts ParserFacts ConverterFacts PathFacts EffectsFacts BatchFacts
  ProgressFacts OverallFacts.
Import OutputPathFacts FolderFacts.
Local Open Scope py_scope.

(** *** Passive computations *)

Lemma passive_bind {A B : Type} (m : M A) (f : A -> M B) :
  passive m -> (forall a, passive (f a)) -> passive (bind m f).
Proof.
  intros Hm Hf w. rewrite trace_bind, world_bind, started_app.
  destruct (Hm w) as (H1 & H2 & H3). rewrite H1.
  destruct (result_of (m w)) as [a | e | ]; [ | now repeat split ..].
  destruct (Hf a (world_of (m w))) as (K1 & K2 & K3).
  rewrite K1, K2, K3. now repeat split.
Qed.

Lemma passive_still {A : Type} (m : M A) :
  (forall w, started (trace_of (m w)) = []
             /\ files (world_of (m w)) = files w
             /\ dirs (world_of (m w)) = dirs w) ->
  passive m.
Proof. trivial. Qed.

Lemma passive_ret {A : Type} (a : A) : passive (ret a).
Proof. intros w. now repeat split. Qed.

Lemma passive_lift {A : Type} (r : result A) : passive (lift r).
Proof. intros w. now repeat split. Qed.

Lemma passive_raise {A : Type} (e : exn) : passive (@raise A e).
Proof. intros w. now repeat split. Qed.

Lemma passive_blocked {A : Type} : passive (@blocked A).
Proof. intros w. now repeat split. Qed.

Lemma passive_emit (e : event) :
  (forall command, e <> Popen command) -> passive (emit e).
Proof.
  intros He w. destruct e; try (now repeat split).
  exfalso. eapply He. reflexivity.
Qed.

Lemma passive_read_cancelled (ctl : controls) : passive (read_cancelled ctl).
Proof. intros w. now repeat split. Qed.

Lemma passive_read_paused (ctl : controls) : passive (read_paused ctl).
Proof. intros w. now repeat split. Qed.

Lemma passive_path_is_file (p : string) : passive (path_is_file p).
Proof. intros w. now repeat split. Qed.

Lemma passive_pause_loop (ctl : controls) (patience : nat) :
  passive (pause_loop ctl patience).
Proof.
  induction patience as [ | n IH]; cbn [pause_loop];
    (apply passive_bind; [apply passive_read_paused | ]);
    intros [ | ]; try apply passive_ret;
    (apply passive_bind; [apply passive_read_cancelled | ]);
    intros [ | ]; cbn [negb]; try apply passive_ret.
  - apply passive_blocked.
  - apply passive_bind; [now apply passive_emit | intros _; exact IH].
Qed.

Lemma passive_progress_callback (ctl : controls) (file_path : string)
    (converted_count total_files : Z) (percent : Q) :
  passive (progress_callback ctl file_path converted_count total_files percent).
Proof.
  unfold progress_callback.
  apply passive_bind; [apply passive_read_cancelled | ].
  intros [ | ]; [apply passive_ret | ].
  apply passive_bind; [now apply passive_emit | intros _].
  apply passive_bind; [apply passive_lift | intros overall].
  now apply passive_emit.
Qed.

Section Callback.

Variable ctl : controls.
Variable callback : Q -> M unit.
Hypothesis passive_callback : forall percent, passive (callback percent).

Lemma passive_control_loop (patience : nat) (lines : list string) :
  forall duration, passive (control_loop ctl patience callback lines duration).
Proof.
  induction lines as [ | line rest IH]; intros duration; cbn [control_loop];
    [apply passive_ret | ].
  apply passive_bind; [apply passive_read_cancelled | ].
  intros [ | ]; [now apply passive_emit | ].
  apply passive_bind; [apply passive_pause_loop | intros _].
  apply passive_bind; [apply passive_read_cancelled | ].
  intros [ | ]; [now apply passive_emit | ].
  destruct (on_line clock_value_gui duration_re_gui time_re_gui duration line)
    as [[duration' [percent | ]] | e | ].
  - apply passive_bind; [apply passive_callback | intros _; apply IH].
  - apply IH.
  - apply passive_raise.
  - apply passive_blocked.
Qed.

Lemma passive_final_report : passive (final_report ctl (Some callback)).
Proof.
  unfold final_report.
  apply passive_bind; [apply passive_read_cancelled | ].
  intros [ | ]; cbn [negb]; [apply passive_ret | apply passive_callback].
Qed.

End Callback.

(** *** The pause loop *)

Lemma waiting_shift (ctl : controls) (r j : nat) :
  waiting ctl (S (S r)) j = waiting ctl r (S j).
Proof.
  unfold waiting.
  replace (S (S r) + 2 * j)%nat with (r + 2 * S j)%nat by lia. reflexivity.
Qed.

Lemma waiting_now (ctl : controls) (r : nat) :
  waiting ctl r 0 = paused_at ctl r && negb (cancelled_at ctl (S r)).
Proof.
  unfold waiting. replace (r + 2 * 0)%nat with r by lia.
  now replace (r + 1)%nat with (S r) by lia.
Qed.

Lemma pause_loop_round (ctl : controls) (patience : nat) (w : world) :
  waiting ctl (reads w) 0 = true ->
  pause_loop ctl (S patience) w
  = let x := pause_loop ctl patience (tick (tick w)) in
    (SawCancelled false :: Sleep :: trace_of x, world_of x, result_of x).
Proof.
  rewrite waiting_now. intros [Hp Hc%negb_true_iff]%andb_true_iff.
  cbn [pause_loop]. unfold bind at 1, read_paused at 1. rewrite Hp.
  unfold bind at 1, read_cancelled at 1. cbn [tick reads]. rewrite Hc.
  cbn [negb]. unfold bind at 1, emit at 1.
  now destruct (pause_loop ctl patience (tick (tick w))) as [[t2 w2] r2].
Qed.

Lemma pause_loop_stuck (ctl : controls) (patience : nat) :
  forall w,
    (forall k, (k <= patience)%nat -> waiting ctl (reads w) k = true) ->
    result_of (pause_loop ctl patience w) = Blocked
    /\ sleeps (trace_of (pause_loop ctl patience w)) = patience.
Proof.
  induction patience as [ | n IH]; intros w Hw.
  - specialize (Hw O (Nat.le_refl _)). rewrite waiting_now in Hw.
    apply andb_true_iff in Hw as [Hp Hc%negb_true_iff].
    cbn [pause_loop]. unfold bind, read_paused, read_cancelled.
    rewrite Hp. cbn [tick reads]. rewrite Hc. now split.
  - rewrite pause_loop_round by (apply Hw; lia).
    cbn [result_of trace_of fst snd sleeps].
    destruct (IH (tick (tick w))) as [H1 H2].
    + intros k Hk. cbn [tick reads]. rewrite waiting_shift. apply Hw. lia.
    + split; [exact H1 | now rewrite H2].
Qed.

Lemma pause_loop_resumed (ctl : controls) (k : nat) :
  forall patience w,
    (k <= patience)%nat ->
    (forall j, (j < k)%nat -> waiting ctl (reads w) j = true) ->
    waiting ctl (reads w) k = false ->
    result_of (pause_loop ctl patience w) = Ok tt
    /\ sleeps (trace_of (pause_loop ctl patience w)) = k.
Proof.
  induction k as [ | k IH]; intros patience w Hk Hbefore Hnow.
  - rewrite waiting_now in Hnow.
    assert (E : pause_loop ctl patience w
                = if paused_at ctl (reads w)
                  then ([SawCancelled true], tick (tick w), Ok tt)
                  else ([], tick w, Ok tt)).
    { destruct patience; cbn [pause_loop]; unfold bind, read_paused, read_cancelled;
        destruct (paused_at ctl (reads w)); try reflexivity;
        cbn [andb tick reads] in *; apply negb_false_iff in Hnow;
        now rewrite Hnow. }
    rewrite E. now destruct (paused_at ctl (reads w)).
  - destruct patience as [ | patience]; [lia | ].
    rewrite pause_loop_round by (apply Hbefore; lia).
    cbn [result_of trace_of fst snd sleeps].
    destruct (IH patience (tick (tick w))) as [H1 H2].
    + lia.
    + intros j Hj. cbn [tick reads]. rewrite waiting_shift. apply Hbefore. lia.
    + cbn [tick reads]. now rewrite waiting_shift.
    + split; [exact H1 | now rewrite H2].
Qed.

(** The first check that does not find the loop waiting. *)
Lemma first_release (f : nat -> bool) (n : nat) :
  (exists k, (k <= n)%nat /\ f k = false) ->
  exists k, (k <= n)%nat /\ f k = false /\ forall j, (j < k)%nat -> f j = true.
Proof.
  intros (k & Hk & Hf). revert Hk Hf.
  induction k as [k IH] using lt_wf_ind. intros Hk Hf.
  destruct (forallb f (seq 0 k)) eqn:Hall.
  - exists k. repeat split; trivial. intros j Hj.
    rewrite forallb_forall in Hall. apply Hall, in_seq. lia.
  - assert (Hex : exists j, (j < k)%nat /\ f j = false).
    { clear -Hall. induction k as [ | k IH].
      - discriminate.
      - rewrite seq_S, forallb_app in Hall. cbn [forallb Nat.add] in Hall.
        destruct (forallb f (seq 0 k)).
        + exists k. split; [lia | ]. rewrite andb_true_r in Hall. exact Hall.
        + destruct (IH eq_refl) as (j & Hj & Hfj). exists j. split; [lia | exact Hfj]. }
    destruct Hex as (j & Hj & Hfj). apply (IH j Hj); [lia | exact Hfj].
Qed.

(** *** Computations that come to an end *)

Lemma finishes_bind {A B : Type} (m : M A) (f : A -> M B) :
  finishes m -> (forall a, finishes (f a)) -> finishes (bind m f).
Proof.
  intros Hm Hf w. rewrite result_bind. specialize (Hm w).
  destruct (result_of (m w)) as [a | e | ];
    [apply Hf | discriminate | now destruct Hm].
Qed.

Lemma finishes_ok {A : Type} (m : M A) :
  (forall w, exists a, result_of (m w) = Ok a) -> finishes m.
Proof. intros H w. destruct (H w) as (a & ->). discriminate. Qed.

Lemma finishes_ret {A : Type} (a : A) : finishes (ret a).
Proof. intros w. discriminate. Qed.

Lemma finishes_emit (e : event) : finishes (emit e).
Proof. intros w. discriminate. Qed.

Lemma finishes_raise {A : Type} (e : exn) : finishes (@raise A e).
Proof. intros w. discriminate. Qed.

Lemma finishes_read_cancelled (ctl : controls) : finishes (read_cancelled ctl).
Proof. intros w. discriminate. Qed.

Lemma finishes_try {A : Type} (m : M A) (h : exn -> M A) :
  finishes m -> (forall e, finishes (h e)) -> finishes (try_except m h).
Proof.
  intros Hm Hh w. unfold try_except. specialize (Hm w).
  destruct (m w) as [[t1 w1] [a | e | ]]; cbn [result_of snd] in *;
    [discriminate | | now destruct Hm].
  specialize (Hh e w1). now destruct (h e w1) as [[t2 w2] r2].
Qed.

Lemma unfailing_try {A : Type} (m : M A) (h : exn -> M A) :
  (forall e, unfailing (h e)) -> unfailing (try_except m h).
Proof.
  intros Hh w e'. unfold try_except.
  destruct (m w) as [[t1 w1] [a | e | ]]; cbn [result_of snd];
    [discriminate | | discriminate].
  specialize (Hh e w1 e'). now destruct (h e w1) as [[t2 w2] r2].
Qed.

Section Released.

Variable ctl : controls.
Variable patience : nat.
Hypothesis released : releases ctl patience.

Lemma finishes_pause_loop : finishes (pause_loop ctl patience).
Proof.
  intros w.
  destruct (first_release (waiting ctl (reads w)) patience (released (reads w)))
    as (k & Hk & Hnow & Hbefore).
  destruct (pause_loop_resumed ctl k patience w Hk Hbefore Hnow) as [-> _].
  discriminate.
Qed.

Lemma finishes_progress_callback (file_path : string)
    (converted_count total_files : Z) (percent : Q) :
  finishes (progress_callback ctl file_path converted_count total_files percent).
Proof.
  unfold progress_callback.
  apply finishes_bind; [apply finishes_read_cancelled | ].
  intros [ | ]; [apply finishes_ret | ].
  apply finishes_bind; [apply finishes_emit | intros _].
  apply finishes_bind; [ | intros overall; apply finishes_emit].
  intros w. unfold lift, overall_of, truediv, result_of. cbn [snd].
  destruct (Qeq_bool _ _); discriminate.
Qed.

Section Callback.

Variable callback : Q -> M unit.
Hypothesis finishes_callback : forall percent, finishes (callback percent).

Lemma finishes_control_loop (lines : list string) :
  forall duration, finishes (control_loop ctl patience callback lines duration).
Proof.
  induction lines as [ | line rest IH]; intros duration; cbn [control_loop];
    [apply finishes_ret | ].
  apply finishes_bind; [apply finishes_read_cancelled | ].
  intros [ | ]; [apply finishes_emit | ].
  apply finishes_bind; [apply finishes_pause_loop | intros _].
  apply finishes_bind; [apply finishes_read_cancelled | ].
  intros [ | ]; [apply finishes_emit | ].
  destruct (on_line_outcome (Chr ".") dot_no_group clock_value_gui
              clock_value_gui_reads duration line)
    as [(duration' & emitted & E) | (x & E)];
    fold duration_re_gui time_re_gui in E; rewrite E.
  - destruct emitted as [percent | ]; [ | apply IH].
    apply finishes_bind; [apply finishes_callback | intros _; apply IH].
  - intros w. discriminate.
Qed.

Lemma finishes_final_report : finishes (final_report ctl (Some callback)).
Proof.
  unfold final_report.
  apply finishes_bind; [apply finishes_read_cancelled | ].
  intros [ | ]; cbn [negb]; [apply finishes_ret | apply finishes_callback].
Qed.

Lemma finishes_convert_file_with_control (env : environment)
    (input_file output_file : string) :
  finishes (convert_file_with_control ctl patience env input_file output_file
              (Some callback)).
Proof.
  unfold convert_file_with_control.
  apply finishes_bind; [now apply finishes_ok; intros w; eexists | ].
  intros [ | ]; [apply finishes_emit | ].
  apply finishes_bind.
  { intros w. rewrite build_run. discriminate. }
  intros command. apply finishes_bind.
  { unfold popen. destruct (popen_fails _);
      [apply finishes_raise | apply finishes_emit]. }
  intros _. apply finishes_bind; [apply finishes_control_loop | intros _].
  apply finishes_bind.
  { intros w. rewrite wait_run. discriminate. }
  intros _. destruct (negb _); [ | apply finishes_final_report].
  apply finishes_bind; [apply finishes_read_cancelled | ].
  intros [ | ]; cbn [negb]; [apply finishes_final_report | apply finishes_emit].
Qed.

End Callback.

Lemma finishes_convert_entry (env : environment)
    (file_path output_file : string) (converted_count total_files : Z) :
  finishes (convert_entry ctl patience env file_path output_file
              converted_count total_files).
Proof.
  unfold convert_entry. apply finishes_try.
  - apply finishes_bind.
    + apply finishes_convert_file_with_control.
      intros percent. apply finishes_progress_callback.
    + intros _. apply finishes_bind; [apply finishes_read_cancelled | ].
      intros [ | ]; cbn [negb]; [apply finishes_ret | ].
      apply finishes_bind; [apply finishes_emit | intros _; apply finishes_ret].
  - intros e. apply finishes_bind; [apply finishes_read_cancelled | ].
    intros [ | ]; cbn [negb]; [apply finishes_ret | ].
    apply finishes_bind; [apply finishes_emit | intros _; apply finishes_ret].
Qed.

Lemma finishes_process_loop (env : environment) (total_files : Z)
    (selected : list string) :
  forall i converted_count,
    finishes (process_loop ctl patience env total_files i converted_count selected).
Proof.
  induction selected as [ | file_path rest IH]; intros i converted_count;
    cbn [process_loop]; [apply finishes_ret | ].
  apply finishes_bind; [apply finishes_read_cancelled | ].
  intros [ | ]; [apply finishes_ret | ].
  apply finishes_bind; [apply finishes_pause_loop | intros _].
  apply finishes_bind; [apply finishes_read_cancelled | ].
  intros [ | ]; [apply finishes_ret | ].
  apply finishes_bind; [now apply finishes_ok; intros w; eexists | ].
  intros is_file. destruct (is_file && supported file_path); [ | apply IH].
  apply finishes_bind.
  { intros w. unfold lift, with_suffix, result_of. cbn [snd].
    destruct (name _); discriminate. }
  intros output_file. apply finishes_bind; [apply finishes_emit | intros _].
  apply finishes_bind; [apply finishes_convert_entry | intros converted; apply IH].
Qed.

End Released.

(** *** Orderly runs *)

Lemma exists_in_grows (w w' : world) (p : string) :
  dirs w' = dirs w ->
  (forall q, mem q (files w) = true -> mem q (files w') = true) ->
  exists_in w p = true -> exists_in w' p = true.
Proof.
  intros Hd Hf. unfold exists_in. rewrite Hd.
  intros [H | H]%orb_true_iff; [rewrite (Hf p H) | rewrite H];
    auto using orb_true_r.
Qed.

Lemma orderly_still (t : list event) (w w' : world) :
  started t = [] -> files w' = files w -> dirs w' = dirs w -> orderly t w w'.
Proof.
  intros Ht Hf Hd. unfold orderly. rewrite Ht, Hf, Hd.
  repeat split; auto. intros command [].
Qed.

Lemma orderly_passive {A : Type} (m : M A) (w : world) :
  passive m -> orderly (trace_of (m w)) w (world_of (m w)).
Proof. intros Hm. destruct (Hm w) as (H1 & H2 & H3). now apply orderly_still. Qed.

Lemma orderly_trans (t1 t2 : list event) (w w1 w2 : world) :
  orderly t1 w w1 -> orderly t2 w1 w2 -> orderly (t1 ++ t2) w w2.
Proof.
  intros (Hd1 & Hg1 & Hn1 & Hc1) (Hd2 & Hg2 & Hn2 & Hc2).
  split; [congruence | ]. split; [auto | ]. split.
  - intros p Hp. destruct (Hn2 p Hp) as [Hp1 | Hself]; [auto | now right].
  - intros command. rewrite started_app. intros [Hin | Hin]%in_app_or; [auto | ].
    destruct (Hc2 command Hin) as (f & Hi & Hf & Ho & Hex).
    destruct (Hn1 f Hf) as [Hf0 | Hself].
    + exists f. repeat split; trivial.
      destruct (exists_in w (output_of command)) eqn:E; [ | reflexivity].
      rewrite (exists_in_grows w w1 _ Hd1 Hg1 E) in Hex. discriminate.
    + rewrite Hself in Ho. injection Ho as Ho.
      unfold exists_in in Hex. rewrite <- Ho, Hf in Hex. discriminate.
Qed.

Lemma orderly_bind {A B : Type} (m : M A) (f : A -> M B) (w : world) :
  orderly (trace_of (m w)) w (world_of (m w)) ->
  (forall a, result_of (m w) = Ok a ->
             orderly (trace_of (f a (world_of (m w)))) (world_of (m w))
                     (world_of (f a (world_of (m w))))) ->
  orderly (trace_of (bind m f w)) w (world_of (bind m f w)).
Proof.
  intros Hm Hf. rewrite trace_bind, world_bind.
  destruct (result_of (m w)) as [a | e | ];
    [ | now rewrite app_nil_r ..].
  eapply orderly_trans; [exact Hm | now apply Hf].
Qed.

Lemma orderly_named (t : list event) (w w' : world) :
  orderly t w w' -> Forall named (files w) -> Forall named (files w').
Proof.
  intros (_ & _ & Hn & _) Hw. rewrite Forall_forall in *. intros p Hp.
  apply mem_In in Hp. destruct (Hn p Hp) as [H0 | Hself].
  - apply Hw. now apply mem_In.
  - now destruct (output_path p p Hself) as (_ & _ & _ & _ & H).
Qed.

Lemma orderly_try {A : Type} (m : M A) (h : exn -> M A) (w : world) :
  orderly (trace_of (m w)) w (world_of (m w)) ->
  (forall e, passive (h e)) ->
  orderly (trace_of (try_except m h w)) w (world_of (try_except m h w))
  /\ started (trace_of (try_except m h w)) = started (trace_of (m w)).
Proof.
  intros Hm Hh. unfold try_except.
  destruct (m w) as [[t1 w1] [a | e | ]]; cbn [trace_of world_of fst snd] in *;
    [now split | | now split].
  destruct (Hh e w1) as (K1 & K2 & K3).
  destruct (h e w1) as [[t2 w2] r2]. cbn [trace_of world_of fst snd] in *.
  split.
  - eapply orderly_trans; [exact Hm | now apply orderly_still].
  - now rewrite started_app, K1, app_nil_r.
Qed.

(** The encoder of one controlled conversion. *)
Lemma control_orderly (ctl : controls) (patience : nat) (env : environment)
    (callback : Q -> M unit) (file out : string) (w : world) :
  (forall percent, passive (callback percent)) ->
  mem file (files w) = true -> with_suffix file ".mp4" = Ok out ->
  forall t w' r,
    convert_file_with_control ctl patience env file out (Some callback) w
    = (t, w', r) ->
    orderly t w w'
    /\ forall command, In command (started t) -> input_of command = Some file.
Proof.
  intros Hcb Hfile Hout t w' r. unfold convert_file_with_control.
  unfold bind at 1, path_exists.
  destruct (mem out (files w) || mem out (dirs w)) eqn:Hex.
  - intros [= <- <- <-]. cbn [app started].
    split; [now apply orderly_still | intros command []].
  - unfold bind at 1. rewrite build_run.
    unfold bind at 1, popen.
    destruct (popen_fails (env file)).
    + intros [= <- <- <-]. rewrite !app_nil_r.
      split; [apply orderly_still; trivial; apply started_notice | ].
      rewrite started_notice. intros command [].
    + unfold emit at 1.
      match goal with |- context [bind ?loop ?k w] =>
        pose proof (orderly_bind loop k w) as Hrest;
        assert (Hidle : started (trace_of (bind loop k w)) = []);
        [ | destruct (bind loop k w) as [[t2 w2] r2] ] end.
      { rewrite trace_bind, started_app.
        destruct (passive_control_loop ctl callback Hcb patience
                    (stderr_lines (env file)) None w) as (-> & _ & _).
        destruct (result_of _); [ | reflexivity ..].
        rewrite trace_bind, wait_run, started_app.
        cbn [trace_of result_of world_of fst snd started app].
        match goal with |- started (trace_of (?k ?w0)) = [] =>
          assert (Hk : passive k); [ | now destruct (Hk w0) as (-> & _) ] end.
        destruct (negb _); [ | now apply passive_final_report].
        apply passive_bind; [apply passive_read_cancelled | ].
        intros [ | ]; cbn [negb];
          [now apply passive_final_report | now apply passive_emit]. }
      cbn [trace_of world_of fst snd] in *.
      intros [= <- <- <-].
      assert (Hhere : orderly
                (notice (env file) file
                 ++ [Popen (build_ffmpeg_command (streams (env file)) file out
                              default_crf default_preset)]) w w).
      { split; [reflexivity | ]. split; [auto | ]. split; [auto | ].
        intros command. rewrite started_app, started_notice.
        intros [<- | []]. exists file.
        rewrite command_input, command_output. unfold exists_in.
        now repeat split. }
      set (command0 := build_ffmpeg_command (streams (env file)) file out
                         default_crf default_preset) in *.
      replace (notice (env file) file ++ Popen command0 :: t2)
        with ((notice (env file) file ++ [Popen command0]) ++ t2)
        by now rewrite <- app_assoc.
      split.
      * eapply orderly_trans; [exact Hhere | ].
        apply Hrest.
        -- now apply orderly_passive, passive_control_loop.
        -- intros [] _. apply orderly_bind.
           ++ rewrite wait_run. cbn [trace_of world_of fst snd].
              destruct (after_wait_world (env file) out
                          (world_of (control_loop ctl patience callback
                                       (stderr_lines (env file)) None w)))
                as (Hd & Hgrow & Hnew & _).
              split; [exact Hd | ]. split; [exact Hgrow | ].
              split; [ | intros command []].
              intros p Hp. destruct (Hnew p Hp) as [H0 | ->]; [now left | right].
              now destruct (output_path file out Hout) as (_ & _ & H & _).
           ++ intros [] _. apply orderly_passive.
              destruct (negb _); [ | now apply passive_final_report].
              apply passive_bind; [apply passive_read_cancelled | ].
              intros [ | ]; cbn [negb];
                [now apply passive_final_report | now apply passive_emit].
      * intros command. rewrite !started_app, started_notice, Hidle.
        cbn [started app]. intros [<- | []]. apply command_input.
Qed.

(** *** Well-run computations *)

Lemma well_run_bind {A B : Type} (selected : list string) (m : M A)
    (f : A -> M B) (w : world) :
  well_run selected m w ->
  (forall a, result_of (m w) = Ok a -> well_run selected (f a) (world_of (m w))) ->
  well_run selected (bind m f) w.
Proof.
  intros Hm Hf Hn. destruct (Hm Hn) as (Ho & Hr & Hc).
  pose proof (orderly_named _ _ _ Ho Hn) as Hn1.
  split; [ | split].
  - apply orderly_bind; [exact Ho | ]. intros a Ha. now apply (Hf a Ha).
  - intros e. rewrite result_bind.
    destruct (result_of (m w)) as [a | e0 | ] eqn:E.
    + now apply (Hf a eq_refl Hn1).
    + now destruct (Hr e0).
    + discriminate.
  - intros command. rewrite trace_bind, started_app.
    intros [Hin | Hin]%in_app_or; [now apply Hc | ].
    destruct (result_of (m w)) as [a | e0 | ] eqn:E; [ | destruct Hin ..].
    now apply (Hf a eq_refl Hn1).
Qed.

Lemma well_run_passive {A : Type} (selected : list string) (m : M A)
    (w : world) :
  passive m -> (forall e, result_of (m w) <> Raise e) -> well_run selected m w.
Proof.
  intros Hp Hr _. split; [now apply orderly_passive | ]. split; [exact Hr | ].
  destruct (Hp w) as (-> & _). intros command [].
Qed.

Lemma well_run_more {A : Type} (file : string) (selected : list string)
    (m : M A) (w : world) :
  well_run selected m w -> well_run (file :: selected) m w.
Proof.
  intros H Hn. destruct (H Hn) as (Ho & Hr & Hc).
  split; [exact Ho | ]. split; [exact Hr | ].
  intros command Hin. destruct (Hc command Hin) as (f & Hf & K).
  exists f. split; [now right | exact K].
Qed.

Lemma unfailing_handler (ctl : controls) (file_path : string)
    (converted_count : Z) (e : exn) :
  passive (cancelled <- read_cancelled ctl ;;
           if negb cancelled then
             emit (PrintError file_path e) ;; ret (converted_count + 1)
           else ret converted_count)
  /\ unfailing (cancelled <- read_cancelled ctl ;;
                if negb cancelled then
                  emit (PrintError file_path e) ;;
                  ret (converted_count + 1)
                else ret converted_count).
Proof.
  split.
  - apply passive_bind; [apply passive_read_cancelled | ].
    intros [ | ]; cbn [negb]; [apply passive_ret | ].
    apply passive_bind; [now apply passive_emit | intros _; apply passive_ret].
  - intros w e'. unfold bind, read_cancelled, emit, ret.
    destruct (cancelled_at ctl (reads w)); discriminate.
Qed.

(** One entry of the selection, once it is known to be a video file. *)
Lemma entry_well_run (ctl : controls) (patience : nat) (env : environment)
    (file out : string) (converted_count total_files : Z) (w : world) :
  mem file (files w) = true -> supported file = true ->
  with_suffix file ".mp4" = Ok out ->
  well_run [file]
    (convert_entry ctl patience env file out converted_count total_files) w.
Proof.
  intros Hfile Hsup Hout Hn. unfold convert_entry.
  match goal with |- context [try_except ?m ?h] =>
    assert (Hm : orderly (trace_of (m w)) w (world_of (m w))
                 /\ forall command, In command (started (trace_of (m w))) ->
                                    input_of command = Some file);
    [ | destruct (orderly_try m h w (proj1 Hm)
                    (fun e => proj1 (unfailing_handler ctl file converted_count e)))
          as [Ho Hs] ] end.
  { destruct (convert_file_with_control ctl patience env file out
                (Some (progress_callback ctl file converted_count total_files)) w)
      as [[t1 w1] r1] eqn:E.
    destruct (control_orderly ctl patience env _ file out w
                (passive_progress_callback ctl file converted_count total_files)
                Hfile Hout t1 w1 r1 E) as [Ho Hc].
    assert (Hk : forall u : unit,
               passive (cancelled <- read_cancelled ctl ;;
                        if negb cancelled then
                          emit (FileProgress file 100) ;; ret (converted_count + 1)
                        else ret converted_count)).
    { intros _. apply passive_bind; [apply passive_read_cancelled | ].
      intros [ | ]; cbn [negb]; [apply passive_ret | ].
      apply passive_bind; [now apply passive_emit | intros _; apply passive_ret]. }
    split.
    - apply orderly_bind; rewrite E; cbn [trace_of world_of result_of fst snd];
        [exact Ho | ].
      intros a _. apply orderly_passive. exact (Hk tt).
    - intros command. rewrite trace_bind, started_app, E.
      cbn [trace_of world_of result_of fst snd].
      intros [Hin | Hin]%in_app_or; [now apply Hc | ].
      destruct r1 as [a | e | ]; [ | destruct Hin ..].
      destruct (Hk a w1) as (K & _). rewrite K in Hin. destruct Hin. }
  split; [exact Ho | ]. split.
  - intros e. apply unfailing_try. intros e0.
    apply (proj2 (unfailing_handler ctl file converted_count e0)).
  - intros command. rewrite Hs. intros Hin.
    exists file. split; [now left | ]. split; [exact Hsup | now apply Hm].
Qed.

Lemma unfailing_pause_loop (ctl : controls) (patience : nat) :
  unfailing (pause_loop ctl patience).
Proof.
  induction patience as [ | n IH]; intros w e; cbn [pause_loop];
    unfold bind at 1, read_paused at 1;
    destruct (paused_at ctl (reads w)); try discriminate;
    unfold bind at 1, read_cancelled at 1;
    destruct (cancelled_at ctl (reads (tick w))); cbn [negb]; try discriminate.
  unfold bind at 1, emit at 1. specialize (IH (tick (tick w)) e).
  now destruct (pause_loop ctl n (tick (tick w))) as [[t2 w2] r2].
Qed.

Lemma process_loop_well_run (ctl : controls) (patience : nat)
    (env : environment) (total_files : Z) (selected : list string) :
  forall i converted_count w,
    well_run selected
      (process_loop ctl patience env total_files i converted_count selected) w.
Proof.
  induction selected as [ | file rest IH]; intros i converted_count w;
    cbn [process_loop].
  - apply well_run_passive; [apply passive_ret | discriminate].
  - apply well_run_bind.
    { apply well_run_passive; [apply passive_read_cancelled | discriminate]. }
    intros [ | ] _; [apply well_run_passive; [apply passive_ret | discriminate] | ].
    apply well_run_bind.
    { apply well_run_passive; [apply passive_pause_loop | ].
      intros e. apply unfailing_pause_loop. }
    intros _ _. apply well_run_bind.
    { apply well_run_passive; [apply passive_read_cancelled | discriminate]. }
    intros [ | ] _; [apply well_run_passive; [apply passive_ret | discriminate] | ].
    apply well_run_bind.
    { apply well_run_passive; [apply passive_path_is_file | discriminate]. }
    intros is_file His.
    match type of His with result_of (path_is_file _ ?w0) = _ =>
      remember w0 as w1 eqn:Hw1; clear Hw1 end.
    unfold path_is_file, result_of in His. cbn [snd] in His.
    injection His as His. cbn [world_of path_is_file fst snd].
    destruct (is_file && supported file) eqn:Hvalid;
      [ | apply well_run_more, IH].
    apply andb_true_iff in Hvalid as [Hfile Hsup]. rewrite Hfile in His.
    intros Hn.
    assert (Hnamed : named file).
    { rewrite Forall_forall in Hn. apply Hn. now apply mem_In. }
    destruct (named_has_output file Hnamed) as (out & Hout).
    revert Hn. apply well_run_bind.
    { rewrite Hout. apply well_run_passive; [apply passive_lift | discriminate]. }
    intros out' Ho'. unfold lift, result_of in Ho'. cbn [snd] in Ho'.
    rewrite Hout in Ho'. injection Ho' as <-. cbn [lift world_of fst snd].
    apply well_run_bind.
    { apply well_run_passive; [now apply passive_emit | discriminate]. }
    intros _ _. cbn [emit world_of fst snd].
    apply well_run_bind.
    { intros Hn. destruct (entry_well_run ctl patience env file out
                             converted_count total_files w1 His Hsup Hout Hn)
        as (Ho & Hr & Hc).
      split; [exact Ho | ]. split; [exact Hr | ].
      intros command Hin. destruct (Hc command Hin) as (f & [<- | []] & K).
      exists file. split; [now left | exact K]. }
    intros converted _. apply well_run_more, IH.
Qed.

(** *** The conversion thread as a whole *)

Lemma process_conversion_run (ctl : controls) (patience : nat)
    (env : environment) (selected_files : list string) (w : world) :
  let n := Z.of_nat (List.length selected_files) in
  let x := process_loop ctl patience env n 1 0 selected_files w in
  process_conversion ctl patience env selected_files w
  = match result_of x with
    | Ok k =>
        if cancelled_at ctl (reads (world_of x)) then
          (trace_of x ++ [SawCancelled true; ResetButtons],
           tick (world_of x), Ok tt)
        else
          (trace_of x
           ++ [SawCancelled false; OverallProgress 100;
               Status (done_message k n); ShowInfo (summary_message k n);
               ResetButtons],
           tick (world_of x), Ok tt)
    | Raise e => (trace_of x, world_of x, Raise e)
    | Blocked => (trace_of x, world_of x, Blocked)
    end.
Proof.
  cbn zeta. unfold process_conversion. unfold bind at 1.
  destruct (process_loop ctl patience env _ 1 0 selected_files w)
    as [[t1 w1] [k | e | ]]; cbn [trace_of world_of result_of fst snd];
    [ | reflexivity ..].
  unfold bind, read_cancelled, emit, ret.
  now destruct (cancelled_at ctl (reads w1)).
Qed.

(** X12. Whatever is selected and however the flags change, no exception
    leaves [process_conversion] (where every file has a name): an encoder
    that cannot be started is caught; when the thread returns, its last
    scheduled call resets the buttons; and it does return whenever each
    pause ends, by a resume or by a cancellation, within the observed
    number of checks. *)
Theorem process_conversion_ends (ctl : controls) (patience : nat)
    (env : environment) (selected_files : list string) (w : world) :
  Forall named (files w) ->
  let x := process_conversion ctl patience env selected_files w in
  (forall e, result_of x <> Raise e)
  /\ (result_of x = Ok tt -> exists t, trace_of x = t ++ [ResetButtons])
  /\ (releases ctl patience -> result_of x = Ok tt).
Proof.
  intros Hn x. subst x. rewrite process_conversion_run. cbn zeta.
  set (n := Z.of_nat (List.length selected_files)).
  destruct (process_loop_well_run ctl patience env n selected_files 1 0 w Hn)
    as (_ & Hr & _).
  pose proof (fun H => finishes_process_loop ctl patience H env n
                         selected_files 1 0 w) as Hfin.
  destruct (result_of (process_loop ctl patience env n 1 0 selected_files w))
    as [k | e | ].
  - destruct (cancelled_at ctl _); cbn [result_of trace_of fst snd].
    + split; [discriminate | ]. split; [ | reflexivity]. intros _.
      eexists (_ ++ [SawCancelled true]). now rewrite <- app_assoc.
    + split; [discriminate | ]. split; [ | reflexivity]. intros _.
      eexists (_ ++ [_; _; _; _]). now rewrite <- app_assoc.
  - now destruct (Hr e).
  - cbn [result_of snd]. split; [discriminate | ]. split; [discriminate | ].
    intros H. now destruct (Hfin H).
Qed.

Lemma process_conversion_ends_witness :
  result_of (process_conversion (paused_until 5) 3 second_fails
               ["a.avi"; "b.avi"; "c.avi"] three_videos)
  = Ok tt.
Proof.
  assert (Hnamed : Forall named (files three_videos))
    by (repeat (constructor; [intros H; cbv in H; discriminate H | ]);
        constructor).
  apply (process_conversion_ends (paused_until 5) 3 second_fails
           ["a.avi"; "b.avi"; "c.avi"] three_videos Hnamed).
  intros r. exists 3%nat. split; [apply le_n | ].
  unfold waiting, paused_until. cbn [paused_at cancelled_at negb].
  rewrite andb_true_r. apply Nat.ltb_ge. lia.
Defined.

(** X13. The window never overwrites either: every encoder
    [process_conversion] starts, under any use of the pause and cancel
    flags, reads a selected file that exists and has a supported extension,
    and writes the path [with_suffix] gives for it, which was neither a file
    nor a directory when the conversion began. *)
Theorem process_conversion_never_overwrites (ctl : controls) (patience : nat)
    (env : environment) (selected_files : list string) (w : world)
    (command : list string) :
  Forall named (files w) ->
  In command (started (trace_of (process_conversion ctl patience env
                                   selected_files w))) ->
  exists f,
    In f selected_files /\ supported f = true /\ mem f (files w) = true
    /\ input_of command = Some f
    /\ with_suffix f ".mp4" = Ok (output_of command)
    /\ mem (output_of command) (files w) = false
    /\ mem (output_of command) (dirs w) = false.
Proof.
  intros Hn. rewrite process_conversion_run. cbn zeta.
  set (n := Z.of_nat (List.length selected_files)).
  destruct (process_loop_well_run ctl patience env n selected_files 1 0 w Hn)
    as ((_ & _ & _ & Ho) & _ & Hc).
  intros Hin.
  assert (Hloop : In command
            (started (trace_of (process_loop ctl patience env n 1 0
                                  selected_files w)))).
  { destruct (result_of (process_loop ctl patience env n 1 0 selected_files w));
      [ | exact Hin ..].
    destruct (cancelled_at ctl _); cbn [trace_of fst] in Hin;
      rewrite started_app in Hin; cbn [started] in Hin;
      now rewrite app_nil_r in Hin. }
  destruct (Ho command Hloop) as (f & Hi & Hf & Hout & Hex).
  destruct (Hc command Hloop) as (f' & Hsel & Hsup & Hi').
  rewrite Hi in Hi'. injection Hi' as <-.
  apply orb_false_iff in Hex as [Hex1 Hex2].
  exists f. repeat split; assumption.
Qed.

Lemma process_conversion_never_overwrites_witness :
  exists f,
    In f ["a/clip.mp4"; "a/talk.avi"]
    /\ supported f = true /\ mem f (files sample_folder) = true
    /\ input_of talk_command = Some f
    /\ with_suffix f ".mp4" = Ok (output_of talk_command)
    /\ mem (output_of talk_command) (files sample_folder) = false
    /\ mem (output_of talk_command) (dirs sample_folder) = false.
Proof.
  assert (Hnamed : Forall named (files sample_folder))
    by (repeat (constructor; [intros H; cbv in H; discriminate H | ]);
        constructor).
  apply (process_conversion_never_overwrites undisturbed 0
           (fun _ => good_media) ["a/clip.mp4"; "a/talk.avi"] sample_folder
           talk_command Hnamed).
  vm_compute. left. reflexivity.
Defined.

Lemma pause_loop_idles (ctl : controls) (patience : nat) :
  forall w, Forall idling (trace_of (pause_loop ctl patience w)).
Proof.
  induction patience as [ | n IH]; intros w; cbn [pause_loop];
    unfold bind at 1, read_paused at 1;
    destruct (paused_at ctl (reads w)); try (now constructor);
    unfold bind at 1, read_cancelled at 1;
    destruct (cancelled_at ctl (reads (tick w))); cbn [negb];
    try (constructor; [right; now eexists | constructor]).
  unfold bind at 1, emit at 1. specialize (IH (tick (tick w))).
  destruct (pause_loop ctl n (tick (tick w))) as [[t2 w2] r2].
  cbn [trace_of fst app] in *.
  constructor; [right; now eexists | ]. constructor; [now left | exact IH].
Qed.

(** X14. The pause loop sleeps once for every check that finds the
    conversion paused and not cancelled, and leaves at the first check that
    finds it resumed or cancelled: a cancellation ends a pause.  If no
    observed check does, the thread is still waiting.  Meanwhile it only
    sleeps and reads the flags; no file is touched. *)
Theorem pause_loop_waits (ctl : controls) (patience : nat) (w : world) :
  let x := pause_loop ctl patience w in
  (forall k,
      (k <= patience)%nat ->
      (forall j, (j < k)%nat -> waiting ctl (reads w) j = true) ->
      waiting ctl (reads w) k = false ->
      result_of x = Ok tt /\ sleeps (trace_of x) = k)
  /\ ((forall k, (k <= patience)%nat -> waiting ctl (reads w) k = true) ->
      result_of x = Blocked /\ sleeps (trace_of x) = patience)
  /\ Forall idling (trace_of x)
  /\ files (world_of x) = files w /\ dirs (world_of x) = dirs w.
Proof.
  cbn zeta. split; [ | split; [ | split]].
  - intros k. apply pause_loop_resumed.
  - apply pause_loop_stuck.
  - apply pause_loop_idles.
  - now destruct (passive_pause_loop ctl patience w) as (_ & H1 & H2).
Qed.

Lemma pause_loop_waits_witness :
  result_of (pause_loop (paused_until 4) 10 empty_world) = Ok tt
  /\ sleeps (trace_of (pause_loop (paused_until 4) 10 empty_world)) = 2%nat.
Proof.
  apply (proj1 (pause_loop_waits (paused_until 4) 10 empty_world) 2%nat).
  - lia.
  - intros [ | [ | j]] Hj; [reflexivity | reflexivity | lia].
  - reflexivity.
Defined.

End WorkerFacts.

(** ** The summary and the overall progress of an undisturbed conversion *)

Module SummaryFacts.
Import Notions Scenarios.
Import Py Regex Effects Parser Planner Paths Converter Gui.
Import RegexFacts ParserFacts ConverterFacts PathFacts EffectsFacts BatchFacts
  ProgressFacts OverallFacts.
Import OutputPathFacts FolderFacts WorkerFacts.
Local Open Scope py_scope.

(** The files after one job of the window. *)
Lemma files_after_grow (env : environment) (file out : string)
    (fs ds : list string) :
  (forall p, mem p fs = true -> mem p (files_after env file out fs ds) = true)
  /\ (forall p, mem p (files_after env file out fs ds) = true ->
                mem p fs = true \/ p = out).
Proof.
  unfold files_after.
  destruct (present out fs ds); [now split; auto | ].
  destruct (popen_fails (env file)); [now split; auto | ].
  destruct (parser_error_gui (env file)); [now split; auto | ].
  destruct (writes_output (env file)); [ | now split; auto].
  destruct (mem out fs); [now split; auto | ].
  split.
  - intros p Hp. rewrite mem_cons, Hp. apply orb_true_r.
  - intros p. rewrite mem_cons. intros [E | Hp]%orb_true_iff;
      [right; now apply String.eqb_eq | now left].
Qed.

Lemma named_after (env : environment) (file out : string)
    (fs ds : list string) :
  with_suffix file ".mp4" = Ok out ->
  Forall named fs -> Forall named (files_after env file out fs ds).
Proof.
  intros Hout Hn. rewrite Forall_forall in *. intros p Hp.
  apply mem_In in Hp.
  destruct (proj2 (files_after_grow env file out fs ds) p Hp) as [H0 | ->].
  - apply Hn. now apply mem_In.
  - now destruct (output_path file out Hout) as (_ & _ & _ & _ & H).
Qed.

(** The count an undisturbed loop ends with. *)
Lemma process_loop_counts (patience : nat) (env : environment)
    (total_files : Z) (selected : list string) :
  total_files <> 0 ->
  forall i converted_count w,
    Forall named (files w) ->
    Forall (fun f => mem f (files w) = true) selected ->
    result_of (process_loop undisturbed patience env total_files i
                 converted_count selected w)
    = Ok (converted_count
          + Z.of_nat (List.length (filter supported selected))).
Proof.
  intros Ht. induction selected as [ | file rest IH];
    intros i converted_count w Hn Hall; cbn [process_loop filter List.length].
  - cbn [ret result_of snd]. f_equal. lia.
  - apply Forall_cons_iff in Hall as [Hfile Hrest].
    unfold bind at 1, read_cancelled at 1. cbn [undisturbed cancelled_at].
    unfold bind at 1. rewrite pause_loop_undisturbed.
    unfold bind at 1, read_cancelled at 1. cbn [undisturbed cancelled_at].
    unfold bind at 1, path_is_file. cbn [tick files dirs].
    rewrite Hfile. cbn [andb].
    destruct (supported file) eqn:Hsup.
    + assert (Hnamed : named file).
      { rewrite Forall_forall in Hn. apply Hn. now apply mem_In. }
      destruct (named_has_output file Hnamed) as (out & Hout).
      unfold bind at 1, lift. rewrite Hout.
      unfold bind at 1, emit at 1. unfold bind at 1.
      match goal with |- context [convert_entry _ _ _ _ _ _ _ ?w0] =>
        destruct (convert_entry_undisturbed patience env file out
                    converted_count total_files w0 Ht)
          as (t & w1 & -> & _ & Hfs & Hds) end.
      cbn [tick files dirs] in Hfs, Hds.
      assert (H1 : result_of (process_loop undisturbed patience env total_files
                                (i + 1) (converted_count + 1) rest w1)
                   = Ok (converted_count + 1
                         + Z.of_nat (List.length (filter supported rest)))).
      { apply IH.
        - rewrite Hfs. now apply named_after.
        - rewrite Hfs. eapply Forall_impl; [ | exact Hrest].
          intros p. apply files_after_grow. }
      destruct (process_loop undisturbed patience env total_files (i + 1)
                  (converted_count + 1) rest w1) as [[t2 w2] r2].
      cbn [result_of fst snd List.length] in *.
      rewrite H1. f_equal. lia.
    + match goal with |- context [process_loop _ _ _ _ _ _ rest ?w0] =>
        pose proof (IH (i + 1) converted_count w0 Hn Hrest) as H1;
        destruct (process_loop undisturbed patience env total_files (i + 1)
                    converted_count rest w0) as [[t2 w2] r2] end.
      cbn [result_of fst snd] in *. exact H1.
Qed.

Lemma process_loop_total (patience : nat) (env : environment)
    (selected : list string) (w : world) :
  Forall named (files w) ->
  Forall (fun f => mem f (files w) = true) selected ->
  result_of (process_loop undisturbed patience env
               (Z.of_nat (List.length selected)) 1 0 selected w)
  = Ok (Z.of_nat (List.length (filter supported selected))).
Proof.
  intros Hn Hall. destruct selected as [ | file rest] eqn:Hsel; [reflexivity | ].
  rewrite <- Hsel in *.
  rewrite process_loop_counts; trivial.
  rewrite Hsel. cbn [List.length]. lia.
Qed.

Lemma bind_ext {A B : Type} (m : M A) (f f' : A -> M B) (w : world) :
  (forall a w', f a w' = f' a w') -> bind m f w = bind m f' w.
Proof.
  intros H. unfold bind. destruct (m w) as [[t1 w1] [a | e | ]]; trivial.
  now rewrite H.
Qed.

Lemma skipn_nth {A : Type} (l : list A) (k : nat) (x : A) :
  nth_error l k = Some x -> skipn k l = x :: skipn (S k) l.
Proof.
  revert k. induction l as [ | y l IH]; intros [ | k]; cbn [nth_error skipn];
    try discriminate.
  - now intros [= ->].
  - intros H. rewrite (IH k H). reflexivity.
Qed.

Lemma skipn_none {A : Type} (l : list A) (k : nat) :
  nth_error l k = None -> skipn k l = [].
Proof. intros H. apply skipn_all2. now apply nth_error_None. Qed.

(** Over a selection that is left alone the loop is the one over the
    list. *)
Lemma process_loop_live_frozen (ctl : controls) (patience : nat)
    (env : environment) (selection : nat -> list string)
    (selected : list string) (total_files : Z) :
  (forall k, selection k = selected) ->
  forall rounds k converted_count w,
    (List.length selected - k < rounds)%nat ->
    process_loop_live ctl patience env selection total_files rounds k
                      converted_count w
    = process_loop ctl patience env total_files (Z.of_nat k + 1)
                   converted_count (skipn k selected) w.
Proof.
  intros Hsel. induction rounds as [ | rounds IH];
    intros k converted_count w Hr; [lia | ].
  cbn [process_loop_live]. rewrite Hsel.
  destruct (nth_error selected k) as [file_path | ] eqn:Hk.
  - rewrite (skipn_nth _ _ _ Hk). cbn [process_loop].
    assert (Hlen : (k < List.length selected)%nat)
      by (apply nth_error_Some; congruence).
    assert (Hnext : forall c w',
               process_loop_live ctl patience env selection total_files
                                 rounds (S k) c w'
               = process_loop ctl patience env total_files
                              (Z.of_nat k + 1 + 1) c (skipn (S k) selected) w').
    { intros c w'. rewrite IH by lia. now rewrite Nat2Z.inj_succ, <- Z.add_1_r. }
    apply bind_ext. intros [ | ] w1; [reflexivity | ].
    apply bind_ext. intros [] w2.
    apply bind_ext. intros [ | ] w3; [reflexivity | ].
    apply bind_ext. intros is_file w4.
    destruct (is_file && supported file_path); [ | apply Hnext].
    apply bind_ext. intros output_file w5.
    apply bind_ext. intros [] w6.
    apply bind_ext. intros converted w7. apply Hnext.
  - now rewrite (skipn_none _ _ Hk).
Qed.

Lemma process_conversion_live_frozen (ctl : controls) (patience : nat)
    (env : environment) (selection : nat -> list string) (rounds : nat)
    (selected : list string) (w : world) :
  left_alone selection rounds selected ->
  process_conversion_live ctl patience env selection rounds w
  = process_conversion ctl patience env selected w.
Proof.
  intros [Hsel Hr]. unfold process_conversion_live, process_conversion.
  rewrite Hsel. unfold bind at 1 3.
  rewrite (process_loop_live_frozen ctl patience env selection selected _ Hsel)
    by lia.
  reflexivity.
Qed.

(** Files added while the worker runs are converted as well, and counted
    against the number of files there were at the start. *)
Example selection_grows :
  let t := trace_of (process_conversion_live undisturbed 0
                       (fun _ => good_media) growing_selection 5 two_videos) in
  skipn (List.length t - 5) t
  = [SawCancelled false; OverallProgress 100;
     Status "Done! 2/1 files processed.";
     ShowInfo "Successfully processed 2/1 files."; ResetButtons].
Proof. vm_compute. reflexivity. Qed.

(** X15. When nobody pauses or cancels, the selection is left alone while
    the conversion runs, and every selected path is an existing file, the
    conversion ends with the overall progress at 100 and the summary
    [k/n files processed], where [n] is the size of the selection and [k]
    the number of its entries with a supported extension: a video counts
    as processed whether it was converted, skipped because its output
    exists, failed in the encoder, or ended by an exception. *)
Theorem every_video_counts_as_processed (patience : nat) (env : environment)
    (selection : nat -> list string) (rounds : nat)
    (selected_files : list string) (w : world) :
  left_alone selection rounds selected_files ->
  Forall named (files w) ->
  Forall (fun f => mem f (files w) = true) selected_files ->
  let n := Z.of_nat (List.length selected_files) in
  let k := Z.of_nat (List.length (filter supported selected_files)) in
  let x := process_conversion_live undisturbed patience env selection rounds w in
  result_of x = Ok tt
  /\ exists t,
       trace_of x
       = t ++ [SawCancelled false; OverallProgress 100;
               Status (done_message k n); ShowInfo (summary_message k n);
               ResetButtons].
Proof.
  intros Hlive Hn Hall n k x. subst x n k.
  rewrite (process_conversion_live_frozen _ _ _ _ _ _ _ Hlive).
  rewrite process_conversion_run. cbn zeta.
  cbn [undisturbed cancelled_at].
  rewrite (process_loop_total patience env selected_files w Hn Hall).
  cbn [result_of trace_of fst snd].
  split; [reflexivity | now eexists].
Qed.

Lemma every_video_counts_as_processed_witness :
  exists t,
    trace_of (process_conversion_live undisturbed 0 (fun _ => failing_media)
                (fun _ => ["notes.txt"; "b.avi"]) 3 notes_and_video)
    = t ++ [SawCancelled false; OverallProgress 100;
            Status "Done! 1/2 files processed.";
            ShowInfo "Successfully processed 1/2 files."; ResetButtons].
Proof.
  assert (Hnamed : Forall named (files notes_and_video))
    by (repeat (constructor; [intros H; cbv in H; discriminate H | ]);
        constructor).
  apply (every_video_counts_as_processed 0 (fun _ => failing_media)
           (fun _ => ["notes.txt"; "b.avi"]) 3 ["notes.txt"; "b.avi"]
           notes_and_video).
  - split; [reflexivity | cbn; lia].
  - exact Hnamed.
  - repeat constructor.
Defined.

(** When every entry is a video file that exists, the number of entries
    converted before an entry is its position less one. *)
Lemma by_position (env : environment) (total_files : Z)
    (selected : list string) :
  forall i fs ds,
    Forall (fun f => mem f fs = true /\ supported f = true) selected ->
    expected_overall_gui env total_files (i - 1) selected fs ds
    = expected_by_position env total_files i selected fs ds.
Proof.
  induction selected as [ | file rest IH]; intros i fs ds Hall;
    cbn [expected_overall_gui expected_by_position]; [reflexivity | ].
  apply Forall_cons_iff in Hall as [[Hfile Hsup] Hrest].
  rewrite Hfile, Hsup. cbn [andb].
  destruct (with_suffix file ".mp4") as [out | e | ]; try reflexivity.
  f_equal. replace (i - 1 + 1) with (i + 1 - 1) by lia. apply IH.
  eapply Forall_impl; [ | exact Hrest]. intros p [Hp Hs].
  split; [now apply files_after_grow | exact Hs].
Qed.

Lemma process_loop_overall_total (patience : nat) (env : environment)
    (selected : list string) (w : world) :
  overall_values (trace_of (process_loop undisturbed patience env
                              (Z.of_nat (List.length selected)) 1 0 selected w))
  = expected_overall_gui env (Z.of_nat (List.length selected)) 0 selected
      (files w) (dirs w).
Proof.
  destruct selected as [ | file rest]; [reflexivity | ].
  apply process_loop_overall. cbn [List.length]. lia.
Qed.

(** X16. When nobody pauses or cancels, the selection is left alone while
    the conversion runs, and every selected path is an existing file with
    a supported extension, the values given to [update_overall_progress]
    are those of the position in the selection: entry [i] of [n] reports
    [(i - 1 + percent / 100) / n * 100] for each of its own percentages,
    and a last 100 follows. *)
Theorem window_overall_by_position (patience : nat) (env : environment)
    (selection : nat -> list string) (rounds : nat)
    (selected_files : list string) (w : world) :
  left_alone selection rounds selected_files ->
  Forall named (files w) ->
  Forall (fun f => mem f (files w) = true /\ supported f = true) selected_files ->
  overall_values (trace_of (process_conversion_live undisturbed patience env
                              selection rounds w))
  = expected_by_position env (Z.of_nat (List.length selected_files)) 1
      selected_files (files w) (dirs w)
    ++ [100%Q].
Proof.
  intros Hlive Hn Hall.
  rewrite (process_conversion_live_frozen _ _ _ _ _ _ _ Hlive).
  rewrite process_conversion_run. cbn zeta.
  assert (Hexist : Forall (fun f => mem f (files w) = true) selected_files)
    by (eapply Forall_impl; [ | exact Hall]; now intros p [Hp _]).
  rewrite (process_loop_total patience env selected_files w Hn Hexist).
  cbn [undisturbed cancelled_at trace_of fst].
  rewrite overall_values_app, process_loop_overall_total.
  change 0 with (1 - 1) at 1.
  now rewrite (by_position env _ selected_files 1 _ _ Hall).
Qed.

Lemma window_overall_by_position_witness :
  map Qred
      (overall_values (trace_of (process_conversion_live undisturbed 0
                                   (fun _ => good_media)
                                   (fun _ => ["a.avi"; "b.avi"]) 3
                                   two_videos)))
  = [25%Q; 50%Q; 75%Q; 100%Q; 100%Q].
Proof.
  assert (Hnamed : Forall named (files two_videos))
    by (repeat (constructor; [intros H; cbv in H; discriminate H | ]);
        constructor).
  rewrite (window_overall_by_position 0 (fun _ => good_media)
             (fun _ => ["a.avi"; "b.avi"]) 3 ["a.avi"; "b.avi"] two_videos).
  - reflexivity.
  - split; [reflexivity | cbn; lia].
  - exact Hnamed.
  - repeat constructor.
Defined.

End SummaryFacts.

(** ** The window: selection, tracking dictionaries and flags *)

Module WindowFacts.
Import WindowNotions.
Import Py Paths Window.

(** *** Dictionaries and lists *)

Lemma item_assign_same (d : table) (k : string) (v : nat) :
  item (assign d k v) k = Some v.
Proof.
  induction d as [ | [k' v'] d IH]; cbn [assign item].
  - now rewrite String.eqb_refl.
  - destruct (String.eqb_spec k' k) as [-> | Hne]; cbn [item].
    + now rewrite String.eqb_refl.
    + destruct (String.eqb_spec k' k); [contradiction | exact IH].
Qed.

Lemma item_assign_other (d : table) (k k' : string) (v : nat) :
  k <> k' -> item (assign d k v) k' = item d k'.
Proof.
  intros Hne. induction d as [ | [k0 v0] d IH]; cbn [assign item].
  - destruct (String.eqb_spec k k'); [contradiction | reflexivity].
  - destruct (String.eqb_spec k0 k) as [-> | H0]; cbn [item].
    + destruct (String.eqb_spec k k'); [contradiction | reflexivity].
    + destruct (String.eqb_spec k0 k'); [reflexivity | exact IH].
Qed.

Lemma item_pop (d : table) (k k' : string) :
  item (pop d k) k' = if String.eqb k' k then None else item d k'.
Proof.
  unfold pop. induction d as [ | [k0 v0] d IH]; cbn [filter item fst].
  - now destruct (String.eqb k' k).
  - destruct (String.eqb_spec k0 k) as [-> | H0]; cbn [negb item].
    + rewrite IH. rewrite (String.eqb_sym k k').
      now destruct (String.eqb_spec k' k).
    + rewrite IH. destruct (String.eqb_spec k0 k') as [-> | H1];
        [ | reflexivity].
      now destruct (String.eqb_spec k' k).
Qed.

Lemma has_key_pop (d : table) (k k' : string) :
  has_key (pop d k) k' = true -> k' <> k /\ has_key d k' = true.
Proof.
  unfold has_key. rewrite item_pop.
  destruct (String.eqb_spec k' k); [discriminate | now split].
Qed.

Lemma mem_iff (x : string) (l : list string) : Effects.mem x l = true <-> In x l.
Proof.
  unfold Effects.mem. rewrite existsb_exists. split.
  - intros (y & Hy & E). apply String.eqb_eq in E. now subst.
  - intros H. exists x. split; [exact H | apply String.eqb_refl].
Qed.

Lemma mem_false (x : string) (l : list string) :
  Effects.mem x l = false <-> ~ In x l.
Proof. rewrite <- mem_iff. now destruct (Effects.mem x l). Qed.

(** *** Adding to the selection *)

Lemma add_file_cases (selected : list string) (file : string) :
  (In file selected /\ add_file selected file = selected)
  \/ (~ In file selected /\ add_file selected file = selected ++ [file]).
Proof.
  unfold add_file. destruct (Effects.mem file selected) eqn:E.
  - left. split; [now apply mem_iff | reflexivity].
  - right. split; [now apply mem_false | reflexivity].
Qed.

(** What the loop of [select_files] leaves: the earlier selection, then the
    chosen files that were not selected, each once. *)
Lemma add_files_spec (files : list string) :
  forall selected,
    exists added,
      fold_left add_file files selected = selected ++ added
      /\ (forall f, In f added -> In f files /\ ~ In f selected)
      /\ (forall f, In f files -> In f selected \/ In f added)
      /\ NoDup added.
Proof.
  induction files as [ | file files IH]; intros selected; cbn [fold_left].
  - exists []. rewrite app_nil_r. split; [reflexivity | ].
    split; [intros f [] | ]. split; [intros f [] | constructor].
  - destruct (add_file_cases selected file) as [[Hin ->] | [Hnot ->]].
    + destruct (IH selected) as (added & E & Hnew & Hall & Hnd).
      exists added. split; [exact E | ]. split; [ | split; [ | exact Hnd]].
      * intros f Hf. destruct (Hnew f Hf). split; [now right | assumption].
      * intros f [<- | Hf]; [now left | now apply Hall].
    + destruct (IH (selected ++ [file])) as (added & E & Hnew & Hall & Hnd).
      exists (file :: added). rewrite E, <- app_assoc. split; [reflexivity | ].
      split; [ | split].
      * intros f [<- | Hf]; [split; [now left | exact Hnot] | ].
        destruct (Hnew f Hf) as [H1 H2]. split; [now right | ].
        intros H. apply H2, in_or_app. now left.
      * intros f [<- | Hf]; [right; now left | ].
        destruct (Hall f Hf) as [H | H]; [ | right; now right].
        apply in_app_or in H as [H | [<- | []]]; [now left | right; now left].
      * constructor; [ | exact Hnd]. intros Hf.
        destruct (Hnew file Hf) as [_ H]. apply H, in_or_app. right. now left.
Qed.

Lemma add_files_nodup (files selected : list string) :
  NoDup selected -> NoDup (fold_left add_file files selected).
Proof.
  intros Hs. destruct (add_files_spec files selected)
    as (added & -> & Hnew & _ & Hnd).
  apply NoDup_app; trivial. intros f Hf Hf'. now destruct (Hnew f Hf').
Qed.

Lemma add_files_known (files selected : list string) :
  (forall f, In f files -> In f selected) ->
  fold_left add_file files selected = selected.
Proof.
  induction files as [ | file files IH]; intros Hall; cbn [fold_left];
    [reflexivity | ].
  destruct (add_file_cases selected file) as [[_ ->] | [Hnot _]].
  - apply IH. intros f Hf. apply Hall. now right.
  - destruct Hnot. apply Hall. now left.
Qed.

(** *** Removing from the selection *)

Lemma remove_spec (x : string) (l : list string) :
  NoDup l ->
  NoDup (remove x l)
  /\ (forall y, In y (remove x l) <-> In y l /\ y <> x).
Proof.
  induction 1 as [ | y l Hy Hl [IH1 IH2]]; cbn [remove].
  - split; [constructor | ]. intros y. split; [intros [] | now intros [[] _]].
  - destruct (String.eqb_spec y x) as [-> | Hne].
    + split; [exact Hl | ]. intros z. split.
      * intros Hz. split; [now right | ]. intros ->. contradiction.
      * intros [[<- | Hz] Hzx]; [contradiction | exact Hz].
    + split.
      * constructor; [ | exact IH1]. intros H. now apply IH2 in H.
      * intros z. cbn [In]. rewrite IH2. split.
        -- intros [<- | [Hz Hzx]]; [split; [now left | exact Hne] | ].
           split; [now right | exact Hzx].
        -- intros [[<- | Hz] Hzx]; [now left | right; now split].
Qed.

Lemma remove_added (x : string) (l : list string) :
  ~ In x l -> remove x (l ++ [x]) = l.
Proof.
  induction l as [ | y l IH]; intros Hx; cbn [app remove].
  - now rewrite String.eqb_refl.
  - destruct (String.eqb_spec y x) as [-> | Hne].
    + destruct Hx. now left.
    + f_equal. apply IH. intros H. apply Hx. now right.
Qed.

(** *** The rows [update_file_display] builds *)

Lemma nth_error_extended {A : Type} (l extra : list A) (n : nat) (a : A) :
  nth_error l n = Some a -> nth_error (l ++ extra) n = Some a.
Proof.
  intros H. rewrite nth_error_app1; [exact H | ].
  apply nth_error_Some. congruence.
Qed.

Lemma tracked_extended (st st' : window) (extra : list widget) (f : string) :
  item (file_progress_vars st') f = item (file_progress_vars st) f ->
  item (file_progress_bars st') f = item (file_progress_bars st) f ->
  item (file_percent_labels st') f = item (file_percent_labels st) f ->
  item (file_status_labels st') f = item (file_status_labels st) f ->
  objects st' = objects st ++ extra ->
  tracked st f -> tracked st' f.
Proof.
  intros E1 E2 E3 E4 E5 (var & pl & sl & H1 & H2 & H3 & H4 & (v & H5) & (t & H6) & H7).
  exists var, pl, sl. rewrite E1, E2, E3, E4, E5.
  repeat split; trivial.
  - exists v. now apply nth_error_extended.
  - exists t. now apply nth_error_extended.
  - now apply nth_error_extended.
Qed.

Lemma add_row_tracked (st : window) (f : string) : tracked (add_row st f) f.
Proof.
  exists (List.length (objects st)), (S (List.length (objects st))),
    (S (S (List.length (objects st)))).
  unfold add_row. cbn [with_objects with_tracking file_progress_vars
    file_progress_bars file_percent_labels file_status_labels objects].
  rewrite !item_assign_same. repeat split.
  - exists 0%Q. now rewrite nth_error_app2, Nat.sub_diag by lia.
  - exists (Text "0%"). rewrite nth_error_app2 by lia.
    now replace (S (List.length (objects st)) - List.length (objects st))%nat
      with 1%nat by lia.
  - rewrite nth_error_app2 by lia.
    now replace (S (S (List.length (objects st))) - List.length (objects st))%nat
      with 2%nat by lia.
Qed.

Lemma add_row_other (st : window) (f g : string) :
  f <> g ->
  item (file_progress_vars (add_row st f)) g = item (file_progress_vars st) g
  /\ item (file_progress_bars (add_row st f)) g = item (file_progress_bars st) g
  /\ item (file_percent_labels (add_row st f)) g
     = item (file_percent_labels st) g
  /\ item (file_status_labels (add_row st f)) g = item (file_status_labels st) g.
Proof.
  intros Hne. unfold add_row. cbn [with_objects with_tracking file_progress_vars
    file_progress_bars file_percent_labels file_status_labels].
  now rewrite !item_assign_other.
Qed.

Lemma rows_added (l : list string) :
  NoDup l ->
  forall st,
    let st' := fold_left add_row l st in
    selected_files st' = selected_files st
    /\ conversion_paused st' = conversion_paused st
    /\ conversion_cancelled st' = conversion_cancelled st
    /\ (exists extra, objects st' = objects st ++ extra)
    /\ (forall f, In f l -> tracked st' f)
    /\ (forall f, ~ In f l ->
          item (file_progress_vars st') f = item (file_progress_vars st) f
          /\ item (file_progress_bars st') f = item (file_progress_bars st) f
          /\ item (file_percent_labels st') f = item (file_percent_labels st) f
          /\ item (file_status_labels st') f = item (file_status_labels st) f).
Proof.
  induction 1 as [ | g l Hg Hl IH]; intros st; cbn zeta; cbn [fold_left].
  - repeat split; auto; [exists []; now rewrite app_nil_r | intros f []].
  - destruct (IH (add_row st g)) as (E1 & E2 & E3 & (extra & E4) & Ht & Ho).
    split; [exact E1 | ]. split; [exact E2 | ]. split; [exact E3 | ].
    split; [ | split].
    + eexists. rewrite E4. unfold add_row at 1. cbn [with_objects objects].
      now rewrite <- app_assoc.
    + intros f [<- | Hf]; [ | now apply Ht].
      destruct (Ho g Hg) as (K1 & K2 & K3 & K4).
      now apply (tracked_extended (add_row st g) _ extra g K1 K2 K3 K4 E4),
        add_row_tracked.
    + intros f Hf.
      assert (Hne : g <> f) by (intros ->; apply Hf; now left).
      destruct (Ho f) as (K1 & K2 & K3 & K4); [intros H; apply Hf; now right | ].
      destruct (add_row_other st g f Hne) as (L1 & L2 & L3 & L4).
      now rewrite K1, K2, K3, K4, L1, L2, L3, L4.
Qed.

Lemma has_key_item (d d' : table) (f : string) :
  item d' f = item d f -> has_key d' f = has_key d f.
Proof. unfold has_key. now intros ->. Qed.

Lemma rows_frame (l : list string) :
  forall st,
    selected_files (fold_left add_row l st) = selected_files st
    /\ conversion_paused (fold_left add_row l st) = conversion_paused st
    /\ conversion_cancelled (fold_left add_row l st) = conversion_cancelled st.
Proof.
  induction l as [ | f l IH]; intros st; cbn [fold_left]; [now repeat split | ].
  destruct (IH (add_row st f)) as (-> & -> & ->). now repeat split.
Qed.

(** [update_file_display] changes neither the selection nor the flags. *)
Lemma display_frame (st : window) :
  selected_files (update_file_display st) = selected_files st
  /\ conversion_paused (update_file_display st) = conversion_paused st
  /\ conversion_cancelled (update_file_display st) = conversion_cancelled st.
Proof.
  unfold update_file_display.
  destruct (selected_files st) as [ | f l] eqn:Hsel; cbn zeta.
  - cbn. now rewrite Hsel.
  - destruct (rows_frame (f :: l) (with_objects st (map destroyed (objects st))))
      as (R1 & R2 & R3).
    remember (fold_left add_row (f :: l) _) as st2 eqn:Hst2. clear Hst2.
    cbn in *. now rewrite R1, R2, R3, Hsel.
Qed.

(** [update_file_display] rebuilds a row for each selected path. *)
Lemma display_consistent (st : window) :
  NoDup (selected_files st) -> keys_within st (selected_files st) ->
  consistent (update_file_display st)
  /\ selected_files (update_file_display st) = selected_files st
  /\ conversion_paused (update_file_display st) = conversion_paused st
  /\ conversion_cancelled (update_file_display st) = conversion_cancelled st.
Proof.
  intros Hnd Hkeys. unfold update_file_display.
  destruct (selected_files st) as [ | f l] eqn:Hsel.
  - split; [ | now repeat split].
    split; [cbn; rewrite Hsel; constructor | ]. split.
    + cbn. rewrite Hsel. intros g [].
    + intros g Hg. cbn in *. rewrite Hsel. now apply Hkeys.
  - cbn zeta. set (st1 := with_objects st (map destroyed (objects st))).
    pose proof (rows_added (f :: l) Hnd st1) as R. cbn zeta in R.
    remember (fold_left add_row (f :: l) st1) as st2 eqn:Hst2. clear Hst2.
    destruct R as (E1 & E2 & E3 & _ & Ht & Ho).
    assert (Hs : selected_files st2 = f :: l) by (rewrite E1; exact Hsel).
    split; [ | split; [exact Hs | split; [exact E2 | exact E3]]].
    split; [cbn; rewrite Hs; exact Hnd | ]. split.
    + intros g Hg. cbn in Hg. rewrite Hs in Hg.
      destruct (Ht g Hg) as (var & pl & sl & H).
      now exists var, pl, sl.
    + intros g Hg. cbn in Hg |- *. rewrite Hs.
      destruct (in_dec string_dec g (f :: l)) as [Hin | Hout]; [exact Hin | ].
      destruct (Ho g Hout) as (K1 & K2 & K3 & K4).
      apply Hkeys.
      rewrite (has_key_item _ _ g K1), (has_key_item _ _ g K2),
        (has_key_item _ _ g K3), (has_key_item _ _ g K4) in Hg.
      exact Hg.
Qed.

(** Whatever changes only the controls keeps the rows. *)
Lemma consistent_controls (st : window) (paused cancelled convert : bool)
    (pause : bool * string) (cancel : bool) (status : string) :
  consistent st ->
  consistent (with_controls st paused cancelled convert pause cancel status).
Proof. intros H. exact H. Qed.

(** *** Progress of one file *)

Lemma nth_error_put_same (l : list widget) (n : nat) (o o' : widget) :
  nth_error l n = Some o -> nth_error (put n o' l) n = Some o'.
Proof.
  revert n. induction l as [ | x l IH]; intros [ | n]; cbn [nth_error put];
    try discriminate; [reflexivity | apply IH].
Qed.

Lemma nth_error_put_other (l : list widget) (n m : nat) (o' : widget) :
  n <> m -> nth_error (put n o' l) m = nth_error l m.
Proof.
  revert n m. induction l as [ | x l IH]; intros [ | n] [ | m] Hne;
    cbn [nth_error put]; try reflexivity; [lia | apply IH; lia].
Qed.

(** What [update_file_progress] does to a tracked file: the variable and
    the percent label are set; from 100 on, [pack_forget] is then asked of
    the variable kept in [file_progress_bars]. *)
Lemma progress_of_tracked (st : window) (f : string) (percent : Q) :
  tracked st f ->
  exists var percent_label,
    item (file_progress_vars st) f = Some var
    /\ item (file_percent_labels st) f = Some percent_label
    /\ var <> percent_label
    /\ update_file_progress f percent st
       = (with_objects st
            (put percent_label (Label (OneDecimal percent) true true)
                 (put var (DoubleVar percent) (objects st))),
          if Qle_bool 100 percent then Raised AttributeError else Returned).
Proof.
  intros (var & pl & sl & H1 & H2 & H3 & H4 & (v & H5) & (t & H6) & H7).
  exists var, pl.
  assert (Hne : var <> pl) by (intros ->; congruence).
  split; [exact H1 | ]. split; [exact H3 | ]. split; [exact Hne | ].
  unfold update_file_progress, has_key. rewrite H1.
  unfold and_then at 1. unfold call at 1. rewrite H1, H5. cbn [set].
  unfold and_then at 1. unfold call at 1.
  cbn [with_objects file_percent_labels objects].
  rewrite H3, (nth_error_put_other _ var pl _ Hne), H6. cbn [config].
  destruct (Qle_bool 100 percent); [ | reflexivity].
  unfold and_then at 1. unfold call at 1.
  cbn [with_objects file_progress_bars objects].
  rewrite H2.
  assert (Hpl : pl <> var) by congruence.
  rewrite (nth_error_put_other _ pl var _ Hpl),
    (nth_error_put_same _ var _ _ H5).
  reflexivity.
Qed.

Lemma progress_of_untracked (st : window) (f : string) (percent : Q) :
  has_key (file_progress_vars st) f = false ->
  update_file_progress f percent st = (st, Returned).
Proof. intros H. unfold update_file_progress. now rewrite H. Qed.

Lemma progress_consistent (st : window) (f : string) (percent : Q) :
  consistent st ->
  consistent (fst (update_file_progress f percent st))
  /\ selected_files (fst (update_file_progress f percent st)) = selected_files st
  /\ conversion_paused (fst (update_file_progress f percent st))
     = conversion_paused st
  /\ conversion_cancelled (fst (update_file_progress f percent st))
     = conversion_cancelled st.
Proof.
  intros (Hnd & Ht & Hk).
  destruct (has_key (file_progress_vars st) f) eqn:Hkey.
  - assert (Hf : In f (selected_files st)) by (apply Hk; now left).
    destruct (progress_of_tracked st f percent (Ht f Hf))
      as (var & pl & Hvar & Hpl & Hne & ->).
    cbn [fst]. split; [ | now repeat split].
    split; [exact Hnd | ]. split; [ | exact Hk].
    intros g Hg.
    destruct (Ht g Hg) as (var' & pl' & sl' & H1 & H2 & H3 & H4 & (v & H5)
                           & (t & H6) & H7).
    destruct (Ht f Hf) as (var0 & pl0 & sl0 & F1 & F2 & F3 & F4 & (v0 & F5)
                           & (t0 & F6) & F7).
    rewrite Hvar in F1. injection F1 as <-.
    rewrite Hpl in F3. injection F3 as <-.
    exists var', pl', sl'. cbn [with_objects file_progress_vars
      file_progress_bars file_percent_labels file_status_labels objects].
    repeat split; trivial.
    + destruct (Nat.eq_dec pl var') as [-> | Hn1]; [congruence | ].
      rewrite (nth_error_put_other _ pl var' _ Hn1).
      destruct (Nat.eq_dec var var') as [<- | Hn2].
      * eexists. now apply (nth_error_put_same _ var _ _ F5).
      * exists v. now rewrite (nth_error_put_other _ var var' _ Hn2).
    + destruct (Nat.eq_dec pl pl') as [<- | Hn1].
      * eexists. apply (nth_error_put_same _ pl (Label t0 true true)).
        now rewrite (nth_error_put_other _ var pl _ Hne).
      * exists t. rewrite (nth_error_put_other _ pl pl' _ Hn1).
        destruct (Nat.eq_dec var pl') as [<- | Hn2]; [congruence | ].
        now rewrite (nth_error_put_other _ var pl' _ Hn2).
    + destruct (Nat.eq_dec pl sl') as [<- | Hn1]; [congruence | ].
      rewrite (nth_error_put_other _ pl sl' _ Hn1).
      destruct (Nat.eq_dec var sl') as [<- | Hn2]; [congruence | ].
      now rewrite (nth_error_put_other _ var sl' _ Hn2).
  - rewrite (progress_of_untracked st f percent Hkey). cbn [fst].
    now repeat split.
Qed.

(** *** Every call keeps the window consistent *)

Lemma keys_within_more (st : window) (l l' : list string) :
  (forall f, In f l -> In f l') -> keys_within st l -> keys_within st l'.
Proof. intros Hincl Hk f Hf. apply Hincl, Hk, Hf. Qed.

Lemma select_consistent (files : list string) (st : window) :
  consistent st ->
  consistent (update_file_display
                (with_selected st (fold_left add_file files (selected_files st)))).
Proof.
  intros (Hnd & _ & Hk). apply display_consistent.
  - cbn. now apply add_files_nodup.
  - destruct (add_files_spec files (selected_files st)) as (added & E & _).
    intros f Hf. cbn in Hf |- *. rewrite E. apply in_or_app. left.
    now apply Hk.
Qed.

Lemma perform_consistent (a : action) (st : window) :
  consistent st -> consistent (perform a st).
Proof.
  intros Hc. destruct a; cbn [perform].
  - now apply select_consistent.
  - unfold select_folder. destruct (String.eqb folder ""); cbn [fst];
      [exact Hc | now apply select_consistent].
  - unfold clear_selection. destruct running; cbn [fst]; [exact Hc | ].
    apply display_consistent; [constructor | ].
    intros f Hf. cbn in Hf. now destruct Hf as [H | [H | [H | H]]].
  - unfold remove_single_file.
    destruct (Effects.mem file_path (selected_files st)); cbn [fst];
      [ | exact Hc].
    destruct Hc as (Hnd & _ & Hk).
    destruct (remove_spec file_path (selected_files st) Hnd) as [Hnd' Hin].
    apply display_consistent; [exact Hnd' | ].
    intros f Hf. cbn in Hf |- *. apply Hin.
    destruct Hf as [H | [H | [H | H]]]; apply has_key_pop in H as [Hne H];
      (split; [apply Hk; auto | exact Hne]).
  - unfold start_conversion. now destruct (selected_files st).
  - unfold pause_conversion. now destruct (conversion_paused st).
  - unfold cancel_conversion. now destruct answer.
  - unfold on_closing. now destruct running, answer.
  - now apply progress_consistent.
  - exact Hc.
  - exact Hc.
  - exact Hc.
Qed.

Lemma run_app (s1 s2 : list action) (st : window) :
  run (s1 ++ s2) st = run s2 (run s1 st).
Proof. unfold run. apply fold_left_app. Qed.

Lemma run_consistent (script : list action) :
  forall st, consistent st -> consistent (run script st).
Proof.
  induction script as [ | a script IH]; intros st Hc; [exact Hc | ].
  cbn [run fold_left]. apply IH. now apply perform_consistent.
Qed.

Lemma initial_consistent : consistent initial.
Proof.
  split; [constructor | ]. split; [intros f [] | ].
  intros f Hf. cbn in Hf. now destruct Hf as [H | [H | [H | H]]].
Qed.

(** X17. After any sequence of calls of the window's handlers, from the
    start of the program on, the selection holds no path twice, and each of
    the four tracking dictionaries has a key for exactly the selected
    paths; a call of [update_file_progress] that failed half-way does not
    break this. *)
Theorem selection_is_tracked (script : list action) (f : string) :
  let st := run script initial in
  NoDup (selected_files st)
  /\ (In f (selected_files st) <-> has_key (file_progress_vars st) f = true)
  /\ (In f (selected_files st) <-> has_key (file_progress_bars st) f = true)
  /\ (In f (selected_files st) <-> has_key (file_status_labels st) f = true)
  /\ (In f (selected_files st) <-> has_key (file_percent_labels st) f = true).
Proof.
  cbn zeta. destruct (run_consistent script initial initial_consistent)
    as (Hnd & Ht & Hk).
  split; [exact Hnd | ].
  assert (Hrow : In f (selected_files (run script initial)) ->
                 has_key (file_progress_vars (run script initial)) f = true
                 /\ has_key (file_progress_bars (run script initial)) f = true
                 /\ has_key (file_status_labels (run script initial)) f = true
                 /\ has_key (file_percent_labels (run script initial)) f = true).
  { intros Hf. destruct (Ht f Hf) as (var & pl & sl & H1 & H2 & H3 & H4 & _).
    unfold has_key. now rewrite H1, H2, H3, H4. }
  repeat split; try (intros Hf; now apply Hrow); intros Hf; apply Hk; auto.
Qed.

(** X18. The check mark of a finished file is never shown.  In every
    state the window can reach, [update_file_progress] for a selected file
    returns normally for a percentage below 100 and raises [AttributeError]
    for 100 or more: [file_progress_bars] holds the [DoubleVar], which has
    no [pack_forget], so the lines that would set the status label to
    [DONE] and pack it are never reached, and the label is still empty and
    not packed. *)
Theorem done_label_is_never_shown (script : list action) (f : string) :
  let st := run script initial in
  In f (selected_files st) ->
  (forall percent,
      snd (update_file_progress f percent st)
      = if Qle_bool 100 percent then Raised AttributeError else Returned)
  /\ exists status_label,
       item (file_status_labels st) f = Some status_label
       /\ nth_error (objects st) status_label
          = Some (Label (Text "") false true).
Proof.
  cbn zeta. intros Hf.
  destruct (run_consistent script initial initial_consistent) as (_ & Ht & _).
  split.
  - intros percent.
    now destruct (progress_of_tracked _ f percent (Ht f Hf))
      as (var & pl & _ & _ & _ & ->).
  - destruct (Ht f Hf) as (var & pl & sl & _ & _ & _ & H4 & _ & _ & H7).
    now exists sl.
Qed.

Lemma done_label_is_never_shown_witness :
  snd (update_file_progress "a.avi" 100
         (run [SelectFiles ["a.avi"; "b.avi"]; UpdateFileProgress "a.avi" 100]
              initial))
  = Raised AttributeError.
Proof.
  exact (proj1 (done_label_is_never_shown
                  [SelectFiles ["a.avi"; "b.avi"]; UpdateFileProgress "a.avi" 100]
                  "a.avi" (or_introl eq_refl)) 100%Q).
Defined.

(** X19. In every state the window can reach, [update_file_progress] for a
    path that is not selected (a file removed during the conversion, say)
    changes nothing and does not raise; for a selected path it sets the
    variable of that file's bar to the percentage and the file's percent
    label to its text, also when it then raises at 100 or more, and it
    leaves the selection and the dictionaries as they are. *)
Theorem file_progress_reaches_its_row (script : list action) (f : string)
    (percent : Q) :
  let st := run script initial in
  let st' := fst (update_file_progress f percent st) in
  (~ In f (selected_files st) ->
   update_file_progress f percent st = (st, Returned))
  /\ (In f (selected_files st) ->
      exists var percent_label,
        item (file_progress_vars st') f = Some var
        /\ item (file_percent_labels st') f = Some percent_label
        /\ nth_error (objects st') var = Some (DoubleVar percent)
        /\ nth_error (objects st') percent_label
           = Some (Label (OneDecimal percent) true true))
  /\ selected_files st' = selected_files st
  /\ file_progress_vars st' = file_progress_vars st
  /\ file_progress_bars st' = file_progress_bars st
  /\ file_status_labels st' = file_status_labels st
  /\ file_percent_labels st' = file_percent_labels st.
Proof.
  cbn zeta.
  destruct (run_consistent script initial initial_consistent) as (_ & Ht & Hk).
  set (st := run script initial) in *.
  assert (Hcases : In f (selected_files st)
                   \/ has_key (file_progress_vars st) f = false).
  { destruct (has_key (file_progress_vars st) f) eqn:E; [left | now right].
    apply Hk. now left. }
  split; [ | split].
  - intros Hnot. apply progress_of_untracked.
    destruct Hcases as [Hin | E]; [contradiction | exact E].
  - intros Hin.
    destruct (Ht f Hin) as (var0 & pl0 & sl0 & T1 & _ & T3 & _ & (v & T5)
                            & (t & T6) & _).
    destruct (progress_of_tracked st f percent (Ht f Hin))
      as (var & pl & Hvar & Hpl & Hne & ->).
    rewrite T1 in Hvar. injection Hvar as <-.
    rewrite T3 in Hpl. injection Hpl as <-.
    exists var0, pl0. cbn [fst with_objects file_progress_vars
                            file_percent_labels objects].
    split; [exact T1 | ]. split; [exact T3 | ]. split.
    + rewrite nth_error_put_other by (intros E; now apply Hne).
      now apply (nth_error_put_same _ _ (DoubleVar v)).
    + apply (nth_error_put_same _ _ (Label t true true)).
      now rewrite nth_error_put_other.
  - destruct Hcases as [Hin | E].
    + destruct (progress_of_tracked st f percent (Ht f Hin))
        as (var & pl & _ & _ & _ & ->).
      now repeat split.
    + rewrite (progress_of_untracked st f percent E). now repeat split.
Qed.

Lemma select_files_frame (files : list string) (st : window) :
  selected_files (fst (select_files files st))
  = fold_left add_file files (selected_files st)
  /\ conversion_paused (fst (select_files files st)) = conversion_paused st
  /\ conversion_cancelled (fst (select_files files st)) = conversion_cancelled st.
Proof.
  unfold select_files. cbn [fst].
  now destruct (display_frame
                  (with_selected st (fold_left add_file files (selected_files st))))
    as (-> & -> & ->).
Qed.

(** X20. [select_files] appends: the old selection stays in front in its
    order, followed by the chosen files that were not selected yet, each
    once; every chosen file is selected afterwards; choosing the same files
    again changes nothing. *)
Theorem select_files_extends (files : list string) (st : window) :
  let selected := selected_files (fst (select_files files st)) in
  (exists added,
      selected = selected_files st ++ added
      /\ NoDup added
      /\ forall f, In f added <-> In f files /\ ~ In f (selected_files st))
  /\ (forall f, In f files -> In f selected)
  /\ selected_files (fst (select_files files (fst (select_files files st))))
     = selected.
Proof.
  cbn zeta.
  assert (Hsel : forall fs s,
             selected_files (fst (select_files fs s))
             = fold_left add_file fs (selected_files s))
    by (intros fs s; apply select_files_frame).
  rewrite !Hsel.
  destruct (add_files_spec files (selected_files st))
    as (added & E & Hnew & Hall & Hnd).
  assert (Hin : forall f, In f files -> In f (fold_left add_file files (selected_files st))).
  { intros f Hf. rewrite E. apply in_or_app. now apply Hall. }
  split; [ | split; [exact Hin | now apply add_files_known]].
  exists added. split; [exact E | ]. split; [exact Hnd | ].
  intros f. split; [apply Hnew | ].
  intros [Hf Hnot]. destruct (Hall f Hf); [contradiction | assumption].
Qed.

(** X21. In every state the window can reach, [remove_single_file] leaves
    exactly the other selected paths (no second copy of the removed one can
    stay behind, the selection being duplicate-free), and removing a file
    that was just added to the selection restores the selection. *)
Theorem remove_single_file_removes (script : list action) (f : string) :
  let st := run script initial in
  (forall g,
      In g (selected_files (fst (remove_single_file f st)))
      <-> In g (selected_files st) /\ g <> f)
  /\ (~ In f (selected_files st) ->
      selected_files (fst (remove_single_file f (fst (select_files [f] st))))
      = selected_files st).
Proof.
  cbn zeta. destruct (run_consistent script initial initial_consistent)
    as (Hnd & _ & _).
  set (st := run script initial) in *.
  assert (Hrem : forall s,
             selected_files (fst (remove_single_file f s))
             = if Effects.mem f (selected_files s)
               then remove f (selected_files s) else selected_files s).
  { intros s. unfold remove_single_file.
    destruct (Effects.mem f (selected_files s)); cbn [fst]; [ | reflexivity].
    now destruct (display_frame
                    (with_tracking s (remove f (selected_files s))
                       (pop (file_progress_vars s) f)
                       (pop (file_progress_bars s) f)
                       (pop (file_status_labels s) f)
                       (pop (file_percent_labels s) f))) as (-> & _). }
  split.
  - intros g. rewrite Hrem.
    destruct (Effects.mem f (selected_files st)) eqn:E.
    + now apply remove_spec.
    + apply mem_false in E. split; [ | now intros [H _]].
      intros Hg. split; [exact Hg | ]. intros ->. contradiction.
  - intros Hnot. rewrite Hrem.
    destruct (select_files_frame [f] st) as (Hsel & _).
    rewrite Hsel. cbn [fold_left].
    destruct (add_file_cases (selected_files st) f) as [[Hin _] | [_ ->]];
      [contradiction | ].
    replace (Effects.mem f (selected_files st ++ [f])) with true.
    + now apply remove_added.
    + symmetry. apply mem_iff, in_or_app. right. now left.
Qed.

(** *** The flags *)

Lemma keeps_flags_call (d : window -> table) (key : string)
    (method : widget -> widget + error) :
  keeps_flags (call d key method).
Proof.
  intros st. unfold call.
  destruct (item (d st) key) as [r | ]; [ | now split].
  destruct (nth_error (objects st) r) as [o | ]; [ | now split].
  now destruct (method o).
Qed.

Lemma keeps_flags_and_then (a b : routine) :
  keeps_flags a -> keeps_flags b -> keeps_flags (and_then a b).
Proof.
  intros Ha Hb st. unfold and_then. destruct (Ha st) as [H1 H2].
  destruct (a st) as [st1 [ | e]]; cbn [fst] in *; [ | now split].
  destruct (Hb st1) as [K1 K2]. now rewrite K1, K2.
Qed.

Lemma keeps_flags_progress (file_path : string) (percent : Q) :
  keeps_flags (update_file_progress file_path percent).
Proof.
  intros st. unfold update_file_progress.
  destruct (has_key (file_progress_vars st) file_path); [ | now split].
  apply keeps_flags_and_then; [apply keeps_flags_call | ].
  apply keeps_flags_and_then; [apply keeps_flags_call | ].
  destruct (Qle_bool 100 percent); [ | now intros s].
  repeat (apply keeps_flags_and_then; [apply keeps_flags_call | ]).
  apply keeps_flags_call.
Qed.

Lemma perform_keeps_cancelled (a : action) (st : window) :
  starts_no_conversion a ->
  conversion_cancelled st = true -> conversion_cancelled (perform a st) = true.
Proof.
  intros Ha Hc. destruct a; cbn [perform].
  - now destruct (select_files_frame files st) as (_ & _ & ->).
  - unfold select_folder. destruct (String.eqb folder ""); cbn [fst];
      [exact Hc | ].
    now destruct (display_frame
                    (with_selected st
                       (fold_left add_file
                          (filter (fun f => Effects.mem f existing && supported f)
                                  listing)
                          (selected_files st)))) as (_ & _ & ->).
  - unfold clear_selection. destruct running; cbn [fst]; [exact Hc | ].
    now destruct (display_frame (with_tracking st [] [] [] [] []))
      as (_ & _ & ->).
  - unfold remove_single_file.
    destruct (Effects.mem file_path (selected_files st)); cbn [fst];
      [ | exact Hc].
    now destruct (display_frame
                    (with_tracking st (remove file_path (selected_files st))
                       (pop (file_progress_vars st) file_path)
                       (pop (file_progress_bars st) file_path)
                       (pop (file_status_labels st) file_path)
                       (pop (file_percent_labels st) file_path)))
      as (_ & _ & ->).
  - now destruct Ha.
  - unfold pause_conversion. now destruct (conversion_paused st).
  - unfold cancel_conversion. now destruct answer.
  - unfold on_closing. now destruct running, answer.
  - now destruct (keeps_flags_progress file_path percent st) as [_ ->].
  - exact Hc.
  - exact Hc.
  - exact Hc.
Qed.

(** X22. Only [start_conversion] lowers the cancellation flag: once it is
    set, it stays set through every other handler and every call the
    conversion thread schedules, so the thread cannot miss it. *)
Theorem cancelled_until_restart (script : list action) (st : window) :
  conversion_cancelled st = true ->
  Forall starts_no_conversion script ->
  conversion_cancelled (run script st) = true.
Proof.
  intros Hc Hs. revert st Hc.
  induction Hs as [ | a script Ha _ IH]; intros st Hc; [exact Hc | ].
  cbn [run fold_left]. apply IH. now apply perform_keeps_cancelled.
Qed.

Lemma cancelled_until_restart_witness :
  conversion_cancelled
    (run [PauseConversion; SelectFiles ["b.avi"]; UpdateFileProgress "a.avi" 50;
          ButtonsReset]
         (perform (CancelConversion true true)
            (run [SelectFiles ["a.avi"]; StartConversion] initial)))
  = true.
Proof.
  apply cancelled_until_restart; [reflexivity | ].
  repeat (constructor; [discriminate | ]). constructor.
Defined.

(** [update_file_display] makes the start button follow the selection. *)
Lemma display_convert_btn (st : window) :
  convert_btn (update_file_display st)
  = match selected_files st with [] => false | _ :: _ => true end.
Proof.
  unfold update_file_display. destruct (selected_files st); reflexivity.
Qed.

(** X23. The start button does not stay disabled during a conversion:
    [start_conversion] disables it, but any call of [select_files] made
    afterwards, even one whose dialog was cancelled, enables it again
    through [update_file_display], and a second [start_conversion] then
    starts a second thread. *)
Theorem start_button_comes_back (files : list string) (st : window) :
  selected_files st <> [] ->
  let st1 := fst (start_conversion st) in
  let st2 := fst (select_files files st1) in
  snd (start_conversion st) = [start_thread]
  /\ convert_btn st1 = false
  /\ convert_btn st2 = true
  /\ snd (start_conversion st2) = [start_thread].
Proof.
  intros Hne st1 st2.
  assert (H1 : selected_files st1 = selected_files st).
  { subst st1. unfold start_conversion.
    destruct (selected_files st) eqn:E; cbn; exact E. }
  assert (H2 : selected_files st2 <> []).
  { subst st2. destruct (select_files_frame files st1) as (-> & _ & _).
    destruct (add_files_spec files (selected_files st1)) as (added & -> & _).
    rewrite H1. intros E. apply app_eq_nil in E as [E _]. contradiction. }
  split; [ | split; [ | split]].
  - unfold start_conversion. now destruct (selected_files st).
  - subst st1. unfold start_conversion.
    destruct (selected_files st); [contradiction | reflexivity].
  - subst st2. unfold select_files. cbn [fst]. rewrite display_convert_btn.
    cbn [with_selected with_tracking selected_files].
    destruct (add_files_spec files (selected_files st1)) as (added & -> & _).
    rewrite H1. destruct (selected_files st); [contradiction | reflexivity].
  - unfold start_conversion. now destruct (selected_files st2).
Qed.

Lemma start_button_comes_back_witness :
  convert_btn (run [SelectFiles ["a.avi"]; StartConversion; SelectFiles []]
                   initial)
  = true.
Proof.
  exact (proj1 (proj2 (proj2 (start_button_comes_back []
                                (run [SelectFiles ["a.avi"]] initial)
                                ltac:(discriminate))))).
Defined.

End WindowFacts.

(** ** From the selection to the conversion *)

Module SelectionFacts.
Import Notions Scenarios WindowNotions.
Import Py Effects Parser Paths Converter Gui.
Import EffectsFacts BatchFacts OverallFacts OutputPathFacts SummaryFacts.
Import WindowFacts.

Lemma remove_subset (x : string) (l : list string) (g : string) :
  In g (Window.remove x l) -> In g l.
Proof.
  induction l as [ | y l IH]; cbn [Window.remove]; [trivial | ].
  destruct (String.eqb y x); [now right | ].
  intros [<- | H]; [now left | right; now apply IH].
Qed.

(** A selection made through [select_folder] holds only video files that
    exist. *)
Lemma perform_by_folder (existing : list string) (a : Window.action)
    (st : Window.window) :
  by_folder existing a -> consistent st ->
  Forall (fun f => mem f existing = true /\ supported f = true)
         (Window.selected_files st) ->
  Forall (fun f => mem f existing = true /\ supported f = true)
         (Window.selected_files (Window.perform a st)).
Proof.
  intros Ha Hc Hv. destruct a; cbn [Window.perform by_folder] in *;
    try exact Hv.
  - destruct Ha.
  - subst existing0. unfold Window.select_folder.
    destruct (String.eqb folder ""); cbn [fst]; [exact Hv | ].
    destruct (display_frame
                (Window.with_selected st
                   (fold_left Window.add_file
                      (filter (fun f => mem f existing && supported f) listing)
                      (Window.selected_files st)))) as (-> & _).
    cbn [Window.with_selected Window.with_tracking Window.selected_files].
    destruct (add_files_spec
                (filter (fun f => mem f existing && supported f) listing)
                (Window.selected_files st)) as (added & -> & Hnew & _).
    apply Forall_app. split; [exact Hv | ].
    apply Forall_forall. intros f Hf. destruct (Hnew f Hf) as [Hin _].
    apply filter_In in Hin as [_ Hin]. now apply andb_true_iff in Hin.
  - unfold Window.clear_selection. destruct running; cbn [fst]; [exact Hv | ].
    destruct (display_frame (Window.with_tracking st [] [] [] [] []))
      as (-> & _). constructor.
  - unfold Window.remove_single_file.
    destruct (mem file_path (Window.selected_files st)); cbn [fst];
      [ | exact Hv].
    match goal with |- context [Window.update_file_display ?s] =>
      destruct (display_frame s) as (-> & _) end.
    cbn [Window.with_tracking Window.selected_files].
    rewrite Forall_forall in *. intros g Hg. apply Hv.
    now apply remove_subset in Hg.
  - replace (Window.selected_files (fst (Window.start_conversion st)))
      with (Window.selected_files st); [exact Hv | ].
    unfold Window.start_conversion.
    destruct (Window.selected_files st) eqn:E; cbn [fst]; symmetry; exact E.
  - unfold Window.pause_conversion.
    destruct (Window.conversion_paused st); exact Hv.
  - unfold Window.cancel_conversion. destruct answer; exact Hv.
  - unfold Window.on_closing. destruct running, answer; exact Hv.
  - now destruct (progress_consistent st file_path percent Hc) as (_ & -> & _).
Qed.

Lemma run_by_folder (existing : list string) (script : list Window.action) :
  Forall (by_folder existing) script ->
  forall st,
    consistent st ->
    Forall (fun f => mem f existing = true /\ supported f = true)
           (Window.selected_files st) ->
    Forall (fun f => mem f existing = true /\ supported f = true)
           (Window.selected_files (Window.run script st)).
Proof.
  induction 1 as [ | a script Ha _ IH]; intros st Hc Hv; [exact Hv | ].
  cbn [Window.run fold_left]. apply IH.
  - now apply perform_consistent.
  - now apply perform_by_folder.
Qed.

(** X24. A selection built with [select_folder] alone (entries may be
    removed or the selection cleared in between) holds only existing files
    with a supported extension, each once; converting it, when nobody
    pauses or cancels and the selection is left alone meanwhile, therefore
    reports the overall progress by position. *)
Theorem folder_selection_progress (patience : nat) (env : environment)
    (w : world) (script : list Window.action)
    (selection : nat -> list string) (rounds : nat) :
  Forall named (files w) ->
  Forall (by_folder (files w)) script ->
  let selected := Window.selected_files (Window.run script Window.initial) in
  NoDup selected
  /\ Forall (fun f => mem f (files w) = true /\ supported f = true) selected
  /\ (left_alone selection rounds selected ->
      overall_values (trace_of (process_conversion_live undisturbed patience
                                  env selection rounds w))
      = expected_by_position env (Z.of_nat (List.length selected)) 1 selected
          (files w) (dirs w)
        ++ [100%Q]).
Proof.
  intros Hn Hs selected.
  assert (Hv : Forall (fun f => mem f (files w) = true /\ supported f = true)
                      selected).
  { apply run_by_folder; [exact Hs | apply initial_consistent | constructor]. }
  split; [apply (run_consistent script _ initial_consistent) | ].
  split; [exact Hv | ].
  intros Hlive.
  assert (Hexist : Forall (fun f => mem f (files w) = true) selected)
    by (eapply Forall_impl; [ | exact Hv]; now intros p [Hp _]).
  rewrite (process_conversion_live_frozen _ _ _ _ _ _ _ Hlive).
  rewrite WorkerFacts.process_conversion_run. cbn zeta.
  rewrite (process_loop_total patience env selected w Hn Hexist).
  cbn [undisturbed cancelled_at trace_of fst].
  rewrite overall_values_app, process_loop_overall_total.
  change 0 with (1 - 1) at 1.
  now rewrite (by_position env _ selected 1 _ _ Hv).
Qed.

Lemma folder_selection_progress_witness :
  Window.selected_files
    (Window.run [Window.SelectFolder "a"
                   ["a"; "a/clip.mp4"; "a/talk.avi"; "a/x.txt"]
                   (files sample_folder);
                 Window.RemoveSingleFile "a/x.txt"] Window.initial)
  = ["a/clip.mp4"; "a/talk.avi"]
  /\ map Qred
       (overall_values (trace_of (process_conversion_live undisturbed 0
                                    (fun _ => good_media)
                                    (fun _ => ["a/clip.mp4"; "a/talk.avi"]) 3
                                    sample_folder)))
     = [75%Q; 100%Q; 100%Q].
Proof.
  assert (Hnamed : Forall named (files sample_folder))
    by (repeat (constructor; [intros H; cbv in H; discriminate H | ]);
        constructor).
  split; [reflexivity | ].
  rewrite (proj2 (proj2 (folder_selection_progress 0 (fun _ => good_media)
                           sample_folder
                           [Window.SelectFolder "a"
                              ["a"; "a/clip.mp4"; "a/talk.avi"; "a/x.txt"]
                              (files sample_folder);
                            Window.RemoveSingleFile "a/x.txt"]
                           (fun _ => ["a/clip.mp4"; "a/talk.avi"]) 3
                           Hnamed ltac:(repeat constructor)))).
  - reflexivity.
  - split; [reflexivity | vm_compute; repeat constructor].
Defined.

End SelectionFacts.
